(** * LLPC compiler front door: option hashing, shader caches, ELF merging

    A shallow embedding of [context/llpcCompiler.cpp].  The file follows the
    source top-down: the result codes and stage masks, the hash of the
    compile options, the shader-cache look-ups, the ELF merge, the per-stage
    cache checker, and finally the three [Build*] entry points.

    Code that lives outside [llpcCompiler.cpp] (MetroHash, the shader cache
    objects, the ELF reader and writer, the middle-end) enters through type
    classes, the way the C++ reaches it through class interfaces. *)

From Stdlib Require Import ZArith List String Ascii Bool Lia OrdersEx Sorted.
From Stdlib Require Import RelationClasses.
From Equations Require Import Equations.
From stdpp Require Import base option list gmap.
From stdpp Require Import sorting.

Import ListNotations.
Local Open Scope Z_scope.
Local Open Scope list_scope.

Set Default Proof Using "Type*".
Set Warnings "-register-all".

(* ===================================================================== *)
(** * 1. Result codes, shader stages, stage masks *)
(* ===================================================================== *)

(** [enum class Result], restricted to the codes [llpcCompiler.cpp] names. *)
Inductive Result : Set :=
| Success
| Unsupported
| ErrorOutOfMemory
| ErrorInvalidShader
| ErrorInvalidValue
| ErrorInvalidPointer
| ErrorUnknown.

#[global] Instance Result_eq_dec : EqDecision Result.
Proof. solve_decision. Defined.

(** [enum ShaderStage]: the order is the one [BuildGraphicsPipeline] and
    [BuildComputePipelineInternal] lay their [shaderInfo] arrays out in. *)
Inductive ShaderStage : Set :=
| ShaderStageVertex
| ShaderStageTessControl
| ShaderStageTessEval
| ShaderStageGeometry
| ShaderStageFragment
| ShaderStageCompute
| ShaderStageInvalid.

#[global] Instance ShaderStage_eq_dec : EqDecision ShaderStage.
Proof. solve_decision. Defined.

Definition ShaderStage_index (stage : ShaderStage) : Z :=
  match stage with
  | ShaderStageVertex => 0
  | ShaderStageTessControl => 1
  | ShaderStageTessEval => 2
  | ShaderStageGeometry => 3
  | ShaderStageFragment => 4
  | ShaderStageCompute => 5
  | ShaderStageInvalid => 0xFFFFFFFF
  end.

Definition ShaderStageGfxCount : Z := 5.

(** 32-bit unsigned arithmetic, written out. *)
Definition wrap32 (x : Z) : Z := x mod 2 ^ 32.
Definition wrap64 (x : Z) : Z := x mod 2 ^ 64.
Definition not32 (x : Z) : Z := Z.lxor x 0xFFFFFFFF.

(** [ShaderStageToMask]: [1 << stage]; the same expression is written out
    in [BuildPipelineInternal] as [stageSkipMask |= (1 << shaderIndex)].
    The functions of this file call it on the six stages only. *)
Definition ShaderStageToMask (stage : ShaderStage) : Z :=
  wrap32 (Z.shiftl 1 (ShaderStage_index stage)).

(** A C condition [if (x)] on an integer. *)
Definition nonzero (x : Z) : bool := negb (x =? 0).

(** [enum class ShaderEntryState]. *)
Inductive ShaderEntryState : Set :=
| New
| Compiling
| Ready.

#[global] Instance ShaderEntryState_eq_dec : EqDecision ShaderEntryState.
Proof. solve_decision. Defined.

(** [MetroHash::Hash]: 128 bits, kept as one integer. *)
Definition Hash := Z.

(** [BinaryData]: a pointer to code and its size.  The pointer is modelled by
    what it points to; [None] is [nullptr]. *)
Record BinaryData : Type := mkBinaryData {
  pCode : option string;
  codeSize : Z
}.

Definition BinaryData_empty : BinaryData := mkBinaryData None 0.

(** [ElfPackage], a [SmallVector<char>]. *)
Definition ElfPackage := string.

Definition ElfPackage_size (elf : ElfPackage) : Z := Z.of_nat (String.length elf).

(** [{ elf.data(), elf.size() }] *)
Definition BinaryData_of_package (elf : ElfPackage) : BinaryData :=
  mkBinaryData (Some elf) (ElfPackage_size elf).

(* ===================================================================== *)
(** * 2. The hash of the compile options *)
(* ===================================================================== *)

(** The streaming interface of [MetroHash64] that the compiler uses:
    construct, [Update] with a run of bytes, [Finalize]. *)
Class MetroHash64 : Type := {
  Hasher : Type;
  Hasher_new : Hasher;
  Update : Hasher -> string -> Hasher;
  Finalize : Hasher -> Hash
}.

(** [std::set<StringRef>]: the elements in increasing order, no duplicates.
    [StringRef::operator<] compares bytes as unsigned, then lengths, which is
    the lexical order of [String_as_OT]. *)
Module StringRefSet.

Definition t := list string.

Definition empty : t := [].

Fixpoint insert (x : string) (s : t) : t :=
  match s with
  | [] => [x]
  | y :: s' =>
      match String_as_OT.compare x y with
      | Lt => x :: s
      | Eq => s
      | Gt => y :: insert x s'
      end
  end.

Definition sorted (s : t) : Prop := StronglySorted String_as_OT.lt s.

End StringRefSet.

Section OptionFingerprint.

Context {metroHash : MetroHash64}.

(** [ArgStr] of the four options that [llpcCompiler.cpp] only declares
    ([extern opt<...> EnableOuts], [EnableErrs], [LogFileDbgs],
    [LogFileOuts]); their definitions are in another file. *)
Variables EnableOuts_ArgStr EnableErrs_ArgStr : string.
Variables LogFileDbgs_ArgStr LogFileOuts_ArgStr : string.

(** [static StringRef IgnoredOptions[]] *)
Definition IgnoredOptions : list string :=
  [ "pipeline-dump-dir";
    "enable-pipeline-dump";
    "shader-cache-file-dir";
    "shader-cache-mode";
    EnableOuts_ArgStr;
    EnableErrs_ArgStr;
    LogFileDbgs_ArgStr;
    LogFileOuts_ArgStr;
    "enable-shadow-desc";
    "shadow-desc-table-ptr-high" ]%string.

(** The inner loop over [IgnoredOptions]: [ignore] becomes true at the
    first entry the option starts with. *)
Definition ignore (option : string) : bool :=
  existsb (fun ignored => String.prefix ignored option) IgnoredOptions.

(** [StringRef option = pOptions[i] + 1]: the character after the first.
    An empty argument has no such character (the pointer would pass the
    terminating NUL), which is [None]. *)
Definition skipDash (arg : string) : option string :=
  match arg with
  | String _ rest => Some rest
  | EmptyString => None
  end.

(** The loop [for (i = 1; i < optionCount; ++i)], on the arguments from
    index 1 on. *)
Fixpoint buildEffectingOptions (args : list string) (effectingOptions : StringRefSet.t)
  : option StringRefSet.t :=
  match args with
  | [] => Some effectingOptions
  | arg :: args' =>
      match skipDash arg with
      | None => None
      | Some option =>
          buildEffectingOptions args'
            (if ignore option then effectingOptions
             else StringRefSet.insert option effectingOptions)
      end
  end.

(** [Compiler::GenerateHashForCompileOptions]; [pOptions] carries
    [optionCount] strings. *)
Definition GenerateHashForCompileOptions (pOptions : list string) : option Hash :=
  match buildEffectingOptions (tail pOptions) StringRefSet.empty with
  | None => None
  | Some effectingOptions =>
      Some (Finalize (fold_left Update effectingOptions Hasher_new))
  end.

(** An argument that the hash leaves out: its name (the argument without
    its first character) starts with an entry of [IgnoredOptions]. *)
Definition ignoredArg (arg : string) : bool :=
  match skipDash arg with
  | Some option => ignore option
  | None => false
  end.

End OptionFingerprint.


(* ===================================================================== *)
(** * 3. Stateful calls *)
(* ===================================================================== *)

(** What a call does: it returns, or it does not return, because it
    dereferences a null pointer, reads or writes outside a buffer or an
    array, or never leaves a loop. *)
Inductive Outcome (A : Type) : Type :=
| Returned (a : A)
| Fault.

Arguments Returned {A} a.
Arguments Fault {A}.

(** State passing with faults. *)
Definition M (St A : Type) : Type := St -> Outcome (A * St).

Definition ret {St A : Type} (a : A) : M St A := fun s => Returned (a, s).

Definition bind {St A B : Type} (c : M St A) (k : A -> M St B) : M St B :=
  fun s =>
    match c s with
    | Returned (a, s') => k a s'
    | Fault => Fault
    end.

Definition fault {St A : Type} : M St A := fun _ => Fault.

Definition get {St : Type} : M St St := fun s => Returned (s, s).

Definition modify {St : Type} (f : St -> St) : M St unit := fun s => Returned (tt, f s).

Declare Scope monad_scope.
Delimit Scope monad_scope with monad.
Notation "'let*' x ':=' c 'in' k" :=
  (bind c (fun x => k))
  (at level 10, x pattern, c at level 100, k at level 200) : monad_scope.
Notation "c ';;' k" :=
  (bind c (fun _ => k))
  (at level 100, k at level 200, right associativity) : monad_scope.
Local Open Scope monad_scope.

(** [arr[i]] on a C array; indexing outside the array is a fault. *)
Definition array_get {St A : Type} (arr : list A) (i : nat) : M St A :=
  match arr !! i with
  | Some a => ret a
  | None => fault
  end.

(** [while (cond)] made explicit: one iteration either goes on or breaks. *)
Inductive LoopStep (A : Type) : Type :=
| Continue (a : A)
| Break (a : A).

Arguments Continue {A} a.
Arguments Break {A} a.

(** [for (i = from; i < from + count; ++i) body]. *)
Fixpoint for_loop {St A : Type} (count : nat) (from : nat)
  (body : nat -> A -> M St (LoopStep A)) (a : A) : M St A :=
  match count with
  | O => ret a
  | S count' =>
      let* step := body from a in
      match step with
      | Continue a' => for_loop count' (S from) body a'
      | Break a' => ret a'
      end
  end.

(* ===================================================================== *)
(** * 4. Shader caches *)
(* ===================================================================== *)

(** [CacheEntryHandle] is a [void*]; [None] is [nullptr]. *)
Definition CacheEntryHandle := option Z.

(** The [ShaderCache] member functions the compiler calls, on a cache
    object of state [C].  Out-parameters are returned; [RetrieveShader]
    receives the current value of the blob it may overwrite. *)
Class ShaderCacheClass (C : Type) : Type := {
  FindShader : C -> Hash -> bool -> (ShaderEntryState * CacheEntryHandle) * C;
  RetrieveShader : C -> CacheEntryHandle -> BinaryData -> (Result * BinaryData) * C;
  InsertShader : C -> CacheEntryHandle -> BinaryData -> C;
  ResetShader : C -> CacheEntryHandle -> C
}.

(** The two cache objects a compiler can see: the one the application hands
    in with the pipeline ([pPipelineInfo->pShaderCache]) and the compiler's
    own ([m_shaderCache]). *)
Inductive CacheRef : Set :=
| AppCache
| InternalCache.

#[global] Instance CacheRef_eq_dec : EqDecision CacheRef.
Proof. solve_decision. Defined.

(** Calls made to the caches, in the order they were made. *)
Inductive CacheEvent : Type :=
| EvFindShader (cache : CacheRef) (hash : Hash) (allocateOnMiss : bool)
| EvRetrieveShader (cache : CacheRef) (hEntry : CacheEntryHandle)
| EvInsertShader (cache : CacheRef) (hEntry : CacheEntryHandle) (blob : BinaryData)
| EvResetShader (cache : CacheRef) (hEntry : CacheEntryHandle).

(** The cache objects named in the [FindShader] calls of a trace. *)
Definition lookedUp (t : list CacheEvent) : list CacheRef :=
  omap (fun e => match e with EvFindShader r _ _ => Some r | _ => None end) t.

(** [-shader-cache-mode]; only the value the look-up compares with is
    named. *)
Inductive ShaderCacheModeValue : Set :=
| ShaderCacheForceInternalCacheOnDisk
| ShaderCacheOtherMode.

#[global] Instance ShaderCacheModeValue_eq_dec : EqDecision ShaderCacheModeValue.
Proof. solve_decision. Defined.

(** The values of the [cl::opt] globals this file reads. *)
Record CommandLine : Type := mkCommandLine {
  ShaderCacheMode : ShaderCacheModeValue;
  EnablePerStageCache : bool;
  TrimDebugInfo : bool;
  EnableShaderModuleOpt : bool;
  ForceLoopUnrollCount : Z
}.

(** [class GraphicsShaderCacheChecker]: the state the per-stage cache check
    leaves behind for [UpdateAndMerge].  Before client interface 38 the
    cache pointers and entry handles are arrays of [ShaderCacheCount = 2];
    from 38 on there is one handle, kept here in slot 0. *)
Record GraphicsShaderCacheChecker : Type := mkChecker {
  m_fragmentCacheEntryState : ShaderEntryState;
  m_pFragmentShaderCache : list (option CacheRef);
  m_hFragmentEntry : list CacheEntryHandle;
  m_nonFragmentCacheEntryState : ShaderEntryState;
  m_pNonFragmentShaderCache : list (option CacheRef);
  m_hNonFragmentEntry : list CacheEntryHandle;
  m_nonFragmentElf : BinaryData;
  m_fragmentElf : BinaryData
}.

Definition ShaderCacheCount : nat := 2.

Section Caches.

Context {C : Type} {shaderCache : ShaderCacheClass C}.

(** Everything a build can change: the two cache objects, the checker of
    the running build, the buffers handed out by the output allocator (by
    address), and the record of cache calls. *)
Record World : Type := mkWorld {
  appCache : C;
  internalCache : C;
  checker : GraphicsShaderCacheChecker;
  memory : gmap Z string;
  trace : list CacheEvent
}.

Definition cacheObject (r : CacheRef) (w : World) : C :=
  match r with
  | AppCache => appCache w
  | InternalCache => internalCache w
  end.

Definition setCacheObject (r : CacheRef) (c : C) (w : World) : World :=
  match r with
  | AppCache => mkWorld c (internalCache w) (checker w) (memory w) (trace w)
  | InternalCache => mkWorld (appCache w) c (checker w) (memory w) (trace w)
  end.

Definition logEvent (e : CacheEvent) (w : World) : World :=
  mkWorld (appCache w) (internalCache w) (checker w) (memory w) (trace w ++ [e]).

Definition setChecker (k : GraphicsShaderCacheChecker) (w : World) : World :=
  mkWorld (appCache w) (internalCache w) k (memory w) (trace w).

Definition setMemory (m : gmap Z string) (w : World) : World :=
  mkWorld (appCache w) (internalCache w) (checker w) m (trace w).

(** [pCache->FindShader(hash, allocateOnMiss, &hEntry)] *)
Definition call_FindShader (pCache : option CacheRef) (hash : Hash) (allocateOnMiss : bool)
  : M World (ShaderEntryState * CacheEntryHandle) :=
  match pCache with
  | None => fault
  | Some r => fun w =>
      let '(found, c') := FindShader (cacheObject r w) hash allocateOnMiss in
      Returned (found, logEvent (EvFindShader r hash allocateOnMiss) (setCacheObject r c' w))
  end.

(** [pCache->RetrieveShader(hEntry, &pElfBin->pCode, &pElfBin->codeSize)] *)
Definition call_RetrieveShader (pCache : option CacheRef) (hEntry : CacheEntryHandle)
  (pElfBin : BinaryData) : M World (Result * BinaryData) :=
  match pCache with
  | None => fault
  | Some r => fun w =>
      let '(got, c') := RetrieveShader (cacheObject r w) hEntry pElfBin in
      Returned (got, logEvent (EvRetrieveShader r hEntry) (setCacheObject r c' w))
  end.

(** [pCache->InsertShader(hEntry, pBlob, size)]; the result is not looked at. *)
Definition call_InsertShader (pCache : option CacheRef) (hEntry : CacheEntryHandle)
  (blob : BinaryData) : M World unit :=
  match pCache with
  | None => fault
  | Some r => fun w =>
      Returned (tt, logEvent (EvInsertShader r hEntry blob)
                      (setCacheObject r (InsertShader (cacheObject r w) hEntry blob) w))
  end.

(** [pCache->ResetShader(hEntry)] *)
Definition call_ResetShader (pCache : option CacheRef) (hEntry : CacheEntryHandle)
  : M World unit :=
  match pCache with
  | None => fault
  | Some r => fun w =>
      Returned (tt, logEvent (EvResetShader r hEntry)
                      (setCacheObject r (ResetShader (cacheObject r w) hEntry) w))
  end.

(** [arr[i] = x] on a C array. *)
Definition array_set {A : Type} (arr : list A) (i : nat) (x : A) : M World (list A) :=
  if decide (i < length arr)%nat then ret (<[i := x]> arr) else fault.

(** [m_shaderCache.get()] *)
Definition m_shaderCache : option CacheRef := Some InternalCache.

Variable cl : CommandLine.

(** The locals of [LookUpShaderCaches] that its loop changes. *)
Record LookUpState : Type := mkLookUp {
  lu_cacheEntryState : ShaderEntryState;
  lu_result : Result;
  lu_elfBin : BinaryData;
  lu_hEntry : list CacheEntryHandle
}.

(** One iteration of the loop of [LookUpShaderCaches]. *)
Definition LookUpShaderCaches_body (pCacheHash : Hash) (ppShaderCache : list (option CacheRef))
  (i : nat) (s : LookUpState) : M World (LoopStep LookUpState) :=
  let* pCache := array_get ppShaderCache i in
  let* (cacheEntryState, hEntry) := call_FindShader pCache pCacheHash true in
  let* phEntry := array_set (lu_hEntry s) i hEntry in
  if decide (cacheEntryState = Ready) then
    let* (result, elfBin) := call_RetrieveShader pCache hEntry (lu_elfBin s) in
    if decide (result = ErrorUnknown) then
      (* Re-try if shader cache return error unknown *)
      let* phEntry' := array_set phEntry i None in
      ret (Continue (mkLookUp Compiling Success elfBin phEntry'))
    else
      (if decide (i = 1%nat) then
         (* App's pipeline cache misses while internal cache hits *)
         let* hEntry0 := array_get phEntry 0 in
         match hEntry0 with
         | Some _ =>
             let* pCache0 := array_get ppShaderCache 0 in
             call_InsertShader pCache0 hEntry0 elfBin
         | None => ret tt
         end
       else ret tt);;
      ret (Break (mkLookUp cacheEntryState result elfBin phEntry))
  else
    ret (Continue (mkLookUp cacheEntryState (lu_result s) (lu_elfBin s) phEntry)).

(** [Compiler::LookUpShaderCaches] (client interface below 38).  Returns
    the entry state with the three in/out parameters [pElfBin],
    [ppShaderCache], [phEntry]. *)
Definition LookUpShaderCaches (pAppPipelineCache : option CacheRef) (pCacheHash : Hash)
  (pElfBin : BinaryData) (ppShaderCache : list (option CacheRef))
  (phEntry : list CacheEntryHandle)
  : M World (ShaderEntryState * BinaryData * list (option CacheRef) * list CacheEntryHandle) :=
  let* (ppShaderCache, shaderCacheCount) :=
    match pAppPipelineCache with
    | Some _ =>
        let* pp := array_set ppShaderCache 0 pAppPipelineCache in
        let* pp := array_set pp 1 m_shaderCache in
        ret (pp, 2%nat)
    | None =>
        let* pp := array_set ppShaderCache 0 m_shaderCache in
        let* pp := array_set pp 1 None in
        ret (pp, 1%nat)
    end in
  let* (ppShaderCache, shaderCacheCount) :=
    if decide (ShaderCacheMode cl = ShaderCacheForceInternalCacheOnDisk) then
      let* pp := array_set ppShaderCache 0 m_shaderCache in
      let* pp := array_set pp 1 None in
      ret (pp, 1%nat)
    else ret (ppShaderCache, shaderCacheCount) in
  let* s := for_loop shaderCacheCount 0 (LookUpShaderCaches_body pCacheHash ppShaderCache)
              (mkLookUp New Success pElfBin phEntry) in
  ret (lu_cacheEntryState s, lu_elfBin s, ppShaderCache, lu_hEntry s).

(** [Compiler::LookUpShaderCache] (client interface 38 and later).  Returns
    the entry state with the out-parameters [pElfBin] and [phEntry]. *)
Definition LookUpShaderCache (pCacheHash : Hash) (pElfBin : BinaryData)
  : M World (ShaderEntryState * BinaryData * CacheEntryHandle) :=
  let* (cacheEntryState, hEntry) := call_FindShader m_shaderCache pCacheHash true in
  if decide (cacheEntryState = Ready) then
    let* (result, elfBin) := call_RetrieveShader m_shaderCache hEntry pElfBin in
    if decide (result = ErrorUnknown) then
      (* Re-try if shader cache return error unknown *)
      ret (Compiling, elfBin, None)
    else ret (cacheEntryState, elfBin, hEntry)
  else ret (cacheEntryState, pElfBin, hEntry).

(** One iteration of the loop of [UpdateShaderCaches]. *)
Definition UpdateShaderCaches_body (bInsert : bool) (pElfBin : BinaryData)
  (ppShaderCache : list (option CacheRef)) (phEntry : list CacheEntryHandle)
  (i : nat) (_ : unit) : M World (LoopStep unit) :=
  let* hEntry := array_get phEntry i in
  match hEntry with
  | Some _ =>
      let* pCache := array_get ppShaderCache i in
      (if bInsert then call_InsertShader pCache hEntry pElfBin
       else call_ResetShader pCache hEntry);;
      ret (Continue tt)
  | None => ret (Continue tt)
  end.

(** [Compiler::UpdateShaderCaches] (client interface below 38) *)
Definition UpdateShaderCaches (bInsert : bool) (pElfBin : BinaryData)
  (ppShaderCache : list (option CacheRef)) (phEntry : list CacheEntryHandle)
  (shaderCacheCount : nat) : M World unit :=
  for_loop shaderCacheCount 0 (UpdateShaderCaches_body bInsert pElfBin ppShaderCache phEntry) tt.

(** [Compiler::UpdateShaderCache] (client interface 38 and later) *)
Definition UpdateShaderCache (bInsert : bool) (pElfBin : BinaryData)
  (hEntry : CacheEntryHandle) : M World unit :=
  if bInsert then call_InsertShader m_shaderCache hEntry pElfBin
  else call_ResetShader m_shaderCache hEntry.

End Caches.

Arguments World C : clear implicits.

(** A computation that leaves the checker of the running build alone. *)
Definition keepsChecker {C A : Type} (m : M (World C) A) : Prop :=
  forall w a w', m w = Returned (a, w') -> checker w' = checker w.


(* ===================================================================== *)
(** * 5. Merging the fragment and the non-fragment ELF *)
(* ===================================================================== *)

(** [ElfSymbol], the fields [MergeElfBinary] reads or writes. *)
Record ElfSymbol : Type := mkElfSymbol {
  pSymName : string;
  secIdx : Z;
  pSecName : option string;
  value : Z;
  size : Z
}.

(** [ElfSectionBuffer]: name, data and [secHead.sh_size]. *)
Record ElfSectionBuffer : Type := mkElfSection {
  pName : string;
  pData : string;
  sh_size : Z
}.

(** [ElfNote], by its [pData]; [None] is [nullptr]. *)
Definition ElfNote := option string.

(** What an [ElfReader] or [ElfWriter] holds once it has read a buffer. *)
Record ElfImage : Type := mkElfImage {
  sections : list ElfSectionBuffer;
  symbols : list ElfSymbol;
  palMetadataNote : ElfNote
}.

(** The pipeline state that reaches the functions of this file. *)
Record Context : Type := mkContext {
  IsGraphics : bool;
  GetShaderStageMask : Z;
  pShaderCache : option CacheRef
}.

(** The parts of the ELF reader, the ELF writer and the pipeline ABI that
    [MergeElfBinary] uses and this file does not define: the constants, the
    two parsers, the section and note mergers, the serialiser. *)
Class ElfLibrary : Type := {
  InvalidValue : Z;
  FragmentIsaSymbolName : string;
  TextName : string;
  AmdGpuDisassemblyName : string;
  AmdGpuCommentLlvmIrName : string;
  ElfWriter_ReadFromBuffer : BinaryData -> Result * ElfImage;
  ElfReader_ReadFromBuffer : BinaryData -> Result * ElfImage;
  MergeSection :
    ElfSectionBuffer -> Z -> option string -> ElfSectionBuffer -> Z -> option string ->
    ElfSectionBuffer;
  MergeMetaNote : Context -> ElfNote -> ElfNote -> ElfNote;
  WriteToBuffer : ElfImage -> ElfPackage
}.

(** Modelled from the spec: [Pow2Align] is declared outside the sources;
    the spec has the end offset of the code section "aligned to 256
    bytes", that is rounded up to the next multiple of the alignment. *)
Definition Pow2Align (value alignment : Z) : Z :=
  (value + alignment - 1) / alignment * alignment.

(** A C string: the characters before the first NUL. *)
Fixpoint c_str (s : string) : string :=
  match s with
  | EmptyString => EmptyString
  | String c s' => if Ascii.eqb c Ascii.zero then EmptyString else String c (c_str s')
  end.

(** [strstr(haystack, needle)]: the offset of the first occurrence, [None]
    for a null result. *)
Definition strstr (haystack needle : string) : option Z :=
  match String.index 0 needle (c_str haystack) with
  | Some n => Some (Z.of_nat n)
  | None => None
  end.

(** [strncmp(s, prefix, strlen(prefix)) == 0] *)
Definition starts_with (s prefix : string) : bool := String.prefix prefix s.

(** The symbol of a table that a name denotes: the first of that name. *)
Definition symbolNamed (name : string) (syms : list ElfSymbol) : option ElfSymbol :=
  find (fun sym => String.eqb (pSymName sym) name) syms.

Section ElfMerge.

Context {elfLibrary : ElfLibrary}.

(** Modelled from the spec: the ELF reader and writer are a library of
    section, symbol and note accessors, outside the sources.
    [GetSectionIndex] is the position of the first section of that name,
    [InvalidValue] when there is none. *)
Fixpoint GetSectionIndex_from (secs : list ElfSectionBuffer) (name : string) (i : Z) : Z :=
  match secs with
  | [] => InvalidValue
  | sec :: secs' =>
      if String.eqb (pName sec) name then i else GetSectionIndex_from secs' name (i + 1)
  end.

Definition GetSectionIndex (image : ElfImage) (name : string) : Z :=
  GetSectionIndex_from (sections image) name 0.

(** Modelled from the spec: [GetSectionDataBySectionIndex] yields a pointer
    to the section at that index, and leaves the pointer null when there is
    no such section. *)
Definition GetSectionDataBySectionIndex (image : ElfImage) (idx : Z) : option ElfSectionBuffer :=
  if decide (0 <= idx < Z.of_nat (length (sections image)))
  then sections image !! Z.to_nat idx else None.

(** Modelled from the spec: [ElfWriter::GetSymbolsBySectionIndex] collects
    pointers to the symbols of that section, in table order; a pointer is
    the position in the symbol table. *)
Fixpoint symbolPositions (syms : list ElfSymbol) (idx : Z) (pos : nat) : list nat :=
  match syms with
  | [] => []
  | sym :: syms' =>
      if decide (secIdx sym = idx) then pos :: symbolPositions syms' idx (S pos)
      else symbolPositions syms' idx (S pos)
  end.

Definition ElfWriter_GetSymbolsBySectionIndex (writer : ElfImage) (idx : Z) : list nat :=
  symbolPositions (symbols writer) idx 0.

(** Modelled from the spec: [ElfReader::GetSymbolsBySectionIndex] copies
    the symbols of that section out, in table order. *)
Definition ElfReader_GetSymbolsBySectionIndex (reader : ElfImage) (idx : Z) : list ElfSymbol :=
  filter (fun sym => secIdx sym = idx) (symbols reader).

(** Modelled from the spec: [ElfWriter::GetSymbol] finds the symbol of that
    name and adds one, bound to no section, when the table has none. *)
Fixpoint findSymbol (syms : list ElfSymbol) (name : string) (pos : nat) : option nat :=
  match syms with
  | [] => None
  | sym :: syms' =>
      if String.eqb (pSymName sym) name then Some pos else findSymbol syms' name (S pos)
  end.

Definition setSymbols (syms : list ElfSymbol) (writer : ElfImage) : ElfImage :=
  mkElfImage (sections writer) syms (palMetadataNote writer).

Definition GetSymbol (name : string) : M ElfImage nat :=
  fun writer =>
    match findSymbol (symbols writer) name 0 with
    | Some pos => Returned (pos, writer)
    | None =>
        Returned (length (symbols writer),
                  setSymbols (symbols writer ++ [mkElfSymbol name InvalidValue None 0 0]) writer)
    end.

(** [pSymbol->field = ...] through a pointer into the symbol table. *)
Definition updateSymbol (pSymbol : nat) (f : ElfSymbol -> ElfSymbol) : M ElfImage unit :=
  fun writer =>
    match symbols writer !! pSymbol with
    | Some sym => Returned (tt, setSymbols (<[pSymbol := f sym]> (symbols writer)) writer)
    | None => Fault
    end.

Definition readSymbol (pSymbol : nat) : M ElfImage ElfSymbol :=
  fun writer =>
    match symbols writer !! pSymbol with
    | Some sym => Returned (sym, writer)
    | None => Fault
    end.

(** [writer.SetSection(secIndex, &newSection)] *)
Definition SetSection (secIndex : Z) (newSection : ElfSectionBuffer) : M ElfImage unit :=
  fun writer =>
    if decide (0 <= secIndex < Z.of_nat (length (sections writer))) then
      Returned (tt, mkElfImage (<[Z.to_nat secIndex := newSection]> (sections writer))
                               (symbols writer) (palMetadataNote writer))
    else Fault.

(** [writer.SetNote(&newNote)] *)
Definition SetNote (newNote : ElfNote) : M ElfImage unit :=
  modify (fun writer => mkElfImage (sections writer) (symbols writer) newNote).

(** [*p] for a section pointer. *)
Definition deref {St A : Type} (p : option A) : M St A :=
  match p with
  | Some a => ret a
  | None => fault
  end.

(** A read through a pointer into the writer's section table. *)
Definition writerSection (idx : Z) : M ElfImage (option ElfSectionBuffer) :=
  fun writer => Returned (GetSectionDataBySectionIndex writer idx, writer).

Definition set_secIdx (v : Z) (sym : ElfSymbol) : ElfSymbol :=
  mkElfSymbol (pSymName sym) v (pSecName sym) (value sym) (size sym).

(** The locals of the first loop of [MergeElfBinary]. *)
Record NonFragmentScan : Type := mkScan {
  firstIsaSymbolName : string;
  pNonFragmentIsaSymbol : option nat
}.

(** The loop [for (auto pSymbol : nonFragmentSymbols)]. *)
Fixpoint scanNonFragmentSymbols (nonFragmentSymbols : list nat) (s : NonFragmentScan)
  : M ElfImage NonFragmentScan :=
  match nonFragmentSymbols with
  | [] => ret s
  | pSymbol :: rest =>
      let* sym := readSymbol pSymbol in
      let first :=
        if String.eqb (firstIsaSymbolName s) EmptyString then
          (if starts_with (pSymName sym) "_amdgpu_" then pSymName sym
           else firstIsaSymbolName s)
        else firstIsaSymbolName s in
      let pIsa :=
        if String.eqb (pSymName sym) FragmentIsaSymbolName then Some pSymbol
        else pNonFragmentIsaSymbol s in
      match pIsa with
      | None => scanNonFragmentSymbols rest (mkScan first pIsa)
      | Some _ =>
          (* Reset all symbols after _amdgpu_ps_main *)
          updateSymbol pSymbol (set_secIdx InvalidValue);;
          scanNonFragmentSymbols rest (mkScan first pIsa)
      end
  end.

(** The loop [for (auto& fragmentSymbol : fragmentSymbols)];
    [pFragmentIsaSymbol] is the entry symbol seen last, if any. *)
Fixpoint updateFragmentSymbols (fragmentSymbols : list ElfSymbol)
  (nonFragmentSecIndex : Z) (pFragmentTextSection : option ElfSectionBuffer)
  (isaOffset : Z) (pFragmentIsaSymbol : option ElfSymbol)
  : M ElfImage (option ElfSymbol) :=
  match fragmentSymbols with
  | [] => ret pFragmentIsaSymbol
  | fragmentSymbol :: rest =>
      let* pIsa :=
        if String.eqb (pSymName fragmentSymbol) FragmentIsaSymbolName then
          (* Modify ISA code *)
          let* pNonFragmentTextSection := writerSection nonFragmentSecIndex in
          let* sec1 := deref pNonFragmentTextSection in
          let* sec2 := deref pFragmentTextSection in
          SetSection nonFragmentSecIndex
            (MergeSection sec1 isaOffset None sec2 (value fragmentSymbol) None);;
          ret (Some fragmentSymbol)
        else ret pFragmentIsaSymbol in
      match pIsa with
      | None => updateFragmentSymbols rest nonFragmentSecIndex pFragmentTextSection isaOffset pIsa
      | Some isaSymbol =>
          (* Update fragment shader related symbols *)
          let* pSymbol := GetSymbol (pSymName fragmentSymbol) in
          updateSymbol pSymbol (fun sym =>
            mkElfSymbol (pSymName sym) nonFragmentSecIndex None
              (wrap64 (isaOffset + value fragmentSymbol - value isaSymbol))
              (size fragmentSymbol));;
          updateFragmentSymbols rest nonFragmentSecIndex pFragmentTextSection isaOffset pIsa
      end
  end.

(** [size_t isaOffset = (pNonFragmentIsaSymbol == nullptr) ? ... : ...] *)
Definition isaOffsetOf (nonFragmentSecIndex : Z) (pNonFragmentIsaSymbol : option nat)
  : M ElfImage Z :=
  match pNonFragmentIsaSymbol with
  | None =>
      let* pNonFragmentTextSection := writerSection nonFragmentSecIndex in
      let* sec := deref pNonFragmentTextSection in
      ret (Pow2Align (sh_size sec) 0x100)
  | Some pSymbol =>
      let* sym := readSymbol pSymbol in
      ret (value sym)
  end.

(** The text search in a section of the reader: the last byte is replaced
    by a NUL for the search (and restored after it). *)
Definition strstr_reader (sec : ElfSectionBuffer) (needle : string) : M ElfImage (option Z) :=
  if decide (sh_size sec <= 0) then fault
  else ret (strstr (String.substring 0 (Z.to_nat (sh_size sec - 1)) (pData sec)) needle).

(** "Merge ISA disassemble" and "Merge LLVM IR disassemble": the same code
    on two section names. *)
Definition mergeCommentSection (reader : ElfImage) (sectionName : string)
  (firstIsaSymbolName : string) : M ElfImage unit :=
  let* writer := get in
  let fragmentSecIndex := GetSectionIndex reader sectionName in
  let nonFragmentSecIndex := GetSectionIndex writer sectionName in
  let pFragmentSection := GetSectionDataBySectionIndex reader fragmentSecIndex in
  let pNonFragmentSection := GetSectionDataBySectionIndex writer nonFragmentSecIndex in
  match pNonFragmentSection with
  | None => ret tt
  | Some nonFragmentSection =>
      let* fragmentSection := deref pFragmentSection in
      let* pFragmentStart := strstr_reader fragmentSection FragmentIsaSymbolName in
      let fragmentOffset :=
        match pFragmentStart with
        | None => 0
        | Some offset => offset
        end in
      let nonFragmentSize :=
        match strstr (pData nonFragmentSection) FragmentIsaSymbolName with
        | None => sh_size nonFragmentSection
        | Some offset => offset
        end in
      SetSection nonFragmentSecIndex
        (MergeSection nonFragmentSection nonFragmentSize (Some firstIsaSymbolName)
           fragmentSection fragmentOffset (Some FragmentIsaSymbolName))
  end.

(** The body of [MergeElfBinary] between reading the two buffers and
    writing the result: it runs on the writer, which holds the
    non-fragment image.  It returns the insertion offset and the fragment
    entry symbol, for the statements below. *)
Definition mergeInWriter (pContext : Context) (reader : ElfImage)
  : M ElfImage (Z * option ElfSymbol) :=
  let* writer := get in
  (* Merge GPU ISA code *)
  let fragmentTextSecIndex := GetSectionIndex reader TextName in
  let nonFragmentSecIndex := GetSectionIndex writer TextName in
  let pFragmentTextSection := GetSectionDataBySectionIndex reader fragmentTextSecIndex in
  let fragmentSymbols := ElfReader_GetSymbolsBySectionIndex reader fragmentTextSecIndex in
  let nonFragmentSymbols := ElfWriter_GetSymbolsBySectionIndex writer nonFragmentSecIndex in
  let* scan := scanNonFragmentSymbols nonFragmentSymbols (mkScan EmptyString None) in
  let* isaOffset := isaOffsetOf nonFragmentSecIndex (pNonFragmentIsaSymbol scan) in
  let* pFragmentIsaSymbol :=
    updateFragmentSymbols fragmentSymbols nonFragmentSecIndex pFragmentTextSection
      isaOffset None in
  (* Merge ISA disassemble *)
  mergeCommentSection reader AmdGpuDisassemblyName (firstIsaSymbolName scan);;
  (* Merge LLVM IR disassemble *)
  mergeCommentSection reader AmdGpuCommentLlvmIrName (firstIsaSymbolName scan);;
  (* Merge PAL metadata *)
  let* writer' := get in
  SetNote (MergeMetaNote pContext (palMetadataNote writer') (palMetadataNote reader));;
  ret (isaOffset, pFragmentIsaSymbol).

(** [Compiler::MergeElfBinary]: the out-parameter [pPipelineElf] is the
    result.  The function is [void]: it has no error to report. *)
Definition MergeElfBinary (pContext : Context) (pFragmentElf pNonFragmentElf : BinaryData)
  : Outcome ElfPackage :=
  let writer := snd (ElfWriter_ReadFromBuffer pNonFragmentElf) in
  let reader := snd (ElfReader_ReadFromBuffer pFragmentElf) in
  match mergeInWriter pContext reader writer with
  | Returned (_, writer') => Returned (WriteToBuffer writer')
  | Fault => Fault
  end.

(** [MergeElfBinary] as a step of a build. *)
Definition call_MergeElfBinary {St : Type} (pContext : Context)
  (pFragmentElf pNonFragmentElf : BinaryData) : M St ElfPackage :=
  fun s =>
    match MergeElfBinary pContext pFragmentElf pNonFragmentElf with
    | Returned elf => Returned (elf, s)
    | Fault => Fault
    end.

(** [syms1] is [syms] with the section of some symbols invalidated. *)
Definition invalidated (syms syms1 : list ElfSymbol) : Prop :=
  Forall2 (fun sym sym1 => sym1 = sym \/ sym1 = set_secIdx InvalidValue sym) syms syms1.



(** In the list [nonFragmentSymbols] of positions of the symbol table
    [syms], position [q] is a symbol of the fragment entry name or comes
    after one: the symbols the first loop of [MergeElfBinary] resets. *)
Definition fromPlaceholder (syms : list ElfSymbol) (nonFragmentSymbols : list nat) (q : nat)
  : Prop :=
  exists before p after sym,
    nonFragmentSymbols = before ++ p :: after /\
    syms !! p = Some sym /\
    pSymName sym = FragmentIsaSymbolName /\
    In q (p :: after).

End ElfMerge.

(* ===================================================================== *)
(** * 6. The per-stage shader cache check *)
(* ===================================================================== *)

(** What [Check] looks at in the pipeline module: the users of a value.  A
    user is a [Constant], which has users of its own, or an [Instruction];
    of an instruction only the stage of its function matters, the result of
    [GetShaderStageFromFunction(pUser->getFunction())].  The users below a
    global form a tree here: constant expressions are built from their
    operands, so following users does not come back to a value (global
    initialisers that refer to each other in a cycle are outside the
    model), and a user reached along two paths is listed twice, as the
    work list of the source, which keeps no set of visited values, holds it
    twice. *)
Inductive User : Type :=
| UserConstant (users : list User)
| UserInstruction (stage : ShaderStage).

(** [llvm::GlobalVariable]: [isConstant()] and [users()]. *)
Record GlobalVariable : Type := mkGlobalVariable {
  isConstant : bool;
  users : list User
}.

(** [llvm::Module], by its [globals()]. *)
Record Module : Type := mkModule {
  globals : list GlobalVariable
}.

Fixpoint User_size (u : User) : nat :=
  match u with
  | UserConstant us => S (list_sum (map User_size us))
  | UserInstruction _ => 1
  end.

Definition users_size (us : list User) : nat := S (list_sum (map User_size us)).

Definition vals_size (vals : list (list User)) : nat := list_sum (map users_size vals).

(** The loop [for (auto pUser : vals[i]->users())].  A value on the work
    list [vals] is kept as its users.  [None] is the [return stageMask] in
    the loop; otherwise the result is the values the loop pushed. *)
Fixpoint scanUsers (us : list User) (pushed : list (list User)) : option (list (list User)) :=
  match us with
  | [] => Some pushed
  | UserConstant us' :: rest => scanUsers rest (pushed ++ [us'])
  | UserInstruction stage :: rest =>
      if decide (stage <> ShaderStageFragment) then None else scanUsers rest pushed
  end.

Definition inspect {A : Type} (a : A) : {b : A | a = b} := exist _ a eq_refl.

(** The constants among the users, as the values the scan pushes. *)
Definition constantUsers (us : list User) : list (list User) :=
  omap (fun u => match u with UserConstant us' => Some us' | UserInstruction _ => None end) us.

(** The loop [for (uint32_t i = 0; i != vals.size(); ++i)], on the part of
    [vals] from index [i] on: [true] when it returns from [Check]. *)
Equations? walkUsers (vals : list (list User)) : bool by wf (vals_size vals) lt :=
walkUsers [] := false;
walkUsers (us :: rest) with inspect (scanUsers us []) := {
  | exist _ None _ := true
  | exist _ (Some pushed) e := walkUsers (rest ++ pushed) }.
Proof.
  assert (Hscan : forall us pushed pushed',
             scanUsers us pushed = Some pushed' ->
             (vals_size pushed' + 1 <= vals_size pushed + users_size us)%nat).
  { clear. unfold vals_size, users_size.
    induction us as [|u us IH]; intros pushed pushed' Hscan; simpl in *.
    - inversion Hscan; subst. lia.
    - destruct u as [us'|stage].
      + apply IH in Hscan. rewrite map_app, list_sum_app in Hscan. simpl in *. lia.
      + destruct (decide (stage <> ShaderStageFragment)); [discriminate|].
        apply IH in Hscan. lia. }
  apply Hscan in e. unfold vals_size, users_size in *.
  rewrite map_app, list_sum_app. simpl in *. lia.
Qed.

(** A value with these users is used outside the fragment stage: one of
    the users is an instruction of a function of another stage, or a
    constant that is itself used outside the fragment stage. *)
Inductive usedOutsideFragment : list User -> Prop :=
| used_by_instruction (us : list User) (stage : ShaderStage) :
    In (UserInstruction stage) us ->
    stage <> ShaderStageFragment ->
    usedOutsideFragment us
| used_through_constant (us us' : list User) :
    In (UserConstant us') us ->
    usedOutsideFragment us' ->
    usedOutsideFragment us.

(** The loop [for (auto& global : pModule->globals())]: [true] when [Check]
    returns [stageMask] from inside it. *)
Fixpoint globalConstantUsedOutsideFragment (gs : list GlobalVariable) : bool :=
  match gs with
  | [] => false
  | pGlobalVar :: rest =>
      if isConstant pGlobalVar then
        if walkUsers [users pGlobalVar] then true
        else globalConstantUsedOutsideFragment rest
      else globalConstantUsedOutsideFragment rest
  end.

(** [enum class BinaryType] *)
Inductive BinaryType : Set :=
| BinaryTypeUnknown
| BinaryTypeSpirv
| BinaryTypeLlvmBc
| BinaryTypeMultiLlvmBc.

#[global] Instance BinaryType_eq_dec : EqDecision BinaryType.
Proof. solve_decision. Defined.

(** [ShaderModuleInfo], the fields the compiler reads or writes. *)
Record ShaderModuleInfo : Type := mkModuleInfo {
  cacheHash : Hash;
  debugInfoSize : Z;
  useSpecConstant : bool;
  entryCount : Z
}.

(** [ShaderModuleData] *)
Record ShaderModuleData : Type := mkModuleData {
  hash : Hash;
  binType : BinaryType;
  binCode : BinaryData;
  moduleInfo : ShaderModuleInfo
}.

(** [ShaderEntryName] *)
Record ShaderEntryName : Type := mkEntryName {
  entryName_stage : ShaderStage;
  entryName_pName : string
}.

(** [ShaderModuleEntry] *)
Record ShaderModuleEntry : Type := mkModuleEntry {
  entry_stage : ShaderStage;
  entryNameHash : Hash;
  entryOffset : Z;
  entrySize : Z;
  resUsageSize : Z;
  passIndex : Z
}.

(** [PipelineShaderInfo] *)
Record PipelineShaderInfo : Type := mkShaderInfo {
  pModuleData : option ShaderModuleData;
  pEntryTarget : option string;
  entryStage : ShaderStage
}.

(** [pfnOutputAlloc(pInstance, pUserData, size)]: the address of the buffer,
    [None] for a null result. *)
Definition OutputAllocFunc := Z -> option Z.

(** [ShaderModuleBuildInfo]; [pfnOutputAlloc = None] is a null callback. *)
Record ShaderModuleBuildInfo : Type := mkShaderModuleBuildInfo {
  shaderBin : BinaryData;
  shader_enableOpt : bool;
  shader_pfnOutputAlloc : option OutputAllocFunc
}.

(** [GraphicsPipelineBuildInfo] *)
Record GraphicsPipelineBuildInfo : Type := mkGraphicsInfo {
  vs : PipelineShaderInfo;
  tcs : PipelineShaderInfo;
  tes : PipelineShaderInfo;
  gs : PipelineShaderInfo;
  fs : PipelineShaderInfo;
  gfx_pShaderCache : option CacheRef;
  gfx_pfnOutputAlloc : option OutputAllocFunc
}.

(** [ComputePipelineBuildInfo] *)
Record ComputePipelineBuildInfo : Type := mkComputeInfo {
  cs : PipelineShaderInfo;
  cs_pShaderCache : option CacheRef;
  cs_pfnOutputAlloc : option OutputAllocFunc
}.

(** [pPipelineOut->pipelineBin]: the size and the address of the output. *)
Record PipelineBuildOut : Type := mkPipelineOut {
  pipelineBin_codeSize : Z;
  pipelineBin_pCode : option Z
}.

(** [pShaderOut->pModuleData]: the address of the output. *)
Record ShaderModuleBuildOut : Type := mkShaderOut {
  out_pModuleData : option Z
}.

(* ===================================================================== *)
(** * Binary streams *)
(* ===================================================================== *)

(** [BinaryIStream] and [BinaryOStream] move objects to and from a stream
    as their bytes.  An unsigned integer of [n] bytes is laid out least
    significant byte first, as on the hosts the compiler is built for. *)
Module BinaryStream.

Definition byteOf (v : Z) : ascii := ascii_of_N (Z.to_N (v mod 256)).
Definition valueOf (b : ascii) : Z := Z.of_N (N_of_ascii b).

(** The object representation of an unsigned integer of [n] bytes. *)
Fixpoint bytesOf (n : nat) (v : Z) : list ascii :=
  match n with
  | O => []
  | S n' => byteOf v :: bytesOf n' (v / 256)
  end.

Fixpoint uintOf (bytes : list ascii) : Z :=
  match bytes with
  | [] => 0
  | b :: bytes' => valueOf b + 256 * uintOf bytes'
  end.

(** An input stream ([std::istream] as [m_stream]): the characters not yet
    extracted, and whether an extraction has failed ([failbit]). *)
Record IStream : Type := mkIStream {
  pending : list ascii;
  failbit : bool
}.

(** [m_stream.read(reinterpret_cast<char*>(&object), n)] on an object of
    [n] bytes; [None] is an object that was never given a value.  A stream
    that has failed extracts nothing.  A stream with fewer than [n]
    characters stores the ones it has at the start of the object and
    fails; what it leaves of an object without a value is without a value
    still. *)
Definition read (n : nat) (object : option (list ascii))
  : M IStream (option (list ascii)) :=
  fun stream =>
    if failbit stream then Returned (object, stream)
    else if decide (n <= length (pending stream))%nat then
      Returned (Some (take n (pending stream)), mkIStream (drop n (pending stream)) false)
    else
      Returned (match object with
                | Some bytes => Some (pending stream ++ drop (length (pending stream)) bytes)
                | None => None
                end,
                mkIStream [] true).

(** [BinaryIStream::operator>>(T&)] for an unsigned integer of [n]
    bytes. *)
Definition extract (n : nat) (object : option Z) : M IStream (option Z) :=
  let* bytes := read n (option_map (bytesOf n) object) in
  ret (option_map uintOf bytes).

(** The use of a local variable: one without a value has no defined
    use. *)
Definition valueOfLocal {St : Type} (object : option Z) : M St Z :=
  match object with
  | Some v => ret v
  | None => fault
  end.

(** [BinaryIStream::operator>>(std::unordered_set<uint64_t>&)] *)
Definition extract_set (set : gset Z) : M IStream (gset Z) :=
  let* setSize := extract 4 (Some 0) in
  let* setSize := valueOfLocal setSize in
  for_loop (Z.to_nat setSize) 0
    (fun _ set =>
       let* item := extract 8 None in
       let* item := valueOfLocal item in
       ret (Continue ({[ item ]} ∪ set)))
    set.

(** [BinaryIStream::operator>>(std::map<uint32_t, uint32_t>&)] *)
Definition extract_map (map : gmap Z Z) : M IStream (gmap Z Z) :=
  let* mapSize := extract 4 (Some 0) in
  let* mapSize := valueOfLocal mapSize in
  for_loop (Z.to_nat mapSize) 0
    (fun _ map =>
       let* first := extract 4 None in
       let* second := extract 4 None in
       let* first := valueOfLocal first in
       let* second := valueOfLocal second in
       ret (Continue (<[first := second]> map)))
    map.

(** An output stream, by the characters written to it. *)
Definition OStream := list ascii.

(** [BinaryOStream::operator<<(const T&)] for an unsigned integer of [n]
    bytes: [m_stream.write(reinterpret_cast<const char*>(&object), n)]. *)
Definition insert (n : nat) (object : Z) (stream : OStream) : OStream :=
  stream ++ bytesOf n object.

Section Containers.

(** The order in which [for (auto item : set)] visits an
    [std::unordered_set]: each element once, in an order the
    implementation chooses. *)
Variable iteration : gset Z -> list Z.

(** [BinaryOStream::operator<<(const std::unordered_set<uint64_t>&)] *)
Definition insert_set (set : gset Z) (stream : OStream) : OStream :=
  let setSize := wrap32 (Z.of_nat (base.size set)) in
  fold_left (fun stream item => insert 8 item stream) (iteration set) (insert 4 setSize stream).

(** The order in which [for (auto item : map)] visits an [std::map]: by
    increasing key. *)
Definition byKey (a b : Z * Z) : Prop := fst a <= fst b.

#[global] Instance byKey_dec : RelDecision byKey.
Proof. intros a b. unfold byKey. apply _. Defined.

Definition items (map : gmap Z Z) : list (Z * Z) := merge_sort byKey (map_to_list map).

(** [BinaryOStream::operator<<(const std::map<uint32_t, uint32_t>&)] *)
Definition insert_map (map : gmap Z Z) (stream : OStream) : OStream :=
  let mapSize := wrap32 (Z.of_nat (base.size map)) in
  fold_left (fun stream item => insert 4 (snd item) (insert 4 (fst item) stream))
    (items map) (insert 4 mapSize stream).

End Containers.

End BinaryStream.

(* ===================================================================== *)
(** * The hashes of the per-stage cache *)
(* ===================================================================== *)

(** [Compiler::BuildShaderCacheHash] feeds two hashers, one for the
    fragment stage and one for the stages before it. *)
Module StageHash.

(** [PipelineOptions], the members the fragment hash takes in. *)
Record PipelineOptions : Type := mkPipelineOptions {
  includeDisassembly : bool;
  autoLayoutDesc : bool;
  scalarBlockLayout : bool;
  reconfigWorkgroupLayout : bool;
  includeIr : bool;
  robustBufferAccess : bool;
  includeIrBinary : bool
}.

Section Hashes.

Context {metroHash : MetroHash64}.

(** The vertex input state and the rest of the graphics pipeline state are
    only handed on to [PipelineDumper]. *)
Variables VertexInputState PipelineState : Type.

(** What [BuildShaderCacheHash] reads through [pContext]: the shader of
    each stage, [iaState.deviceIndex], [pVertexInput], the pipeline build
    info as a whole, the pipeline options. *)
Record HashContext : Type := mkHashContext {
  GetPipelineShaderInfo : ShaderStage -> PipelineShaderInfo;
  deviceIndex : Z;
  pVertexInput : VertexInputState;
  GetPipelineBuildInfo : PipelineState;
  GetPipelineOptions : PipelineOptions
}.

(** The members of [PipelineDumper] and [MetroHash::Compact64], defined
    outside the sources. *)
Variable UpdateHashForPipelineShaderInfo :
  ShaderStage -> PipelineShaderInfo -> bool -> Hasher -> Hasher.
Variable UpdateHashForVertexInputState : VertexInputState -> Hasher -> Hasher.
Variable UpdateHashForFragmentState : PipelineState -> Hasher -> Hasher.
Variable UpdateHashForNonFragmentState : PipelineState -> bool -> Hasher -> Hasher.
Variable Compact64 : Hash -> Z.

Variable LLPC_CLIENT_INTERFACE_MAJOR_VERSION : Z.

(** [hasher.Update(value)] for an unsigned integer of [n] bytes and for a
    [bool]: the bytes of the object. *)
Definition Update_uint (n : nat) (value : Z) (hasher : Hasher) : Hasher :=
  Update hasher (string_of_list_ascii (BinaryStream.bytesOf n value)).

Definition Update_bool (value : bool) (hasher : Hasher) : Hasher :=
  Update_uint 1 (if value then 1 else 0) hasher.

(** The graphics stages in the order of the loop. *)
Definition graphicsStages : list ShaderStage :=
  [ShaderStageVertex; ShaderStageTessControl; ShaderStageTessEval; ShaderStageGeometry;
   ShaderStageFragment].

(** The hash of one stage: "Build hash per shader stage". *)
Definition stageHashCode (pContext : HashContext) (stage : ShaderStage) (stageHash : string)
  : Z :=
  let hasher := Hasher_new in
  (* Update common shader info *)
  let hasher :=
    UpdateHashForPipelineShaderInfo stage (GetPipelineShaderInfo pContext stage) true hasher in
  let hasher := Update_uint 4 (deviceIndex pContext) hasher in
  (* Update input/output usage *)
  let hasher := Update hasher stageHash in
  (* Update vertex input state *)
  let hasher :=
    if decide (stage = ShaderStageVertex)
    then UpdateHashForVertexInputState (pVertexInput pContext) hasher else hasher in
  Compact64 (Finalize hasher).

(** The loop over the graphics stages, on the two hashers. *)
Fixpoint hashStages (pContext : HashContext) (stageMask : Z) (stageHashes : list string)
  (stages : list ShaderStage) (hashers : Hasher * Hasher) : Outcome (Hasher * Hasher) :=
  match stages with
  | [] => Returned hashers
  | stage :: rest =>
      if Z.land stageMask (ShaderStageToMask stage) =? 0 then
        hashStages pContext stageMask stageHashes rest hashers
      else
        match stageHashes !! Z.to_nat (ShaderStage_index stage) with
        | None => Fault
        | Some stageHash =>
            let shaderHashCode := stageHashCode pContext stage stageHash in
            let '(fragmentHasher, nonFragmentHasher) := hashers in
            hashStages pContext stageMask stageHashes rest
              (if decide (stage = ShaderStageFragment)
               then (Update_uint 8 shaderHashCode fragmentHasher, nonFragmentHasher)
               else (fragmentHasher, Update_uint 8 shaderHashCode nonFragmentHasher))
        end
  end.

(** "Add pipeline options to fragment hash" *)
Definition addPipelineOptions (options : PipelineOptions) (fragmentHasher : Hasher) : Hasher :=
  let h := Update_bool (includeDisassembly options) fragmentHasher in
  let h :=
    if decide (LLPC_CLIENT_INTERFACE_MAJOR_VERSION < 30)
    then Update_bool (autoLayoutDesc options) h else h in
  let h := Update_bool (scalarBlockLayout options) h in
  let h :=
    if decide (LLPC_CLIENT_INTERFACE_MAJOR_VERSION >= 28)
    then Update_bool (reconfigWorkgroupLayout options) h else h in
  let h := Update_bool (includeIr options) h in
  let h :=
    if decide (LLPC_CLIENT_INTERFACE_MAJOR_VERSION >= 23)
    then Update_bool (robustBufferAccess options) h else h in
  if decide (LLPC_CLIENT_INTERFACE_MAJOR_VERSION >= 25 /\
             LLPC_CLIENT_INTERFACE_MAJOR_VERSION < 27)
  then Update_bool (includeIrBinary options) h else h.

(** [Compiler::BuildShaderCacheHash]; the out-parameters [pFragmentHash]
    and [pNonFragmentHash] are returned, and keep the value they had when
    the stage mask has no stage of their part. *)
Definition BuildShaderCacheHash (pContext : HashContext) (stageMask : Z)
  (stageHashes : list string) (pFragmentHash pNonFragmentHash : Hash)
  : Outcome (Hash * Hash) :=
  match hashStages pContext stageMask stageHashes graphicsStages (Hasher_new, Hasher_new) with
  | Fault => Fault
  | Returned (fragmentHasher, nonFragmentHasher) =>
      (* Add addtional pipeline state to final hasher *)
      let pFragmentHash :=
        if nonzero (Z.land stageMask (ShaderStageToMask ShaderStageFragment)) then
          Finalize
            (UpdateHashForFragmentState (GetPipelineBuildInfo pContext)
               (addPipelineOptions (GetPipelineOptions pContext) fragmentHasher))
        else pFragmentHash in
      let pNonFragmentHash :=
        if nonzero (Z.land stageMask (not32 (ShaderStageToMask ShaderStageFragment))) then
          Finalize
            (UpdateHashForNonFragmentState (GetPipelineBuildInfo pContext) true
               nonFragmentHasher)
        else pNonFragmentHash in
      Returned (pFragmentHash, pNonFragmentHash)
  end.

End Hashes.

End StageHash.

(** Every graphics stage of [stageMask] has its entry in [stageHashes]:
    the loop of [BuildShaderCacheHash] reads [stageHashes[stage]] for these
    stages and for no other. *)
Definition hasStageHashes (stageMask : Z) (stageHashes : list string) : bool :=
  forallb
    (fun stage =>
       (Z.land stageMask (ShaderStageToMask stage) =? 0) ||
       bool_decide (is_Some (stageHashes !! Z.to_nat (ShaderStage_index stage))))
    StageHash.graphicsStages.

(* ===================================================================== *)
(** * Scanning a SPIR-V binary *)
(* ===================================================================== *)

(** [CollectInfoFromSpirvBinary] and [TrimSpirvDebugInfo] walk the words of
    a SPIR-V binary with raw pointers.  The binary is the bytes of its
    buffer; a word is four of them, least significant first, as on the
    hosts the compiler is built for. *)
Module Spirv.

(** What a scan does: it returns; or it reads or writes outside a buffer;
    or its loop stops advancing and repeats in the same state for ever. *)
Inductive Run (A : Type) : Type :=
| Done (a : A)
| OutOfBounds
| Spins.

Arguments Done {A} a.
Arguments OutOfBounds {A}.
Arguments Spins {A}.

(** Modelled from the spec: [spirv.hpp] and the LLPC headers are outside
    the sources.  [OpCodeMask] and [WordCountShift] split the first word of
    an instruction; [SpirvHeader] is five words. *)
Definition OpCodeMask : Z := 0xFFFF.
Definition WordCountShift : Z := 16.
Definition sizeof_SpirvHeader : nat := 20.
Definition sizeof_uint32_t : nat := 4.

(** Modelled from the spec: the enumerators of [spv::Op] that the two
    functions name, with the values the SPIR-V specification gives them. *)
Definition OpNop : Z := 0.
Definition OpSourceContinued : Z := 2.
Definition OpSource : Z := 3.
Definition OpSourceExtension : Z := 4.
Definition OpName : Z := 5.
Definition OpMemberName : Z := 6.
Definition OpString : Z := 7.
Definition OpLine : Z := 8.
Definition OpExtension : Z := 10.
Definition OpEntryPoint : Z := 15.
Definition OpCapability : Z := 17.
Definition OpSpecConstantTrue : Z := 48.
Definition OpSpecConstantFalse : Z := 49.
Definition OpSpecConstant : Z := 50.
Definition OpSpecConstantComposite : Z := 51.
Definition OpSpecConstantOp : Z := 52.
Definition OpImageSampleImplicitLod : Z := 87.
Definition OpImageSampleDrefImplicitLod : Z := 89.
Definition OpImageSampleProjImplicitLod : Z := 91.
Definition OpImageSampleProjDrefImplicitLod : Z := 93.
Definition OpDPdx : Z := 207.
Definition OpDPdy : Z := 208.
Definition OpDPdxFine : Z := 210.
Definition OpDPdyFine : Z := 211.
Definition OpDPdxCoarse : Z := 213.
Definition OpDPdyCoarse : Z := 214.
Definition OpImageSparseSampleImplicitLod : Z := 305.
Definition OpImageSparseSampleProjImplicitLod : Z := 309.
Definition OpImageSparseSampleProjDrefImplicitLod : Z := 311.
Definition OpNoLine : Z := 317.
Definition OpModuleProcessed : Z := 330.

(** Modelled from the spec: the enumerators of [spv::Capability] that
    [CollectInfoFromSpirvBinary] looks for. *)
Definition CapabilityGroups : Z := 18.
Definition CapabilityGroupNonUniform : Z := 61.
Definition CapabilityGroupNonUniformVote : Z := 62.
Definition CapabilityGroupNonUniformArithmetic : Z := 63.
Definition CapabilityGroupNonUniformBallot : Z := 64.
Definition CapabilityGroupNonUniformShuffle : Z := 65.
Definition CapabilityGroupNonUniformShuffleRelative : Z := 66.
Definition CapabilityGroupNonUniformClustered : Z := 67.
Definition CapabilityGroupNonUniformQuad : Z := 68.
Definition CapabilitySubgroupBallotKHR : Z := 4423.
Definition CapabilitySubgroupVoteKHR : Z := 4431.
Definition CapabilityVariablePointersStorageBuffer : Z := 4441.
Definition CapabilityVariablePointers : Z := 4442.

(** The case labels the two functions share: "debug instructions". *)
Definition isDebugInstruction (opCode : Z) : bool :=
  bool_decide (opCode ∈ [OpString; OpSource; OpSourceContinued; OpSourceExtension; OpName;
                         OpMemberName; OpLine; OpNop; OpNoLine; OpModuleProcessed]).

(** The case labels that set [useHelpInvocation]. *)
Definition needsHelpInvocation (opCode : Z) : bool :=
  bool_decide (opCode ∈ [OpDPdx; OpDPdy; OpDPdxCoarse; OpDPdyCoarse; OpDPdxFine; OpDPdyFine;
                         OpImageSampleImplicitLod; OpImageSampleDrefImplicitLod;
                         OpImageSampleProjImplicitLod; OpImageSampleProjDrefImplicitLod;
                         OpImageSparseSampleImplicitLod;
                         OpImageSparseSampleProjDrefImplicitLod;
                         OpImageSparseSampleProjImplicitLod]).

(** The case labels that set [useSpecConstant]. *)
Definition isSpecConstant (opCode : Z) : bool :=
  bool_decide (opCode ∈ [OpSpecConstantTrue; OpSpecConstantFalse; OpSpecConstant;
                         OpSpecConstantComposite; OpSpecConstantOp]).

(** [ShaderModuleInfo], with the fields [CollectInfoFromSpirvBinary]
    writes; [debugInfoSize] is a [uint32_t]. *)
Record ShaderModuleInfo : Type := mkModuleInfo {
  cacheHash : Hash;
  debugInfoSize : Z;
  enableVarPtrStorageBuf : bool;
  enableVarPtr : bool;
  useSubgroupSize : bool;
  useHelpInvocation : bool;
  useSpecConstant : bool;
  entryCount : Z
}.

(** [ShaderEntryName]; [pName] points into the binary and is kept as the
    byte offset it points to. *)
Record ShaderEntryName : Type := mkEntryName {
  pName : nat;
  stage : ShaderStage
}.

Definition byteValue (b : ascii) : Z := Z.of_N (N_of_ascii b).

(** [p[i]] for [p] the buffer as [const uint32_t*]; [None] when one of the
    four bytes is outside the buffer. *)
Definition word_at (code : list ascii) (i : nat) : option Z :=
  match code !! (4 * i)%nat, code !! (4 * i + 1)%nat,
        code !! (4 * i + 2)%nat, code !! (4 * i + 3)%nat with
  | Some b0, Some b1, Some b2, Some b3 =>
      Some (byteValue b0 + 2 ^ 8 * byteValue b1 + 2 ^ 16 * byteValue b2 + 2 ^ 24 * byteValue b3)
  | _, _, _, _ => None
  end.

Definition opCodeOf (word : Z) : Z := Z.land word OpCodeMask.
Definition wordCountOf (word : Z) : nat := Z.to_nat (Z.shiftr word WordCountShift).

(** [strncmp(buffer + offset, literal, strlen(literal)) == 0], for a
    literal without NUL: the comparison stops at the first byte that
    differs, and reads no further. *)
Fixpoint strncmp_literal (code : list ascii) (offset : nat) (literal : list ascii)
  : option bool :=
  match literal with
  | [] => Some true
  | c :: literal' =>
      match code !! offset with
      | None => None
      | Some b =>
          if Ascii.eqb b c then strncmp_literal code (S offset) literal' else Some false
      end
  end.

Definition set_debugInfoSize (v : Z) (i : ShaderModuleInfo) : ShaderModuleInfo :=
  mkModuleInfo (cacheHash i) v (enableVarPtrStorageBuf i) (enableVarPtr i)
    (useSubgroupSize i) (useHelpInvocation i) (useSpecConstant i) (entryCount i).

Definition set_enableVarPtrStorageBuf (v : bool) (i : ShaderModuleInfo) : ShaderModuleInfo :=
  mkModuleInfo (cacheHash i) (debugInfoSize i) v (enableVarPtr i)
    (useSubgroupSize i) (useHelpInvocation i) (useSpecConstant i) (entryCount i).

Definition set_enableVarPtr (v : bool) (i : ShaderModuleInfo) : ShaderModuleInfo :=
  mkModuleInfo (cacheHash i) (debugInfoSize i) (enableVarPtrStorageBuf i) v
    (useSubgroupSize i) (useHelpInvocation i) (useSpecConstant i) (entryCount i).

Definition set_useSubgroupSize (v : bool) (i : ShaderModuleInfo) : ShaderModuleInfo :=
  mkModuleInfo (cacheHash i) (debugInfoSize i) (enableVarPtrStorageBuf i) (enableVarPtr i)
    v (useHelpInvocation i) (useSpecConstant i) (entryCount i).

Definition set_useHelpInvocation (v : bool) (i : ShaderModuleInfo) : ShaderModuleInfo :=
  mkModuleInfo (cacheHash i) (debugInfoSize i) (enableVarPtrStorageBuf i) (enableVarPtr i)
    (useSubgroupSize i) v (useSpecConstant i) (entryCount i).

Definition set_useSpecConstant (v : bool) (i : ShaderModuleInfo) : ShaderModuleInfo :=
  mkModuleInfo (cacheHash i) (debugInfoSize i) (enableVarPtrStorageBuf i) (enableVarPtr i)
    (useSubgroupSize i) (useHelpInvocation i) v (entryCount i).

(** What the loop of [CollectInfoFromSpirvBinary] changes. *)
Record Collected : Type := mkCollected {
  info : ShaderModuleInfo;
  entryNames : list ShaderEntryName;
  capabilities : gset Z
}.

Section Scan.

(** [ConvertToStageShage], from the SPIR-V execution model to the shader
    stage, is declared outside the sources. *)
Variable ConvertToStageShage : Z -> ShaderStage.

(** The [switch (opCode)] of [CollectInfoFromSpirvBinary], on the
    instruction at word [pCodePos]. *)
Definition collectInstruction (code : list ascii) (pCodePos : nat) (opCode : Z)
  (wordCount : nat) (s : Collected) : Run Collected :=
  if decide (opCode = OpCapability) then
    match word_at code (pCodePos + 1) with
    | Some capability =>
        Done (mkCollected (info s) (entryNames s) ({[ capability ]} ∪ capabilities s))
    | None => OutOfBounds
    end
  else if decide (opCode = OpExtension) then
    match strncmp_literal code (4 * (pCodePos + 1))
            (list_ascii_of_string "SPV_AMD_shader_ballot") with
    | Some matches =>
        if matches && negb (useSubgroupSize (info s)) then
          Done (mkCollected (set_useSubgroupSize true (info s)) (entryNames s) (capabilities s))
        else Done s
    | None => OutOfBounds
    end
  else if needsHelpInvocation opCode then
    Done (mkCollected (set_useHelpInvocation true (info s)) (entryNames s) (capabilities s))
  else if isDebugInstruction opCode then
    Done (mkCollected
            (set_debugInfoSize
               (wrap32 (debugInfoSize (info s) + Z.of_nat (wordCount * sizeof_uint32_t)))
               (info s))
            (entryNames s) (capabilities s))
  else if isSpecConstant opCode then
    Done (mkCollected (set_useSpecConstant true (info s)) (entryNames s) (capabilities s))
  else if decide (opCode = OpEntryPoint) then
    match word_at code (pCodePos + 1) with
    | Some executionModel =>
        (* The fourth word is start of the name string of the entry-point *)
        Done (mkCollected (info s)
                (entryNames s ++
                   [mkEntryName (4 * (pCodePos + 3)) (ConvertToStageShage executionModel)])
                (capabilities s))
    | None => OutOfBounds
    end
  else Done s.

(** One turn of the loop [while (pCodePos < pEnd)]: [inl] is the [break]
    with [result = ErrorInvalidShader], [inr] the word count to advance
    by. *)
Definition collectStep (code : list ascii) (pEnd pCodePos : nat) (s : Collected)
  : Run (Collected + nat * Collected) :=
  match word_at code pCodePos with
  | None => OutOfBounds
  | Some word =>
      let opCode := opCodeOf word in
      let wordCount := wordCountOf word in
      if decide (wordCount = 0 \/ pEnd < pCodePos + wordCount)%nat then Done (inl s)
      else
        match collectInstruction code pCodePos opCode wordCount s with
        | Done s' => Done (inr (wordCount, s'))
        | OutOfBounds => OutOfBounds
        | Spins => Spins
        end
  end.

(** The loop [while (pCodePos < pEnd)]: the result so far and what has
    been collected. *)
Equations? collectLoop (code : list ascii) (pEnd pCodePos : nat) (s : Collected)
  : Run (Result * Collected) by wf (pEnd - pCodePos)%nat lt :=
collectLoop code pEnd pCodePos s with decide (pCodePos < pEnd)%nat := {
  | right _ := Done (Success, s)
  | left _ with inspect (collectStep code pEnd pCodePos s) := {
    | exist _ OutOfBounds _ := OutOfBounds
    | exist _ Spins _ := Spins
    | exist _ (Done (inl s')) _ := Done (ErrorInvalidShader, s')
    | exist _ (Done (inr (wordCount, s'))) e := collectLoop code pEnd (pCodePos + wordCount) s' } }.
Proof.
  unfold collectStep in e.
  destruct (word_at code pCodePos); [|discriminate].
  destruct (decide _) as [|Hok]; [discriminate|].
  destruct (collectInstruction _ _ _ _ _); inversion e; subst.
  lia.
Qed.

(** The statements after the loop: the capabilities seen decide three
    flags. *)
Definition applyCapabilities (capabilities : gset Z) (i : ShaderModuleInfo) : ShaderModuleInfo :=
  let i :=
    if decide (CapabilityVariablePointersStorageBuffer ∈ capabilities)
    then set_enableVarPtrStorageBuf true i else i in
  let i :=
    if decide (CapabilityVariablePointers ∈ capabilities)
    then set_enableVarPtr true i else i in
  if negb (useSubgroupSize i) &&
     (bool_decide (CapabilityGroupNonUniform ∈ capabilities) ||
      bool_decide (CapabilityGroupNonUniformVote ∈ capabilities) ||
      bool_decide (CapabilityGroupNonUniformArithmetic ∈ capabilities) ||
      bool_decide (CapabilityGroupNonUniformBallot ∈ capabilities) ||
      bool_decide (CapabilityGroupNonUniformShuffle ∈ capabilities) ||
      bool_decide (CapabilityGroupNonUniformShuffleRelative ∈ capabilities) ||
      bool_decide (CapabilityGroupNonUniformClustered ∈ capabilities) ||
      bool_decide (CapabilityGroupNonUniformQuad ∈ capabilities) ||
      bool_decide (CapabilitySubgroupBallotKHR ∈ capabilities) ||
      bool_decide (CapabilitySubgroupVoteKHR ∈ capabilities) ||
      bool_decide (CapabilityGroups ∈ capabilities))
  then set_useSubgroupSize true i else i.

(** The bytes a [BinaryData] points to; a null [pCode] has none. *)
Definition bufferOf (bin : BinaryData) : list ascii :=
  match pCode bin with
  | Some code => list_ascii_of_string code
  | None => []
  end.

(** [pEnd - pCode], in words: [codeSize / sizeof(uint32_t)]. *)
Definition wordsOf (bin : BinaryData) : nat :=
  Z.to_nat (codeSize bin / Z.of_nat sizeof_uint32_t).

(** [Compiler::CollectInfoFromSpirvBinary]; the in/out parameters
    [pShaderModuleInfo] and [shaderEntryNames] are returned with the
    result. *)
Definition CollectInfoFromSpirvBinary (pSpvBinCode : BinaryData)
  (pShaderModuleInfo : ShaderModuleInfo) (shaderEntryNames : list ShaderEntryName)
  : Run (Result * ShaderModuleInfo * list ShaderEntryName) :=
  let pEnd := wordsOf pSpvBinCode in
  let pCodePos := (sizeof_SpirvHeader / sizeof_uint32_t)%nat in
  match collectLoop (bufferOf pSpvBinCode) pEnd pCodePos
          (mkCollected pShaderModuleInfo shaderEntryNames ∅) with
  | Done (result, s) => Done (result, applyCapabilities (capabilities s) (info s), entryNames s)
  | OutOfBounds => OutOfBounds
  | Spins => Spins
  end.

(** [memcpy(dst, pCode + from, n)] into the output buffer of
    [bufferSize] bytes, of which [written] are written so far and [dst]
    is the next: the bytes must lie in the source, and fit in the
    output. *)
Definition copyOut (code : list ascii) (from n : nat) (bufferSize : nat)
  (written : list ascii) : Run (list ascii) :=
  if decide (from + n <= length code /\ length written + n <= bufferSize)%nat
  then Done (written ++ take n (drop from code))
  else OutOfBounds.

(** [pCodePos += wordCount] at the end of a turn of the loop of
    [TrimSpirvDebugInfo]: with a word count of zero the loop is back where
    it was, with the same instruction before it. *)
Definition advance (wordCount : nat) (written : list ascii) : Run (nat * list ascii) :=
  if decide (wordCount = 0)%nat then Spins else Done (wordCount, written).

(** One turn of the loop of [TrimSpirvDebugInfo]: the word count to advance
    by, and the output buffer up to [pTrimCodePos]. *)
Definition trimStep (code : list ascii) (bufferSize pCodePos : nat) (written : list ascii)
  : Run (nat * list ascii) :=
  match word_at code pCodePos with
  | None => OutOfBounds
  | Some word =>
      let opCode := opCodeOf word in
      let wordCount := wordCountOf word in
      if isDebugInstruction opCode then
        (* Skip debug instructions *)
        advance wordCount written
      else
        (* Copy other instructions *)
        match copyOut code (4 * pCodePos) (wordCount * sizeof_uint32_t) bufferSize written with
        | Done written' => advance wordCount written'
        | OutOfBounds => OutOfBounds
        | Spins => Spins
        end
  end.

(** The loop of [TrimSpirvDebugInfo]; [written] is the output buffer up to
    [pTrimCodePos]. *)
Equations? trimLoop (code : list ascii) (pEnd bufferSize pCodePos : nat)
  (written : list ascii) : Run (list ascii) by wf (pEnd - pCodePos)%nat lt :=
trimLoop code pEnd bufferSize pCodePos written with decide (pCodePos < pEnd)%nat := {
  | right _ := Done written
  | left _ with inspect (trimStep code bufferSize pCodePos written) := {
    | exist _ OutOfBounds _ := OutOfBounds
    | exist _ Spins _ := Spins
    | exist _ (Done (wordCount, written')) e :=
        trimLoop code pEnd bufferSize (pCodePos + wordCount) written' } }.
Proof.
  assert (wordCount <> 0)%nat; [|lia].
  unfold trimStep, advance in e.
  destruct (word_at code pCodePos); [|discriminate].
  destruct (isDebugInstruction _).
  - destruct (decide _); [discriminate|]. inversion e; subst. assumption.
  - destruct (copyOut _ _ _ _ _); try discriminate.
    destruct (decide _); [discriminate|]. inversion e; subst. assumption.
Qed.

(** [Compiler::TrimSpirvDebugInfo]: the bytes written to [pTrimSpvBin],
    from its start. *)
Definition TrimSpirvDebugInfo (pSpvBin : BinaryData) (bufferSize : Z) : Run string :=
  let code := bufferOf pSpvBin in
  let pEnd := wordsOf pSpvBin in
  let pCodePos := (sizeof_SpirvHeader / sizeof_uint32_t)%nat in
  (* Copy SPIR-V header *)
  match copyOut code 0 sizeof_SpirvHeader (Z.to_nat bufferSize) [] with
  | Done header =>
      (* Copy SPIR-V instructions *)
      match trimLoop code pEnd (Z.to_nat bufferSize) pCodePos header with
      | Done written => Done (string_of_list_ascii written)
      | OutOfBounds => OutOfBounds
      | Spins => Spins
      end
  | OutOfBounds => OutOfBounds
  | Spins => Spins
  end.

End Scan.

End Spirv.

(* ===================================================================== *)
(** * The collaborators, the cache check and the build functions *)
(* ===================================================================== *)

(** [Builder::CheckShaderCacheFunc] *)
Definition CheckShaderCacheFunc (C : Type) : Type :=
  Module -> Z -> list string -> M (World C) Z.

(** The compiler's collaborators.  Declared or defined outside
    [llpcCompiler.cpp]: MetroHash, the checks of a shader binary, the
    conversion of an execution model, the layout of [ShaderModuleData], the
    pipeline hashes and the hash updates of [PipelineDumper], what
    [BuildShaderCacheHash] reads through the accessors of [Context]
    ([hashContextOf]), [Context::CreateBuilder], and the middle-end
    [Builder::Generate], which calls the cache-check function it is given;
    [Generate] returns whether it finished without a fatal error, and what
    it wrote to the ELF stream.  Two methods stand for the work of the LLVM
    pass managers that statements of this file set up and run:
    [lowerShaderModuleEntry] for the passes of one turn of the loop over
    the entry points in [BuildShaderModule] (the bitcode, the serialized
    resource usage and the pass index, [None] when [RunPasses] fails), and
    [translateAndLink] for the translation and linking in the first part of
    [BuildPipelineInternal] ([None] when it fails). *)
Class Collaborators (C : Type) : Type := {
  metroHash :: MetroHash64;
  MetroHash64_Hash : BinaryData -> Hash;
  Compact64 : Hash -> Z;
  IsSpirvBinary : BinaryData -> bool;
  IsLlvmBitcode : BinaryData -> bool;
  VerifySpirvBinary : BinaryData -> Result;
  ConvertToStageShage : Z -> ShaderStage;
  GetStageMaskFromSpirvBinary : BinaryData -> string -> Z;
  lowerShaderModuleEntry :
    ShaderModuleData -> ShaderEntryName -> option (string * string * Z);
  sizeof_ShaderModuleData : Z;
  sizeof_ShaderModuleEntry : Z;
  ShaderModuleData_bytes : ShaderModuleData -> list ShaderModuleEntry -> string;
  ShaderModuleData_updatePointers : Z -> string -> string;
  GenerateHashForGraphicsPipeline : GraphicsPipelineBuildInfo -> bool -> Hash;
  GenerateHashForComputePipeline : ComputePipelineBuildInfo -> bool -> Hash;
  GraphicsContext_GetShaderStageMask : GraphicsPipelineBuildInfo -> Z;
  ComputeContext_GetShaderStageMask : ComputePipelineBuildInfo -> Z;
  VertexInputState : Type;
  PipelineState : Type;
  hashContextOf : Context -> StageHash.HashContext VertexInputState PipelineState;
  UpdateHashForPipelineShaderInfo :
    ShaderStage -> PipelineShaderInfo -> bool -> Hasher -> Hasher;
  UpdateHashForVertexInputState : VertexInputState -> Hasher -> Hasher;
  UpdateHashForFragmentState : PipelineState -> Hasher -> Hasher;
  UpdateHashForNonFragmentState : PipelineState -> bool -> Hasher -> Hasher;
  CreateBuilder : Context -> Result;
  translateAndLink : Context -> list (option PipelineShaderInfo) -> Z -> option Module;
  Generate : Module -> option (CheckShaderCacheFunc C) -> M (World C) (bool * ElfPackage)
}.

(** Modelled from the spec: the member initialisers of
    [GraphicsShaderCacheChecker] are in a header outside the sources; an
    entry never seen is [New], no handle is held, no ELF is cached. *)
Definition GraphicsShaderCacheChecker_new : GraphicsShaderCacheChecker :=
  mkChecker New [None; None] [None; None] New [None; None] [None; None]
    BinaryData_empty BinaryData_empty.

Definition set_m_fragmentCacheEntryState (v : ShaderEntryState)
  (k : GraphicsShaderCacheChecker) : GraphicsShaderCacheChecker :=
  mkChecker v (m_pFragmentShaderCache k) (m_hFragmentEntry k)
    (m_nonFragmentCacheEntryState k) (m_pNonFragmentShaderCache k) (m_hNonFragmentEntry k)
    (m_nonFragmentElf k) (m_fragmentElf k).

Definition set_m_nonFragmentCacheEntryState (v : ShaderEntryState)
  (k : GraphicsShaderCacheChecker) : GraphicsShaderCacheChecker :=
  mkChecker (m_fragmentCacheEntryState k) (m_pFragmentShaderCache k) (m_hFragmentEntry k)
    v (m_pNonFragmentShaderCache k) (m_hNonFragmentEntry k)
    (m_nonFragmentElf k) (m_fragmentElf k).

Definition set_fragmentLookup (elf : BinaryData) (pp : list (option CacheRef))
  (ph : list CacheEntryHandle) (k : GraphicsShaderCacheChecker) : GraphicsShaderCacheChecker :=
  mkChecker (m_fragmentCacheEntryState k) pp ph
    (m_nonFragmentCacheEntryState k) (m_pNonFragmentShaderCache k) (m_hNonFragmentEntry k)
    (m_nonFragmentElf k) elf.

Definition set_nonFragmentLookup (elf : BinaryData) (pp : list (option CacheRef))
  (ph : list CacheEntryHandle) (k : GraphicsShaderCacheChecker) : GraphicsShaderCacheChecker :=
  mkChecker (m_fragmentCacheEntryState k) (m_pFragmentShaderCache k) (m_hFragmentEntry k)
    (m_nonFragmentCacheEntryState k) pp ph
    elf (m_fragmentElf k).

(** The one handle of client interface 38 and later, in slot 0. *)
Definition handle38 (ph : list CacheEntryHandle) : CacheEntryHandle :=
  match ph with
  | h :: _ => h
  | [] => None
  end.

Definition set_handle38 (h : CacheEntryHandle) (ph : list CacheEntryHandle)
  : list CacheEntryHandle :=
  h :: tail ph.

Section Build.

Context {C : Type} {shaderCache : ShaderCacheClass C}.
Context {elfLibrary : ElfLibrary} {collaborators : Collaborators C}.

(** The command line, and the client interface version the file is
    compiled for ([#if LLPC_CLIENT_INTERFACE_MAJOR_VERSION < 38]). *)
Variable cl : CommandLine.
Variable LLPC_CLIENT_INTERFACE_MAJOR_VERSION : Z.

Definition getChecker : M (World C) GraphicsShaderCacheChecker :=
  fun w => Returned (checker w, w).

Definition modifyChecker (f : GraphicsShaderCacheChecker -> GraphicsShaderCacheChecker)
  : M (World C) unit :=
  modify (fun w => setChecker (f (checker w)) w).

(** The fragment look-up of [Check]. *)
Definition Check_lookUpFragment (m_pContext : Context) (fragmentHash : Hash)
  : M (World C) unit :=
  let* k := getChecker in
  if decide (LLPC_CLIENT_INTERFACE_MAJOR_VERSION < 38) then
    let* (st, elf, pp, ph) :=
      LookUpShaderCaches cl (pShaderCache m_pContext) fragmentHash (m_fragmentElf k)
        (m_pFragmentShaderCache k) (m_hFragmentEntry k) in
    modifyChecker (fun k =>
      set_m_fragmentCacheEntryState st (set_fragmentLookup elf pp ph k))
  else
    let* (st, elf, h) := LookUpShaderCache fragmentHash (m_fragmentElf k) in
    modifyChecker (fun k =>
      set_m_fragmentCacheEntryState st
        (set_fragmentLookup elf (m_pFragmentShaderCache k)
           (set_handle38 h (m_hFragmentEntry k)) k)).

(** The non-fragment look-up of [Check].  From client interface 38 on, the
    source assigns its result to [m_fragmentCacheEntryState]. *)
Definition Check_lookUpNonFragment (m_pContext : Context) (nonFragmentHash : Hash)
  : M (World C) unit :=
  let* k := getChecker in
  if decide (LLPC_CLIENT_INTERFACE_MAJOR_VERSION < 38) then
    let* (st, elf, pp, ph) :=
      LookUpShaderCaches cl (pShaderCache m_pContext) nonFragmentHash (m_nonFragmentElf k)
        (m_pNonFragmentShaderCache k) (m_hNonFragmentEntry k) in
    modifyChecker (fun k =>
      set_m_nonFragmentCacheEntryState st (set_nonFragmentLookup elf pp ph k))
  else
    let* (st, elf, h) := LookUpShaderCache nonFragmentHash (m_nonFragmentElf k) in
    modifyChecker (fun k =>
      set_m_fragmentCacheEntryState st
        (set_nonFragmentLookup elf (m_pNonFragmentShaderCache k)
           (set_handle38 h (m_hNonFragmentEntry k)) k)).

(** [Compiler::BuildShaderCacheHash] on a context of the compiler: the
    function of [StageHash], with what the accessors of [pContext] and the
    members of [PipelineDumper] give. *)
Definition BuildShaderCacheHash (pContext : Context) (stageMask : Z)
  (stageHashes : list string) (pFragmentHash pNonFragmentHash : Hash)
  : Outcome (Hash * Hash) :=
  StageHash.BuildShaderCacheHash VertexInputState PipelineState
    UpdateHashForPipelineShaderInfo UpdateHashForVertexInputState
    UpdateHashForFragmentState UpdateHashForNonFragmentState Compact64
    LLPC_CLIENT_INTERFACE_MAJOR_VERSION
    (hashContextOf pContext) stageMask stageHashes pFragmentHash pNonFragmentHash.

(** The call of [BuildShaderCacheHash] in a function that has the state:
    when the call reads past [stageHashes], the caller does not return. *)
Definition call_BuildShaderCacheHash (pContext : Context) (stageMask : Z)
  (stageHashes : list string) (pFragmentHash pNonFragmentHash : Hash)
  : M (World C) (Hash * Hash) :=
  fun w =>
    match BuildShaderCacheHash pContext stageMask stageHashes
            pFragmentHash pNonFragmentHash with
    | Returned hashes => Returned (hashes, w)
    | Fault => Fault
    end.

(** [GraphicsShaderCacheChecker::Check] *)
Definition Check (m_pContext : Context) (pModule : Module) (stageMask : Z)
  (stageHashes : list string) : M (World C) Z :=
  (* Check per stage shader cache *)
  let* (fragmentHash, nonFragmentHash) :=
    (* MetroHash::Hash fragmentHash = {}; MetroHash::Hash nonFragmentHash = {}; *)
    call_BuildShaderCacheHash m_pContext stageMask stageHashes 0 0 in
  if globalConstantUsedOutsideFragment (globals pModule) then ret stageMask
  else
    (if nonzero (Z.land stageMask (ShaderStageToMask ShaderStageFragment)) then
       Check_lookUpFragment m_pContext fragmentHash
     else ret tt);;
    (if nonzero (Z.land stageMask (not32 (ShaderStageToMask ShaderStageFragment))) then
       Check_lookUpNonFragment m_pContext nonFragmentHash
     else ret tt);;
    let* k := getChecker in
    let stageMask :=
      if decide (m_nonFragmentCacheEntryState k <> Compiling) then
        (* Remove non-fragment shader stages. *)
        Z.land stageMask (ShaderStageToMask ShaderStageFragment)
      else stageMask in
    let stageMask :=
      if decide (m_fragmentCacheEntryState k <> Compiling) then
        (* Remove fragment shader stages. *)
        Z.land stageMask (not32 (ShaderStageToMask ShaderStageFragment))
      else stageMask in
    ret stageMask.

(** The cache update at the end of each branch of [UpdateAndMerge]. *)
Definition updateStageCache (bInsert : bool) (pipelineElf : BinaryData)
  (ppShaderCache : list (option CacheRef)) (phEntry : list CacheEntryHandle)
  : M (World C) unit :=
  if decide (LLPC_CLIENT_INTERFACE_MAJOR_VERSION < 38) then
    UpdateShaderCaches bInsert pipelineElf ppShaderCache phEntry ShaderCacheCount
  else UpdateShaderCache bInsert pipelineElf (handle38 phEntry).

(** [GraphicsShaderCacheChecker::UpdateAndMerge]; the in/out parameter
    [pPipelineElf] is returned. *)
Definition UpdateAndMerge (m_pContext : Context) (result : Result) (pPipelineElf : ElfPackage)
  : M (World C) ElfPackage :=
  let* k := getChecker in
  if decide (m_fragmentCacheEntryState k = Ready /\ m_nonFragmentCacheEntryState k = Compiling)
  then
    (* Only non-fragment shaders were compiled *)
    let partialPipelineElf := pPipelineElf in
    let* (pipelineElf, merged) :=
      if decide (result = Success) then
        let* merged := call_MergeElfBinary m_pContext (m_fragmentElf k)
                         (BinaryData_of_package partialPipelineElf) in
        ret (BinaryData_of_package merged, merged)
      else ret (BinaryData_empty, EmptyString) in
    updateStageCache (bool_decide (result = Success)) pipelineElf
      (m_pNonFragmentShaderCache k) (m_hNonFragmentEntry k);;
    ret merged
  else if decide (m_nonFragmentCacheEntryState k = Ready /\ m_fragmentCacheEntryState k = Compiling)
  then
    (* Only fragment shader is compiled *)
    let partialPipelineElf := pPipelineElf in
    let* (pipelineElf, merged) :=
      if decide (result = Success) then
        let* merged := call_MergeElfBinary m_pContext
                         (BinaryData_of_package partialPipelineElf) (m_nonFragmentElf k) in
        ret (BinaryData_of_package merged, merged)
      else ret (BinaryData_empty, EmptyString) in
    updateStageCache (bool_decide (result = Success)) pipelineElf
      (m_pFragmentShaderCache k) (m_hFragmentEntry k);;
    ret merged
  else if decide (m_fragmentCacheEntryState k = Ready /\ m_nonFragmentCacheEntryState k = Ready)
  then
    (* Both shaders hit the shader cache. *)
    call_MergeElfBinary m_pContext (m_fragmentElf k) (m_nonFragmentElf k)
  else
    (* Whole pipeline is compiled *)
    let pipelineElf := BinaryData_of_package pPipelineElf in
    updateStageCache (bool_decide (result = Success)) pipelineElf
      (m_pFragmentShaderCache k) (m_hFragmentEntry k);;
    updateStageCache (bool_decide (result = Success)) pipelineElf
      (m_pNonFragmentShaderCache k) (m_hNonFragmentEntry k);;
    ret pPipelineElf.

(** [bool checkPerStageCache = ...] in [BuildPipelineInternal] *)
Definition checkPerStageCache (pContext : Context) : bool :=
  EnablePerStageCache cl && IsGraphics pContext &&
  nonzero (Z.land (GetShaderStageMask pContext)
             (Z.lor (ShaderStageToMask ShaderStageVertex)
                    (ShaderStageToMask ShaderStageFragment))).

(** The cache-check function [BuildPipelineInternal] hands to [Generate]:
    the lambda, or [nullptr] when [checkPerStageCache] is false. *)
Definition checkShaderCacheFuncOf (pContext : Context) : option (CheckShaderCacheFunc C) :=
  if checkPerStageCache pContext then Some (Check pContext) else None.

(** [Compiler::BuildPipelineInternal]; the out-parameter [pPipelineElf],
    empty on entry, is returned with the result. *)
Definition BuildPipelineInternal (pContext : Context)
  (shaderInfo : list (option PipelineShaderInfo)) (forceLoopUnrollCount : Z)
  : M (World C) (Result * ElfPackage) :=
  let pipelineModule := translateAndLink pContext shaderInfo forceLoopUnrollCount in
  (* Set up function to check shader cache. *)
  modify (setChecker GraphicsShaderCacheChecker_new);;
  let checkShaderCacheFunc := checkShaderCacheFuncOf pContext in
  (* Generate pipeline. *)
  let* (result, pPipelineElf) :=
    match pipelineModule with
    | Some pModule =>
        let* (finished, elf) := Generate pModule checkShaderCacheFunc in
        ret (if finished then Success else ErrorInvalidShader, elf)
    | None => ret (ErrorInvalidShader, EmptyString)
    end in
  let* pPipelineElf :=
    if checkPerStageCache pContext then
      (* For graphics, update shader caches with results of compile, and
         merge ELF outputs if necessary. *)
      UpdateAndMerge pContext result pPipelineElf
    else ret pPipelineElf in
  ret (result, pPipelineElf).

(** [Compiler::ValidatePipelineShaderInfo] *)
Definition ValidatePipelineShaderInfo (shaderStage : ShaderStage)
  (pShaderInfo : PipelineShaderInfo) : Result :=
  match pModuleData pShaderInfo with
  | None => Success
  | Some moduleData =>
      match binType moduleData with
      | BinaryTypeSpirv =>
          match pEntryTarget pShaderInfo with
          | Some entryTarget =>
              let stageMask := GetStageMaskFromSpirvBinary (binCode moduleData) entryTarget in
              if Z.land stageMask (ShaderStageToMask shaderStage) =? 0
              then ErrorInvalidShader else Success
          | None => ErrorInvalidShader
          end
      | BinaryTypeLlvmBc | BinaryTypeMultiLlvmBc => Success
      | BinaryTypeUnknown => ErrorInvalidShader
      end
  end.

(** [memcpy(dst, src, n)]: copying to or from a null pointer is a fault. *)
Definition memcpy (dst : option Z) (src : option string) (n : Z) : M (World C) unit :=
  if decide (n = 0) then ret tt
  else
    match dst, src with
    | Some addr, Some bytes =>
        modify (fun w =>
          setMemory (<[addr := String.substring 0 (Z.to_nat n) bytes]> (memory w)) w)
    | _, _ => fault
    end.

(** The whole-pipeline cache look-up of the two [Build*Pipeline] functions:
    the entry state, [elfBin], and the cache pointers and handles kept for
    the update. *)
Definition lookUpPipelineCache (pAppPipelineCache : option CacheRef) (cacheHash : Hash)
  (elfBin : BinaryData)
  : M (World C) (ShaderEntryState * BinaryData * list (option CacheRef) * list CacheEntryHandle) :=
  if decide (LLPC_CLIENT_INTERFACE_MAJOR_VERSION < 38) then
    LookUpShaderCaches cl pAppPipelineCache cacheHash elfBin [None; None] [None; None]
  else
    let* (st, elf, h) := LookUpShaderCache cacheHash elfBin in
    ret (st, elf, [None; None], [h]).

(** [Compiler::BuildGraphicsPipelineInternal] *)
Definition BuildGraphicsPipelineInternal (graphicsContext : Context)
  (shaderInfo : list (option PipelineShaderInfo)) (forceLoopUnrollCount : Z)
  : M (World C) (Result * ElfPackage) :=
  let result := CreateBuilder graphicsContext in
  if decide (result = Success) then
    BuildPipelineInternal graphicsContext shaderInfo forceLoopUnrollCount
  else ret (result, EmptyString).

(** [BuildGraphicsPipeline] up to the output step: validation, the cache
    look-up, the compile on a miss, the cache update.  It yields [result]
    and [elfBin]. *)
Definition BuildGraphicsPipeline_compile (pPipelineInfo : GraphicsPipelineBuildInfo)
  : M (World C) (Result * BinaryData) :=
  let shaderInfo :=
    [ (ShaderStageVertex, vs pPipelineInfo);
      (ShaderStageTessControl, tcs pPipelineInfo);
      (ShaderStageTessEval, tes pPipelineInfo);
      (ShaderStageGeometry, gs pPipelineInfo);
      (ShaderStageFragment, fs pPipelineInfo) ] in
  let result :=
    fold_left (fun result si =>
                 if decide (result = Success)
                 then ValidatePipelineShaderInfo (fst si) (snd si) else result)
      shaderInfo Success in
  let cacheHash := GenerateHashForGraphicsPipeline pPipelineInfo true in
  let* (cacheEntryState, elfBin, pShaderCache, hEntry) :=
    lookUpPipelineCache (gfx_pShaderCache pPipelineInfo) cacheHash BinaryData_empty in
  if decide (cacheEntryState = Compiling) then
    let graphicsContext :=
      mkContext true (GraphicsContext_GetShaderStageMask pPipelineInfo)
        (gfx_pShaderCache pPipelineInfo) in
    let* (result, candidateElf) :=
      BuildGraphicsPipelineInternal graphicsContext
        (map (fun si => Some (snd si)) shaderInfo) (ForceLoopUnrollCount cl) in
    let elfBin :=
      if decide (result = Success) then BinaryData_of_package candidateElf else elfBin in
    updateStageCache (bool_decide (result = Success)) elfBin pShaderCache hEntry;;
    ret (result, elfBin)
  else ret (result, elfBin).

(** The output step of [BuildGraphicsPipeline]. *)
Definition BuildGraphicsPipeline_output (pPipelineInfo : GraphicsPipelineBuildInfo)
  (result : Result) (elfBin : BinaryData) (pPipelineOut : PipelineBuildOut)
  : M (World C) (Result * PipelineBuildOut) :=
  if decide (result = Success) then
    let '(pAllocBuf, result) :=
      match gfx_pfnOutputAlloc pPipelineInfo with
      | Some pfnOutputAlloc => (pfnOutputAlloc (codeSize elfBin), result)
      | None =>
          (* Allocator is not specified *)
          (None, ErrorInvalidPointer)
      end in
    memcpy pAllocBuf (pCode elfBin) (codeSize elfBin);;
    ret (result, mkPipelineOut (codeSize elfBin) pAllocBuf)
  else ret (result, pPipelineOut).

(** [Compiler::BuildGraphicsPipeline]; the out-parameter [pPipelineOut] is
    returned with the result. *)
Definition BuildGraphicsPipeline (pPipelineInfo : GraphicsPipelineBuildInfo)
  (pPipelineOut : PipelineBuildOut) : M (World C) (Result * PipelineBuildOut) :=
  let* (result, elfBin) := BuildGraphicsPipeline_compile pPipelineInfo in
  BuildGraphicsPipeline_output pPipelineInfo result elfBin pPipelineOut.

(** [Compiler::BuildComputePipelineInternal] *)
Definition BuildComputePipelineInternal (computeContext : Context)
  (pPipelineInfo : ComputePipelineBuildInfo) (forceLoopUnrollCount : Z)
  : M (World C) (Result * ElfPackage) :=
  let result := CreateBuilder computeContext in
  if decide (result = Success) then
    BuildPipelineInternal computeContext
      [None; None; None; None; None; Some (cs pPipelineInfo)] forceLoopUnrollCount
  else ret (result, EmptyString).

(** [BuildComputePipeline] up to the output step. *)
Definition BuildComputePipeline_compile (pPipelineInfo : ComputePipelineBuildInfo)
  : M (World C) (Result * BinaryData) :=
  let result := ValidatePipelineShaderInfo ShaderStageCompute (cs pPipelineInfo) in
  let cacheHash := GenerateHashForComputePipeline pPipelineInfo true in
  let* (cacheEntryState, elfBin, pShaderCache, hEntry) :=
    lookUpPipelineCache (cs_pShaderCache pPipelineInfo) cacheHash BinaryData_empty in
  if decide (cacheEntryState = Compiling) then
    let computeContext :=
      mkContext false (ComputeContext_GetShaderStageMask pPipelineInfo)
        (cs_pShaderCache pPipelineInfo) in
    let* (result, candidateElf) :=
      BuildComputePipelineInternal computeContext pPipelineInfo (ForceLoopUnrollCount cl) in
    let elfBin :=
      if decide (result = Success) then BinaryData_of_package candidateElf else elfBin in
    updateStageCache (bool_decide (result = Success)) elfBin pShaderCache hEntry;;
    ret (result, elfBin)
  else ret (result, elfBin).

(** The output step of [BuildComputePipeline]. *)
Definition BuildComputePipeline_output (pPipelineInfo : ComputePipelineBuildInfo)
  (result : Result) (elfBin : BinaryData) (pPipelineOut : PipelineBuildOut)
  : M (World C) (Result * PipelineBuildOut) :=
  if decide (result = Success) then
    match cs_pfnOutputAlloc pPipelineInfo with
    | Some pfnOutputAlloc =>
        match pfnOutputAlloc (codeSize elfBin) with
        | Some pAllocBuf =>
            memcpy (Some pAllocBuf) (pCode elfBin) (codeSize elfBin);;
            ret (result, mkPipelineOut (codeSize elfBin) (Some pAllocBuf))
        | None => ret (ErrorOutOfMemory, pPipelineOut)
        end
    | None =>
        (* Allocator is not specified *)
        ret (ErrorInvalidPointer, pPipelineOut)
    end
  else ret (result, pPipelineOut).

(** [Compiler::BuildComputePipeline] *)
Definition BuildComputePipeline (pPipelineInfo : ComputePipelineBuildInfo)
  (pPipelineOut : PipelineBuildOut) : M (World C) (Result * PipelineBuildOut) :=
  let* (result, elfBin) := BuildComputePipeline_compile pPipelineInfo in
  BuildComputePipeline_output pPipelineInfo result elfBin pPipelineOut.

(** The locals of [BuildShaderModule] when it reaches "Allocate memory and
    copy output data". *)
Record ShaderModuleBuild : Type := mkModuleBuild {
  sm_result : Result;
  sm_moduleData : ShaderModuleData;
  sm_moduleEntries : list ShaderModuleEntry;
  sm_cacheEntryState : ShaderEntryState;
  sm_hEntry : CacheEntryHandle;
  sm_cacheData : BinaryData
}.

Definition set_binCode (code : BinaryData) (d : ShaderModuleData) : ShaderModuleData :=
  mkModuleData (hash d) (binType d) code (moduleInfo d).

Definition set_binType (t : BinaryType) (d : ShaderModuleData) : ShaderModuleData :=
  mkModuleData (hash d) t (binCode d) (moduleInfo d).

Definition set_moduleInfo (i : ShaderModuleInfo) (d : ShaderModuleData) : ShaderModuleData :=
  mkModuleData (hash d) (binType d) (binCode d) i.

(** A scan of a SPIR-V binary in a function that has the state: when the
    scan reads or writes outside a buffer, or never leaves its loop, the
    caller does not return. *)
Definition call_scan {A : Type} (run : Spirv.Run A) : M (World C) A :=
  match run with
  | Spirv.Done a => ret a
  | Spirv.OutOfBounds => fault
  | Spirv.Spins => fault
  end.

(** [moduleData.moduleInfo] as [CollectInfoFromSpirvBinary] is handed it.
    The flags that only that function names are those of
    [ShaderModuleData moduleData = {}]. *)
Definition scanInfoOf (i : ShaderModuleInfo) : Spirv.ShaderModuleInfo :=
  Spirv.mkModuleInfo (cacheHash i) (debugInfoSize i) false false false false
    (useSpecConstant i) (entryCount i).

(** [moduleData.moduleInfo] after [CollectInfoFromSpirvBinary], by the
    members the build functions read or write. *)
Definition moduleInfoOf (i : Spirv.ShaderModuleInfo) : ShaderModuleInfo :=
  mkModuleInfo (Spirv.cacheHash i) (Spirv.debugInfoSize i) (Spirv.useSpecConstant i)
    (Spirv.entryCount i).

(** "Check the type of input shader binary": the result so far, the module
    data, the entry names.  The result of [CollectInfoFromSpirvBinary] is
    not looked at. *)
Definition BuildShaderModule_checkType (pShaderInfo : ShaderModuleBuildInfo)
  : M (World C) (Result * ShaderModuleData * list Spirv.ShaderEntryName) :=
  let bin := shaderBin pShaderInfo in
  let moduleData :=
    mkModuleData (MetroHash64_Hash bin) BinaryTypeUnknown BinaryData_empty
      (mkModuleInfo 0 0 false 0) in
  if IsSpirvBinary bin then
    let moduleData := set_binType BinaryTypeSpirv moduleData in
    let result :=
      if decide (VerifySpirvBinary bin <> Success) then Unsupported else Success in
    let* (moduleData, entryNames) :=
      if decide (result = Success) then
        let* (_, info, entryNames) :=
          call_scan (Spirv.CollectInfoFromSpirvBinary ConvertToStageShage bin
                       (scanInfoOf (moduleInfo moduleData)) []) in
        ret (set_moduleInfo (moduleInfoOf info) moduleData, entryNames)
      else ret (moduleData, []) in
    let size := codeSize bin in
    let size :=
      if TrimDebugInfo cl then wrap64 (size - debugInfoSize (moduleInfo moduleData))
      else size in
    ret (result, set_binCode (mkBinaryData (pCode (binCode moduleData)) size) moduleData,
         entryNames)
  else if IsLlvmBitcode bin then
    ret (Success, set_binCode bin (set_binType BinaryTypeLlvmBc moduleData), [])
  else ret (ErrorInvalidShader, moduleData, []).

(** The locals of the loop over [entryNames]. *)
Record LowerState : Type := mkLower {
  lo_result : Result;
  lo_moduleBinary : string;
  lo_moduleEntries : list ShaderModuleEntry
}.

(** The loop [for (i = 0; i < entryNames.size(); ++i)]: each entry is
    translated and lowered to bitcode, followed by its resource usage. *)
Fixpoint lowerEntries (moduleData : ShaderModuleData) (entryNames : list ShaderEntryName)
  (s : LowerState) : LowerState :=
  match entryNames with
  | [] => s
  | entryName :: rest =>
      match lowerShaderModuleEntry moduleData entryName with
      | None =>
          mkLower ErrorInvalidShader (lo_moduleBinary s) (lo_moduleEntries s)
      | Some (bitcode, resUsage, passIndex) =>
          let name := entryName_pName entryName in
          let moduleEntry :=
            mkModuleEntry (entryName_stage entryName)
              (MetroHash64_Hash (mkBinaryData (Some name) (Z.of_nat (String.length name))))
              (Z.of_nat (String.length (lo_moduleBinary s)))
              (Z.of_nat (String.length bitcode))
              (Z.of_nat (String.length resUsage))
              passIndex in
          lowerEntries moduleData rest
            (mkLower (lo_result s)
               (lo_moduleBinary s ++ bitcode ++ resUsage)%string
               (lo_moduleEntries s ++ [moduleEntry]))
      end
  end.

(** [strlen(p)] and the other reads of a [const char*]: the bytes up to
    the terminating NUL; [None] when the buffer ends before one. *)
Fixpoint cstring (bytes : list ascii) : option string :=
  match bytes with
  | [] => None
  | b :: rest =>
      if Ascii.eqb b Ascii.zero then Some EmptyString
      else
        match cstring rest with
        | Some name => Some (String b name)
        | None => None
        end
  end.

(** [entryNames[i]] with its name read: [pName] points into the shader
    binary. *)
Definition entryNameAt (code : list ascii) (entryName : Spirv.ShaderEntryName)
  : option ShaderEntryName :=
  match cstring (drop (Spirv.pName entryName) code) with
  | Some name => Some (mkEntryName (Spirv.stage entryName) name)
  | None => None
  end.

(** The entry names the loop over [entryNames] reads, one in each turn it
    enters: the loop is left at the first entry that fails to lower, and
    the names behind that entry are not read.  A name that is not
    terminated inside the binary is read past the end of the binary. *)
Fixpoint readEntryNames (code : list ascii) (moduleData : ShaderModuleData)
  (entryNames : list Spirv.ShaderEntryName) : M (World C) (list ShaderEntryName) :=
  match entryNames with
  | [] => ret []
  | entryName :: rest =>
      let* entryName := deref (entryNameAt code entryName) in
      match lowerShaderModuleEntry moduleData entryName with
      | None => ret [entryName]
      | Some _ =>
          let* names := readEntryNames code moduleData rest in
          ret (entryName :: names)
      end
  end.

(** [BuildShaderModule] up to the output step.  The buffer of the trimmed
    code is [new uint8_t[moduleData.binCode.codeSize]], so that size bounds
    the writes of [TrimSpirvDebugInfo]; its parameter [bufferSize] is read
    by assertions only.  The names of the entry points are read in
    [pShaderInfo->shaderBin], which [pName] points into. *)
Definition BuildShaderModule_compile (pShaderInfo : ShaderModuleBuildInfo)
  : M (World C) ShaderModuleBuild :=
  let* (result, moduleData, entryNames) := BuildShaderModule_checkType pShaderInfo in
  if decide (binType moduleData = BinaryTypeSpirv) then
    (* Trim debug info *)
    let* code :=
      if TrimDebugInfo cl then
        let* pTrimmedCode :=
          call_scan (Spirv.TrimSpirvDebugInfo (shaderBin pShaderInfo)
                       (codeSize (binCode moduleData))) in
        ret (Some pTrimmedCode)
      else ret (pCode (shaderBin pShaderInfo)) in
    let moduleData := set_binCode (mkBinaryData code (codeSize (binCode moduleData))) moduleData in
    (* Calculate SPIR-V cache hash *)
    let spirvCacheHash := MetroHash64_Hash (binCode moduleData) in
    let info := moduleInfo moduleData in
    let moduleData :=
      set_moduleInfo
        (mkModuleInfo spirvCacheHash (debugInfoSize info) (useSpecConstant info)
           (entryCount info))
        moduleData in
    (* Do SPIR-V translate & lower if possible *)
    let enableOpt := EnableShaderModuleOpt cl in
    let enableOpt :=
      if decide (LLPC_CLIENT_INTERFACE_MAJOR_VERSION >= 32)
      then enableOpt || shader_enableOpt pShaderInfo else enableOpt in
    let enableOpt := if useSpecConstant info then false else enableOpt in
    if enableOpt then
      (* Check internal cache for shader module build result *)
      let* (cacheEntryState, hEntry) := call_FindShader m_shaderCache spirvCacheHash true in
      let* (result, cacheData) :=
        if decide (cacheEntryState = Ready)
        then call_RetrieveShader m_shaderCache hEntry BinaryData_empty
        else ret (result, BinaryData_empty) in
      if decide (cacheEntryState <> Ready) then
        let result := CreateBuilder (mkContext false 0 None) in
        let* names :=
          readEntryNames (Spirv.bufferOf (shaderBin pShaderInfo)) moduleData entryNames in
        let lowered := lowerEntries moduleData names (mkLower result EmptyString []) in
        let moduleData :=
          if decide (lo_result lowered = Success) then
            let info := moduleInfo moduleData in
            mkModuleData (hash moduleData) BinaryTypeMultiLlvmBc
              (BinaryData_of_package (lo_moduleBinary lowered))
              (mkModuleInfo (cacheHash info) (debugInfoSize info)
                 (useSpecConstant info) (Z.of_nat (length entryNames)))
          else moduleData in
        ret (mkModuleBuild (lo_result lowered) moduleData (lo_moduleEntries lowered)
               cacheEntryState hEntry cacheData)
      else ret (mkModuleBuild result moduleData [] cacheEntryState hEntry cacheData)
    else ret (mkModuleBuild result moduleData [] New None BinaryData_empty)
  else ret (mkModuleBuild result moduleData [] New None BinaryData_empty).

Definition writeMemory (addr : Z) (bytes : string) : M (World C) unit :=
  modify (fun w => setMemory (<[addr := bytes]> (memory w)) w).

(** "Allocate memory and copy output data" in [BuildShaderModule]. *)
Definition BuildShaderModule_output (pShaderInfo : ShaderModuleBuildInfo)
  (b : ShaderModuleBuild) (pShaderOut : ShaderModuleBuildOut)
  : M (World C) (Result * ShaderModuleBuildOut) :=
  let moduleData := sm_moduleData b in
  let cacheEntryState := sm_cacheEntryState b in
  let hEntry := sm_hEntry b in
  let '(result, pAllocBuf, allocSize) :=
    if decide (sm_result b = Success) then
      match shader_pfnOutputAlloc pShaderInfo with
      | Some pfnOutputAlloc =>
          let allocSize :=
            if decide (cacheEntryState <> Ready) then
              wrap64 (sizeof_ShaderModuleData + codeSize (binCode moduleData) +
                      entryCount (moduleInfo moduleData) * sizeof_ShaderModuleEntry)
            else codeSize (sm_cacheData b) in
          let pAllocBuf := pfnOutputAlloc allocSize in
          (match pAllocBuf with
           | Some _ => Success
           | None => ErrorOutOfMemory
           end, pAllocBuf, allocSize)
      | None =>
          (* Allocator is not specified *)
          (ErrorInvalidPointer, None, codeSize (sm_cacheData b))
      end
    else (sm_result b, None, codeSize (sm_cacheData b)) in
  if decide (result = Success) then
    let* pModuleData := deref pAllocBuf in
    (if decide (cacheEntryState <> Ready) then
       (* Copy module data, entry info, binary code *)
       (if decide (codeSize (binCode moduleData) = 0) then ret tt
        else (let* _ := deref (pCode (binCode moduleData)) in ret tt));;
       let bytes := ShaderModuleData_bytes moduleData (sm_moduleEntries b) in
       writeMemory pModuleData bytes;;
       (if decide (cacheEntryState = Compiling) then
          match hEntry with
          | Some _ =>
              call_InsertShader m_shaderCache hEntry (mkBinaryData (Some bytes) allocSize)
          | None => ret tt
          end
        else ret tt)
     else memcpy (Some pModuleData) (pCode (sm_cacheData b)) allocSize);;
    (* Update the pointers *)
    modify (fun w =>
      setMemory
        (<[pModuleData :=
             ShaderModuleData_updatePointers pModuleData
               (default EmptyString (memory w !! pModuleData))]> (memory w)) w);;
    ret (result, mkShaderOut (Some pModuleData))
  else
    match hEntry with
    | Some _ => call_ResetShader m_shaderCache hEntry;; ret (result, pShaderOut)
    | None => ret (result, pShaderOut)
    end.

(** [Compiler::BuildShaderModule]; the out-parameter [pShaderOut] is
    returned with the result. *)
Definition BuildShaderModule (pShaderInfo : ShaderModuleBuildInfo)
  (pShaderOut : ShaderModuleBuildOut) : M (World C) (Result * ShaderModuleBuildOut) :=
  let* b := BuildShaderModule_compile pShaderInfo in
  BuildShaderModule_output pShaderInfo b pShaderOut.

End Build.

(* ===================================================================== *)
(** * 7. Small implementations of the collaborators *)
(* ===================================================================== *)

(** Implementations small enough to run the functions above on concrete
    inputs. *)
Module Doubles.

(** A hasher that keeps what it was fed; the hash is its length. *)
#[local] Instance lengthHash : MetroHash64 := {|
  Hasher := string;
  Hasher_new := EmptyString;
  Update := fun h bytes => (h ++ bytes)%string;
  Finalize := fun h => Z.of_nat (String.length h)
|}.

(** An entry of the cache: its state, its blob, and whether the backing
    store still has the blob. *)
Record CacheEntry : Type := mkCacheEntry {
  ce_state : ShaderEntryState;
  ce_blob : BinaryData;
  ce_stored : bool
}.

(** Modelled from the spec: the [ShaderCache] class is outside the sources;
    section 4.3 of the spec has a key to state to blob mapping with
    look-up, claim, retrieve, insert and reset.  The handle of an entry is
    its key. *)
Definition MapCache := gmap Z CacheEntry.

Definition MapCache_FindShader (c : MapCache) (hash : Hash) (allocateOnMiss : bool)
  : (ShaderEntryState * CacheEntryHandle) * MapCache :=
  match c !! hash with
  | Some e => ((ce_state e, Some hash), c)
  | None =>
      if allocateOnMiss
      then ((Compiling, Some hash), <[hash := mkCacheEntry Compiling BinaryData_empty true]> c)
      else ((New, None), c)
  end.

Definition MapCache_RetrieveShader (c : MapCache) (hEntry : CacheEntryHandle)
  (blob : BinaryData) : (Result * BinaryData) * MapCache :=
  match hEntry with
  | Some key =>
      match c !! key with
      | Some e =>
          if decide (ce_state e = Ready) then
            if ce_stored e then ((Success, ce_blob e), c) else ((ErrorUnknown, blob), c)
          else ((ErrorUnknown, blob), c)
      | None => ((ErrorUnknown, blob), c)
      end
  | None => ((ErrorUnknown, blob), c)
  end.

Definition MapCache_InsertShader (c : MapCache) (hEntry : CacheEntryHandle) (blob : BinaryData)
  : MapCache :=
  match hEntry with
  | Some key =>
      match c !! key with
      | Some e =>
          if decide (ce_state e = Compiling) then <[key := mkCacheEntry Ready blob true]> c
          else c
      | None => c
      end
  | None => c
  end.

Definition MapCache_ResetShader (c : MapCache) (hEntry : CacheEntryHandle) : MapCache :=
  match hEntry with
  | Some key =>
      match c !! key with
      | Some e => if decide (ce_state e = Compiling) then delete key c else c
      | None => c
      end
  | None => c
  end.

#[local] Instance mapCache : ShaderCacheClass MapCache := {|
  FindShader := MapCache_FindShader;
  RetrieveShader := MapCache_RetrieveShader;
  InsertShader := MapCache_InsertShader;
  ResetShader := MapCache_ResetShader
|}.

Definition emptyWorld : World MapCache :=
  mkWorld ∅ ∅ GraphicsShaderCacheChecker_new ∅ [].

Definition commandLine : CommandLine :=
  mkCommandLine ShaderCacheOtherMode true true false 0.

(** The internal cache has the binary "elf" under key 7; the application
    cache is empty. *)
Definition internalHitWorld : World MapCache :=
  mkWorld ∅ {[ 7 := mkCacheEntry Ready (mkBinaryData (Some "elf"%string) 3) true ]}
    GraphicsShaderCacheChecker_new ∅ [].

(** The internal cache has an entry under key 7 whose blob is gone from the
    backing store. *)
Definition staleWorld : World MapCache :=
  mkWorld ∅ {[ 7 := mkCacheEntry Ready (mkBinaryData (Some "elf"%string) 3) false ]}
    GraphicsShaderCacheChecker_new ∅ [].

(** ELF images for the parser double, chosen by the text of the buffer. *)
Definition imageOf (images : list (string * ElfImage)) (bin : BinaryData) : ElfImage :=
  match pCode bin with
  | Some text =>
      match find (fun entry => String.eqb (fst entry) text) images with
      | Some entry => snd entry
      | None => mkElfImage [] [] None
      end
  | None => mkElfImage [] [] None
  end.

(** The first [size1] bytes of the first section, then the second section
    from [offset2] on, each behind its prefix string. *)
Definition spliceSections (sec1 : ElfSectionBuffer) (size1 : Z) (prefix1 : option string)
  (sec2 : ElfSectionBuffer) (offset2 : Z) (prefix2 : option string) : ElfSectionBuffer :=
  let part1 := String.substring 0 (Z.to_nat size1) (pData sec1) in
  let part2 :=
    String.substring (Z.to_nat offset2) (String.length (pData sec2) - Z.to_nat offset2)
      (pData sec2) in
  let data := (default EmptyString prefix1 ++ part1 ++ default EmptyString prefix2 ++ part2)%string in
  mkElfSection (pName sec1) data (Z.of_nat (String.length data)).

(** The names of the symbols that are bound to a section, each followed by
    a semicolon, then the data of the sections. *)
Definition printImage (invalid : Z) (image : ElfImage) : ElfPackage :=
  (String.concat EmptyString
     (map (fun sym => (pSymName sym ++ ";")%string)
        (filter (fun sym => secIdx sym <> invalid) (symbols image)))
   ++ String.concat EmptyString (map pData (sections image)))%string.

Definition elfLibraryOf (images : list (string * ElfImage)) : ElfLibrary := {|
  InvalidValue := 0xFFFFFFFF;
  FragmentIsaSymbolName := "_amdgpu_ps_main";
  TextName := ".text";
  AmdGpuDisassemblyName := ".AMDGPU.disasm";
  AmdGpuCommentLlvmIrName := ".AMDGPU.comment.llvmir";
  ElfWriter_ReadFromBuffer := fun bin => (Success, imageOf images bin);
  ElfReader_ReadFromBuffer := fun bin => (Success, imageOf images bin);
  MergeSection := spliceSections;
  MergeMetaNote := fun _ note1 note2 =>
    Some (default EmptyString note1 ++ default EmptyString note2)%string;
  WriteToBuffer := printImage 0xFFFFFFFF
|}.

Local Open Scope string_scope.

(** A fragment-only image and a non-fragment image, and the buffers that
    stand for them. *)
Definition fragmentImage : ElfImage :=
  mkElfImage [mkElfSection ".text" "FRAGCODE" 8]
    [mkElfSymbol "_amdgpu_ps_main" 0 None 0 8]
    (Some "ps-metadata"%string).

Definition nonFragmentImage : ElfImage :=
  mkElfImage [mkElfSection ".text" "VSCODE" 6]
    [mkElfSymbol "_amdgpu_vs_main" 0 None 0 6]
    (Some "vs-metadata"%string).

(** A fragment image without the fragment entry symbol. *)
Definition fragmentImageNoEntry : ElfImage :=
  mkElfImage [mkElfSection ".text" "FRAGCODE" 8]
    [mkElfSymbol "helper" 0 None 0 8]
    (Some "ps-metadata"%string).

(** A non-fragment image with a placeholder for the fragment entry. *)
Definition nonFragmentImagePlaceholder : ElfImage :=
  mkElfImage [mkElfSection ".text" "VSCODE" 6]
    [mkElfSymbol "_amdgpu_vs_main" 0 None 0 6;
     mkElfSymbol "_amdgpu_ps_main" 0 None 4 0;
     mkElfSymbol "after" 0 None 5 1]
    (Some "vs-metadata"%string).


(** A fragment image with a symbol listed before the entry symbol. *)
Definition fragmentImageEarlySymbol : ElfImage :=
  mkElfImage [mkElfSection ".text" "HELPFRAGCODE" 12]
    [mkElfSymbol "helper" 0 None 0 4;
     mkElfSymbol "_amdgpu_ps_main" 0 None 4 8]
    (Some "ps-metadata"%string).

Definition images : list (string * ElfImage) :=
  [ ("frag", fragmentImage);
    ("nonfrag", nonFragmentImage);
    ("frag-no-entry", fragmentImageNoEntry);
    ("nonfrag-placeholder", nonFragmentImagePlaceholder);
    ("frag-early-symbol", fragmentImageEarlySymbol) ]%string.

Definition elfLibrary : ElfLibrary := elfLibraryOf images.

Definition buffer (text : string) : BinaryData :=
  mkBinaryData (Some text) (Z.of_nat (String.length text)).

(** What the [Generate] double writes for the stages it is left with. *)
Definition elfForStages (stageMask : Z) : ElfPackage :=
  if (stageMask =? 0)%Z then EmptyString
  else if (stageMask =? 16)%Z then "frag"
  else if (Z.land stageMask 16 =? 0)%Z then "nonfrag"
  else "whole".

Definition text_starts_with (prefix : string) (bin : BinaryData) : bool :=
  match pCode bin with
  | Some text => String.prefix prefix text
  | None => false
  end.

(** The execution models of the vertex, fragment and compute stages. *)
Definition stageOfExecutionModel (execModel : Z) : ShaderStage :=
  if (execModel =? 4)%Z then ShaderStageFragment
  else if (execModel =? 5)%Z then ShaderStageCompute
  else ShaderStageVertex.

Definition bytesOfWords (words : list Z) : string :=
  string_of_list_ascii (concat (map (BinaryStream.bytesOf 4) words)).

Definition spirvHeader : list Z := [0x07230203; 0x00010000; 0; 10; 0]%Z.

(** A SPIR-V module of ten words: the header and
    [OpEntryPoint Vertex %1 "main"], whose name starts at byte 32. *)
Definition shaderCode : string :=
  bytesOfWords (spirvHeader ++ [0x0005000F; 0; 1; 0x6E69616D; 0]%Z).

Definition shaderBinary : BinaryData := buffer shaderCode.

(** A pipeline dumper that feeds one letter for each part of the state;
    the vertex input state is a number, fed as that many letters. *)
Definition updateHashForPipelineShaderInfo (stage : ShaderStage) (info : PipelineShaderInfo)
  (isCacheHash : bool) (hasher : string) : string :=
  hasher ++ "s".

Definition updateHashForVertexInputState (vertexInput : Z) (hasher : string) : string :=
  hasher ++ String.concat EmptyString (repeat "v" (Z.to_nat vertexInput)).

Definition updateHashForFragmentState (state : Z) (hasher : string) : string :=
  hasher ++ "f".

Definition updateHashForNonFragmentState (state : Z) (isCacheHash : bool) (hasher : string)
  : string :=
  hasher ++ "n".

(** A pipeline whose stages carry no module data. *)
Definition noShader : PipelineShaderInfo := mkShaderInfo None None ShaderStageVertex.

Definition hashContext : StageHash.HashContext Z Z :=
  StageHash.mkHashContext Z Z (fun _ => noShader) 0 1 5
    (StageHash.mkPipelineOptions false false false false false false false).

(** The in/out usage the [Generate] double hands to the cache check, one
    entry for each graphics stage. *)
Definition stageHashes : list string := ["vs"; EmptyString; EmptyString; EmptyString; "fs"].

(** Collaborators for a pipeline whose module is [pModule] and whose
    stages are [stageMask]: every step succeeds, a buffer is SPIR-V when it
    starts with the magic number, the hash of a buffer is its size, and the
    pipeline keys are 100 and 200.  With the hasher that counts bytes, the
    key of the fragment stage is 14 (eight bytes of stage hash, five
    options, one letter) and the key of a vertex stage alone is 9. *)
Definition collaboratorsOf (stageMask : Z) (pModule : Module) : Collaborators MapCache := {|
  metroHash := lengthHash;
  MetroHash64_Hash := codeSize;
  Compact64 := fun hash => hash;
  IsSpirvBinary := text_starts_with (bytesOfWords [0x07230203%Z]);
  IsLlvmBitcode := text_starts_with "BC";
  VerifySpirvBinary := fun _ => Success;
  ConvertToStageShage := stageOfExecutionModel;
  GetStageMaskFromSpirvBinary := fun _ _ => 63%Z;
  lowerShaderModuleEntry := fun _ _ => Some ("bitcode", "usage", 1%Z);
  sizeof_ShaderModuleData := 64%Z;
  sizeof_ShaderModuleEntry := 32%Z;
  ShaderModuleData_bytes := fun moduleData _ =>
    "module:" ++ default EmptyString (pCode (binCode moduleData));
  ShaderModuleData_updatePointers := fun _ bytes => bytes;
  GenerateHashForGraphicsPipeline := fun _ _ => 100%Z;
  GenerateHashForComputePipeline := fun _ _ => 200%Z;
  GraphicsContext_GetShaderStageMask := fun _ => stageMask;
  ComputeContext_GetShaderStageMask := fun _ => 32%Z;
  VertexInputState := Z;
  PipelineState := Z;
  hashContextOf := fun _ => hashContext;
  UpdateHashForPipelineShaderInfo := updateHashForPipelineShaderInfo;
  UpdateHashForVertexInputState := updateHashForVertexInputState;
  UpdateHashForFragmentState := updateHashForFragmentState;
  UpdateHashForNonFragmentState := updateHashForNonFragmentState;
  CreateBuilder := fun _ => Success;
  translateAndLink := fun _ _ _ => Some pModule;
  Generate := fun pModule checkShaderCacheFunc =>
    let* keep :=
      match checkShaderCacheFunc with
      | Some check => check pModule stageMask stageHashes
      | None => ret stageMask
      end in
    ret (true, elfForStages keep)
|}.

(** Pipelines whose stages carry no module data, with the given output
    allocator. *)
Definition graphicsInfo (pfnOutputAlloc : option OutputAllocFunc) : GraphicsPipelineBuildInfo :=
  mkGraphicsInfo noShader noShader noShader noShader noShader None pfnOutputAlloc.

Definition computeInfo (pfnOutputAlloc : option OutputAllocFunc) : ComputePipelineBuildInfo :=
  mkComputeInfo noShader None pfnOutputAlloc.

(** An allocator that is out of memory, and one that hands out address
    4096. *)
Definition allocNull : OutputAllocFunc := fun _ => None.
Definition allocAt4096 : OutputAllocFunc := fun _ => Some 4096%Z.

(** The internal cache holds the non-fragment ELF under key 9. *)
Definition nonFragmentCachedWorld : World MapCache :=
  mkWorld ∅ {[ 9%Z := mkCacheEntry Ready (buffer "nonfrag") true ]}
    GraphicsShaderCacheChecker_new ∅ [].

End Doubles.

(* ===================================================================== *)
(** * Compiler instances and the context pool *)
(* ===================================================================== *)

(** [ICompiler::Create], the constructor and the destructor of [Compiler],
    [AcquireContext] and [ReleaseContext] work on the static members of
    [Compiler] and on two file-level statics.  They are gathered in one
    record here and passed along; the mutexes that guard them in the source
    are not modelled, calls run one after the other. *)
Module Runtime.

(** [GfxIpVersion] *)
Record GfxIpVersion : Type := mkGfxIp {
  major : Z;
  minor : Z;
  stepping : Z
}.

#[global] Instance GfxIpVersion_eq_dec : EqDecision GfxIpVersion.
Proof. solve_decision. Defined.

(** A [Context] object of the pool, by the two members the pool looks at:
    [GetGfxIpVersion()] and [IsInUse()]. *)
Record Context : Type := mkContext {
  m_gfxIp : GfxIpVersion;
  m_isInUse : bool
}.

(** A [Compiler] object: its members. *)
Record Compiler : Type := mkCompiler {
  m_options : list string;
  m_optionHash : Hash;
  compiler_gfxIp : GfxIpVersion
}.

(** The calls that leave [llpcCompiler.cpp], in the order they were
    made. *)
Inductive Event : Type :=
| EvResetOptions
| EvParseCommandLineOptions (options : list string) (ignoreErrors : bool)
| EvRedirectLogOutput (restoreToDefault : bool) (options : list string)
| EvInitializeLlvm
| EvGetShaderCacheObject (gfxIp : GfxIpVersion) (optionHash : Hash)
| EvReleaseShaderCacheObject
| EvShaderCacheManagerShutdown
| EvLlvmShutdown.

(** The statics: [Compiler::m_instanceCount], [Compiler::m_outRedirectCount],
    [s_optionHash], [Compiler::m_pContextPool] (a pointer to a vector of
    pointers; [None] is [nullptr]); with them the [Context] and [Compiler]
    objects on the heap, by address, and the calls made so far. *)
Record State : Type := mkState {
  m_instanceCount : Z;
  m_outRedirectCount : Z;
  s_optionHash : Hash;
  m_pContextPool : option (list Z);
  contexts : gmap Z Context;
  compilers : gmap Z Compiler;
  events : list Event
}.

(** Before the first call: the counters are zero-initialised, the pool
    pointer is null. *)
Definition initial : State := mkState 0 0 0 None ∅ ∅ [].

Definition set_m_instanceCount (v : Z) (s : State) : State :=
  mkState v (m_outRedirectCount s) (s_optionHash s) (m_pContextPool s) (contexts s)
    (compilers s) (events s).

Definition set_m_outRedirectCount (v : Z) (s : State) : State :=
  mkState (m_instanceCount s) v (s_optionHash s) (m_pContextPool s) (contexts s)
    (compilers s) (events s).

Definition set_s_optionHash (v : Hash) (s : State) : State :=
  mkState (m_instanceCount s) (m_outRedirectCount s) v (m_pContextPool s) (contexts s)
    (compilers s) (events s).

Definition set_m_pContextPool (v : option (list Z)) (s : State) : State :=
  mkState (m_instanceCount s) (m_outRedirectCount s) (s_optionHash s) v (contexts s)
    (compilers s) (events s).

Definition set_contexts (v : gmap Z Context) (s : State) : State :=
  mkState (m_instanceCount s) (m_outRedirectCount s) (s_optionHash s) (m_pContextPool s) v
    (compilers s) (events s).

Definition set_compilers (v : gmap Z Compiler) (s : State) : State :=
  mkState (m_instanceCount s) (m_outRedirectCount s) (s_optionHash s) (m_pContextPool s)
    (contexts s) v (events s).

Definition call (e : Event) : M State unit :=
  modify (fun s =>
    mkState (m_instanceCount s) (m_outRedirectCount s) (s_optionHash s) (m_pContextPool s)
      (contexts s) (compilers s) (events s ++ [e])).

Section Instances.

Context {metroHash : MetroHash64}.

(** [ArgStr] of the four options defined in another file, as for
    [GenerateHashForCompileOptions]. *)
Variables EnableOuts_ArgStr EnableErrs_ArgStr : string.
Variables LogFileDbgs_ArgStr LogFileOuts_ArgStr : string.

(** [VkIcdName], the client name of the Vulkan driver, is declared outside
    the sources. *)
Variable VkIcdName : string.

(** [cl::ParseCommandLineOptions] is LLVM's: whether these arguments
    parse. *)
Variable ParseCommandLineOptions : list string -> bool.

(** [new] picks an address that no live object of the kind has. *)
Variable newAddress : gset Z -> Z.

(** The value of [maxResidentContexts] that the destructor computes at each
    turn of its loop: 0, or [strtoul] of the environment variable
    [AMD_RESIDENT_CONTEXTS] when that is set. *)
Variable maxResidentContexts : Z.

(** [Compiler::Compiler]; the object is built at [this]. *)
Definition Compiler_new (this : Z) (gfxIp : GfxIpVersion) (pOptions : list string)
  (optionHash : Hash) : M State unit :=
  modify (fun s => set_compilers (<[this := mkCompiler pOptions optionHash gfxIp]> (compilers s)) s);;
  let* s := get in
  (if decide (m_outRedirectCount s = 0)
   then call (EvRedirectLogOutput false pOptions) else ret tt);;
  (if decide (m_instanceCount s = 0) then
     call EvInitializeLlvm;;
     (* Initiailze m_pContextPool. *)
     modify (set_m_pContextPool (Some []))
   else ret tt);;
  (* Initialize shader cache *)
  call (EvGetShaderCacheObject gfxIp optionHash);;
  modify (fun s => set_m_instanceCount (wrap32 (m_instanceCount s + 1)) s);;
  modify (fun s => set_m_outRedirectCount (wrap32 (m_outRedirectCount s + 1)) s).

(** [ICompiler::Create]: the result, with the out-parameter [*ppCompiler]
    ([None] is [nullptr]). *)
Definition Create (gfxIp : GfxIpVersion) (options : list string)
  : M State (Result * option Z) :=
  let* pClient := array_get options 0 in
  let ignoreErrors := String.eqb pClient VkIcdName in
  let* optionHash :=
    deref (GenerateHashForCompileOptions EnableOuts_ArgStr EnableErrs_ArgStr
             LogFileDbgs_ArgStr LogFileOuts_ArgStr options) in
  let* s := get in
  let* (result, parseCmdOption) :=
    if decide (m_instanceCount s > 0) then
      let isSameOption := bool_decide (optionHash = s_optionHash s) in
      if isSameOption then ret (Success, false)
      else if decide (m_outRedirectCount s = 0) then
        (* All compiler instances are destroyed, we can reset LLVM options
           in safe *)
        call EvResetOptions;;
        ret (Success, true)
      else ret (ErrorInvalidValue, false)
    else ret (Success, true) in
  let* result :=
    if parseCmdOption then
      (* LLVM command options can't be parsed multiple times *)
      call (EvParseCommandLineOptions options ignoreErrors);;
      ret (if ParseCommandLineOptions options then result else ErrorInvalidValue)
    else ret result in
  if decide (result = Success) then
    modify (set_s_optionHash optionHash);;
    let* s := get in
    let this := newAddress (dom (compilers s)) in
    Compiler_new this gfxIp options optionHash;;
    ret (result, Some this)
  else ret (ErrorInvalidValue, None).

(** The loop of the destructor over the pool: [kept] are the pointers the
    iterator has passed, [todo] the ones from the iterator on; the size of
    the vector is the length of both. *)
Fixpoint freeContexts (kept todo : list Z) : M State (list Z) :=
  match todo with
  | [] => ret kept
  | pContext :: rest =>
      let* s := get in
      let* context := deref (contexts s !! pContext) in
      if negb (m_isInUse context) &&
         bool_decide (maxResidentContexts < Z.of_nat (length kept + length todo))
      then
        modify (fun s => set_contexts (delete pContext (contexts s)) s);;
        freeContexts kept rest
      else freeContexts (kept ++ [pContext]) rest
  end.

(** [Compiler::~Compiler], with the [delete this] of [Compiler::Destroy]. *)
Definition Destroy (this : Z) : M State unit :=
  let* s := get in
  let* compiler := deref (compilers s !! this) in
  (* Free context pool *)
  let* pool := deref (m_pContextPool s) in
  let* pool := freeContexts [] pool in
  modify (set_m_pContextPool (Some pool));;
  (* Restore default output *)
  modify (fun s => set_m_outRedirectCount (wrap32 (m_outRedirectCount s - 1)) s);;
  let* s := get in
  (if decide (m_outRedirectCount s = 0)
   then call (EvRedirectLogOutput true []) else ret tt);;
  call EvReleaseShaderCacheObject;;
  let* option0 := array_get (m_options compiler) 0 in
  (if String.eqb option0 VkIcdName then
     (* NOTE: Skip subsequent cleanup work for Vulkan ICD. The work will
        be done by system itself *)
     ret tt
   else
     modify (fun s => set_m_instanceCount (wrap32 (m_instanceCount s - 1)) s);;
     let* s := get in
     let shutdown := bool_decide (m_instanceCount s = 0) in
     if shutdown then
       call EvShaderCacheManagerShutdown;;
       call EvLlvmShutdown;;
       modify (set_m_pContextPool None)
     else ret tt);;
  modify (fun s => set_compilers (delete this (compilers s)) s).

(** The search of [AcquireContext] in the pool: the first context that is
    not in use and has the version asked for. *)
Fixpoint findFreeContext (gfxIp : GfxIpVersion) (pool : list Z) : M State (option Z) :=
  match pool with
  | [] => ret None
  | pContext :: rest =>
      let* s := get in
      let* context := deref (contexts s !! pContext) in
      let gfxIpVersion := m_gfxIp context in
      if negb (m_isInUse context) &&
         bool_decide (major gfxIpVersion = major gfxIp) &&
         bool_decide (minor gfxIpVersion = minor gfxIp) &&
         bool_decide (stepping gfxIpVersion = stepping gfxIp)
      then
        modify (fun s => set_contexts (<[pContext := mkContext gfxIpVersion true]> (contexts s)) s);;
        ret (Some pContext)
      else findFreeContext gfxIp rest
  end.

(** [Compiler::AcquireContext] *)
Definition AcquireContext (this : Z) : M State Z :=
  let* s := get in
  let* compiler := deref (compilers s !! this) in
  let* pool := deref (m_pContextPool s) in
  (* Try to find a free context from pool first *)
  let* pFreeContext := findFreeContext (compiler_gfxIp compiler) pool in
  match pFreeContext with
  | Some pContext => ret pContext
  | None =>
      (* Create a new one if we fail to find an available one *)
      let* s := get in
      let pContext := newAddress (dom (contexts s)) in
      modify (fun s =>
        set_contexts (<[pContext := mkContext (compiler_gfxIp compiler) true]> (contexts s)) s);;
      modify (set_m_pContextPool (Some (pool ++ [pContext])));;
      ret pContext
  end.

(** [Compiler::ReleaseContext].  It reads no member of the compiler it is
    called on.  [Context::Reset] clears the pipeline state of the context,
    which is no part of [Context] here. *)
Definition ReleaseContext (pContext : Z) : M State unit :=
  let* s := get in
  let* context := deref (contexts s !! pContext) in
  modify (fun s => set_contexts (<[pContext := mkContext (m_gfxIp context) false]> (contexts s)) s).

(** The calls a client makes. *)
Inductive Call : Type :=
| CallCreate (gfxIp : GfxIpVersion) (options : list string)
| CallDestroy (pCompiler : Z)
| CallAcquireContext (pCompiler : Z)
| CallReleaseContext (pContext : Z).

Definition run1 (c : Call) : M State unit :=
  match c with
  | CallCreate gfxIp options => let* _ := Create gfxIp options in ret tt
  | CallDestroy pCompiler => Destroy pCompiler
  | CallAcquireContext pCompiler => let* _ := AcquireContext pCompiler in ret tt
  | CallReleaseContext pContext => ReleaseContext pContext
  end.

(** A sequence of calls, one after the other. *)
Fixpoint run (calls : list Call) : M State unit :=
  match calls with
  | [] => ret tt
  | c :: rest => run1 c;; run rest
  end.

End Instances.

End Runtime.

(* ===================================================================== *)
(** * Vocabulary of the further properties *)
(* ===================================================================== *)

(** The cache object a call was made to. *)
Definition cacheOf (e : CacheEvent) : CacheRef :=
  match e with
  | EvFindShader cache _ _ => cache
  | EvRetrieveShader cache _ => cache
  | EvInsertShader cache _ _ => cache
  | EvResetShader cache _ => cache
  end.

(** Whether a call was [InsertShader]. *)
Definition isInsertShader (e : CacheEvent) : bool :=
  match e with
  | EvInsertShader _ _ _ => true
  | _ => false
  end.

(** Whether a call was [ResetShader]. *)
Definition isResetShader (e : CacheEvent) : bool :=
  match e with
  | EvResetShader _ _ => true
  | _ => false
  end.

(** The loop of [BuildPipelineInternal] that looks for the entry of a
    module of type [MultiLlvmBc]: the first of the [entryCount] entries
    with the stage and the name hash of the shader; [None] when the loop
    runs to its end.  A read past the array is a fault. *)
Fixpoint findModuleEntry (entries : list ShaderModuleEntry) (entryStage : ShaderStage)
  (entryNameHash' : Hash) (count i : nat) : Outcome (option ShaderModuleEntry) :=
  match count with
  | O => Returned None
  | S count' =>
      match entries !! i with
      | None => Fault
      | Some pEntry =>
          if bool_decide (entry_stage pEntry = entryStage) &&
             bool_decide (entryNameHash pEntry = entryNameHash')
          then Returned (Some pEntry)
          else findModuleEntry entries entryStage entryNameHash' count' (S i)
      end
  end.

(** [binCode] of the entry found: [entrySize] bytes at [entryOffset] of the
    module binary. *)
Definition entryBitcode (moduleBinary : string) (pEntry : ShaderModuleEntry) : string :=
  String.substring (Z.to_nat (entryOffset pEntry)) (Z.to_nat (entrySize pEntry)) moduleBinary.

(** [resUsageBuf] of the entry found: [resUsageSize] bytes behind the
    bitcode. *)
Definition entryResUsage (moduleBinary : string) (pEntry : ShaderModuleEntry) : string :=
  String.substring (Z.to_nat (entryOffset pEntry + entrySize pEntry))
    (Z.to_nat (resUsageSize pEntry)) moduleBinary.

(** The bytes of one instruction that is no debug instruction: the first
    word gives the length. *)
Definition nonDebugInstruction (chunk : list ascii) : Prop :=
  exists word,
    Spirv.word_at chunk 0 = Some word /\
    Spirv.isDebugInstruction (Spirv.opCodeOf word) = false /\
    Spirv.wordCountOf word <> 0%nat /\
    length chunk = (4 * Spirv.wordCountOf word)%nat.

(** The statics agree with the heap. *)
Definition consistent (s : Runtime.State) : Prop :=
  Runtime.m_outRedirectCount s = Z.of_nat (base.size (Runtime.compilers s)) /\
  Runtime.m_outRedirectCount s <= Runtime.m_instanceCount s /\
  (Runtime.m_pContextPool s = None <-> Runtime.m_instanceCount s = 0) /\
  (forall pool, Runtime.m_pContextPool s = Some pool ->
     NoDup pool /\ forall p, p ∈ pool -> is_Some (Runtime.contexts s !! p)) /\
  (forall p c, Runtime.compilers s !! p = Some c ->
     Runtime.m_options c <> [] /\ Runtime.m_optionHash c = Runtime.s_optionHash s).

(** Whether the context at an address is allocated and in use. *)
Definition inUse (contexts : gmap Z Runtime.Context) (pContext : Z) : bool :=
  match contexts !! pContext with
  | Some context => Runtime.m_isInUse context
  | None => false
  end.

(** How many pointers of a pool point to a context in use. *)
Definition inUseCount (contexts : gmap Z Runtime.Context) (pool : list Z) : nat :=
  length (List.filter (inUse contexts) pool).

(** Two states that differ in the contexts on the heap at most. *)
Definition sameStatics (s s' : Runtime.State) : Prop :=
  Runtime.m_instanceCount s' = Runtime.m_instanceCount s /\
  Runtime.m_outRedirectCount s' = Runtime.m_outRedirectCount s /\
  Runtime.s_optionHash s' = Runtime.s_optionHash s /\
  Runtime.m_pContextPool s' = Runtime.m_pContextPool s /\
  Runtime.compilers s' = Runtime.compilers s /\
  Runtime.events s' = Runtime.events s.

(** A computation whose cache calls are all [ResetShader]. *)
Definition onlyResets {C A : Type} (m : M (World C) A) : Prop :=
  forall w a w', m w = Returned (a, w') ->
    exists evs, trace w' = trace w ++ evs /\ Forall (fun e => isResetShader e = true) evs.

(** The hash [BuildShaderModule] and [BuildPipelineInternal] take of an
    entry name. *)
Definition nameHashOf {C : Type} {collaborators : Collaborators C} (name : string) : Hash :=
  MetroHash64_Hash (mkBinaryData (Some name) (Z.of_nat (String.length name))).

(** The entry [pEntry] locates, in [moduleBinary], what [entryName] was
    lowered to. *)
Definition located {C : Type} {collaborators : Collaborators C}
  (moduleData : ShaderModuleData) (moduleBinary : string)
  (entryName : ShaderEntryName) (pEntry : ShaderModuleEntry) : Prop :=
  exists bitcode resUsage index,
    lowerShaderModuleEntry moduleData entryName = Some (bitcode, resUsage, index) /\
    entry_stage pEntry = entryName_stage entryName /\
    entryNameHash pEntry = nameHashOf (entryName_pName entryName) /\
    entryBitcode moduleBinary pEntry = bitcode /\
    entryResUsage moduleBinary pEntry = resUsage /\
    passIndex pEntry = index.

(** [writer'] has as many sections as [writer], and at every position of
    the symbol table of [writer] a symbol of the same name. *)
Definition keepsLayout (writer writer' : ElfImage) : Prop :=
  length (sections writer') = length (sections writer) /\
  forall q sym, symbols writer !! q = Some sym ->
    exists sym', symbols writer' !! q = Some sym' /\ pSymName sym' = pSymName sym.

(* ===================================================================== *)
(** * Sample inputs *)
(* ===================================================================== *)

(** Inputs small enough to run the functions above on. *)
Module Samples.

(** The state a call leaves, and the state itself when the call faults. *)
Definition stateAfter {St A : Type} (m : M St A) (s : St) : St :=
  match m s with
  | Returned (_, s') => s'
  | Fault => s
  end.

(** The execution models of the vertex, fragment and compute stages. *)
Definition ConvertToStageShage (execModel : Z) : ShaderStage :=
  if execModel =? 4 then ShaderStageFragment
  else if execModel =? 5 then ShaderStageCompute
  else ShaderStageVertex.

Definition bytesOfWords (words : list Z) : string :=
  string_of_list_ascii (concat (map (BinaryStream.bytesOf 4) words)).

(** A module of 18 words: the header, [OpCapability Shader],
    [OpName %1 "mai"], [OpEntryPoint Vertex %1 "mai"] and [OpLine]. *)
Definition spirvHeader : list Z := [0x07230203; 0x00010000; 0; 10; 0].

Definition spirvCode : string :=
  bytesOfWords
    (spirvHeader ++
     [0x00020011; 1;
      0x00030005; 1; 0x0069616D;
      0x0004000F; 0; 1; 0x0069616D;
      0x00040008; 2; 7; 1]).

Definition spirvBin : BinaryData := mkBinaryData (Some spirvCode) 72.

Definition noInfo : Spirv.ShaderModuleInfo :=
  Spirv.mkModuleInfo 0 0 false false false false false 0.

(** What the scan of [spirvBin] finds: 28 bytes of debug instructions, and
    one entry point, whose name starts at byte 52. *)
Definition spirvInfo : Spirv.ShaderModuleInfo :=
  Spirv.mkModuleInfo 0 28 false false false false false 0.

Definition spirvNames : list Spirv.ShaderEntryName :=
  [Spirv.mkEntryName 52 ShaderStageVertex].

(** [spirvCode] without its debug instructions. *)
Definition trimmedCode : string :=
  bytesOfWords
    (spirvHeader ++
     [0x00020011; 1;
      0x0004000F; 0; 1; 0x0069616D]).

Definition trimmedBin : BinaryData :=
  mkBinaryData (Some trimmedCode) (Z.of_nat (String.length trimmedCode)).

Definition trimmedNames : list Spirv.ShaderEntryName :=
  [Spirv.mkEntryName 40 ShaderStageVertex].

(** Two clients of the compiler: a version, option strings, a heap that
    hands out the least free address, no resident contexts. *)
Definition gfxIp : Runtime.GfxIpVersion := Runtime.mkGfxIp 9 0 0.

Definition options : list string := ["amdllpc"; "-gfxip=9"]%string.

Definition otherOptions : list string := ["amdllpc"; "-gfxip=10.1"]%string.

Definition newAddress : gset Z -> Z := fresh.

Definition Create : Runtime.GfxIpVersion -> list string -> M Runtime.State (Result * option Z) :=
  Runtime.Create (metroHash := Doubles.lengthHash)
    "enable-outs" "enable-errs" "log-file-dbgs" "log-file-outs" "amdvlk" (fun _ => true)
    newAddress.

Definition Destroy : Z -> M Runtime.State unit := Runtime.Destroy "amdvlk" 0.

Definition AcquireContext : Z -> M Runtime.State Z := Runtime.AcquireContext newAddress.

Definition run : list Runtime.Call -> M Runtime.State unit :=
  Runtime.run (metroHash := Doubles.lengthHash)
    "enable-outs" "enable-errs" "log-file-dbgs" "log-file-outs" "amdvlk" (fun _ => true)
    newAddress 0.

(** A life of one compiler, which is at address 0, with its context, also
    at address 0. *)
Definition calls : list Runtime.Call :=
  [Runtime.CallCreate gfxIp options; Runtime.CallAcquireContext 0;
   Runtime.CallReleaseContext 0; Runtime.CallDestroy 0].

(** One compiler; one compiler holding a context; two compilers (at 0 and
    1) and two contexts (at 0 and 1), the first of them released. *)
Definition created : Runtime.State :=
  stateAfter (run [Runtime.CallCreate gfxIp options]) Runtime.initial.

Definition acquired : Runtime.State :=
  stateAfter (run [Runtime.CallAcquireContext 0]) created.

Definition shared : Runtime.State :=
  stateAfter
    (run [Runtime.CallCreate gfxIp options; Runtime.CallCreate gfxIp options;
          Runtime.CallAcquireContext 0; Runtime.CallAcquireContext 1;
          Runtime.CallReleaseContext 0])
    Runtime.initial.

(** A set and a map for the streams, and the order of [elements] as the
    iteration order of the set. *)
Definition items : gset Z := {[ 3 ]} ∪ {[ 2 ^ 40 ]}.

Definition entries : gmap Z Z := <[ 1 := 10 ]> {[ 2 := 20 ]}.

Definition iteration : gset Z -> list Z := elements.

(** Two graphics pipelines for [BuildShaderCacheHash] that differ in the
    vertex input (1 and 2) and in the pipeline options, with a pipeline
    dumper that feeds one letter for each part of the state. *)
Definition UpdateHashForPipelineShaderInfo (stage : ShaderStage) (info : PipelineShaderInfo)
  (isCacheHash : bool) (hasher : string) : string :=
  (hasher ++ "s")%string.

Definition UpdateHashForVertexInputState (vertexInput : Z) (hasher : string) : string :=
  (hasher ++ String.concat EmptyString (repeat "v"%string (Z.to_nat vertexInput)))%string.

Definition UpdateHashForFragmentState (state : Z) (hasher : string) : string :=
  (hasher ++ "f")%string.

Definition UpdateHashForNonFragmentState (state : Z) (isCacheHash : bool) (hasher : string)
  : string :=
  (hasher ++ "n")%string.

Definition BuildShaderCacheHash
  : StageHash.HashContext Z Z -> Z -> list string -> Hash -> Hash -> Outcome (Hash * Hash) :=
  StageHash.BuildShaderCacheHash (metroHash := Doubles.lengthHash) Z Z
    UpdateHashForPipelineShaderInfo UpdateHashForVertexInputState
    UpdateHashForFragmentState UpdateHashForNonFragmentState (fun hashCode => hashCode) 38.

Definition pipeline1 : StageHash.HashContext Z Z :=
  StageHash.mkHashContext Z Z (fun _ => Doubles.noShader) 0 1 5
    (StageHash.mkPipelineOptions false false false false false false false).

Definition pipeline2 : StageHash.HashContext Z Z :=
  StageHash.mkHashContext Z Z (fun _ => Doubles.noShader) 0 2 5
    (StageHash.mkPipelineOptions false false false false false false false).

Definition pipeline3 : StageHash.HashContext Z Z :=
  StageHash.mkHashContext Z Z
    (fun stage =>
       if decide (stage = ShaderStageFragment)
       then mkShaderInfo None (Some "main"%string) ShaderStageFragment else Doubles.noShader)
    0 1 5
    (StageHash.mkPipelineOptions true false false false true false false).

Definition stageHashes1 : list string := ["vs"%string; EmptyString; EmptyString; EmptyString; "fs"%string].

Definition stageHashes2 : list string := ["vertex"%string; EmptyString; EmptyString; EmptyString; "fs"%string].

Definition stageHashes3 : list string := ["vs"%string; EmptyString; EmptyString; EmptyString; "fragment"%string].

(** The hashes of a run that returns. *)
Definition hashesOf (run : Outcome (Hash * Hash)) : Hash * Hash :=
  match run with
  | Returned hashes => hashes
  | Fault => (0, 0)
  end.

(** A world whose check has found the non-fragment ELF in the internal
    cache and has claimed the entry of the fragment ELF. *)
Definition checkedWorld : World Doubles.MapCache :=
  stateAfter
    (Check (shaderCache := Doubles.mapCache)
       (collaborators := Doubles.collaboratorsOf 17 (mkModule []))
       Doubles.commandLine 37 (mkContext true 17 None) (mkModule []) 17 Doubles.stageHashes)
    Doubles.nonFragmentCachedWorld.

(** The entry points of a module with a vertex and a fragment shader of
    the same name. *)
Definition entryNames : list ShaderEntryName :=
  [mkEntryName ShaderStageVertex "main"; mkEntryName ShaderStageFragment "main"].

Definition moduleData : ShaderModuleData :=
  mkModuleData 0 BinaryTypeSpirv Doubles.shaderBinary (mkModuleInfo 0 0 false 0).

End Samples.


(* ===================================================================== *)
(** * 8. Properties *)
(* ===================================================================== *)

Local Open Scope monad_scope.

Section StringRefSetFacts.

Lemma StringRefSet_compare_eq (x y : string) : String_as_OT.compare x y = Eq -> x = y.
Proof.
  intros H. destruct (String_as_OT.compare_spec x y); congruence.
Qed.

Lemma StringRefSet_compare_gt (x y : string) :
  String_as_OT.compare x y = Gt -> String_as_OT.lt y x.
Proof.
  intros H. destruct (String_as_OT.compare_spec x y); congruence.
Qed.

Lemma StringRefSet_insert_In (x y : string) (s : StringRefSet.t) :
  In y (StringRefSet.insert x s) <-> y = x \/ In y s.
Proof.
  induction s as [|z s IH]; simpl.
  - intuition.
  - destruct (String_as_OT.compare x z) eqn:E; simpl.
    + apply StringRefSet_compare_eq in E. subst. intuition.
    + intuition.
    + rewrite IH. intuition.
Qed.

Lemma StringRefSet_insert_sorted (x : string) (s : StringRefSet.t) :
  StringRefSet.sorted s -> StringRefSet.sorted (StringRefSet.insert x s).
Proof.
  unfold StringRefSet.sorted.
  induction s as [|z s IH]; simpl; intros Hs.
  - repeat constructor.
  - inversion Hs as [|? ? Hs' Hall]; subst.
    destruct (String_as_OT.compare x z) eqn:E.
    + exact Hs.
    + constructor; [exact Hs|].
      constructor; [exact E|].
      rewrite Forall_forall in *. intros w Hw.
      eapply (@transitivity _ _ (@StrictOrder_Transitive _ _ String_as_OT.lt_strorder));
        [exact E | apply Hall, Hw].
    + constructor; [apply IH, Hs'|].
      rewrite Forall_forall in *. intros w Hw.
      apply list_elem_of_In, StringRefSet_insert_In in Hw. destruct Hw as [->|Hw].
      * apply StringRefSet_compare_gt, E.
      * apply Hall, list_elem_of_In, Hw.
Qed.

Lemma StringRefSet_sorted_ext (s1 s2 : StringRefSet.t) :
  StringRefSet.sorted s1 -> StringRefSet.sorted s2 ->
  (forall x, In x s1 <-> In x s2) -> s1 = s2.
Proof.
  unfold StringRefSet.sorted.
  assert (Hirr : forall x, ~ String_as_OT.lt x x)
    by (intros x; apply (@StrictOrder_Irreflexive _ _ String_as_OT.lt_strorder)).
  assert (Htr : forall x y z, String_as_OT.lt x y -> String_as_OT.lt y z -> String_as_OT.lt x z)
    by (intros x y z; apply (@StrictOrder_Transitive _ _ String_as_OT.lt_strorder)).
  revert s2. induction s1 as [|a s1 IH]; intros s2 H1 H2 Hext.
  - destruct s2 as [|b s2]; [reflexivity|].
    exfalso. apply (Hext b). simpl. auto.
  - destruct s2 as [|b s2].
    + exfalso. apply (Hext a). simpl. auto.
    + inversion H1 as [|? ? H1' Hall1]; subst.
      inversion H2 as [|? ? H2' Hall2]; subst.
      rewrite Forall_forall in Hall1, Hall2.
      assert (a = b) as ->.
      { destruct (proj1 (Hext a) (or_introl eq_refl)) as [->|Hin]; [reflexivity|].
        destruct (proj2 (Hext b) (or_introl eq_refl)) as [->|Hin']; [reflexivity|].
        exfalso. apply (Hirr a). eapply Htr.
        - apply Hall1, list_elem_of_In, Hin'.
        - apply Hall2, list_elem_of_In, Hin. }
      f_equal. apply IH; [assumption..|].
      intros x. split; intros Hx.
      * destruct (proj1 (Hext x) (or_intror Hx)) as [->|Hin]; [|exact Hin].
        exfalso. apply (Hirr x). apply Hall1, list_elem_of_In, Hx.
      * destruct (proj2 (Hext x) (or_intror Hx)) as [->|Hin]; [|exact Hin].
        exfalso. apply (Hirr x). apply Hall2, list_elem_of_In, Hx.
Qed.

End StringRefSetFacts.

Section OptionFingerprintFacts.

Context {metroHash : MetroHash64}.
Variables EnableOuts_ArgStr EnableErrs_ArgStr : string.
Variables LogFileDbgs_ArgStr LogFileOuts_ArgStr : string.

Abbreviation ignoreP :=
  (ignore EnableOuts_ArgStr EnableErrs_ArgStr LogFileDbgs_ArgStr LogFileOuts_ArgStr).
Abbreviation ignoredArgP :=
  (ignoredArg EnableOuts_ArgStr EnableErrs_ArgStr LogFileDbgs_ArgStr LogFileOuts_ArgStr).
Abbreviation buildP :=
  (buildEffectingOptions EnableOuts_ArgStr EnableErrs_ArgStr LogFileDbgs_ArgStr
     LogFileOuts_ArgStr).

(** What the loop over the arguments leaves in the set: it stops on an
    empty argument, and otherwise adds the names of the arguments that are
    not ignored. *)
Lemma buildEffectingOptions_spec (args : list string) :
  forall set : StringRefSet.t,
    StringRefSet.sorted set ->
    match buildP args set with
    | None => In EmptyString args
    | Some set' =>
        ~ In EmptyString args /\
        StringRefSet.sorted set' /\
        forall name,
          In name set' <->
          In name set \/
          exists arg, In arg args /\ ignoredArgP arg = false /\ skipDash arg = Some name
    end.
Proof.
  induction args as [|arg args IH]; intros set Hset; simpl.
  - split; [tauto|]. split; [exact Hset|]. intros name. split; [auto|].
    intros [H|(arg & [] & _)]. exact H.
  - destruct arg as [|ch name0]; simpl; [auto|].
    specialize (IH (if ignoreP name0 then set else StringRefSet.insert name0 set)).
    destruct (buildP args _) as [set'|].
    + destruct IH as (Hne & Hsorted & Hin).
      { destruct (ignoreP name0); [exact Hset|]. apply StringRefSet_insert_sorted, Hset. }
      split; [intros [H|H]; [discriminate|tauto]|].
      split; [exact Hsorted|].
      intros name. rewrite Hin. clear Hin. split.
      * intros [H|(arg & Harg & Hign & Hskip)].
        -- destruct (ignoreP name0) eqn:E; [auto|].
           apply StringRefSet_insert_In in H. destruct H as [->|H]; [|auto].
           right. exists (String ch name0). unfold ignoredArg. simpl. auto.
        -- right. exists arg. auto.
      * intros [H|(arg & [<-|Harg] & Hign & Hskip)].
        -- left. destruct (ignoreP name0); [exact H|].
           apply StringRefSet_insert_In. auto.
        -- left. unfold ignoredArg in Hign. simpl in *. inversion Hskip; subst.
           rewrite Hign. apply StringRefSet_insert_In. auto.
        -- right. exists arg. auto.
    + right. apply IH.
      destruct (ignoreP name0); [exact Hset|]. apply StringRefSet_insert_sorted, Hset.
Qed.

(** C6. [GenerateHashForCompileOptions] depends only on which arguments
    after the first are present and not ignored: two option lists whose
    arguments from index 1 on contain the same non-ignored strings, in any
    order and any number of times, and that differ in any way in the
    arguments whose names start with an entry of [IgnoredOptions], get the
    same hash. *)
Theorem GenerateHashForCompileOptions_canonical (pOptions1 pOptions2 : list string) :
  (forall arg,
     ignoredArg EnableOuts_ArgStr EnableErrs_ArgStr LogFileDbgs_ArgStr LogFileOuts_ArgStr
       arg = false ->
     (In arg (tail pOptions1) <-> In arg (tail pOptions2))) ->
  GenerateHashForCompileOptions EnableOuts_ArgStr EnableErrs_ArgStr LogFileDbgs_ArgStr
    LogFileOuts_ArgStr pOptions1 =
  GenerateHashForCompileOptions EnableOuts_ArgStr EnableErrs_ArgStr LogFileDbgs_ArgStr
    LogFileOuts_ArgStr pOptions2.
Proof.
  intros Hsame. unfold GenerateHashForCompileOptions.
  assert (Hempty : StringRefSet.sorted StringRefSet.empty) by constructor.
  pose proof (buildEffectingOptions_spec (tail pOptions1) _ Hempty) as H1.
  pose proof (buildEffectingOptions_spec (tail pOptions2) _ Hempty) as H2.
  assert (Hnil : ignoredArgP EmptyString = false) by reflexivity.
  destruct (buildP (tail pOptions1) _) as [set1|], (buildP (tail pOptions2) _) as [set2|].
  - destruct H1 as (_ & Hs1 & Hin1), H2 as (_ & Hs2 & Hin2).
    assert (set1 = set2) as ->; [|reflexivity].
    apply StringRefSet_sorted_ext; [assumption..|].
    intros name. rewrite Hin1, Hin2. simpl.
    split; (intros [[]|(arg & Harg & Hign & Hskip)]; right; exists arg;
            split; [apply (Hsame arg Hign), Harg | auto]).
  - exfalso. apply H1. apply (Hsame _ Hnil), H2.
  - exfalso. apply H2. apply (Hsame _ Hnil), H1.
  - reflexivity.
Qed.

End OptionFingerprintFacts.

(** The two option lists differ in order, in duplication, and in their
    ignored options. *)
Lemma GenerateHashForCompileOptions_canonical_witness :
  GenerateHashForCompileOptions (metroHash := Doubles.lengthHash)
    "enable-outs" "enable-errs" "log-file-dbgs" "log-file-outs"
    ["amdllpc"; "-gfxip=9"; "-enable-outs=1"; "-O2"; "-gfxip=9"]%string =
  GenerateHashForCompileOptions (metroHash := Doubles.lengthHash)
    "enable-outs" "enable-errs" "log-file-dbgs" "log-file-outs"
    ["amdllpc"; "-O2"; "-shader-cache-mode=2"; "-gfxip=9"]%string.
Proof.
  apply GenerateHashForCompileOptions_canonical.
  intros arg Hign. simpl.
  split; intros H; repeat (destruct H as [<-|H]; [try discriminate Hign; tauto|]); destruct H.
Defined.


Section CacheFacts.

Context {C : Type} {shaderCache : ShaderCacheClass C}.

(** C7. When [FindShader] reports a [Ready] entry and [RetrieveShader] then
    fails with [ErrorUnknown], [LookUpShaderCache] returns: the state is
    [Compiling], the entry handle is null, and no error reaches the caller
    (the function returns the state only), so the caller compiles. *)
Theorem LookUpShaderCache_soft_miss (w : World C) (pCacheHash : Hash) (pElfBin : BinaryData)
  (hEntry : CacheEntryHandle) (c1 c2 : C) (blob : BinaryData) :
  FindShader (internalCache w) pCacheHash true = ((Ready, hEntry), c1) ->
  RetrieveShader c1 hEntry pElfBin = ((ErrorUnknown, blob), c2) ->
  exists w',
    LookUpShaderCache pCacheHash pElfBin w = Returned ((Compiling, blob, None), w') /\
    internalCache w' = c2 /\
    appCache w' = appCache w /\
    trace w' = trace w ++ [EvFindShader InternalCache pCacheHash true;
                           EvRetrieveShader InternalCache hEntry].
Proof.
  intros Hfind Hretrieve.
  unfold LookUpShaderCache, bind, call_FindShader, call_RetrieveShader, m_shaderCache.
  simpl. rewrite Hfind. simpl. rewrite Hretrieve. simpl.
  eexists. split; [reflexivity|]. simpl. rewrite <- app_assoc. auto.
Qed.

End CacheFacts.

(** An internal cache whose entry 7 is [Ready] while its blob is gone from
    the backing store. *)
Lemma LookUpShaderCache_soft_miss_witness :
  exists w',
    LookUpShaderCache (shaderCache := Doubles.mapCache) 7 BinaryData_empty
      (mkWorld ∅ {[ 7 := Doubles.mkCacheEntry Ready (mkBinaryData (Some "elf"%string) 3) false ]}
         GraphicsShaderCacheChecker_new ∅ [])
    = Returned ((Compiling, BinaryData_empty, None), w').
Proof.
  destruct (LookUpShaderCache_soft_miss (shaderCache := Doubles.mapCache)
              (mkWorld ∅ {[ 7 := Doubles.mkCacheEntry Ready (mkBinaryData (Some "elf"%string) 3) false ]}
                 GraphicsShaderCacheChecker_new ∅ [])
              7 BinaryData_empty (Some 7)
              {[ 7 := Doubles.mkCacheEntry Ready (mkBinaryData (Some "elf"%string) 3) false ]}
              {[ 7 := Doubles.mkCacheEntry Ready (mkBinaryData (Some "elf"%string) 3) false ]}
              BinaryData_empty) as (w' & Hrun & _).
  - vm_compute. reflexivity.
  - vm_compute. reflexivity.
  - exists w'. exact Hrun.
Defined.


Section LookUpShaderCachesFacts.

Context {C : Type} {shaderCache : ShaderCacheClass C}.
Variable cl : CommandLine.

Lemma lookedUp_app (t1 t2 : list CacheEvent) :
  lookedUp (t1 ++ t2) = lookedUp t1 ++ lookedUp t2.
Proof. apply omap_app. Qed.

(** The order of the look-ups: the application cache, then, unless the
    application cache had the binary, the internal cache. *)
Lemma LookUpShaderCaches_order (w : World C) (pCacheHash : Hash)
  (pElfBin : BinaryData) (ppShaderCache : list (option CacheRef))
  (phEntry : list CacheEntryHandle) :
  ShaderCacheMode cl <> ShaderCacheForceInternalCacheOnDisk ->
  length ppShaderCache = 2%nat ->
  length phEntry = 2%nat ->
  exists res w',
    LookUpShaderCaches cl (Some AppCache) pCacheHash pElfBin ppShaderCache phEntry w =
      Returned (res, w') /\
    (lookedUp (trace w') = lookedUp (trace w) ++ [AppCache] \/
     lookedUp (trace w') = lookedUp (trace w) ++ [AppCache; InternalCache]).
Proof.
  intros Hmode Hpp Hph.
  destruct ppShaderCache as [|p0 [|p1 [|]]]; try discriminate.
  destruct phEntry as [|h0 [|h1 [|]]]; try discriminate.
  unfold LookUpShaderCaches, bind, array_set, ret. simpl.
  destruct (decide (ShaderCacheMode cl = ShaderCacheForceInternalCacheOnDisk)); [contradiction|].
  simpl. unfold LookUpShaderCaches_body, bind, array_get, array_set, call_FindShader,
    call_RetrieveShader, call_InsertShader, ret.
  simpl.
  destruct (FindShader (appCache w) pCacheHash true) as [[state0 hEntry0] app1]. simpl.
  destruct (decide (state0 = Ready)); simpl.
  - destruct (RetrieveShader app1 hEntry0 pElfBin) as [[result0 blob0] app2]. simpl.
    destruct (decide (result0 = ErrorUnknown)); simpl.
    + destruct (FindShader (internalCache w) pCacheHash true) as [[state1 hEntry1] int1]. simpl.
      destruct (decide (state1 = Ready)); simpl.
      * destruct (RetrieveShader int1 hEntry1 blob0) as [[result1 blob1] int2]. simpl.
        destruct (decide (result1 = ErrorUnknown)); simpl;
          (do 2 eexists; split; [reflexivity|]; simpl;
           rewrite !lookedUp_app; simpl; rewrite <- ?app_assoc; auto).
      * do 2 eexists; split; [reflexivity|]; simpl.
        rewrite !lookedUp_app; simpl; rewrite <- ?app_assoc; auto.
    + do 2 eexists; split; [reflexivity|]; simpl.
      rewrite !lookedUp_app; simpl; rewrite <- ?app_assoc; auto.
  - destruct (FindShader (internalCache w) pCacheHash true) as [[state1 hEntry1] int1]. simpl.
    destruct (decide (state1 = Ready)); simpl.
    + destruct (RetrieveShader int1 hEntry1 pElfBin) as [[result1 blob1] int2]. simpl.
      destruct (decide (result1 = ErrorUnknown)); simpl.
      * do 2 eexists; split; [reflexivity|]; simpl.
        rewrite !lookedUp_app; simpl; rewrite <- ?app_assoc; auto.
      * destruct hEntry0; simpl;
          (do 2 eexists; split; [reflexivity|]; simpl;
           rewrite !lookedUp_app; simpl; rewrite <- ?app_assoc; auto).
    + do 2 eexists; split; [reflexivity|]; simpl.
      rewrite !lookedUp_app; simpl; rewrite <- ?app_assoc; auto.
Qed.

(** C8. With an application cache and without the forced internal mode,
    [LookUpShaderCaches] asks the application cache first and the internal
    cache second; and when the application cache misses and leaves a
    handle, while the internal cache has a [Ready] entry that is retrieved
    with success, the retrieved binary is inserted into the application
    cache under that handle before [Ready] is returned.  The two arrays
    have [ShaderCacheCount] entries, as in every caller. *)
Theorem LookUpShaderCaches_app_then_internal (w : World C) (pCacheHash : Hash)
  (pElfBin : BinaryData) (ppShaderCache : list (option CacheRef))
  (phEntry : list CacheEntryHandle) :
  ShaderCacheMode cl <> ShaderCacheForceInternalCacheOnDisk ->
  length ppShaderCache = 2%nat ->
  length phEntry = 2%nat ->
  (exists res w',
     LookUpShaderCaches cl (Some AppCache) pCacheHash pElfBin ppShaderCache phEntry w =
       Returned (res, w') /\
     (lookedUp (trace w') = lookedUp (trace w) ++ [AppCache] \/
      lookedUp (trace w') = lookedUp (trace w) ++ [AppCache; InternalCache])) /\
  (forall (state0 : ShaderEntryState) (hEntry0 : Z) (app1 : C)
          (hEntry1 : CacheEntryHandle) (internal1 internal2 : C) (blob : BinaryData),
     FindShader (appCache w) pCacheHash true = ((state0, Some hEntry0), app1) ->
     state0 <> Ready ->
     FindShader (internalCache w) pCacheHash true = ((Ready, hEntry1), internal1) ->
     RetrieveShader internal1 hEntry1 pElfBin = ((Success, blob), internal2) ->
     exists w',
       LookUpShaderCaches cl (Some AppCache) pCacheHash pElfBin ppShaderCache phEntry w =
         Returned ((Ready, blob, [Some AppCache; Some InternalCache],
                    [Some hEntry0; hEntry1]), w') /\
       appCache w' = InsertShader app1 (Some hEntry0) blob /\
       internalCache w' = internal2 /\
       trace w' = trace w ++ [EvFindShader AppCache pCacheHash true;
                              EvFindShader InternalCache pCacheHash true;
                              EvRetrieveShader InternalCache hEntry1;
                              EvInsertShader AppCache (Some hEntry0) blob]).
Proof.
  intros Hmode Hpp Hph. split; [apply LookUpShaderCaches_order; assumption|].
  intros state0 hEntry0 app1 hEntry1 internal1 internal2 blob Hfind0 Hmiss Hfind1 Hretrieve.
  destruct ppShaderCache as [|p0 [|p1 [|]]]; try discriminate.
  destruct phEntry as [|h0 [|h1 [|]]]; try discriminate.
  unfold LookUpShaderCaches, bind, array_set, ret. simpl.
  destruct (decide (ShaderCacheMode cl = ShaderCacheForceInternalCacheOnDisk)); [contradiction|].
  simpl. unfold LookUpShaderCaches_body, bind, array_get, array_set, call_FindShader, ret.
  simpl. rewrite Hfind0. simpl.
  destruct (decide (state0 = Ready)); [contradiction|]. simpl.
  rewrite Hfind1. simpl. unfold call_RetrieveShader. simpl. rewrite Hretrieve. simpl.
  eexists. split; [reflexivity|]. simpl. rewrite <- !app_assoc. auto.
Qed.

End LookUpShaderCachesFacts.

(** An application cache without the entry, an internal cache that has it. *)
Lemma LookUpShaderCaches_app_then_internal_witness :
  exists w',
    LookUpShaderCaches (shaderCache := Doubles.mapCache) Doubles.commandLine (Some AppCache) 7
      BinaryData_empty [None; None] [None; None] Doubles.internalHitWorld =
      Returned ((Ready, mkBinaryData (Some "elf"%string) 3,
                 [Some AppCache; Some InternalCache], [Some 7; Some 7]), w') /\
    appCache w' = {[ 7 := Doubles.mkCacheEntry Ready (mkBinaryData (Some "elf"%string) 3) true ]}.
Proof.
  destruct (LookUpShaderCaches_app_then_internal (shaderCache := Doubles.mapCache)
              Doubles.commandLine Doubles.internalHitWorld 7 BinaryData_empty
              [None; None] [None; None]) as (_ & Hback).
  - vm_compute. discriminate.
  - reflexivity.
  - reflexivity.
  - destruct (Hback Compiling 7
                {[ 7 := Doubles.mkCacheEntry Compiling BinaryData_empty true ]}
                (Some 7) (internalCache Doubles.internalHitWorld)
                (internalCache Doubles.internalHitWorld)
                (mkBinaryData (Some "elf"%string) 3)) as (w' & Hrun & Happ & _).
    + vm_compute. reflexivity.
    + discriminate.
    + vm_compute. reflexivity.
    + vm_compute. reflexivity.
    + exists w'. split; [exact Hrun|]. rewrite Happ. vm_compute. reflexivity.
Defined.


Section UserWalkFacts.

Lemma scanUsers_None (us : list User) :
  forall pushed,
    scanUsers us pushed = None <->
    exists stage, In (UserInstruction stage) us /\ stage <> ShaderStageFragment.
Proof.
  induction us as [|u us IH]; intros pushed; simpl.
  - split; [discriminate|]. intros (? & [] & _).
  - destruct u as [us'|stage].
    + rewrite IH. split; intros (stage & Hin & Hne); exists stage.
      * auto.
      * destruct Hin as [Heq|Hin]; [discriminate|auto].
    + destruct (decide (stage <> ShaderStageFragment)) as [Hne|He].
      * split; [|reflexivity]. intros _. exists stage. auto.
      * rewrite IH. split; intros (stage' & Hin & Hne); exists stage'.
        -- auto.
        -- destruct Hin as [Heq|Hin]; [|auto]. inversion Heq; subst. contradiction.
Qed.

Lemma scanUsers_Some (us : list User) :
  forall pushed pushed',
    scanUsers us pushed = Some pushed' -> pushed' = pushed ++ constantUsers us.
Proof.
  induction us as [|u us IH]; intros pushed pushed' Hscan; simpl in *.
  - inversion Hscan. rewrite app_nil_r. reflexivity.
  - destruct u as [us'|stage].
    + apply IH in Hscan. rewrite Hscan, <- app_assoc. reflexivity.
    + destruct (decide (stage <> ShaderStageFragment)); [discriminate|].
      apply IH, Hscan.
Qed.

Lemma constantUsers_In (us us' : list User) :
  In us' (constantUsers us) <-> In (UserConstant us') us.
Proof.
  unfold constantUsers. rewrite <- !list_elem_of_In, list_elem_of_omap. split.
  - intros (u & Hu & Hsome). destruct u; inversion Hsome; subst. exact Hu.
  - intros Hu. exists (UserConstant us'). auto.
Qed.

(** The work-list loop returns from [Check] exactly when one of the values
    on the list is used outside the fragment stage. *)
Lemma walkUsers_spec (vals : list (list User)) :
  walkUsers vals = true <-> Exists usedOutsideFragment vals.
Proof.
  funelim (walkUsers vals).
  - split; [discriminate|]. intros H. inversion H.
  - clear Heqcall.
    match goal with
    | IH : walkUsers _ = true <-> _ |- _ => rewrite IH; clear IH
    end.
    pose proof (scanUsers_Some _ _ _ e) as Hpushed. simpl in Hpushed. subst pushed.
    assert (Hnone : ~ exists stage, In (UserInstruction stage) us /\ stage <> ShaderStageFragment).
    { intros Hex. apply (scanUsers_None us []) in Hex. congruence. }
    rewrite Exists_app, !Exists_exists. split.
    + intros [(x & Hx & Hused)|(x & Hx & Hused)].
      * exists x. split; [right; exact Hx|exact Hused].
      * exists us. split; [left|]. eapply used_through_constant; [|exact Hused].
        apply constantUsers_In, list_elem_of_In, Hx.
    + intros (x & Hx & Hused). apply list_elem_of_In in Hx. destruct Hx as [<-|Hx].
      * right. inversion Hused as [? stage Hin Hne|? us' Hin Hused']; subst.
        -- exfalso. apply Hnone. eauto.
        -- exists us'. split; [|exact Hused'].
           apply list_elem_of_In, constantUsers_In, Hin.
      * left. exists x. split; [apply list_elem_of_In, Hx|exact Hused].
  - clear Heqcall. split; [intros _|reflexivity].
    apply Exists_cons_hd.
    destruct (proj1 (scanUsers_None us []) e) as (stage & Hin & Hne).
    eapply used_by_instruction; eassumption.
Qed.

Lemma globalConstantUsedOutsideFragment_spec (gs : list GlobalVariable) :
  globalConstantUsedOutsideFragment gs = true <->
  exists pGlobalVar,
    In pGlobalVar gs /\ isConstant pGlobalVar = true /\
    usedOutsideFragment (users pGlobalVar).
Proof.
  induction gs as [|g gs IH]; simpl.
  - split; [discriminate|]. intros (? & [] & _).
  - destruct (isConstant g) eqn:Hconst.
    + destruct (walkUsers [users g]) eqn:Hwalk.
      * split; [intros _|reflexivity]. exists g. split; [auto|]. split; [exact Hconst|].
        apply walkUsers_spec in Hwalk. inversion Hwalk as [? ? H|? ? H]; subst;
          [exact H|inversion H].
      * rewrite IH. split; intros (g' & Hin & Hc & Hused).
        -- exists g'. auto.
        -- destruct Hin as [<-|Hin]; [|exists g'; auto].
           exfalso. assert (walkUsers [users g] = true); [|congruence].
           apply walkUsers_spec. constructor. exact Hused.
    + rewrite IH. split; intros (g' & Hin & Hc & Hused).
      * exists g'. auto.
      * destruct Hin as [<-|Hin]; [congruence|exists g'; auto].
Qed.

End UserWalkFacts.

Section StageHashReturnFacts.

Context {metroHash : MetroHash64}.
Variables VertexInputState PipelineState : Type.
Variable UpdateHashForPipelineShaderInfo :
  ShaderStage -> PipelineShaderInfo -> bool -> Hasher -> Hasher.
Variable UpdateHashForVertexInputState : VertexInputState -> Hasher -> Hasher.
Variable UpdateHashForFragmentState : PipelineState -> Hasher -> Hasher.
Variable UpdateHashForNonFragmentState : PipelineState -> bool -> Hasher -> Hasher.
Variable Compact64 : Hash -> Z.
Variable version : Z.

(** The loop over the stages returns exactly when every stage of the mask
    that it comes to has its entry in [stageHashes]. *)
Lemma hashStages_returns (pContext : StageHash.HashContext VertexInputState PipelineState)
  (stageMask : Z) (stageHashes : list string) (stages : list ShaderStage) :
  forall hashers,
    forallb
      (fun stage =>
         (Z.land stageMask (ShaderStageToMask stage) =? 0) ||
         bool_decide (is_Some (stageHashes !! Z.to_nat (ShaderStage_index stage))))
      stages = true <->
    exists hashers',
      StageHash.hashStages VertexInputState PipelineState UpdateHashForPipelineShaderInfo
        UpdateHashForVertexInputState Compact64 pContext stageMask stageHashes stages hashers =
      Returned hashers'.
Proof.
  induction stages as [|stage rest IH]; intros hashers; simpl.
  - split; [eauto|reflexivity].
  - destruct (Z.land stageMask (ShaderStageToMask stage) =? 0); simpl; [apply IH|].
    destruct (stageHashes !! Z.to_nat (ShaderStage_index stage)) as [stageHash|] eqn:E.
    + rewrite bool_decide_eq_true_2 by eauto. simpl. destruct hashers. apply IH.
    + rewrite bool_decide_eq_false_2 by (intros [? ?]; discriminate). simpl.
      split; [discriminate|]. intros [? ?]. discriminate.
Qed.

Lemma BuildShaderCacheHash_returns
  (pContext : StageHash.HashContext VertexInputState PipelineState)
  (stageMask : Z) (stageHashes : list string) (pFragmentHash pNonFragmentHash : Hash) :
  hasStageHashes stageMask stageHashes = true <->
  exists hashes,
    StageHash.BuildShaderCacheHash VertexInputState PipelineState
      UpdateHashForPipelineShaderInfo UpdateHashForVertexInputState
      UpdateHashForFragmentState UpdateHashForNonFragmentState Compact64 version
      pContext stageMask stageHashes pFragmentHash pNonFragmentHash = Returned hashes.
Proof.
  unfold hasStageHashes, StageHash.BuildShaderCacheHash.
  rewrite (hashStages_returns pContext stageMask stageHashes StageHash.graphicsStages
             (Hasher_new, Hasher_new)).
  split.
  - intros [[f n] ->]. eauto.
  - intros [hashes H].
    destruct (StageHash.hashStages _ _ _ _ _ _ _ _ _ _) as [[f n]|]; [eauto|discriminate].
Qed.

End StageHashReturnFacts.

Section CheckFacts.

Context {C : Type} {shaderCache : ShaderCacheClass C}.
Context {elfLibrary : ElfLibrary} {collaborators : Collaborators C}.

(** [Check] begins with the two hashes: it goes beyond that call exactly
    when [stageHashes] has an entry for every stage of the mask. *)
Lemma call_BuildShaderCacheHash_returns (version : Z) (m_pContext : Context) (stageMask : Z)
  (stageHashes : list string) (pFragmentHash pNonFragmentHash : Hash) (w : World C) :
  hasStageHashes stageMask stageHashes = true ->
  exists hashes,
    call_BuildShaderCacheHash version m_pContext stageMask stageHashes
      pFragmentHash pNonFragmentHash w = Returned (hashes, w).
Proof.
  intros Hhas. unfold call_BuildShaderCacheHash, BuildShaderCacheHash.
  apply (BuildShaderCacheHash_returns VertexInputState PipelineState
           UpdateHashForPipelineShaderInfo UpdateHashForVertexInputState
           UpdateHashForFragmentState UpdateHashForNonFragmentState Compact64 version
           (hashContextOf m_pContext) stageMask stageHashes pFragmentHash pNonFragmentHash)
    in Hhas as [hashes ->].
  eauto.
Qed.

Lemma call_BuildShaderCacheHash_faults (version : Z) (m_pContext : Context) (stageMask : Z)
  (stageHashes : list string) (pFragmentHash pNonFragmentHash : Hash) (w : World C) :
  hasStageHashes stageMask stageHashes = false ->
  call_BuildShaderCacheHash version m_pContext stageMask stageHashes
    pFragmentHash pNonFragmentHash w = Fault.
Proof.
  intros Hhas. unfold call_BuildShaderCacheHash, BuildShaderCacheHash.
  match goal with
  | |- match ?run with _ => _ end = _ => destruct run as [hashes|] eqn:E
  end; [|reflexivity].
  assert (hasStageHashes stageMask stageHashes = true); [|congruence].
  eapply BuildShaderCacheHash_returns. eauto.
Qed.

(** C3. When the pipeline module has a constant global variable with a
    user, reached through constant users, that is an instruction of a
    function of a stage other than fragment, [Check] returns the stage mask
    it was given and looks nothing up: the caches, the checker and the
    record of cache calls are as before.  The command line, and with it
    the per-stage cache option, is arbitrary.  The call of
    [BuildShaderCacheHash] that [Check] begins with reads [stageHashes] at
    the stages of the mask; the array has these entries. *)
Theorem Check_global_constant_keeps_all_stages (cl : CommandLine) (version : Z)
  (m_pContext : Context) (pModule : Module) (stageMask : Z) (stageHashes : list string)
  (w : World C) (pGlobalVar : GlobalVariable) :
  hasStageHashes stageMask stageHashes = true ->
  In pGlobalVar (globals pModule) ->
  isConstant pGlobalVar = true ->
  usedOutsideFragment (users pGlobalVar) ->
  Check cl version m_pContext pModule stageMask stageHashes w = Returned (stageMask, w).
Proof.
  intros Hhas Hin Hconst Hused. unfold Check, bind.
  destruct (call_BuildShaderCacheHash_returns version m_pContext stageMask stageHashes 0 0 w
              Hhas) as [[fragmentHash nonFragmentHash] ->].
  assert (globalConstantUsedOutsideFragment (globals pModule) = true) as ->.
  { apply globalConstantUsedOutsideFragment_spec. exists pGlobalVar. auto. }
  reflexivity.
Qed.

(** Without the entry of a stage of the mask, [Check] reads past
    [stageHashes] before it looks at the module. *)
Lemma Check_missing_stage_hash (cl : CommandLine) (version : Z)
  (m_pContext : Context) (pModule : Module) (stageMask : Z) (stageHashes : list string)
  (w : World C) :
  hasStageHashes stageMask stageHashes = false ->
  Check cl version m_pContext pModule stageMask stageHashes w = Fault.
Proof.
  intros Hhas. unfold Check, bind.
  rewrite (call_BuildShaderCacheHash_faults version m_pContext stageMask stageHashes 0 0 w Hhas).
  reflexivity.
Qed.

End CheckFacts.


Section FrameFacts.

Context {C : Type} {shaderCache : ShaderCacheClass C}.

Lemma keepsChecker_ret {A : Type} (a : A) : keepsChecker (C := C) (ret a).
Proof. intros w a' w' H. inversion H. reflexivity. Qed.

Lemma keepsChecker_fault {A : Type} : keepsChecker (C := C) (@fault (World C) A).
Proof. intros w a' w' H. discriminate. Qed.

Lemma keepsChecker_bind {A B : Type} (m : M (World C) A) (k : A -> M (World C) B) :
  keepsChecker m -> (forall a, keepsChecker (C := C) (k a)) -> keepsChecker (C := C) (bind m k).
Proof.
  intros Hm Hk w b w' H. unfold bind in H.
  destruct (m w) as [[a w1]|] eqn:E; [|discriminate].
  rewrite (Hk a _ _ _ H). apply (Hm _ _ _ E).
Qed.

Lemma keepsChecker_call_FindShader (p : option CacheRef) (hash : Hash) (alloc : bool) :
  keepsChecker (C := C) (call_FindShader p hash alloc).
Proof.
  intros w a w' H. destruct p as [[]|]; simpl in H; [| |discriminate];
    destruct (FindShader _ _ _) as [found c']; inversion H; reflexivity.
Qed.

Lemma keepsChecker_call_RetrieveShader (p : option CacheRef) (h : CacheEntryHandle)
  (elf : BinaryData) : keepsChecker (C := C) (call_RetrieveShader p h elf).
Proof.
  intros w a w' H. destruct p as [[]|]; simpl in H; [| |discriminate];
    destruct (RetrieveShader _ _ _) as [got c']; inversion H; reflexivity.
Qed.

Lemma keepsChecker_call_InsertShader (p : option CacheRef) (h : CacheEntryHandle)
  (blob : BinaryData) : keepsChecker (C := C) (call_InsertShader p h blob).
Proof.
  intros w a w' H. destruct p as [[]|]; simpl in H; [| |discriminate];
    inversion H; reflexivity.
Qed.

Lemma keepsChecker_array_get {A : Type} (arr : list A) (i : nat) :
  keepsChecker (C := C) (array_get arr i).
Proof.
  unfold array_get. destruct (arr !! i); [apply keepsChecker_ret|apply keepsChecker_fault].
Qed.

Lemma keepsChecker_array_set {A : Type} (arr : list A) (i : nat) (x : A) :
  keepsChecker (C := C) (array_set arr i x).
Proof.
  unfold array_set. destruct (decide _); [apply keepsChecker_ret|apply keepsChecker_fault].
Qed.

Lemma keepsChecker_for_loop {A : Type} (body : nat -> A -> M (World C) (LoopStep A)) :
  (forall i a, keepsChecker (C := C) (body i a)) ->
  forall count from a, keepsChecker (C := C) (for_loop count from body a).
Proof.
  intros Hbody. induction count as [|count IH]; intros from a; simpl.
  - apply keepsChecker_ret.
  - apply keepsChecker_bind; [apply Hbody|].
    intros [a'|a']; [apply IH|apply keepsChecker_ret].
Qed.

Ltac keeps :=
  repeat first
    [ apply keepsChecker_ret
    | apply keepsChecker_fault
    | apply keepsChecker_call_FindShader
    | apply keepsChecker_call_RetrieveShader
    | apply keepsChecker_call_InsertShader
    | apply keepsChecker_array_get
    | apply keepsChecker_array_set
    | apply keepsChecker_bind; [|intros ?]
    | match goal with
      | |- keepsChecker (match ?x with _ => _ end) => destruct x
      | |- keepsChecker (let '(_, _) := ?x in _) => destruct x
      end ].

Lemma keepsChecker_LookUpShaderCaches (cl : CommandLine) (pApp : option CacheRef)
  (hash : Hash) (elf : BinaryData) (pp : list (option CacheRef)) (ph : list CacheEntryHandle) :
  keepsChecker (C := C) (LookUpShaderCaches cl pApp hash elf pp ph).
Proof.
  unfold LookUpShaderCaches.
  apply keepsChecker_bind; [keeps|]. intros [pp1 n1].
  apply keepsChecker_bind; [keeps|]. intros [pp2 n2].
  apply keepsChecker_bind; [|intros ?; keeps].
  apply keepsChecker_for_loop. intros i a. unfold LookUpShaderCaches_body. keeps.
Qed.

Lemma keepsChecker_LookUpShaderCache (hash : Hash) (elf : BinaryData) :
  keepsChecker (C := C) (LookUpShaderCache hash elf).
Proof. unfold LookUpShaderCache. keeps. Qed.

End FrameFacts.


Section MaskFacts.

Lemma ShaderStageToMask_Fragment : ShaderStageToMask ShaderStageFragment = 2 ^ 4.
Proof. reflexivity. Qed.

Lemma ShaderStageToMask_Vertex : ShaderStageToMask ShaderStageVertex = 2 ^ 0.
Proof. reflexivity. Qed.

(** Masking with one bit leaves that bit or nothing. *)
Lemma land_pow2_cases (m n : Z) :
  0 <= n -> Z.land m (2 ^ n) = (if Z.testbit m n then 2 ^ n else 0).
Proof.
  intros Hn. apply Z.bits_inj'. intros i Hi.
  rewrite Z.land_spec, Z.pow2_bits_eqb by assumption.
  destruct (Z.eqb_spec n i) as [->|Hne].
  - destruct (Z.testbit m i) eqn:E.
    + rewrite Z.pow2_bits_true by assumption. reflexivity.
    + rewrite Z.bits_0. reflexivity.
  - rewrite andb_false_r. destruct (Z.testbit m n).
    + rewrite Z.pow2_bits_false by assumption. reflexivity.
    + rewrite Z.bits_0. reflexivity.
Qed.

Lemma land_Fragment_nonzero (stageMask : Z) :
  nonzero (Z.land stageMask (ShaderStageToMask ShaderStageFragment)) = true ->
  Z.land stageMask (ShaderStageToMask ShaderStageFragment) =
  ShaderStageToMask ShaderStageFragment.
Proof.
  rewrite ShaderStageToMask_Fragment, land_pow2_cases by lia.
  destruct (Z.testbit stageMask 4); [reflexivity|discriminate].
Qed.

End MaskFacts.

Section SplitFacts.

Context {C : Type} {shaderCache : ShaderCacheClass C}.
Context {elfLibrary : ElfLibrary} {collaborators : Collaborators C}.
Variable cl : CommandLine.

(** Before client interface 38, a fragment miss and a non-fragment hit make
    [Check] record [Compiling] for the fragment entry and [Ready] for the
    non-fragment entry, and return the fragment stage alone. *)
Lemma Check_split_legacy (version : Z) (m_pContext : Context) (pModule : Module)
  (stageMask : Z) (stageHashes : list string) (w w1 w2 : World C)
  (fragmentHash nonFragmentHash : Hash)
  (elfF elfN : BinaryData) (ppF ppN : list (option CacheRef))
  (phF phN : list CacheEntryHandle) :
  version < 38 ->
  globalConstantUsedOutsideFragment (globals pModule) = false ->
  BuildShaderCacheHash version m_pContext stageMask stageHashes 0 0 =
    Returned (fragmentHash, nonFragmentHash) ->
  nonzero (Z.land stageMask (ShaderStageToMask ShaderStageFragment)) = true ->
  nonzero (Z.land stageMask (not32 (ShaderStageToMask ShaderStageFragment))) = true ->
  LookUpShaderCaches cl (pShaderCache m_pContext) fragmentHash (m_fragmentElf (checker w))
    (m_pFragmentShaderCache (checker w)) (m_hFragmentEntry (checker w)) w =
    Returned ((Compiling, elfF, ppF, phF), w1) ->
  LookUpShaderCaches cl (pShaderCache m_pContext) nonFragmentHash
    (m_nonFragmentElf (checker w)) (m_pNonFragmentShaderCache (checker w))
    (m_hNonFragmentEntry (checker w))
    (setChecker (set_m_fragmentCacheEntryState Compiling
                   (set_fragmentLookup elfF ppF phF (checker w))) w1) =
    Returned ((Ready, elfN, ppN, phN), w2) ->
  exists w',
    Check cl version m_pContext pModule stageMask stageHashes w =
      Returned (ShaderStageToMask ShaderStageFragment, w') /\
    m_fragmentCacheEntryState (checker w') = Compiling /\
    m_nonFragmentCacheEntryState (checker w') = Ready /\
    m_nonFragmentElf (checker w') = elfN.
Proof.
  intros Hv Hglobals Hhash HF HN Hfrag Hnon.
  pose proof (keepsChecker_LookUpShaderCaches _ _ _ _ _ _ _ _ _ Hfrag) as Hk1.
  pose proof (keepsChecker_LookUpShaderCaches _ _ _ _ _ _ _ _ _ Hnon) as Hk2.
  simpl in Hk2.
  unfold Check. unfold bind at 1. unfold call_BuildShaderCacheHash.
  rewrite Hhash, Hglobals, HF, HN.
  unfold bind at 1. unfold Check_lookUpFragment, bind, getChecker.
  destruct (decide (version < 38)); [|lia].
  rewrite Hfrag. unfold modifyChecker, modify. rewrite Hk1.
  unfold Check_lookUpNonFragment, getChecker. simpl.
  destruct (decide (version < 38)); [|lia].
  unfold bind. simpl. rewrite Hnon. simpl. rewrite Hk2. simpl.
  eexists. split; [rewrite (land_Fragment_nonzero _ HF); reflexivity|].
  simpl. auto.
Qed.

(** From client interface 38 on, the same look-ups leave [Ready] in the
    fragment entry state and do not touch the non-fragment entry state;
    the fragment stage is removed from the mask. *)
Lemma Check_split_interface38 (version : Z) (m_pContext : Context) (pModule : Module)
  (stageMask : Z) (stageHashes : list string) (w w1 w2 : World C)
  (fragmentHash nonFragmentHash : Hash)
  (elfF elfN : BinaryData) (hF hN : CacheEntryHandle) :
  38 <= version ->
  globalConstantUsedOutsideFragment (globals pModule) = false ->
  BuildShaderCacheHash version m_pContext stageMask stageHashes 0 0 =
    Returned (fragmentHash, nonFragmentHash) ->
  nonzero (Z.land stageMask (ShaderStageToMask ShaderStageFragment)) = true ->
  nonzero (Z.land stageMask (not32 (ShaderStageToMask ShaderStageFragment))) = true ->
  LookUpShaderCache fragmentHash (m_fragmentElf (checker w)) w =
    Returned ((Compiling, elfF, hF), w1) ->
  LookUpShaderCache nonFragmentHash (m_nonFragmentElf (checker w))
    (setChecker (set_m_fragmentCacheEntryState Compiling
                   (set_fragmentLookup elfF (m_pFragmentShaderCache (checker w))
                      (set_handle38 hF (m_hFragmentEntry (checker w))) (checker w))) w1) =
    Returned ((Ready, elfN, hN), w2) ->
  exists stageMask' w',
    Check cl version m_pContext pModule stageMask stageHashes w =
      Returned (stageMask', w') /\
    Z.land stageMask' (ShaderStageToMask ShaderStageFragment) = 0 /\
    m_fragmentCacheEntryState (checker w') = Ready /\
    m_nonFragmentCacheEntryState (checker w') = m_nonFragmentCacheEntryState (checker w).
Proof.
  intros Hv Hglobals Hhash HF HN Hfrag Hnon.
  pose proof (keepsChecker_LookUpShaderCache _ _ _ _ _ Hfrag) as Hk1.
  pose proof (keepsChecker_LookUpShaderCache _ _ _ _ _ Hnon) as Hk2.
  simpl in Hk2.
  unfold Check. unfold bind at 1. unfold call_BuildShaderCacheHash.
  rewrite Hhash, Hglobals, HF, HN.
  unfold bind at 1. unfold Check_lookUpFragment, bind, getChecker.
  destruct (decide (version < 38)); [lia|].
  rewrite Hfrag. unfold modifyChecker, modify. rewrite Hk1.
  unfold Check_lookUpNonFragment, getChecker. simpl.
  destruct (decide (version < 38)); [lia|].
  unfold bind. simpl. rewrite Hnon. simpl. rewrite Hk2. simpl.
  do 2 eexists. split; [reflexivity|]. split; [|auto].
  assert (Hclear : forall m, Z.land (Z.land m (not32 (ShaderStageToMask ShaderStageFragment)))
                               (ShaderStageToMask ShaderStageFragment) = 0).
  { intros m. rewrite <- Z.land_assoc. change (Z.land (not32 _) _) with 0.
    apply Z.land_0_r. }
  destruct (decide (m_nonFragmentCacheEntryState (checker w) <> Compiling)); apply Hclear.
Qed.

End SplitFacts.


Section MergeAfterCheckFacts.

Context {C : Type} {shaderCache : ShaderCacheClass C}.
Context {elfLibrary : ElfLibrary} {collaborators : Collaborators C}.
Variable cl : CommandLine.

(** With the non-fragment entry [Ready], the fragment entry [Compiling]
    and a successful compile, [UpdateAndMerge] merges the ELF just compiled
    with the cached non-fragment ELF, stores the merged ELF under the
    fragment entry and returns it. *)
Lemma UpdateAndMerge_fragment_compiled (version : Z) (m_pContext : Context)
  (pPipelineElf merged : ElfPackage) (w : World C) :
  m_nonFragmentCacheEntryState (checker w) = Ready ->
  m_fragmentCacheEntryState (checker w) = Compiling ->
  MergeElfBinary m_pContext (BinaryData_of_package pPipelineElf)
    (m_nonFragmentElf (checker w)) = Returned merged ->
  UpdateAndMerge version m_pContext Success pPipelineElf w =
  (updateStageCache version true (BinaryData_of_package merged)
     (m_pFragmentShaderCache (checker w)) (m_hFragmentEntry (checker w));;
   ret merged) w.
Proof.
  intros HN HF Hmerge.
  unfold UpdateAndMerge, bind, getChecker. rewrite HN, HF.
  destruct (decide (Compiling = Ready /\ Ready = Compiling)) as [[? _]|_]; [discriminate|].
  destruct (decide (Ready = Ready /\ Compiling = Compiling)) as [_|Hno]; [|tauto].
  destruct (decide (Success = Success)) as [_|Hno]; [|congruence].
  unfold call_MergeElfBinary. rewrite Hmerge. reflexivity.
Qed.

(** When [checkPerStageCache] holds exactly. *)
Lemma checkPerStageCache_spec (pContext : Context) :
  checkPerStageCache cl pContext = true <->
  EnablePerStageCache cl = true /\ IsGraphics pContext = true /\
  (Z.testbit (GetShaderStageMask pContext) 0 = true \/
   Z.testbit (GetShaderStageMask pContext) 4 = true).
Proof.
  unfold checkPerStageCache, nonzero.
  rewrite !andb_true_iff, negb_true_iff, Z.eqb_neq.
  rewrite Z.land_lor_distr_r, Z.lor_eq_0_iff.
  rewrite ShaderStageToMask_Vertex, ShaderStageToMask_Fragment.
  rewrite !land_pow2_cases by lia.
  destruct (Z.testbit (GetShaderStageMask pContext) 0),
           (Z.testbit (GetShaderStageMask pContext) 4); simpl; intuition; try discriminate; lia.
Qed.

End MergeAfterCheckFacts.

(** C1, on the code compiled for client interface 38.  The internal cache
    has the non-fragment ELF (key 9) and not the fragment ELF (key 14); the
    pipeline has a vertex and a fragment stage.  [Check] leaves [Ready] in
    the fragment entry state and [New] in the non-fragment entry state and
    returns no stage at all; [BuildPipelineInternal] then returns an empty
    ELF, where the code compiled for interface 37 returns the merged ELF. *)
Theorem Check_interface38_loses_fragment_state :
  (exists w',
     Check (shaderCache := Doubles.mapCache)
       (collaborators := Doubles.collaboratorsOf 17 (mkModule []))
       Doubles.commandLine 38 (mkContext true 17 None) (mkModule []) 17 Doubles.stageHashes
       Doubles.nonFragmentCachedWorld = Returned (0, w') /\
     m_fragmentCacheEntryState (checker w') = Ready /\
     m_nonFragmentCacheEntryState (checker w') = New) /\
  (exists w',
     BuildPipelineInternal (shaderCache := Doubles.mapCache)
       (elfLibrary := Doubles.elfLibrary)
       (collaborators := Doubles.collaboratorsOf 17 (mkModule []))
       Doubles.commandLine 38 (mkContext true 17 None) [] 0
       Doubles.nonFragmentCachedWorld = Returned ((Success, EmptyString), w')) /\
  (exists w',
     BuildPipelineInternal (shaderCache := Doubles.mapCache)
       (elfLibrary := Doubles.elfLibrary)
       (collaborators := Doubles.collaboratorsOf 17 (mkModule []))
       Doubles.commandLine 37 (mkContext true 17 None) [] 0
       Doubles.nonFragmentCachedWorld =
       Returned ((Success, "_amdgpu_vs_main;_amdgpu_ps_main;VSCODEFRAGCODE"%string), w')).
Proof.
  split; [|split].
  - match goal with
    | |- exists w', ?run = _ /\ _ => set (o := run); vm_compute in o; subst o
    end.
    eexists. split; [reflexivity|]. split; reflexivity.
  - match goal with
    | |- exists w', ?run = _ => set (o := run); vm_compute in o; subst o
    end.
    eexists. reflexivity.
  - match goal with
    | |- exists w', ?run = _ => set (o := run); vm_compute in o; subst o
    end.
    eexists. reflexivity.
Qed.

(** C2, on a graphics pipeline with a vertex stage and no fragment stage,
    with the per-stage cache option on: [checkPerStageCache] is true and
    the cache-check function is handed to [Generate]. *)
Theorem checkPerStageCache_vertex_only :
  checkPerStageCache Doubles.commandLine
    (mkContext true (ShaderStageToMask ShaderStageVertex) None) = true /\
  Z.land (ShaderStageToMask ShaderStageVertex) (ShaderStageToMask ShaderStageFragment) = 0 /\
  checkShaderCacheFuncOf (shaderCache := Doubles.mapCache)
    (collaborators := Doubles.collaboratorsOf 1 (mkModule []))
    Doubles.commandLine 38
    (mkContext true (ShaderStageToMask ShaderStageVertex) None) <> None.
Proof.
  split; [reflexivity|]. split; [reflexivity|].
  unfold checkShaderCacheFuncOf.
  change (checkPerStageCache _ _) with true. discriminate.
Qed.

(** A module with a constant global used, through a constant expression,
    by an instruction of the vertex shader. *)
Lemma Check_global_constant_keeps_all_stages_witness :
  Check (shaderCache := Doubles.mapCache)
    (collaborators := Doubles.collaboratorsOf 17 (mkModule []))
    Doubles.commandLine 37 (mkContext true 17 None)
    (mkModule [mkGlobalVariable false [];
               mkGlobalVariable true [UserInstruction ShaderStageFragment;
                                      UserConstant [UserInstruction ShaderStageVertex]]])
    17 Doubles.stageHashes Doubles.nonFragmentCachedWorld =
  Returned (17, Doubles.nonFragmentCachedWorld).
Proof.
  apply (Check_global_constant_keeps_all_stages (shaderCache := Doubles.mapCache)
           Doubles.commandLine 37 (mkContext true 17 None) _ 17 Doubles.stageHashes
           Doubles.nonFragmentCachedWorld
           (mkGlobalVariable true [UserInstruction ShaderStageFragment;
                                   UserConstant [UserInstruction ShaderStageVertex]])).
  - reflexivity.
  - simpl. right. left. reflexivity.
  - reflexivity.
  - apply (used_through_constant _ [UserInstruction ShaderStageVertex]).
    + simpl. right. left. reflexivity.
    + apply (used_by_instruction _ ShaderStageVertex).
      * simpl. left. reflexivity.
      * discriminate.
Defined.


Section MonadFacts.

Lemma bind_Returned {St A B : Type} (m : M St A) (k : A -> M St B) (s s' : St) (b : B) :
  bind m k s = Returned (b, s') ->
  exists a s1, m s = Returned (a, s1) /\ k a s1 = Returned (b, s').
Proof.
  unfold bind. destruct (m s) as [[a s1]|]; [|discriminate]. eauto.
Qed.

End MonadFacts.

Section ElfMergeFacts.

Context {elfLibrary : ElfLibrary}.

Lemma invalidated_refl (syms : list ElfSymbol) : invalidated syms syms.
Proof. apply Forall_Forall2_diag, Forall_forall. auto. Qed.

Lemma invalidated_trans (syms1 syms2 syms3 : list ElfSymbol) :
  invalidated syms1 syms2 -> invalidated syms2 syms3 -> invalidated syms1 syms3.
Proof.
  unfold invalidated. intros H12. revert syms3.
  induction H12 as [|a b l1 l2 Hab H12 IH]; intros syms3 H23; inversion H23; subst.
  - constructor.
  - constructor; [|apply IH; assumption].
    destruct Hab as [-> | ->]; [assumption|].
    match goal with H : _ \/ _ |- _ => destruct H as [->| ->] end; auto.
Qed.

Lemma invalidated_lookup (syms syms1 : list ElfSymbol) (q : nat) (sym1 : ElfSymbol) :
  invalidated syms syms1 -> syms1 !! q = Some sym1 ->
  exists sym, syms !! q = Some sym /\ (sym1 = sym \/ sym1 = set_secIdx InvalidValue sym).
Proof.
  intros Hinv Hq. destruct (Forall2_lookup_r _ _ _ _ _ Hinv Hq) as (sym & Hsym & Hrel). eauto.
Qed.

Lemma invalidated_insert (syms : list ElfSymbol) (q : nat) (sym : ElfSymbol) :
  syms !! q = Some sym ->
  invalidated syms (<[q := set_secIdx InvalidValue sym]> syms).
Proof.
  intros Hq. unfold invalidated. apply Forall2_same_length_lookup_2.
  - rewrite length_insert. reflexivity.
  - intros i x y Hx Hy. destruct (decide (i = q)) as [->|Hne].
    + rewrite list_lookup_insert_eq in Hy by (eapply lookup_lt_Some; eassumption).
      right. congruence.
    + rewrite list_lookup_insert_ne in Hy by congruence. left. congruence.
Qed.

(** What one run of the first loop leaves: only sections of symbols were
    invalidated. *)
Lemma scanNonFragmentSymbols_frame (ps : list nat) :
  forall (s s' : NonFragmentScan) (writer writer1 : ElfImage),
    scanNonFragmentSymbols ps s writer = Returned (s', writer1) ->
    invalidated (symbols writer) (symbols writer1) /\
    sections writer1 = sections writer /\
    palMetadataNote writer1 = palMetadataNote writer.
Proof.
  induction ps as [|p ps IH]; intros s s' writer writer1 Hrun; simpl in Hrun.
  - inversion Hrun; subst. split; [apply invalidated_refl|auto].
  - apply bind_Returned in Hrun. destruct Hrun as (sym & w0 & Hread & Hrun).
    unfold readSymbol in Hread. destruct (symbols writer !! p) as [sym0|] eqn:Hp; [|discriminate].
    inversion Hread; subst sym0 w0. clear Hread.
    match type of Hrun with
    | context [match ?found with Some _ => _ | None => _ end] =>
        destruct found as [pIsa|] eqn:HpIsa
    end.
    + apply bind_Returned in Hrun. destruct Hrun as ([] & w1 & Hupd & Hrun).
      unfold updateSymbol, setSymbols in Hupd. rewrite Hp in Hupd. inversion Hupd; subst w1.
      apply IH in Hrun. simpl in Hrun. destruct Hrun as (Hinv & Hsec & Hnote).
      split; [|auto]. eapply invalidated_trans; [|exact Hinv].
      apply invalidated_insert, Hp.
    + apply IH in Hrun. exact Hrun.
Qed.

Lemma invalidated_same_fields (syms syms1 : list ElfSymbol) (q : nat) (sym1 : ElfSymbol) :
  invalidated syms syms1 -> syms1 !! q = Some sym1 ->
  exists sym, syms !! q = Some sym /\ pSymName sym1 = pSymName sym /\
              value sym1 = value sym /\ size sym1 = size sym /\
              (secIdx sym = InvalidValue -> secIdx sym1 = InvalidValue).
Proof.
  intros Hinv Hq. destruct (invalidated_lookup _ _ _ _ Hinv Hq) as (sym & Hsym & Hrel).
  exists sym. destruct Hrel; subst; simpl; auto.
Qed.

Lemma invalidated_lookup_l (syms syms1 : list ElfSymbol) (q : nat) (sym : ElfSymbol) :
  invalidated syms syms1 -> syms !! q = Some sym ->
  exists sym1, syms1 !! q = Some sym1 /\ pSymName sym1 = pSymName sym /\
               value sym1 = value sym /\
               (secIdx sym = InvalidValue -> secIdx sym1 = InvalidValue).
Proof.
  intros Hinv Hq. destruct (Forall2_lookup_l _ _ _ _ _ Hinv Hq) as (sym1 & Hsym1 & Hrel).
  exists sym1. destruct Hrel; subst; simpl; auto.
Qed.

(** Once the fragment entry has been seen, the first loop invalidates
    every symbol it visits. *)
Lemma scanNonFragmentSymbols_after_entry (ps : list nat) :
  forall (s s' : NonFragmentScan) (writer writer1 : ElfImage) (pIsa : nat),
    pNonFragmentIsaSymbol s = Some pIsa ->
    scanNonFragmentSymbols ps s writer = Returned (s', writer1) ->
    forall q, In q ps ->
      exists sym1, symbols writer1 !! q = Some sym1 /\ secIdx sym1 = InvalidValue.
Proof.
  induction ps as [|p ps IH]; intros s s' writer writer1 pIsa Hs Hrun q Hq; [destruct Hq|].
  simpl in Hrun.
  apply bind_Returned in Hrun. destruct Hrun as (sym & w0 & Hread & Hrun).
  unfold readSymbol in Hread. destruct (symbols writer !! p) as [sym0|] eqn:Hp; [|discriminate].
  inversion Hread; subst sym0 w0. clear Hread.
  rewrite Hs in Hrun.
  destruct (String.eqb (pSymName sym) FragmentIsaSymbolName).
  all: apply bind_Returned in Hrun; destruct Hrun as ([] & w1 & Hupd & Hrun).
  all: unfold updateSymbol, setSymbols in Hupd; rewrite Hp in Hupd; inversion Hupd; subst w1.
  all: destruct Hq as [<-|Hq]; [|eapply IH; [|exact Hrun|exact Hq]; reflexivity].
  all: apply scanNonFragmentSymbols_frame in Hrun; destruct Hrun as (Hinv & _).
  all: simpl in Hinv.
  all: destruct (invalidated_lookup_l _ _ p (set_secIdx InvalidValue sym) Hinv)
         as (sym1 & Hsym1 & _ & _ & Hinvalid);
       [apply list_lookup_insert_eq; eapply lookup_lt_Some; eassumption|].
  all: exists sym1; split; [exact Hsym1|apply Hinvalid; reflexivity].
Qed.

(** The first loop invalidates the fragment entry placeholder and every
    symbol listed after it. *)
Lemma scanNonFragmentSymbols_from_entry (before : list nat) :
  forall (p : nat) (after : list nat) (s s' : NonFragmentScan) (writer writer1 : ElfImage)
         (sym : ElfSymbol),
    scanNonFragmentSymbols (before ++ p :: after) s writer = Returned (s', writer1) ->
    symbols writer !! p = Some sym ->
    pSymName sym = FragmentIsaSymbolName ->
    forall q, In q (p :: after) ->
      exists sym1, symbols writer1 !! q = Some sym1 /\ secIdx sym1 = InvalidValue.
Proof.
  induction before as [|b before IH]; intros p after s s' writer writer1 sym Hrun Hp Hname q Hq.
  - pose proof Hrun as Hrun0. simpl in Hrun.
    apply bind_Returned in Hrun. destruct Hrun as (sym0 & w0 & Hread & Hrun).
    unfold readSymbol in Hread. rewrite Hp in Hread. inversion Hread; subst sym0 w0.
    rewrite Hname, String.eqb_refl in Hrun.
    apply bind_Returned in Hrun. destruct Hrun as ([] & w1 & Hupd & Hrun).
    unfold updateSymbol, setSymbols in Hupd. rewrite Hp in Hupd. inversion Hupd; subst w1.
    destruct Hq as [<-|Hq].
    + apply scanNonFragmentSymbols_frame in Hrun. destruct Hrun as (Hinv & _). simpl in Hinv.
      destruct (invalidated_lookup_l _ _ p (set_secIdx InvalidValue sym) Hinv)
        as (sym1 & Hsym1 & _ & _ & Hinvalid);
        [apply list_lookup_insert_eq; eapply lookup_lt_Some; eassumption|].
      exists sym1. split; [exact Hsym1|apply Hinvalid; reflexivity].
    + eapply scanNonFragmentSymbols_after_entry; [|exact Hrun|exact Hq]. reflexivity.
  - simpl in Hrun.
    apply bind_Returned in Hrun. destruct Hrun as (symb & w0 & Hread & Hrun).
    unfold readSymbol in Hread. destruct (symbols writer !! b) as [symb0|] eqn:Hb; [|discriminate].
    inversion Hread; subst symb0 w0. clear Hread.
    match type of Hrun with
    | context [match ?found with Some _ => _ | None => _ end] =>
        destruct found as [pIsa|] eqn:HpIsa
    end.
    + apply bind_Returned in Hrun. destruct Hrun as ([] & w1 & Hupd & Hrun).
      unfold updateSymbol, setSymbols in Hupd. rewrite Hb in Hupd. inversion Hupd; subst w1.
      destruct (invalidated_lookup_l _ _ p sym (invalidated_insert _ _ _ Hb) Hp)
        as (sym' & Hsym' & Hname' & _).
      eapply IH; [exact Hrun|exact Hsym'|congruence|exact Hq].
    + eapply IH; [exact Hrun|exact Hp|exact Hname|exact Hq].
Qed.

(** Which symbol the first loop leaves in [pNonFragmentIsaSymbol]. *)
Lemma scanNonFragmentSymbols_result (ps : list nat) :
  forall (s s' : NonFragmentScan) (writer writer1 : ElfImage),
    scanNonFragmentSymbols ps s writer = Returned (s', writer1) ->
    match pNonFragmentIsaSymbol s' with
    | None =>
        pNonFragmentIsaSymbol s = None /\
        forall q sym, In q ps -> symbols writer !! q = Some sym ->
                      pSymName sym <> FragmentIsaSymbolName
    | Some p =>
        pNonFragmentIsaSymbol s = Some p \/
        (In p ps /\ exists sym, symbols writer !! p = Some sym /\
                               pSymName sym = FragmentIsaSymbolName)
    end.
Proof.
  induction ps as [|p ps IH]; intros s s' writer writer1 Hrun; simpl in Hrun.
  - inversion Hrun; subst. destruct (pNonFragmentIsaSymbol s'); [auto|].
    split; [reflexivity|]. intros q sym [].
  - apply bind_Returned in Hrun. destruct Hrun as (sym & w0 & Hread & Hrun).
    unfold readSymbol in Hread. destruct (symbols writer !! p) as [sym0|] eqn:Hp; [|discriminate].
    inversion Hread; subst sym0 w0. clear Hread.
    destruct (String.eqb_spec (pSymName sym) FragmentIsaSymbolName) as [Hname|Hname].
    + apply bind_Returned in Hrun. destruct Hrun as ([] & w1 & Hupd & Hrun).
      pose proof (Hstep0 := IH _ _ _ _ Hrun).
      simpl in Hstep0.
      unfold updateSymbol, setSymbols in Hupd. rewrite Hp in Hupd. inversion Hupd; subst w1.
      destruct (pNonFragmentIsaSymbol s') as [p'|].
      * destruct Hstep0 as [Heq|(Hin & sym' & Hsym' & Hname')].
        -- inversion Heq; subst p'. right. split; [left; reflexivity|]. eauto.
        -- right. split; [right; exact Hin|]. simpl in Hsym'.
           destruct (invalidated_same_fields _ _ p' sym' (invalidated_insert _ _ _ Hp) Hsym')
             as (sym0 & Hsym0 & Hn & _).
           exists sym0. split; [exact Hsym0|congruence].
      * destruct Hstep0 as [Hno _]. discriminate.
    + destruct (pNonFragmentIsaSymbol s) as [pIsa|] eqn:Hs.
      * apply bind_Returned in Hrun. destruct Hrun as ([] & w1 & Hupd & Hrun).
        pose proof (Hstep := IH _ _ _ _ Hrun). simpl in Hstep.
        unfold updateSymbol, setSymbols in Hupd. rewrite Hp in Hupd. inversion Hupd; subst w1.
        destruct (pNonFragmentIsaSymbol s') as [p'|].
        -- destruct Hstep as [Heq|(Hin & sym' & Hsym' & Hname')]; [auto|].
           right. split; [right; exact Hin|]. simpl in Hsym'.
           destruct (invalidated_same_fields _ _ p' sym' (invalidated_insert _ _ _ Hp) Hsym')
             as (sym0 & Hsym0 & Hn & _).
           exists sym0. split; [exact Hsym0|congruence].
        -- destruct Hstep as [Hno _]. discriminate.
      * pose proof (Hstep := IH _ _ _ _ Hrun). simpl in Hstep.
        destruct (pNonFragmentIsaSymbol s') as [p'|].
        -- destruct Hstep as [Heq|(Hin & Hsym')]; [discriminate|].
           right. split; [right; exact Hin|exact Hsym'].
        -- destruct Hstep as [_ Hno]. split; [reflexivity|].
           intros q symq [<-|Hq] Hsymq; [congruence|]. eapply Hno; eassumption.
Qed.

Lemma insert_middle {A : Type} (l1 l2 : list A) (x y : A) :
  <[length l1 := y]> (l1 ++ x :: l2) = l1 ++ y :: l2.
Proof.
  rewrite insert_app_r_alt by lia. rewrite Nat.sub_diag. reflexivity.
Qed.

Lemma findSymbol_Some (syms : list ElfSymbol) (name : string) :
  forall pos p,
    findSymbol syms name pos = Some p ->
    exists l1 sym l2,
      syms = l1 ++ sym :: l2 /\ p = (pos + length l1)%nat /\ pSymName sym = name /\
      Forall (fun s => pSymName s <> name) l1.
Proof.
  induction syms as [|sym syms IH]; intros pos p Hfind; simpl in Hfind; [discriminate|].
  destruct (String.eqb_spec (pSymName sym) name) as [Hname|Hname].
  - inversion Hfind; subst p. exists [], sym, syms. simpl. split; [reflexivity|].
    split; [lia|]. split; [exact Hname|constructor].
  - apply IH in Hfind. destruct Hfind as (l1 & sym' & l2 & -> & -> & Hname' & Hl1).
    exists (sym :: l1), sym', l2. simpl. split; [reflexivity|]. split; [lia|].
    split; [exact Hname'|]. constructor; assumption.
Qed.


Lemma symbolNamed_skip (name : string) (l1 l : list ElfSymbol) :
  Forall (fun s => pSymName s <> name) l1 ->
  symbolNamed name (l1 ++ l) = symbolNamed name l.
Proof.
  unfold symbolNamed. induction 1 as [|sym l1 Hsym _ IH]; simpl; [reflexivity|].
  destruct (String.eqb_spec (pSymName sym) name); [contradiction|exact IH].
Qed.



Lemma symbolNamed_none (name : string) (l : list ElfSymbol) :
  Forall (fun s => pSymName s <> name) l -> symbolNamed name l = None.
Proof.
  intros H. rewrite <- (app_nil_r l), symbolNamed_skip by assumption. reflexivity.
Qed.




(** The second loop before the entry symbol: nothing happens. *)
Lemma updateFragmentSymbols_before_entry (nonFragmentSecIndex isaOffset : Z)
  (pFragmentTextSection : option ElfSectionBuffer)
  (before rest : list ElfSymbol) (writer : ElfImage) :
  Forall (fun s => pSymName s <> FragmentIsaSymbolName) before ->
  updateFragmentSymbols (before ++ rest) nonFragmentSecIndex pFragmentTextSection isaOffset
    None writer =
  updateFragmentSymbols rest nonFragmentSecIndex pFragmentTextSection isaOffset None writer.
Proof.
  induction 1 as [|s before Hs _ IH]; simpl; [reflexivity|].
  destruct (String.eqb_spec (pSymName s) FragmentIsaSymbolName); [contradiction|].
  exact IH.
Qed.


(** The second loop on a symbol list without an entry symbol: no symbol is
    re-emitted and the writer is as before. *)
Lemma updateFragmentSymbols_no_entry (nonFragmentSecIndex isaOffset : Z)
  (pFragmentTextSection : option ElfSectionBuffer)
  (fragmentSymbols : list ElfSymbol) (writer : ElfImage) :
  Forall (fun s => pSymName s <> FragmentIsaSymbolName) fragmentSymbols ->
  updateFragmentSymbols fragmentSymbols nonFragmentSecIndex pFragmentTextSection isaOffset
    None writer = Returned (None, writer).
Proof.
  intros Hno. rewrite <- (app_nil_r fragmentSymbols).
  rewrite updateFragmentSymbols_before_entry by assumption. reflexivity.
Qed.




Lemma isaOffsetOf_state (nonFragmentSecIndex : Z) (pIsa : option nat)
  (writer writer' : ElfImage) (isaOffset : Z) :
  isaOffsetOf nonFragmentSecIndex pIsa writer = Returned (isaOffset, writer') ->
  writer' = writer.
Proof.
  unfold isaOffsetOf. intros Hrun. destruct pIsa as [p|].
  - apply bind_Returned in Hrun. destruct Hrun as (sym & w1 & Hread & Hrun).
    unfold readSymbol in Hread. destruct (symbols writer !! p); [|discriminate].
    inversion Hread; subst. inversion Hrun. reflexivity.
  - apply bind_Returned in Hrun. destruct Hrun as (pSec & w1 & Hsec & Hrun).
    inversion Hsec; subst. apply bind_Returned in Hrun.
    destruct Hrun as (sec & w2 & Hderef & Hrun).
    unfold deref in Hderef. destruct (GetSectionDataBySectionIndex _ _); [|discriminate].
    inversion Hderef; subst. inversion Hrun. reflexivity.
Qed.


(** The positions [GetSymbolsBySectionIndex] collects are positions of the
    table, each of them once. *)
Lemma symbolPositions_bounds (syms : list ElfSymbol) (idx : Z) :
  forall pos q, In q (symbolPositions syms idx pos) -> (pos <= q < pos + length syms)%nat.
Proof.
  induction syms as [|sym syms IH]; intros pos q Hq; simpl in *; [destruct Hq|].
  destruct (decide (secIdx sym = idx)).
  - destruct Hq as [<-|Hq]; [lia|]. apply IH in Hq. lia.
  - apply IH in Hq. lia.
Qed.

Lemma symbolPositions_NoDup (syms : list ElfSymbol) (idx : Z) :
  forall pos, NoDup (symbolPositions syms idx pos).
Proof.
  induction syms as [|sym syms IH]; intros pos; simpl; [constructor|].
  destruct (decide (secIdx sym = idx)); [|apply IH].
  constructor; [|apply IH].
  rewrite list_elem_of_In. intros Hin. apply symbolPositions_bounds in Hin. lia.
Qed.

Lemma fromPlaceholder_In (syms : list ElfSymbol) (ps : list nat) (q : nat) :
  fromPlaceholder syms ps q -> In q ps.
Proof.
  intros (before & p & after & sym & -> & _ & _ & Hq). apply in_or_app. right. exact Hq.
Qed.

Lemma fromPlaceholder_cons_skip (syms : list ElfSymbol) (p : nat) (ps : list nat) (q : nat)
  (sym : ElfSymbol) :
  syms !! p = Some sym -> pSymName sym <> FragmentIsaSymbolName ->
  fromPlaceholder syms (p :: ps) q <-> fromPlaceholder syms ps q.
Proof.
  intros Hp Hname. split.
  - intros (before & p' & after & sym' & Hlist & Hp' & Hname' & Hq).
    destruct before as [|b before]; simpl in Hlist; inversion Hlist; subst.
    + congruence.
    + exists before, p', after, sym'. auto.
  - intros (before & p' & after & sym' & -> & Hp' & Hname' & Hq).
    exists (p :: before), p', after, sym'. auto.
Qed.

(** The first loop, exactly: it returns, and it resets the symbols it
    comes to from the first symbol of the fragment entry name on, and no
    other. *)
Lemma scanNonFragmentSymbols_exact (ps : list nat) :
  forall (s : NonFragmentScan) (writer : ElfImage),
    NoDup ps ->
    (forall p, In p ps -> is_Some (symbols writer !! p)) ->
    exists s' writer1,
      scanNonFragmentSymbols ps s writer = Returned (s', writer1) /\
      sections writer1 = sections writer /\
      palMetadataNote writer1 = palMetadataNote writer /\
      length (symbols writer1) = length (symbols writer) /\
      forall q symq, symbols writer !! q = Some symq ->
        (((is_Some (pNonFragmentIsaSymbol s) /\ In q ps) \/
          fromPlaceholder (symbols writer) ps q) ->
         symbols writer1 !! q = Some (set_secIdx InvalidValue symq)) /\
        (~ ((is_Some (pNonFragmentIsaSymbol s) /\ In q ps) \/
            fromPlaceholder (symbols writer) ps q) ->
         symbols writer1 !! q = Some symq).
Proof.
  induction ps as [|p ps IH]; intros s writer Hnodup Hvalid.
  - exists s, writer. simpl. split; [reflexivity|]. repeat (split; [reflexivity|]).
    intros q symq Hq. split; [|auto].
    intros [[_ []]|Hfrom]. apply fromPlaceholder_In in Hfrom. destruct Hfrom.
  - apply NoDup_cons in Hnodup. destruct Hnodup as [Hfresh Hnodup].
    rewrite list_elem_of_In in Hfresh.
    destruct (Hvalid p (or_introl eq_refl)) as [symp Hp].
    simpl. unfold bind at 1. unfold readSymbol at 1. rewrite Hp.
    match goal with
    | |- context [match ?found with Some _ => _ | None => _ end ?w = _] =>
        destruct found as [pIsa|] eqn:HpIsa
    end.
    + (* the symbol is reset *)
      unfold bind at 1. unfold updateSymbol at 1. rewrite Hp.
      match goal with
      | |- context [scanNonFragmentSymbols ps ?s1 ?w1] =>
          destruct (IH s1 w1 Hnodup) as (s' & writer1 & Hrun & Hsec & Hnote & Hlen & Hsyms)
      end.
      { intros p' Hp'. simpl. apply lookup_lt_is_Some. rewrite length_insert.
        apply lookup_lt_is_Some. apply Hvalid. right. exact Hp'. }
      exists s', writer1. split; [exact Hrun|]. simpl in Hsec, Hnote, Hlen, Hsyms.
      split; [exact Hsec|]. split; [exact Hnote|].
      split; [rewrite Hlen, length_insert; reflexivity|].
      assert (Hall : forall q, In q (p :: ps) ->
                (is_Some (pNonFragmentIsaSymbol s) /\ In q (p :: ps)) \/
                fromPlaceholder (symbols writer) (p :: ps) q).
      { intros q Hq. destruct (String.eqb_spec (pSymName symp) FragmentIsaSymbolName) as [Hn|Hn].
        - right. exists [], p, ps, symp. auto.
        - left. split; [|exact Hq]. rewrite HpIsa. eauto. }
      intros q symq Hq. destruct (decide (q = p)) as [->|Hne].
      * assert (symq = symp) as -> by congruence.
        destruct (Hsyms p (set_secIdx InvalidValue symp)) as [_ Hkeep].
        { apply list_lookup_insert_eq. eapply lookup_lt_Some, Hp. }
        split.
        -- intros _. apply Hkeep. intros [[_ Hin]|Hfrom]; [contradiction|].
           apply fromPlaceholder_In in Hfrom. contradiction.
        -- intros Hno. exfalso. apply Hno, Hall. left. reflexivity.
      * destruct (Hsyms q symq) as [Hreset Hkeep].
        { rewrite list_lookup_insert_ne by congruence. exact Hq. }
        split.
        -- intros Hmarked. apply Hreset. left. split; [eauto|].
           destruct Hmarked as [[_ Hin]|Hfrom].
           ++ destruct Hin as [?|Hin]; [congruence|exact Hin].
           ++ apply fromPlaceholder_In in Hfrom. destruct Hfrom as [?|Hin]; [congruence|exact Hin].
        -- intros Hno. apply Hkeep. intros [[_ Hin]|Hfrom].
           ++ apply Hno, Hall. right. exact Hin.
           ++ apply Hno, Hall. right. eapply fromPlaceholder_In, Hfrom.
    + (* no symbol of the entry name so far *)
      assert (Hname : pSymName symp <> FragmentIsaSymbolName).
      { intros Heq. apply String.eqb_eq in Heq. rewrite Heq in HpIsa. discriminate. }
      assert (Hs : pNonFragmentIsaSymbol s = None).
      { destruct (String.eqb (pSymName symp) FragmentIsaSymbolName); [discriminate|exact HpIsa]. }
      match goal with
      | |- context [scanNonFragmentSymbols ps ?s1 ?w1] =>
          destruct (IH s1 w1 Hnodup) as (s' & writer1 & Hrun & Hsec & Hnote & Hlen & Hsyms)
      end.
      { intros p' Hp'. apply Hvalid. right. exact Hp'. }
      exists s', writer1. split; [exact Hrun|]. split; [exact Hsec|]. split; [exact Hnote|].
      split; [exact Hlen|].
      intros q symq Hq. destruct (Hsyms q symq Hq) as [Hreset Hkeep]. simpl in Hreset, Hkeep.
      split.
      * intros [[[? Hsome] _]|Hfrom]; [congruence|].
        apply Hreset. right. apply (proj1 (fromPlaceholder_cons_skip _ _ _ _ _ Hp Hname)), Hfrom.
      * intros Hno. apply Hkeep. intros [[[? Hsome] _]|Hfrom]; [discriminate|].
        apply Hno. right. apply (proj2 (fromPlaceholder_cons_skip _ _ _ _ _ Hp Hname)), Hfrom.
Qed.

(** The first loop of [MergeElfBinary] on the text symbols of the writer. *)
Lemma scanNonFragmentSymbols_text (writer : ElfImage) (idx : Z) :
  exists scan writer1,
    scanNonFragmentSymbols (ElfWriter_GetSymbolsBySectionIndex writer idx)
      (mkScan EmptyString None) writer = Returned (scan, writer1) /\
    sections writer1 = sections writer /\
    palMetadataNote writer1 = palMetadataNote writer /\
    length (symbols writer1) = length (symbols writer) /\
    forall q symq, symbols writer !! q = Some symq ->
      (fromPlaceholder (symbols writer) (ElfWriter_GetSymbolsBySectionIndex writer idx) q ->
       symbols writer1 !! q = Some (set_secIdx InvalidValue symq)) /\
      (~ fromPlaceholder (symbols writer) (ElfWriter_GetSymbolsBySectionIndex writer idx) q ->
       symbols writer1 !! q = Some symq).
Proof.
  destruct (scanNonFragmentSymbols_exact (ElfWriter_GetSymbolsBySectionIndex writer idx)
              (mkScan EmptyString None) writer)
    as (scan & writer1 & Hrun & Hsec & Hnote & Hlen & Hsyms).
  - apply symbolPositions_NoDup.
  - intros p Hp. apply symbolPositions_bounds in Hp. apply lookup_lt_is_Some. lia.
  - exists scan, writer1. split; [exact Hrun|]. split; [exact Hsec|]. split; [exact Hnote|].
    split; [exact Hlen|].
    intros q symq Hq. destruct (Hsyms q symq Hq) as [Hreset Hkeep]. simpl in Hreset, Hkeep.
    split.
    + intros Hfrom. apply Hreset. right. exact Hfrom.
    + intros Hno. apply Hkeep. intros [[[? Hsome] _]|Hfrom]; [discriminate|contradiction].
Qed.

(** [GetSymbol] followed by an update that keeps the name, by position:
    the symbols of other names stay where they are and as they are, and a
    symbol that is new or changed has the name. *)
Lemma GetSymbol_update_positions (writer : ElfImage) (name : string)
  (f : ElfSymbol -> ElfSymbol) :
  (forall sym, pSymName (f sym) = pSymName sym) ->
  exists writer2,
    bind (GetSymbol name) (fun pSymbol => updateSymbol pSymbol f) writer =
      Returned (tt, writer2) /\
    sections writer2 = sections writer /\
    palMetadataNote writer2 = palMetadataNote writer /\
    (forall q sym, symbols writer !! q = Some sym -> pSymName sym <> name ->
       symbols writer2 !! q = Some sym) /\
    (forall q sym', symbols writer2 !! q = Some sym' ->
       symbols writer !! q = Some sym' \/ pSymName sym' = name).
Proof.
  intros Hf. unfold bind, GetSymbol.
  destruct (findSymbol (symbols writer) name 0) as [p|] eqn:Hfind.
  - destruct (findSymbol_Some _ _ _ _ Hfind) as (l1 & sym & l2 & Hsyms & -> & Hname & Hl1).
    simpl. unfold updateSymbol, setSymbols.
    assert (Hp : symbols writer !! length l1 = Some sym).
    { rewrite Hsyms. apply list_lookup_middle. reflexivity. }
    rewrite Hp. eexists. split; [reflexivity|]. simpl.
    split; [reflexivity|]. split; [reflexivity|]. split.
    + intros q symq Hq Hne. rewrite list_lookup_insert_ne; [exact Hq|].
      intros <-. congruence.
    + intros q sym' Hq. destruct (decide (q = length l1)) as [->|Hne].
      * rewrite list_lookup_insert_eq in Hq by (eapply lookup_lt_Some, Hp).
        inversion Hq. right. rewrite Hf. exact Hname.
      * rewrite list_lookup_insert_ne in Hq by congruence. left. exact Hq.
  - simpl. unfold updateSymbol, setSymbols. simpl.
    rewrite (list_lookup_middle (symbols writer) [] _ (length (symbols writer)) eq_refl).
    rewrite insert_middle.
    eexists. split; [reflexivity|]. simpl.
    split; [reflexivity|]. split; [reflexivity|]. split.
    + intros q symq Hq Hne. rewrite lookup_app_l by (eapply lookup_lt_Some, Hq). exact Hq.
    + intros q sym' Hq. destruct (decide (q < length (symbols writer))%nat) as [Hlt|Hge].
      * rewrite lookup_app_l in Hq by exact Hlt. left. exact Hq.
      * rewrite lookup_app_r in Hq by lia.
        destruct (q - length (symbols writer))%nat as [|n]; [|destruct n; discriminate].
        inversion Hq. right. rewrite Hf. reflexivity.
Qed.




Lemma bind_run {St A B : Type} (m : M St A) (k : A -> M St B) (s s1 : St) (a : A) :
  m s = Returned (a, s1) -> bind m k s = k a s1.
Proof. intros H. unfold bind. rewrite H. reflexivity. Qed.

(** [GetSectionIndex] yields [InvalidValue] or the index of a section of
    the name. *)
Lemma GetSectionIndex_from_found (secs : list ElfSectionBuffer) (name : string) :
  forall i,
    GetSectionIndex_from secs name i = InvalidValue \/
    (i <= GetSectionIndex_from secs name i /\
     exists sec,
       secs !! Z.to_nat (GetSectionIndex_from secs name i - i) = Some sec /\
       pName sec = name).
Proof.
  induction secs as [|sec secs IH]; intros i; simpl; [left; reflexivity|].
  destruct (String.eqb_spec (pName sec) name) as [Hname|Hname].
  - right. split; [lia|]. exists sec. rewrite Z.sub_diag. simpl. auto.
  - destruct (IH (i + 1)) as [Hinv|(Hle & sec' & Hsec' & Hname')]; [left; exact Hinv|].
    right. split; [lia|]. exists sec'. split; [|exact Hname'].
    replace (Z.to_nat (GetSectionIndex_from secs name (i + 1) - i))
      with (S (Z.to_nat (GetSectionIndex_from secs name (i + 1) - (i + 1)))) by lia.
    exact Hsec'.
Qed.

Lemma GetSectionIndex_from_names (secs : list ElfSectionBuffer) :
  forall (secs' : list ElfSectionBuffer) (name : string) (i : Z),
    map pName secs = map pName secs' ->
    GetSectionIndex_from secs name i = GetSectionIndex_from secs' name i.
Proof.
  induction secs as [|sec secs IH]; intros [|sec' secs'] name i H; simpl in *;
    try discriminate; [reflexivity|].
  inversion H as [[Hn Hrest]]. rewrite Hn.
  destruct (String.eqb (pName sec') name); [reflexivity|apply IH, Hrest].
Qed.

Lemma map_pName_insert (secs : list ElfSectionBuffer) :
  forall (j : nat) (sec sec' : ElfSectionBuffer),
    secs !! j = Some sec -> pName sec' = pName sec ->
    map pName (<[j := sec']> secs) = map pName secs.
Proof.
  induction secs as [|x secs IH]; intros [|j] sec sec' Hj Hname; simpl in *;
    try discriminate.
  - inversion Hj; subst. rewrite Hname. reflexivity.
  - f_equal. eapply IH; eassumption.
Qed.

Lemma GetSectionDataBySectionIndex_Some (image : ElfImage) (idx : Z) (sec : ElfSectionBuffer) :
  GetSectionDataBySectionIndex image idx = Some sec <->
  0 <= idx < Z.of_nat (length (sections image)) /\ sections image !! Z.to_nat idx = Some sec.
Proof.
  unfold GetSectionDataBySectionIndex. destruct (decide _) as [Hin|Hout].
  - split; [auto|]. intros [_ H]. exact H.
  - split; [discriminate|]. intros [Hin _]. contradiction.
Qed.

Lemma GetSectionDataBySectionIndex_is_Some (image : ElfImage) (idx : Z) :
  is_Some (GetSectionDataBySectionIndex image idx) <->
  0 <= idx < Z.of_nat (length (sections image)).
Proof.
  split.
  - intros [sec Hsec]. apply GetSectionDataBySectionIndex_Some in Hsec. tauto.
  - intros Hin. destruct (lookup_lt_is_Some_2 (sections image) (Z.to_nat idx)) as [sec Hsec];
      [lia|].
    exists sec. apply GetSectionDataBySectionIndex_Some. auto.
Qed.

(** A section that [GetSectionDataBySectionIndex] finds at the index of a
    name has that name, when [InvalidValue] is the index of no section. *)
Lemma GetSectionIndex_named (image : ElfImage) (name : string) (sec : ElfSectionBuffer) :
  ~ (0 <= InvalidValue < Z.of_nat (length (sections image))) ->
  GetSectionDataBySectionIndex image (GetSectionIndex image name) = Some sec ->
  pName sec = name.
Proof.
  intros Hinvalid Hsec. apply GetSectionDataBySectionIndex_Some in Hsec as [Hin Hsec].
  unfold GetSectionIndex in *.
  destruct (GetSectionIndex_from_found (sections image) name 0)
    as [Hinv|(_ & sec' & Hsec' & Hname)].
  - rewrite Hinv in Hin. contradiction.
  - rewrite Z.sub_0_r in Hsec'. congruence.
Qed.

(** One merge of a comment section: it returns when the fragment image has
    a section with text for the section of the non-fragment image; it
    keeps the symbols, the note, the names of the sections, and the
    sections of another name. *)
Lemma mergeCommentSection_returns (reader : ElfImage) (sectionName first : string)
  (writer : ElfImage) :
  (forall sec1 size1 prefix1 sec2 offset2 prefix2,
     pName (MergeSection sec1 size1 prefix1 sec2 offset2 prefix2) = pName sec1) ->
  ~ (0 <= InvalidValue < Z.of_nat (length (sections writer))) ->
  (is_Some (GetSectionDataBySectionIndex writer (GetSectionIndex writer sectionName)) ->
   exists sec,
     GetSectionDataBySectionIndex reader (GetSectionIndex reader sectionName) = Some sec /\
     0 < sh_size sec) ->
  exists writer',
    mergeCommentSection reader sectionName first writer = Returned (tt, writer') /\
    symbols writer' = symbols writer /\
    palMetadataNote writer' = palMetadataNote writer /\
    map pName (sections writer') = map pName (sections writer) /\
    (forall idx sec,
       GetSectionDataBySectionIndex writer idx = Some sec -> pName sec <> sectionName ->
       GetSectionDataBySectionIndex writer' idx = Some sec).
Proof.
  intros Hkeep Hinvalid Hreader. unfold mergeCommentSection, bind, get.
  destruct (GetSectionDataBySectionIndex writer (GetSectionIndex writer sectionName))
    as [nonFragmentSection|] eqn:Hj.
  - destruct Hreader as (sec & -> & Hsize); [eauto|].
    unfold deref, ret, strstr_reader.
    destruct (decide (sh_size sec <= 0)); [lia|].
    pose proof (GetSectionIndex_named _ _ _ Hinvalid Hj) as Hname.
    apply GetSectionDataBySectionIndex_Some in Hj as [Hin Hj].
    unfold SetSection, ret. cbn beta iota.
    destruct (decide _) as [_|Hout]; [|contradiction].
    eexists. split; [reflexivity|]. simpl.
    split; [reflexivity|]. split; [reflexivity|]. split.
    + eapply map_pName_insert; [exact Hj|apply Hkeep].
    + intros idx sec' Hidx Hne.
      apply GetSectionDataBySectionIndex_Some in Hidx as [Hidx Hsec'].
      apply GetSectionDataBySectionIndex_Some. simpl. rewrite length_insert.
      split; [exact Hidx|].
      rewrite list_lookup_insert_ne; [exact Hsec'|].
      intros Heq. rewrite Heq in Hj. congruence.
  - exists writer. split; [reflexivity|]. auto.
Qed.

(** The insertion offset is defined after the first loop when the
    non-fragment image has a text section. *)
Lemma isaOffsetOf_returns (writer writer1 : ElfImage) (idx : Z) (scan : NonFragmentScan)
  (sec : ElfSectionBuffer) :
  scanNonFragmentSymbols (ElfWriter_GetSymbolsBySectionIndex writer idx)
    (mkScan EmptyString None) writer = Returned (scan, writer1) ->
  GetSectionDataBySectionIndex writer idx = Some sec ->
  exists isaOffset, isaOffsetOf idx (pNonFragmentIsaSymbol scan) writer1 =
                      Returned (isaOffset, writer1).
Proof.
  intros Hscan Hsec.
  pose proof (scanNonFragmentSymbols_result _ _ _ _ _ Hscan) as Hresult.
  destruct (scanNonFragmentSymbols_frame _ _ _ _ _ Hscan) as (Hinv & Hsections & _).
  unfold isaOffsetOf. destruct (pNonFragmentIsaSymbol scan) as [p|].
  - destruct Hresult as [Hno|(Hin & sym & Hsym & _)]; [discriminate|].
    destruct (invalidated_lookup_l _ _ _ _ Hinv Hsym) as (sym1 & Hsym1 & _).
    unfold bind, readSymbol. rewrite Hsym1. eexists. reflexivity.
  - unfold bind, writerSection, deref.
    replace (GetSectionDataBySectionIndex writer1 idx) with (Some sec).
    + eexists. reflexivity.
    + symmetry. apply GetSectionDataBySectionIndex_Some.
      apply GetSectionDataBySectionIndex_Some in Hsec. rewrite Hsections. exact Hsec.
Qed.

(** The second loop returns when the non-fragment image has a text section
    and the fragment image has one; it keeps the names of the sections and
    the note. *)
Lemma updateFragmentSymbols_returns (nonFragmentSecIndex isaOffset : Z)
  (sec2 : ElfSectionBuffer) (fragmentSymbols : list ElfSymbol) :
  (forall sec1 size1 prefix1 sec2 offset2 prefix2,
     pName (MergeSection sec1 size1 prefix1 sec2 offset2 prefix2) = pName sec1) ->
  forall (pFragmentIsaSymbol : option ElfSymbol) (writer : ElfImage),
    is_Some (GetSectionDataBySectionIndex writer nonFragmentSecIndex) ->
    exists pIsa' writer',
      updateFragmentSymbols fragmentSymbols nonFragmentSecIndex (Some sec2) isaOffset
        pFragmentIsaSymbol writer = Returned (pIsa', writer') /\
      map pName (sections writer') = map pName (sections writer) /\
      palMetadataNote writer' = palMetadataNote writer.
Proof.
  intros Hkeep.
  induction fragmentSymbols as [|s rest IH]; intros pFragmentIsaSymbol writer Htext.
  - exists pFragmentIsaSymbol, writer. simpl. auto.
  - simpl.
    assert (Hstep : exists pIsa w1,
              (if String.eqb (pSymName s) FragmentIsaSymbolName
               then
                 let* pNonFragmentTextSection := writerSection nonFragmentSecIndex in
                 let* sec1 := deref pNonFragmentTextSection in
                 let* sec2' := deref (Some sec2) in
                 SetSection nonFragmentSecIndex
                   (MergeSection sec1 isaOffset None sec2' (value s) None);;
                 ret (Some s)
               else ret pFragmentIsaSymbol) writer = Returned (pIsa, w1) /\
              map pName (sections w1) = map pName (sections writer) /\
              palMetadataNote w1 = palMetadataNote writer /\
              is_Some (GetSectionDataBySectionIndex w1 nonFragmentSecIndex)).
    { destruct (String.eqb (pSymName s) FragmentIsaSymbolName).
      - destruct Htext as [sec1 Hsec1].
        unfold bind, writerSection, deref, ret. rewrite Hsec1. cbn beta iota.
        pose proof Hsec1 as Hin. apply GetSectionDataBySectionIndex_Some in Hin as [Hin Hat].
        unfold SetSection. destruct (decide _) as [_|Hout]; [|contradiction].
        eexists _, _. split; [reflexivity|]. simpl.
        split; [eapply map_pName_insert; [exact Hat|apply Hkeep]|].
        split; [reflexivity|].
        apply GetSectionDataBySectionIndex_is_Some. simpl. rewrite length_insert. exact Hin.
      - exists pFragmentIsaSymbol, writer. auto. }
    destruct Hstep as (pIsa & w1 & Hstep & Hnames1 & Hnote1 & Htext1).
    rewrite (bind_run _ _ _ _ _ Hstep).
    destruct pIsa as [isaSymbol|].
    + set (f := fun sym : ElfSymbol =>
                  mkElfSymbol (pSymName sym) nonFragmentSecIndex None
                    (wrap64 (isaOffset + value s - value isaSymbol)) (size s)).
      destruct (GetSymbol_update_positions w1 (pSymName s) f (fun _ => eq_refl))
        as (w2 & Hrun2 & Hsec2 & Hnote2 & _).
      destruct (IH (Some isaSymbol) w2) as (pIsa' & writer' & Hrun & Hnames & Hnote).
      { apply GetSectionDataBySectionIndex_is_Some. rewrite Hsec2.
        apply GetSectionDataBySectionIndex_is_Some, Htext1. }
      exists pIsa', writer'. split; [|split; [congruence|congruence]].
      unfold bind in Hrun2 |- *.
      destruct (GetSymbol (pSymName s) w1) as [[p wa]|]; [|discriminate].
      fold f. destruct (updateSymbol p f wa) as [[[] wb]|]; [|discriminate].
      inversion Hrun2; subst wb. exact Hrun.
    + destruct (IH None w1 Htext1) as (pIsa' & writer' & Hrun & Hnames & Hnote).
      exists pIsa', writer'. split; [exact Hrun|]. split; congruence.
Qed.

(** A merge returns when both images have a text section, [InvalidValue]
    is the index of no section of the non-fragment image, [MergeSection]
    names its result as the first section it is given, and the fragment
    image has a comment section with text where the non-fragment image has
    that comment section. *)
Lemma mergeInWriter_returns (pContext : Context) (reader writer : ElfImage) :
  is_Some (GetSectionDataBySectionIndex writer (GetSectionIndex writer TextName)) ->
  is_Some (GetSectionDataBySectionIndex reader (GetSectionIndex reader TextName)) ->
  ~ (0 <= InvalidValue < Z.of_nat (length (sections writer))) ->
  (forall sec1 size1 prefix1 sec2 offset2 prefix2,
     pName (MergeSection sec1 size1 prefix1 sec2 offset2 prefix2) = pName sec1) ->
  (forall sectionName,
     sectionName = AmdGpuDisassemblyName \/ sectionName = AmdGpuCommentLlvmIrName ->
     is_Some (GetSectionDataBySectionIndex writer (GetSectionIndex writer sectionName)) ->
     exists sec,
       GetSectionDataBySectionIndex reader (GetSectionIndex reader sectionName) = Some sec /\
       0 < sh_size sec) ->
  exists isaOffset pFragmentIsaSymbol writer',
    mergeInWriter pContext reader writer =
      Returned ((isaOffset, pFragmentIsaSymbol), writer').
Proof.
  intros [textSection Htext] [sec2 Hreader] Hinvalid Hkeep Hcomment.
  set (nonFragmentSecIndex := GetSectionIndex writer TextName) in *.
  destruct (scanNonFragmentSymbols_text writer nonFragmentSecIndex)
    as (scan & writer1 & Hscan & Hsec1 & Hnote1 & Hlen1 & _).
  destruct (isaOffsetOf_returns _ _ _ _ _ Hscan Htext) as (isaOffset & Hoff).
  destruct (updateFragmentSymbols_returns nonFragmentSecIndex isaOffset sec2
              (ElfReader_GetSymbolsBySectionIndex reader (GetSectionIndex reader TextName))
              Hkeep None writer1)
    as (pIsa & writer2 & Hfrag & Hnames2 & _).
  { apply GetSectionDataBySectionIndex_is_Some. rewrite Hsec1.
    apply GetSectionDataBySectionIndex_is_Some. eauto. }
  rewrite Hsec1 in Hnames2.
  assert (Htransfer : forall (w : ElfImage) (sectionName : string),
            map pName (sections w) = map pName (sections writer) ->
            is_Some (GetSectionDataBySectionIndex w (GetSectionIndex w sectionName)) ->
            is_Some (GetSectionDataBySectionIndex writer (GetSectionIndex writer sectionName))).
  { intros w sectionName Hnames Hsome.
    apply GetSectionDataBySectionIndex_is_Some in Hsome.
    apply GetSectionDataBySectionIndex_is_Some. unfold GetSectionIndex in *.
    rewrite (GetSectionIndex_from_names _ _ _ _ Hnames) in Hsome.
    rewrite <- (length_map pName (sections w)), Hnames, length_map in Hsome. exact Hsome. }
  assert (Hlength : forall w : ElfImage,
            map pName (sections w) = map pName (sections writer) ->
            ~ (0 <= InvalidValue < Z.of_nat (length (sections w)))).
  { intros w Hnames. rewrite <- (length_map pName (sections w)), Hnames, length_map.
    exact Hinvalid. }
  destruct (mergeCommentSection_returns reader AmdGpuDisassemblyName
              (firstIsaSymbolName scan) writer2 Hkeep (Hlength _ Hnames2))
    as (writerA & HrunA & _ & _ & HnamesA & _).
  { intros Hsome. apply (Hcomment AmdGpuDisassemblyName); [auto|].
    eapply Htransfer; eassumption. }
  rewrite Hnames2 in HnamesA.
  destruct (mergeCommentSection_returns reader AmdGpuCommentLlvmIrName
              (firstIsaSymbolName scan) writerA Hkeep (Hlength _ HnamesA))
    as (writerB & HrunB & _).
  { intros Hsome. apply (Hcomment AmdGpuCommentLlvmIrName); [auto|].
    eapply Htransfer; eassumption. }
  eexists isaOffset, pIsa, _.
  unfold mergeInWriter.
  rewrite (bind_run get _ writer writer writer eq_refl).
  fold nonFragmentSecIndex.
  rewrite (bind_run _ _ _ _ _ Hscan).
  rewrite (bind_run _ _ _ _ _ Hoff).
  rewrite Hreader.
  rewrite (bind_run _ _ _ _ _ Hfrag).
  rewrite (bind_run _ _ _ _ _ HrunA).
  rewrite (bind_run _ _ _ _ _ HrunB).
  reflexivity.
Qed.



(** C5, as the code has it.  When no text symbol of the fragment image has
    the fragment entry name, [MergeElfBinary] reports nothing and writes
    its output.  The non-fragment image has a text section; [InvalidValue]
    is the index of no section of it; the names of the two comment
    sections are not the name of the text section; [MergeSection] names
    its result as the first section it is given; and where the
    non-fragment image has a comment section, the fragment image has one
    with text.  Then [MergeElfBinary] returns the written image, in which
    the text section is the one of the non-fragment image, no symbol has
    been added, the text symbols of the fragment entry name and those
    listed after one are reset, and every other symbol is as it was. *)
Theorem MergeElfBinary_missing_entry_symbol (pContext : Context)
  (pFragmentElf pNonFragmentElf : BinaryData) (textSection : ElfSectionBuffer) :
  let reader := snd (ElfReader_ReadFromBuffer pFragmentElf) in
  let writer := snd (ElfWriter_ReadFromBuffer pNonFragmentElf) in
  let nonFragmentSecIndex := GetSectionIndex writer TextName in
  let nonFragmentSymbols := ElfWriter_GetSymbolsBySectionIndex writer nonFragmentSecIndex in
  Forall (fun s => pSymName s <> FragmentIsaSymbolName)
    (ElfReader_GetSymbolsBySectionIndex reader (GetSectionIndex reader TextName)) ->
  GetSectionDataBySectionIndex writer nonFragmentSecIndex = Some textSection ->
  ~ (0 <= InvalidValue < Z.of_nat (length (sections writer))) ->
  TextName <> AmdGpuDisassemblyName ->
  TextName <> AmdGpuCommentLlvmIrName ->
  (forall sec1 size1 prefix1 sec2 offset2 prefix2,
     pName (MergeSection sec1 size1 prefix1 sec2 offset2 prefix2) = pName sec1) ->
  (forall sectionName,
     sectionName = AmdGpuDisassemblyName \/ sectionName = AmdGpuCommentLlvmIrName ->
     is_Some (GetSectionDataBySectionIndex writer (GetSectionIndex writer sectionName)) ->
     exists sec,
       GetSectionDataBySectionIndex reader (GetSectionIndex reader sectionName) = Some sec /\
       0 < sh_size sec) ->
  exists isaOffset writer',
    MergeElfBinary pContext pFragmentElf pNonFragmentElf = Returned (WriteToBuffer writer') /\
    mergeInWriter pContext reader writer = Returned ((isaOffset, None), writer') /\
    GetSectionDataBySectionIndex writer' nonFragmentSecIndex = Some textSection /\
    length (symbols writer') = length (symbols writer) /\
    forall q symq,
      symbols writer !! q = Some symq ->
      (fromPlaceholder (symbols writer) nonFragmentSymbols q ->
       symbols writer' !! q = Some (set_secIdx InvalidValue symq)) /\
      (~ fromPlaceholder (symbols writer) nonFragmentSymbols q ->
       symbols writer' !! q = Some symq).
Proof.
  intros reader writer nonFragmentSecIndex nonFragmentSymbols
    Hno Htext Hinvalid HnameDis HnameIr Hkeep Hcomment.
  destruct (scanNonFragmentSymbols_text writer nonFragmentSecIndex)
    as (scan & writer1 & Hscan & Hsec1 & Hnote1 & Hlen1 & Hexact).
  fold nonFragmentSymbols in Hscan, Hexact.
  destruct (isaOffsetOf_returns _ _ _ _ _ Hscan Htext) as (isaOffset & Hoff).
  pose proof (GetSectionIndex_named _ _ _ Hinvalid Htext) as HtextName.
  assert (Htext1 : GetSectionDataBySectionIndex writer1 nonFragmentSecIndex = Some textSection).
  { apply GetSectionDataBySectionIndex_Some. rewrite Hsec1.
    apply GetSectionDataBySectionIndex_Some, Htext. }
  (* Merge ISA disassemble *)
  destruct (mergeCommentSection_returns reader AmdGpuDisassemblyName
              (firstIsaSymbolName scan) writer1 Hkeep)
    as (writerA & HrunA & HsymsA & _ & HnamesA & HotherA).
  { rewrite Hsec1. exact Hinvalid. }
  { intros Hsome. apply (Hcomment AmdGpuDisassemblyName); [auto|].
    apply GetSectionDataBySectionIndex_is_Some in Hsome.
    apply GetSectionDataBySectionIndex_is_Some.
    unfold GetSectionIndex in *. rewrite Hsec1 in Hsome. exact Hsome. }
  (* Merge LLVM IR disassemble *)
  assert (HlenA : length (sections writerA) = length (sections writer)).
  { rewrite <- (length_map pName (sections writerA)), HnamesA, length_map, Hsec1.
    reflexivity. }
  destruct (mergeCommentSection_returns reader AmdGpuCommentLlvmIrName
              (firstIsaSymbolName scan) writerA Hkeep)
    as (writerB & HrunB & HsymsB & _ & _ & HotherB).
  { rewrite HlenA. exact Hinvalid. }
  { intros Hsome. apply (Hcomment AmdGpuCommentLlvmIrName); [auto|].
    apply GetSectionDataBySectionIndex_is_Some in Hsome.
    apply GetSectionDataBySectionIndex_is_Some.
    unfold GetSectionIndex in *.
    rewrite (GetSectionIndex_from_names _ _ _ _ HnamesA), Hsec1, HlenA in Hsome.
    exact Hsome. }
  set (writer' := mkElfImage (sections writerB) (symbols writerB)
                    (MergeMetaNote pContext (palMetadataNote writerB) (palMetadataNote reader))).
  assert (Hmerge : mergeInWriter pContext reader writer =
                   Returned ((isaOffset, None), writer')).
  { unfold mergeInWriter.
    rewrite (bind_run get _ writer writer writer eq_refl).
    fold reader writer nonFragmentSecIndex nonFragmentSymbols.
    rewrite (bind_run _ _ _ _ _ Hscan).
    rewrite (bind_run _ _ _ _ _ Hoff).
    rewrite (bind_run _ _ _ _ _
               (updateFragmentSymbols_no_entry nonFragmentSecIndex isaOffset _ _ writer1 Hno)).
    rewrite (bind_run _ _ _ _ _ HrunA).
    rewrite (bind_run _ _ _ _ _ HrunB).
    reflexivity. }
  exists isaOffset, writer'. split; [|split; [exact Hmerge|split; [|split]]].
  - unfold MergeElfBinary. fold reader writer. rewrite Hmerge. reflexivity.
  - apply GetSectionDataBySectionIndex_Some. simpl.
    apply GetSectionDataBySectionIndex_Some.
    apply HotherB; [|congruence]. apply HotherA; [exact Htext1|congruence].
  - simpl. rewrite HsymsB, HsymsA. exact Hlen1.
  - intros q symq Hq. simpl. rewrite HsymsB, HsymsA. apply Hexact, Hq.
Qed.


End ElfMergeFacts.


Section OutputFacts.

Context {C : Type} {shaderCache : ShaderCacheClass C}.
Context {elfLibrary : ElfLibrary} {collaborators : Collaborators C}.
Variable cl : CommandLine.
Variable version : Z.

(** The output step of [BuildComputePipeline] when the allocator returns
    null: [ErrorOutOfMemory], and neither the output structure nor
    anything else is written. *)
Lemma BuildComputePipeline_output_null_buffer (pPipelineInfo : ComputePipelineBuildInfo)
  (pfnOutputAlloc : OutputAllocFunc) (elfBin : BinaryData) (pPipelineOut : PipelineBuildOut)
  (w : World C) :
  cs_pfnOutputAlloc pPipelineInfo = Some pfnOutputAlloc ->
  pfnOutputAlloc (codeSize elfBin) = None ->
  BuildComputePipeline_output pPipelineInfo Success elfBin pPipelineOut w =
  Returned ((ErrorOutOfMemory, pPipelineOut), w).
Proof.
  intros Halloc Hnull. unfold BuildComputePipeline_output.
  rewrite Halloc, Hnull. reflexivity.
Qed.

(** The output step of [BuildGraphicsPipeline] when the allocator returns
    null: the copy to the null buffer does not return, unless there is
    nothing to copy, and then the result is [Success]. *)
Lemma BuildGraphicsPipeline_output_null_buffer (pPipelineInfo : GraphicsPipelineBuildInfo)
  (pfnOutputAlloc : OutputAllocFunc) (elfBin : BinaryData) (pPipelineOut : PipelineBuildOut)
  (w : World C) :
  gfx_pfnOutputAlloc pPipelineInfo = Some pfnOutputAlloc ->
  pfnOutputAlloc (codeSize elfBin) = None ->
  BuildGraphicsPipeline_output pPipelineInfo Success elfBin pPipelineOut w =
  if decide (codeSize elfBin = 0)
  then Returned ((Success, mkPipelineOut 0 None), w)
  else Fault.
Proof.
  intros Halloc Hnull. unfold BuildGraphicsPipeline_output.
  rewrite Halloc, Hnull. simpl. unfold bind, memcpy.
  destruct (decide (codeSize elfBin = 0)) as [->|]; reflexivity.
Qed.


(** After a successful compile, a null buffer from the allocator makes
    [BuildGraphicsPipeline] copy a non-empty ELF to the null pointer. *)
Lemma BuildGraphicsPipeline_alloc_fails (pPipelineInfo : GraphicsPipelineBuildInfo)
  (pfnOutputAlloc : OutputAllocFunc) (elfBin : BinaryData) (pPipelineOut : PipelineBuildOut)
  (w w1 : World C) :
  gfx_pfnOutputAlloc pPipelineInfo = Some pfnOutputAlloc ->
  pfnOutputAlloc (codeSize elfBin) = None ->
  codeSize elfBin <> 0 ->
  BuildGraphicsPipeline_compile cl version pPipelineInfo w = Returned ((Success, elfBin), w1) ->
  BuildGraphicsPipeline cl version pPipelineInfo pPipelineOut w = Fault.
Proof.
  intros Halloc Hnull Hsize Hcompile. unfold BuildGraphicsPipeline, bind.
  rewrite Hcompile.
  rewrite (BuildGraphicsPipeline_output_null_buffer pPipelineInfo pfnOutputAlloc elfBin
             pPipelineOut w1 Halloc Hnull).
  destruct (decide (codeSize elfBin = 0)); [contradiction|reflexivity].
Qed.

(** After a successful compile, a null buffer from the allocator makes
    [BuildComputePipeline] return [ErrorOutOfMemory]; the output structure
    is not written, and the world is the one the compile left. *)
Lemma BuildComputePipeline_alloc_fails (pPipelineInfo : ComputePipelineBuildInfo)
  (pfnOutputAlloc : OutputAllocFunc) (elfBin : BinaryData) (pPipelineOut : PipelineBuildOut)
  (w w1 : World C) :
  cs_pfnOutputAlloc pPipelineInfo = Some pfnOutputAlloc ->
  pfnOutputAlloc (codeSize elfBin) = None ->
  BuildComputePipeline_compile cl version pPipelineInfo w = Returned ((Success, elfBin), w1) ->
  BuildComputePipeline cl version pPipelineInfo pPipelineOut w =
  Returned ((ErrorOutOfMemory, pPipelineOut), w1).
Proof.
  intros Halloc Hnull Hcompile. unfold BuildComputePipeline, bind.
  rewrite Hcompile. eapply BuildComputePipeline_output_null_buffer; eassumption.
Qed.

(** The soft miss at the level of a build (client interface 38 and later):
    the pipeline look-up yields [Compiling], so [BuildComputePipeline_compile]
    goes on to compile. *)
Lemma lookUpPipelineCache_soft_miss (pAppPipelineCache : option CacheRef)
  (pCacheHash : Hash) (w : World C) (hEntry : CacheEntryHandle) (c1 c2 : C)
  (blob : BinaryData) :
  38 <= version ->
  FindShader (internalCache w) pCacheHash true = ((Ready, hEntry), c1) ->
  RetrieveShader c1 hEntry BinaryData_empty = ((ErrorUnknown, blob), c2) ->
  exists w',
    lookUpPipelineCache cl version pAppPipelineCache pCacheHash BinaryData_empty w =
      Returned ((Compiling, blob, [None; None], [None]), w') /\
    internalCache w' = c2.
Proof.
  intros Hv Hfind Hretrieve. unfold lookUpPipelineCache.
  destruct (decide (version < 38)); [lia|].
  unfold LookUpShaderCache, bind, call_FindShader, call_RetrieveShader, m_shaderCache.
  simpl. rewrite Hfind. simpl. rewrite Hretrieve. simpl.
  eexists. split; reflexivity.
Qed.

End OutputFacts.

(** C9, on a graphics pipeline whose compile succeeds and whose allocator
    returns null: [BuildGraphicsPipeline] does not return
    [ErrorOutOfMemory], it copies the ELF to the null buffer.
    [BuildComputePipeline] on the same input returns [ErrorOutOfMemory]
    and leaves the output structure alone; the compiled ELF is in the cache
    by then. *)
Theorem BuildGraphicsPipeline_null_buffer :
  BuildGraphicsPipeline (shaderCache := Doubles.mapCache)
    (elfLibrary := Doubles.elfLibrary)
    (collaborators := Doubles.collaboratorsOf 17 (mkModule []))
    Doubles.commandLine 37 (Doubles.graphicsInfo (Some Doubles.allocNull))
    (mkPipelineOut 0 None) Doubles.emptyWorld = Fault /\
  exists w',
    BuildComputePipeline (shaderCache := Doubles.mapCache)
      (elfLibrary := Doubles.elfLibrary)
      (collaborators := Doubles.collaboratorsOf 17 (mkModule []))
      Doubles.commandLine 37 (Doubles.computeInfo (Some Doubles.allocNull))
      (mkPipelineOut 0 None) Doubles.emptyWorld =
      Returned ((ErrorOutOfMemory, mkPipelineOut 0 None), w') /\
    memory w' = ∅ /\
    internalCache w' !! 200 =
      Some (Doubles.mkCacheEntry Ready (Doubles.buffer "whole") true).
Proof.
  split.
  - vm_compute. reflexivity.
  - match goal with
    | |- exists w', ?run = _ /\ _ => set (o := run); vm_compute in o; subst o
    end.
    eexists. split; [reflexivity|]. split; vm_compute; reflexivity.
Qed.





(** C5 as stated fails on a fragment image without an entry symbol merged
    into a non-fragment image with a placeholder: [MergeElfBinary] returns
    an output. *)
Lemma MergeElfBinary_missing_entry_symbol_returns :
  Forall (fun s => pSymName s <> "_amdgpu_ps_main"%string)
    (ElfReader_GetSymbolsBySectionIndex
       Doubles.fragmentImageNoEntry
       (GetSectionIndex (elfLibrary := Doubles.elfLibrary)
          Doubles.fragmentImageNoEntry ".text")) /\
  MergeElfBinary (elfLibrary := Doubles.elfLibrary) (mkContext true 17 None)
    (Doubles.buffer "frag-no-entry") (Doubles.buffer "nonfrag-placeholder") =
  Returned "_amdgpu_vs_main;VSCODE"%string.
Proof.
  split; [|vm_compute; reflexivity].
  vm_compute. repeat constructor. discriminate.
Qed.

(** The fragment image without an entry symbol, merged into the
    non-fragment image with a placeholder. *)
Lemma MergeElfBinary_missing_entry_symbol_witness :
  exists isaOffset writer',
    MergeElfBinary (elfLibrary := Doubles.elfLibrary) (mkContext true 17 None)
      (Doubles.buffer "frag-no-entry") (Doubles.buffer "nonfrag-placeholder") =
      Returned (WriteToBuffer (ElfLibrary := Doubles.elfLibrary) writer') /\
    mergeInWriter (elfLibrary := Doubles.elfLibrary) (mkContext true 17 None)
      Doubles.fragmentImageNoEntry Doubles.nonFragmentImagePlaceholder =
      Returned ((isaOffset, None), writer') /\
    GetSectionDataBySectionIndex writer' 0 = Some (mkElfSection ".text" "VSCODE" 6) /\
    length (symbols writer') = 3%nat /\
    forall q symq,
      symbols Doubles.nonFragmentImagePlaceholder !! q = Some symq ->
      (fromPlaceholder (elfLibrary := Doubles.elfLibrary)
         (symbols Doubles.nonFragmentImagePlaceholder) [0; 1; 2]%nat q ->
       symbols writer' !! q =
         Some (set_secIdx 0xFFFFFFFF symq)) /\
      (~ fromPlaceholder (elfLibrary := Doubles.elfLibrary)
           (symbols Doubles.nonFragmentImagePlaceholder) [0; 1; 2]%nat q ->
       symbols writer' !! q = Some symq).
Proof.
  apply (MergeElfBinary_missing_entry_symbol (elfLibrary := Doubles.elfLibrary)
           (mkContext true 17 None)
           (Doubles.buffer "frag-no-entry") (Doubles.buffer "nonfrag-placeholder")
           (mkElfSection ".text" "VSCODE" 6)).
  - vm_compute. repeat constructor. discriminate.
  - reflexivity.
  - vm_compute. intros [_ H]. discriminate H.
  - discriminate.
  - discriminate.
  - intros. reflexivity.
  - intros sectionName [->| ->] Hsome; vm_compute in Hsome; destruct Hsome; discriminate.
Defined.

Section Examples.

(** Modelled [Pow2Align] at 256: the least multiple of 256 that is not
    below the value. *)
Lemma Pow2Align_256 (value : Z) :
  0 <= value ->
  Pow2Align value 0x100 mod 0x100 = 0 /\
  value <= Pow2Align value 0x100 < value + 0x100.
Proof.
  intros Hv. unfold Pow2Align.
  pose proof (Z.div_mod (value + 256 - 1) 256 ltac:(lia)) as Hdiv.
  pose proof (Z.mod_pos_bound (value + 256 - 1) 256 ltac:(lia)) as Hmod.
  split; [apply Z_mod_mult|lia].
Qed.

Example Pow2Align_example : Pow2Align 6 0x100 = 256 /\ Pow2Align 256 0x100 = 256.
Proof. split; reflexivity. Qed.

Example ShaderStageToMask_example :
  map ShaderStageToMask
    [ShaderStageVertex; ShaderStageTessControl; ShaderStageTessEval; ShaderStageGeometry;
     ShaderStageFragment; ShaderStageCompute] = [1; 2; 4; 8; 16; 32].
Proof. reflexivity. Qed.

Example StringRefSet_insert_example :
  fold_right StringRefSet.insert StringRefSet.empty ["b"; "a"; "c"; "a"]%string =
  ["a"; "b"; "c"]%string.
Proof. reflexivity. Qed.

Example walkUsers_example :
  walkUsers [[UserConstant [UserInstruction ShaderStageFragment];
              UserConstant [UserConstant [UserInstruction ShaderStageGeometry]]]] = true /\
  walkUsers [[UserConstant [UserInstruction ShaderStageFragment];
              UserInstruction ShaderStageFragment]] = false.
Proof. split; reflexivity. Qed.

Example strstr_example :
  strstr "s_nop _amdgpu_ps_main:" "_amdgpu_ps_main" = Some 6 /\
  strstr "s_nop" "_amdgpu_ps_main" = None.
Proof. split; reflexivity. Qed.

End Examples.


(* ===================================================================== *)
(** * Further properties *)
(* ===================================================================== *)

Section SpirvFacts.

Variable ConvertToStageShage : Z -> ShaderStage.

Lemma collectLoop_unfold (code : list ascii) (pEnd pCodePos : nat) (s : Spirv.Collected) :
  Spirv.collectLoop ConvertToStageShage code pEnd pCodePos s =
  if decide (pCodePos < pEnd)%nat then
    match Spirv.collectStep ConvertToStageShage code pEnd pCodePos s with
    | Spirv.Done (inl s') => Spirv.Done (ErrorInvalidShader, s')
    | Spirv.Done (inr (wordCount, s')) =>
        Spirv.collectLoop ConvertToStageShage code pEnd (pCodePos + wordCount) s'
    | Spirv.OutOfBounds => Spirv.OutOfBounds
    | Spirv.Spins => Spirv.Spins
    end
  else Spirv.Done (Success, s).
Proof.
  funelim (Spirv.collectLoop ConvertToStageShage code pEnd pCodePos s);
    try rewrite Heq; try rewrite e; reflexivity.
Qed.

Lemma trimLoop_unfold (code : list ascii) (pEnd bufferSize pCodePos : nat)
  (written : list ascii) :
  Spirv.trimLoop code pEnd bufferSize pCodePos written =
  if decide (pCodePos < pEnd)%nat then
    match Spirv.word_at code pCodePos with
    | None => Spirv.OutOfBounds
    | Some word =>
        if Spirv.isDebugInstruction (Spirv.opCodeOf word) then
          if decide (Spirv.wordCountOf word = 0)%nat then Spirv.Spins
          else Spirv.trimLoop code pEnd bufferSize (pCodePos + Spirv.wordCountOf word) written
        else
          match Spirv.copyOut code (4 * pCodePos)
                  (Spirv.wordCountOf word * Spirv.sizeof_uint32_t) bufferSize written with
          | Spirv.Done written' =>
              if decide (Spirv.wordCountOf word = 0)%nat then Spirv.Spins
              else Spirv.trimLoop code pEnd bufferSize
                     (pCodePos + Spirv.wordCountOf word) written'
          | Spirv.OutOfBounds => Spirv.OutOfBounds
          | Spirv.Spins => Spirv.Spins
          end
    end
  else Spirv.Done written.
Proof.
  funelim (Spirv.trimLoop code pEnd bufferSize pCodePos written);
    try rewrite Heq; unfold Spirv.trimStep, Spirv.advance in *;
    destruct (Spirv.word_at code pCodePos) as [word|]; try discriminate; try reflexivity;
    destruct (Spirv.isDebugInstruction (Spirv.opCodeOf word));
    repeat match goal with
           | H : context [Spirv.copyOut ?a ?b ?c ?d ?e] |- _ =>
               destruct (Spirv.copyOut a b c d e)
           | H : context [decide (Spirv.wordCountOf word = 0)%nat] |- _ =>
               destruct (decide (Spirv.wordCountOf word = 0)%nat)
           end;
    try discriminate; try reflexivity;
    match goal with
    | H : Spirv.Done _ = Spirv.Done _ |- _ => inversion H; subst; reflexivity
    end.
Qed.

Lemma needsHelpInvocation_not_debug (opCode : Z) :
  Spirv.needsHelpInvocation opCode = true -> Spirv.isDebugInstruction opCode = false.
Proof.
  unfold Spirv.needsHelpInvocation. intros H. apply bool_decide_eq_true in H.
  repeat (apply elem_of_cons in H as [->|H]; [reflexivity|]).
  apply elem_of_nil in H. contradiction.
Qed.

(** What an instruction does to [debugInfoSize]: a debug instruction adds
    its size in bytes, any other leaves it. *)
Lemma collectInstruction_debugInfoSize (code : list ascii) (pCodePos : nat) (opCode : Z)
  (wordCount : nat) (s s' : Spirv.Collected) :
  Spirv.collectInstruction ConvertToStageShage code pCodePos opCode wordCount s = Spirv.Done s' ->
  Spirv.debugInfoSize (Spirv.info s') =
  if Spirv.isDebugInstruction opCode
  then wrap32 (Spirv.debugInfoSize (Spirv.info s) + 4 * Z.of_nat wordCount)
  else Spirv.debugInfoSize (Spirv.info s).
Proof.
  unfold Spirv.collectInstruction. intros H.
  destruct (decide (opCode = Spirv.OpCapability)) as [->|_].
  { destruct (Spirv.word_at _ _); inversion H; subst. reflexivity. }
  destruct (decide (opCode = Spirv.OpExtension)) as [->|_].
  { destruct (Spirv.strncmp_literal _ _ _) as [matches|]; [|discriminate].
    destruct (matches && _); inversion H; subst; reflexivity. }
  destruct (Spirv.needsHelpInvocation opCode) eqn:Hhelp.
  { rewrite (needsHelpInvocation_not_debug _ Hhelp). inversion H; subst. reflexivity. }
  destruct (Spirv.isDebugInstruction opCode).
  { inversion H; subst. simpl. f_equal. unfold Spirv.sizeof_uint32_t. lia. }
  destruct (Spirv.isSpecConstant opCode).
  { inversion H; subst. reflexivity. }
  destruct (decide (opCode = Spirv.OpEntryPoint)).
  { destruct (Spirv.word_at _ _); inversion H; subst. reflexivity. }
  inversion H; subst. reflexivity.
Qed.

(** A turn of the collecting loop that goes on: the instruction has at
    least one word and ends inside the binary. *)
Lemma collectStep_inr (code : list ascii) (pEnd pCodePos wordCount : nat)
  (s s' : Spirv.Collected) :
  Spirv.collectStep ConvertToStageShage code pEnd pCodePos s = Spirv.Done (inr (wordCount, s')) ->
  exists word,
    Spirv.word_at code pCodePos = Some word /\
    wordCount = Spirv.wordCountOf word /\
    (0 < wordCount)%nat /\ (pCodePos + wordCount <= pEnd)%nat /\
    Spirv.collectInstruction ConvertToStageShage code pCodePos (Spirv.opCodeOf word)
      wordCount s = Spirv.Done s'.
Proof.
  unfold Spirv.collectStep. intros H.
  destruct (Spirv.word_at code pCodePos) as [word|]; [|discriminate].
  destruct (decide _) as [|Hok]; [discriminate|].
  destruct (Spirv.collectInstruction _ _ _ _ _) as [s1| |] eqn:Hinstr; inversion H; subst.
  exists word. repeat split; try lia. exact Hinstr.
Qed.

(** The two loops side by side.  From a position where the collecting
    loop succeeds, it counts [D] bytes of debug instructions, and the
    trimming loop writes the other bytes up to [pEnd], provided the output
    buffer has room for them. *)
Lemma trimLoop_after_collectLoop (code : list ascii) (pEnd bufferSize : nat) :
  (4 * pEnd <= length code)%nat ->
  forall (k pCodePos : nat) (s s' : Spirv.Collected) (written : list ascii),
    (pEnd - pCodePos <= k)%nat ->
    (pCodePos <= pEnd)%nat ->
    0 <= Spirv.debugInfoSize (Spirv.info s) ->
    Spirv.debugInfoSize (Spirv.info s) + 4 * Z.of_nat (pEnd - pCodePos) < 2 ^ 32 ->
    Spirv.collectLoop ConvertToStageShage code pEnd pCodePos s = Spirv.Done (Success, s') ->
    exists D : nat,
      Spirv.debugInfoSize (Spirv.info s') = Spirv.debugInfoSize (Spirv.info s) + Z.of_nat D /\
      (D <= 4 * (pEnd - pCodePos))%nat /\
      ((length written + 4 * (pEnd - pCodePos) - D <= bufferSize)%nat ->
       exists out,
         Spirv.trimLoop code pEnd bufferSize pCodePos written = Spirv.Done out /\
         length out = (length written + 4 * (pEnd - pCodePos) - D)%nat).
Proof.
  intros Hcode. induction k as [|k IH]; intros pCodePos s s' written Hk Hpos Hnonneg Hbound Hcollect.
  - rewrite collectLoop_unfold in Hcollect. rewrite trimLoop_unfold.
    destruct (decide (pCodePos < pEnd)%nat); [lia|].
    inversion Hcollect; subst. exists 0%nat. repeat split; try lia.
    intros _. exists written. split; [reflexivity|lia].
  - rewrite collectLoop_unfold in Hcollect. rewrite trimLoop_unfold.
    destruct (decide (pCodePos < pEnd)%nat) as [Hlt|Hge].
    2:{ inversion Hcollect; subst. exists 0%nat. repeat split; try lia.
        intros _. exists written. split; [reflexivity|lia]. }
    destruct (Spirv.collectStep _ _ _ _ _) as [[s1|[wordCount s1]]| |] eqn:Hstep;
      try discriminate.
    apply collectStep_inr in Hstep as (word & Hword & -> & Hwc & Hend & Hinstr).
    apply collectInstruction_debugInfoSize in Hinstr.
    rewrite Hword.
    destruct (Spirv.isDebugInstruction (Spirv.opCodeOf word)) eqn:Hdebug.
    + (* a debug instruction: counted, not copied *)
      assert (Hsize : Spirv.debugInfoSize (Spirv.info s1) =
                      Spirv.debugInfoSize (Spirv.info s) + 4 * Z.of_nat (Spirv.wordCountOf word)).
      { rewrite Hinstr. unfold wrap32. apply Z.mod_small. lia. }
      destruct (IH (pCodePos + Spirv.wordCountOf word)%nat s1 s' written)
        as (D & HD & HDle & Htrim); try lia; [exact Hcollect|].
      exists (D + 4 * Spirv.wordCountOf word)%nat. split; [lia|]. split; [lia|].
      intros Hroom. destruct (decide (Spirv.wordCountOf word = 0)%nat); [lia|].
      destruct Htrim as (out & Hout & Hlen); [lia|].
      exists out. split; [exact Hout|lia].
    + (* any other instruction: copied, not counted *)
      destruct (IH (pCodePos + Spirv.wordCountOf word)%nat s1 s'
                  (written ++ take (Spirv.wordCountOf word * Spirv.sizeof_uint32_t)
                                (drop (4 * pCodePos) code)))
        as (D & HD & HDle & Htrim); try lia; [exact Hcollect|].
      exists D. split; [lia|]. split; [lia|].
      intros Hroom. unfold Spirv.copyOut, Spirv.sizeof_uint32_t in *.
      destruct (decide _) as [_|Hno]; [|lia].
      destruct (decide (Spirv.wordCountOf word = 0)%nat); [lia|].
      rewrite length_app, length_take, length_drop in Htrim.
      destruct Htrim as (out & Hout & Hlen); [lia|].
      exists out. split; [exact Hout|lia].
Qed.


Lemma length_list_ascii_of_string (s : string) :
  length (list_ascii_of_string s) = String.length s.
Proof. induction s as [|c s IH]; simpl; congruence. Qed.

Lemma length_string_of_list_ascii (l : list ascii) :
  String.length (string_of_list_ascii l) = length l.
Proof. induction l as [|c l IH]; simpl; congruence. Qed.

Lemma applyCapabilities_debugInfoSize (capabilities : gset Z) (i : Spirv.ShaderModuleInfo) :
  Spirv.debugInfoSize (Spirv.applyCapabilities capabilities i) = Spirv.debugInfoSize i.
Proof.
  unfold Spirv.applyCapabilities.
  repeat match goal with
         | |- context [decide ?P] => destruct (decide P)
         | |- context [if ?b then _ else _] => destruct b
         end; reflexivity.
Qed.

(** X1. For a SPIR-V binary whose buffer holds its [codeSize] bytes, with
    [codeSize] at least a header and below 2^32, and a scan by
    [CollectInfoFromSpirvBinary] that started from a debug-info size of
    zero and succeeded: [TrimSpirvDebugInfo] with an output buffer of
    [codeSize - debugInfoSize] bytes returns without leaving either buffer,
    and writes [codeSize - debugInfoSize] bytes less the bytes of a
    trailing partial word, which is at least a header. *)
Theorem TrimSpirvDebugInfo_fills_buffer (bin : BinaryData) (code : string)
  (info0 info' : Spirv.ShaderModuleInfo) (names0 names' : list Spirv.ShaderEntryName) :
  pCode bin = Some code ->
  codeSize bin <= Z.of_nat (String.length code) ->
  Z.of_nat Spirv.sizeof_SpirvHeader <= codeSize bin < 2 ^ 32 ->
  Spirv.debugInfoSize info0 = 0 ->
  Spirv.CollectInfoFromSpirvBinary ConvertToStageShage bin info0 names0 =
    Spirv.Done (Success, info', names') ->
  exists out,
    Spirv.TrimSpirvDebugInfo bin (codeSize bin - Spirv.debugInfoSize info') = Spirv.Done out /\
    Z.of_nat (String.length out) =
      codeSize bin - Spirv.debugInfoSize info' - codeSize bin mod 4 /\
    Z.of_nat Spirv.sizeof_SpirvHeader <= Z.of_nat (String.length out).
Proof.
  intros HpCode Hlen Hsize Hzero Hcollect.
  unfold Spirv.CollectInfoFromSpirvBinary in Hcollect.
  unfold Spirv.TrimSpirvDebugInfo.
  set (buf := Spirv.bufferOf bin) in *.
  set (pEnd := Spirv.wordsOf bin) in *.
  assert (Hbuf : length buf = String.length code).
  { unfold buf, Spirv.bufferOf. rewrite HpCode. apply length_list_ascii_of_string. }
  assert (HpEnd : Z.of_nat pEnd = codeSize bin / 4).
  { unfold pEnd, Spirv.wordsOf, Spirv.sizeof_uint32_t. simpl Z.of_nat.
    rewrite Z2Nat.id; [reflexivity|]. apply Z.div_pos; unfold Spirv.sizeof_SpirvHeader in *; lia. }
  unfold Spirv.sizeof_SpirvHeader in *. simpl Nat.div in *.
  pose proof (Z.div_mod (codeSize bin) 4 ltac:(lia)) as Hdivmod.
  pose proof (Z.mod_pos_bound (codeSize bin) 4 ltac:(lia)) as Hmod.
  destruct (Spirv.collectLoop _ _ _ _ _) as [[result s]| |] eqn:Hloop; try discriminate.
  inversion Hcollect; subst result info' names'. clear Hcollect.
  rewrite applyCapabilities_debugInfoSize.
  assert (Hwords : (4 * pEnd <= length buf)%nat) by lia.
  assert (Hfive : (5 <= pEnd)%nat) by lia.
  destruct (trimLoop_after_collectLoop buf pEnd
              (Z.to_nat (codeSize bin - Spirv.debugInfoSize (Spirv.info s))) Hwords
              (pEnd - 5)%nat 5%nat (Spirv.mkCollected info0 names0 ∅) s (take 20 buf)
              ltac:(lia) Hfive ltac:(simpl; lia) ltac:(simpl; lia) Hloop)
    as (D & HD & HDle & Htrim).
  simpl in HD. rewrite Hzero in HD. simpl in HD.
  unfold Spirv.copyOut at 1. simpl length.
  destruct (decide _) as [_|Hno]; [|lia].
  simpl app. rewrite drop_0.
  rewrite length_take in Htrim.
  destruct Htrim as (out & Hout & Hlen'); [lia|].
  rewrite Hout. exists (string_of_list_ascii out).
  split; [reflexivity|]. rewrite length_string_of_list_ascii. lia.
Qed.


Lemma word_at_app (pre rest : list ascii) (k i : nat) :
  length pre = (4 * k)%nat ->
  Spirv.word_at (pre ++ rest) (k + i) = Spirv.word_at rest i.
Proof.
  intros Hpre. unfold Spirv.word_at.
  rewrite !lookup_app_r by lia.
  replace (4 * (k + i) - length pre)%nat with (4 * i)%nat by lia.
  replace (4 * (k + i) + 1 - length pre)%nat with (4 * i + 1)%nat by lia.
  replace (4 * (k + i) + 2 - length pre)%nat with (4 * i + 2)%nat by lia.
  replace (4 * (k + i) + 3 - length pre)%nat with (4 * i + 3)%nat by lia.
  reflexivity.
Qed.

Lemma word_at_app_l (chunk rest : list ascii) :
  (4 <= length chunk)%nat ->
  Spirv.word_at (chunk ++ rest) 0 = Spirv.word_at chunk 0.
Proof.
  intros Hlen. unfold Spirv.word_at. rewrite !lookup_app_l by (simpl; lia). reflexivity.
Qed.

Lemma word_at_take_drop (code : list ascii) (pCodePos n : nat) :
  (4 <= n)%nat ->
  Spirv.word_at (take n (drop (4 * pCodePos) code)) 0 = Spirv.word_at code pCodePos.
Proof.
  intros Hn. unfold Spirv.word_at.
  rewrite !lookup_take. repeat (destruct (decide _); [|lia]). rewrite !lookup_drop.
  replace (4 * pCodePos + 4 * 0)%nat with (4 * pCodePos)%nat by lia.
  replace (4 * pCodePos + (4 * 0 + 1))%nat with (4 * pCodePos + 1)%nat by lia.
  replace (4 * pCodePos + (4 * 0 + 2))%nat with (4 * pCodePos + 2)%nat by lia.
  replace (4 * pCodePos + (4 * 0 + 3))%nat with (4 * pCodePos + 3)%nat by lia.
  reflexivity.
Qed.

(** What the trimming loop writes is a run of instructions, none of them
    a debug instruction. *)
Lemma trimLoop_chunks (code : list ascii) (pEnd bufferSize : nat) :
  forall (k pCodePos : nat) (written out : list ascii),
    (pEnd - pCodePos <= k)%nat ->
    Spirv.trimLoop code pEnd bufferSize pCodePos written = Spirv.Done out ->
    exists chunks, out = written ++ concat chunks /\ Forall nonDebugInstruction chunks.
Proof.
  induction k as [|k IH]; intros pCodePos written out Hk Htrim;
    rewrite trimLoop_unfold in Htrim.
  - destruct (decide (pCodePos < pEnd)%nat); [lia|]. inversion Htrim; subst.
    exists []. simpl. rewrite app_nil_r. auto.
  - destruct (decide (pCodePos < pEnd)%nat) as [Hlt|_].
    2:{ inversion Htrim; subst. exists []. simpl. rewrite app_nil_r. auto. }
    destruct (Spirv.word_at code pCodePos) as [word|] eqn:Hword; [|discriminate].
    destruct (Spirv.isDebugInstruction (Spirv.opCodeOf word)) eqn:Hdebug.
    + destruct (decide (Spirv.wordCountOf word = 0)%nat); [discriminate|].
      apply IH in Htrim; [exact Htrim|lia].
    + unfold Spirv.copyOut, Spirv.sizeof_uint32_t in Htrim.
      destruct (decide _) as [[Hsrc Hdst]|_]; [|discriminate].
      destruct (decide (Spirv.wordCountOf word = 0)%nat); [discriminate|].
      apply IH in Htrim as (chunks & -> & Hchunks); [|lia].
      exists (take (Spirv.wordCountOf word * 4) (drop (4 * pCodePos) code) :: chunks).
      split; [rewrite concat_cons, <- app_assoc; reflexivity|].
      constructor; [|exact Hchunks].
      exists word. rewrite word_at_take_drop by lia.
      repeat split; auto. rewrite length_take, length_drop. lia.
Qed.

Lemma length_concat_chunks (chunks : list (list ascii)) :
  Forall nonDebugInstruction chunks ->
  exists n, length (concat chunks) = (4 * n)%nat.
Proof.
  induction 1 as [|chunk chunks (word & _ & _ & _ & Hlen) _ (n & IH)]; simpl.
  - exists 0%nat. reflexivity.
  - exists (Spirv.wordCountOf word + n)%nat. rewrite length_app. lia.
Qed.

(** Trimming a run of such instructions copies all of them. *)
Lemma trimLoop_on_chunks (bufferSize : nat) (chunks : list (list ascii)) :
  Forall nonDebugInstruction chunks ->
  forall (pre written : list ascii) (k pEnd : nat),
    length pre = (4 * k)%nat ->
    length (concat chunks) = (4 * (pEnd - k))%nat ->
    (k <= pEnd)%nat ->
    (length written + length (concat chunks) <= bufferSize)%nat ->
    Spirv.trimLoop (pre ++ concat chunks) pEnd bufferSize k written =
      Spirv.Done (written ++ concat chunks).
Proof.
  induction 1 as [|chunk chunks (word & Hword & Hdebug & Hwc & Hlen) Hchunks IH];
    intros pre written k pEnd Hpre HpEnd Hk Hroom; rewrite trimLoop_unfold;
    cbn [concat length] in *.
  - destruct (decide (k < pEnd)%nat); [lia|]. rewrite app_nil_r. reflexivity.
  - rewrite length_app in *.
    destruct (decide (k < pEnd)%nat) as [_|Hno]; [|lia].
    replace k with (k + 0)%nat at 1 by lia.
    rewrite (word_at_app pre _ k 0 Hpre), word_at_app_l by lia.
    rewrite Hword, Hdebug.
    unfold Spirv.copyOut, Spirv.sizeof_uint32_t.
    rewrite !length_app.
    destruct (decide _) as [_|Hno]; [|lia].
    destruct (decide (Spirv.wordCountOf word = 0)%nat); [contradiction|].
    rewrite <- Hpre, drop_app_length.
    replace (Spirv.wordCountOf word * 4)%nat with (length chunk) by lia.
    rewrite take_app_length.
    specialize (IH (pre ++ chunk) (written ++ chunk) (k + Spirv.wordCountOf word)%nat pEnd).
    rewrite <- !app_assoc in IH. apply IH.
    + rewrite length_app. lia.
    + lia.
    + lia.
    + rewrite length_app. lia.
Qed.


(** Collecting over a run of such instructions finds nothing wrong and
    counts no debug bytes. *)
Lemma collectLoop_on_chunks (chunks : list (list ascii)) :
  Forall nonDebugInstruction chunks ->
  forall (pre : list ascii) (k pEnd : nat) (s s' : Spirv.Collected) (result : Result),
    length pre = (4 * k)%nat ->
    length (concat chunks) = (4 * (pEnd - k))%nat ->
    (k <= pEnd)%nat ->
    Spirv.collectLoop ConvertToStageShage (pre ++ concat chunks) pEnd k s =
      Spirv.Done (result, s') ->
    result = Success /\
    Spirv.debugInfoSize (Spirv.info s') = Spirv.debugInfoSize (Spirv.info s).
Proof.
  induction 1 as [|chunk chunks (word & Hword & Hdebug & Hwc & Hlen) Hchunks IH];
    intros pre k pEnd s s' result Hpre HpEnd Hk Hcollect;
    rewrite collectLoop_unfold in Hcollect; cbn [concat length] in *.
  - destruct (decide (k < pEnd)%nat); [lia|]. inversion Hcollect; subst. auto.
  - rewrite length_app in *.
    destruct (decide (k < pEnd)%nat) as [_|Hno]; [|lia].
    unfold Spirv.collectStep in Hcollect.
    replace k with (k + 0)%nat in Hcollect at 1 by lia.
    rewrite (word_at_app pre _ k 0 Hpre), word_at_app_l in Hcollect by lia.
    rewrite Hword in Hcollect. cbv zeta in Hcollect.
    destruct (decide _) as [Hbad|_]; [lia|].
    destruct (Spirv.collectInstruction _ _ _ _ _) as [s1| |] eqn:Hinstr; try discriminate.
    apply collectInstruction_debugInfoSize in Hinstr. rewrite Hdebug in Hinstr.
    rewrite <- Hinstr.
    specialize (IH (pre ++ chunk) (k + Spirv.wordCountOf word)%nat pEnd s1 s' result).
    rewrite <- !app_assoc in IH. apply IH; try lia; [|exact Hcollect].
    rewrite length_app. lia.
Qed.

(** What [TrimSpirvDebugInfo] returns: the header, then a run of
    instructions none of which is a debug instruction. *)
Lemma TrimSpirvDebugInfo_chunks (bin : BinaryData) (bufferSize : Z) (out : string) :
  Spirv.TrimSpirvDebugInfo bin bufferSize = Spirv.Done out ->
  exists header chunks,
    list_ascii_of_string out = header ++ concat chunks /\
    length header = Spirv.sizeof_SpirvHeader /\
    Forall nonDebugInstruction chunks.
Proof.
  unfold Spirv.TrimSpirvDebugInfo, Spirv.copyOut at 1. intros Htrim.
  destruct (decide _) as [[Hsrc Hdst]|_]; [|discriminate].
  destruct (Spirv.trimLoop _ _ _ _ _) as [written| |] eqn:Hloop; try discriminate.
  inversion Htrim; subst out. clear Htrim.
  eapply trimLoop_chunks in Hloop as (chunks & -> & Hchunks); [|reflexivity].
  exists (take Spirv.sizeof_SpirvHeader (drop 0 (Spirv.bufferOf bin))), chunks.
  rewrite list_ascii_of_string_of_list_ascii. simpl app.
  split; [reflexivity|]. split; [|exact Hchunks].
  rewrite length_take, length_drop. unfold Spirv.sizeof_SpirvHeader in *. lia.
Qed.

(** X2. Trimming is idempotent: what [TrimSpirvDebugInfo] wrote, trimmed
    again into a buffer of the same size, is written out unchanged. *)
Theorem TrimSpirvDebugInfo_idempotent (bin : BinaryData) (bufferSize : Z) (out : string) :
  Spirv.TrimSpirvDebugInfo bin bufferSize = Spirv.Done out ->
  Spirv.TrimSpirvDebugInfo (mkBinaryData (Some out) (Z.of_nat (String.length out)))
    (Z.of_nat (String.length out)) = Spirv.Done out.
Proof.
  intros Htrim.
  apply TrimSpirvDebugInfo_chunks in Htrim as (header & chunks & Hout & Hheader & Hchunks).
  destruct (length_concat_chunks chunks Hchunks) as (n & Hn).
  unfold Spirv.TrimSpirvDebugInfo, Spirv.bufferOf, Spirv.wordsOf. simpl pCode. simpl codeSize.
  rewrite <- length_list_ascii_of_string, Hout, Nat2Z.id, length_app, Hheader, Hn.
  unfold Spirv.sizeof_SpirvHeader, Spirv.sizeof_uint32_t in *.
  replace (Z.to_nat (Z.of_nat (20 + 4 * n) / Z.of_nat 4)) with (5 + n)%nat.
  2:{ replace (Z.of_nat (20 + 4 * n)) with ((5 + Z.of_nat n) * 4) by lia.
      simpl Z.of_nat. rewrite Z.div_mul by lia. lia. }
  unfold Spirv.copyOut at 1. rewrite length_app, Hheader, Hn. simpl length.
  destruct (decide _) as [_|Hno]; [|lia].
  simpl app. rewrite drop_0.
  rewrite (take_app_length' header (concat chunks) 20) by (symmetry; exact Hheader).
  change (20 / 4)%nat with 5%nat.
  rewrite (trimLoop_on_chunks (20 + 4 * n) chunks Hchunks header header 5 (5 + n));
    try lia.
  rewrite <- Hout, string_of_list_ascii_of_string. reflexivity.
Qed.

(** X3. A trimmed binary has no debug instruction and no instruction with
    a bad word count: a scan by [CollectInfoFromSpirvBinary] of what
    [TrimSpirvDebugInfo] wrote, when it returns, has the result [Success]
    and leaves [debugInfoSize] as it was. *)
Theorem CollectInfoFromSpirvBinary_after_trim (bin : BinaryData) (bufferSize : Z)
  (out : string) (info0 info' : Spirv.ShaderModuleInfo)
  (names0 names' : list Spirv.ShaderEntryName) (result : Result) :
  Spirv.TrimSpirvDebugInfo bin bufferSize = Spirv.Done out ->
  Spirv.CollectInfoFromSpirvBinary ConvertToStageShage
    (mkBinaryData (Some out) (Z.of_nat (String.length out))) info0 names0 =
    Spirv.Done (result, info', names') ->
  result = Success /\ Spirv.debugInfoSize info' = Spirv.debugInfoSize info0.
Proof.
  intros Htrim Hcollect.
  apply TrimSpirvDebugInfo_chunks in Htrim as (header & chunks & Hout & Hheader & Hchunks).
  destruct (length_concat_chunks chunks Hchunks) as (n & Hn).
  unfold Spirv.CollectInfoFromSpirvBinary, Spirv.bufferOf, Spirv.wordsOf in Hcollect.
  simpl pCode in Hcollect. simpl codeSize in Hcollect.
  rewrite <- length_list_ascii_of_string, Hout, length_app, Hheader, Hn in Hcollect.
  unfold Spirv.sizeof_SpirvHeader, Spirv.sizeof_uint32_t in *.
  replace (Z.to_nat (Z.of_nat (20 + 4 * n) / Z.of_nat 4)) with (5 + n)%nat in Hcollect.
  2:{ replace (Z.of_nat (20 + 4 * n)) with ((5 + Z.of_nat n) * 4) by lia.
      simpl Z.of_nat. rewrite Z.div_mul by lia. lia. }
  change (20 / 4)%nat with 5%nat in Hcollect.
  destruct (Spirv.collectLoop _ _ _ _ _) as [[r s]| |] eqn:Hloop; try discriminate.
  inversion Hcollect; subst result info' names'.
  rewrite applyCapabilities_debugInfoSize.
  eapply (collectLoop_on_chunks chunks Hchunks header 5 (5 + n)) in Hloop; try lia.
  exact Hloop.
Qed.

End SpirvFacts.


Section RuntimeFacts.

Context {metroHash : MetroHash64}.
Variables EnableOuts_ArgStr EnableErrs_ArgStr : string.
Variables LogFileDbgs_ArgStr LogFileOuts_ArgStr : string.
Variable VkIcdName : string.
Variable ParseCommandLineOptions : list string -> bool.
Variable newAddress : gset Z -> Z.
Variable maxResidentContexts : Z.

Hypothesis newAddress_fresh : forall X : gset Z, newAddress X ∉ X.

Local Notation Create :=
  (Runtime.Create EnableOuts_ArgStr EnableErrs_ArgStr LogFileDbgs_ArgStr LogFileOuts_ArgStr
     VkIcdName ParseCommandLineOptions newAddress).
Local Notation Destroy := (Runtime.Destroy VkIcdName maxResidentContexts).
Local Notation AcquireContext := (Runtime.AcquireContext newAddress).
Local Notation run :=
  (Runtime.run EnableOuts_ArgStr EnableErrs_ArgStr LogFileDbgs_ArgStr LogFileOuts_ArgStr
     VkIcdName ParseCommandLineOptions newAddress maxResidentContexts).

Lemma consistent_fields (s s' : Runtime.State) :
  Runtime.m_instanceCount s' = Runtime.m_instanceCount s ->
  Runtime.m_outRedirectCount s' = Runtime.m_outRedirectCount s ->
  Runtime.m_pContextPool s' = Runtime.m_pContextPool s ->
  Runtime.contexts s' = Runtime.contexts s ->
  Runtime.compilers s' = Runtime.compilers s ->
  Runtime.s_optionHash s' = Runtime.s_optionHash s ->
  consistent s -> consistent s'.
Proof.
  unfold consistent. intros -> -> -> -> -> ->. auto.
Qed.

Lemma Compiler_new_consistent (this : Z) (gfxIp : Runtime.GfxIpVersion)
  (pOptions : list string) (optionHash : Hash) (s s' : Runtime.State) :
  consistent s ->
  Runtime.m_instanceCount s < 2 ^ 32 - 1 ->
  pOptions <> [] ->
  optionHash = Runtime.s_optionHash s ->
  Runtime.compilers s !! this = None ->
  Runtime.Compiler_new this gfxIp pOptions optionHash s = Returned (tt, s') ->
  consistent s' /\ Runtime.m_instanceCount s' = Runtime.m_instanceCount s + 1.
Proof.
  intros (Hout & Hle & Hpool & Hvalid & Hopts) Hbound Hne Hhash Hfresh Hnew.
  assert (Hsize : 0 <= Runtime.m_outRedirectCount s) by lia.
  unfold Runtime.Compiler_new, bind, get, ret, modify, Runtime.call in Hnew.
  simpl in Hnew.
  assert (Hwrap : forall x, 0 <= x < 2 ^ 32 - 1 -> wrap32 (x + 1) = x + 1).
  { intros x Hx. unfold wrap32. apply Z.mod_small. lia. }
  destruct (decide (Runtime.m_outRedirectCount s = 0));
    destruct (decide (Runtime.m_instanceCount s = 0)); simpl in Hnew;
    inversion Hnew; subst s'; clear Hnew; unfold consistent; simpl;
    rewrite map_size_insert_None by exact Hfresh;
    rewrite !Hwrap by lia.
  all: split; [|reflexivity].
  all: split; [lia|]. all: split; [lia|].
  all: split; [split; [intros H; try discriminate H; apply Hpool in H; lia|lia]|].
  all: split.
  all: try (intros pool Hsome; inversion Hsome; subst pool; split; [constructor|];
            intros p Hp; apply elem_of_nil in Hp; contradiction).
  all: try exact Hvalid.
  all: intros p c Hlook; apply lookup_insert_Some in Hlook as [[_ <-]|[_ Hlook]];
    [split; [exact Hne|exact Hhash]|eapply Hopts, Hlook].
Qed.

Lemma Create_consistent (gfxIp : Runtime.GfxIpVersion) (options : list string)
  (s s' : Runtime.State) (r : Result * option Z) :
  consistent s ->
  Runtime.m_instanceCount s < 2 ^ 32 - 1 ->
  Create gfxIp options s = Returned (r, s') ->
  consistent s' /\ Runtime.m_instanceCount s' <= Runtime.m_instanceCount s + 1.
Proof.
  intros Hs Hbound Hcreate.
  unfold Runtime.Create in Hcreate.
  apply bind_Returned in Hcreate as (pClient & s1 & Hclient & Hcreate).
  unfold array_get in Hclient.
  destruct (options !! 0%nat) eqn:Hopt0; [|discriminate]. inversion Hclient; subst s1. clear Hclient.
  assert (Hne : options <> []) by (intros ->; discriminate).
  apply bind_Returned in Hcreate as (optionHash & s1 & Hhash & Hcreate).
  unfold deref in Hhash. destruct (GenerateHashForCompileOptions _ _ _ _ _); [|discriminate].
  inversion Hhash; subst s1. clear Hhash.
  apply bind_Returned in Hcreate as (s1 & s2 & Hget & Hcreate).
  inversion Hget; subst s1 s2. clear Hget.
  apply bind_Returned in Hcreate as ([result parseCmdOption] & s1 & Hcheck & Hcreate).
  assert (Hs1 : consistent s1 /\ Runtime.m_instanceCount s1 = Runtime.m_instanceCount s /\
                (result = Success ->
                 optionHash = Runtime.s_optionHash s1 \/ Runtime.compilers s1 = ∅)).
  { pose proof Hs as (Hout & Hle & _).
    assert (Hempty : Runtime.m_outRedirectCount s = 0 -> Runtime.compilers s = ∅).
    { intros Hzero. apply map_size_empty_iff. lia. }
    unfold bind, ret, Runtime.call, modify in Hcheck.
    destruct (decide (Runtime.m_instanceCount s > 0)).
    - destruct (bool_decide_reflect (optionHash = Runtime.s_optionHash s)).
      + inversion Hcheck; subst. auto.
      + destruct (decide (Runtime.m_outRedirectCount s = 0)); inversion Hcheck; subst.
        * split; [|split; [reflexivity|]].
          -- eapply consistent_fields; [..|exact Hs]; reflexivity.
          -- intros _. right. simpl. auto.
        * split; [exact Hs|]. split; [reflexivity|discriminate].
    - inversion Hcheck; subst. split; [exact Hs|]. split; [reflexivity|].
      intros _. right. apply Hempty. lia. }
  clear Hcheck. destruct Hs1 as (Hs1 & Hcount1 & Hhash1).
  apply bind_Returned in Hcreate as (result' & s2 & Hparse & Hcreate).
  assert (Hs2 : consistent s2 /\ Runtime.m_instanceCount s2 = Runtime.m_instanceCount s /\
                (result' = Success ->
                 optionHash = Runtime.s_optionHash s2 \/ Runtime.compilers s2 = ∅)).
  { unfold bind, ret, Runtime.call, modify in Hparse.
    destruct parseCmdOption; inversion Hparse; subst; auto.
    split; [eapply consistent_fields; [..|exact Hs1]; reflexivity|].
    split; [exact Hcount1|]. simpl.
    destruct (ParseCommandLineOptions options); [exact Hhash1|discriminate]. }
  clear Hparse. destruct Hs2 as (Hs2 & Hcount2 & Hhash2).
  destruct (decide (result' = Success)) as [Hok|Hfail].
  - apply bind_Returned in Hcreate as ([] & s3 & Hset & Hcreate).
    inversion Hset; subst s3. clear Hset.
    apply bind_Returned in Hcreate as (s3 & s4 & Hget & Hcreate).
    inversion Hget; subst s3 s4. clear Hget.
    apply bind_Returned in Hcreate as ([] & s3 & Hnew & Hcreate).
    inversion Hcreate; subst. clear Hcreate.
    apply Compiler_new_consistent in Hnew as [Hs3 Hcount3].
    + split; [exact Hs3|]. rewrite Hcount3. simpl. lia.
    + destruct (Hhash2 eq_refl) as [Heq|Hempty].
      * eapply consistent_fields; [..|exact Hs2]; try reflexivity. simpl. exact Heq.
      * destruct Hs2 as (Hout & Hle & Hpool & Hvalid & Hopts).
        unfold consistent. simpl. repeat split; auto; try apply Hpool.
        -- apply Hvalid. assumption.
        -- eapply Hvalid; eassumption.
        -- rewrite Hempty in H. rewrite lookup_empty in H. discriminate.
        -- rewrite Hempty in H. rewrite lookup_empty in H. discriminate.
    + simpl. lia.
    + exact Hne.
    + reflexivity.
    + apply not_elem_of_dom, newAddress_fresh.
  - inversion Hcreate; subst. split; [exact Hs2|lia].
Qed.

Lemma sameStatics_refl (s : Runtime.State) : sameStatics s s.
Proof. repeat split. Qed.

Lemma sameStatics_trans (s1 s2 s3 : Runtime.State) :
  sameStatics s1 s2 -> sameStatics s2 s3 -> sameStatics s1 s3.
Proof.
  unfold sameStatics. intros (-> & -> & -> & -> & -> & ->) (-> & -> & -> & -> & -> & ->).
  repeat split.
Qed.

Lemma freeContexts_spec (todo : list Z) :
  forall (kept pool' : list Z) (s s' : Runtime.State),
    Runtime.freeContexts maxResidentContexts kept todo s = Returned (pool', s') ->
    sameStatics s s' /\
    exists kept',
      pool' = kept ++ kept' /\ sublist kept' todo /\
      (forall q, q ∉ todo -> Runtime.contexts s' !! q = Runtime.contexts s !! q) /\
      (forall q c, Runtime.contexts s !! q = Some c -> Runtime.m_isInUse c = true ->
                   Runtime.contexts s' !! q = Some c) /\
      (NoDup todo -> forall q, q ∈ kept' -> is_Some (Runtime.contexts s' !! q)).
Proof.
  induction todo as [|p rest IH]; intros kept pool' s s' Hfree.
  - inversion Hfree; subst. split; [apply sameStatics_refl|].
    exists []. rewrite app_nil_r. repeat split; auto.
    intros _ q Hq. apply elem_of_nil in Hq. contradiction.
  - cbn [Runtime.freeContexts] in Hfree.
    apply bind_Returned in Hfree as (s0 & s1 & Hget & Hfree).
    inversion Hget; subst s0 s1. clear Hget.
    apply bind_Returned in Hfree as (context & s1 & Hderef & Hfree).
    unfold deref in Hderef.
    destruct (Runtime.contexts s !! p) as [c|] eqn:Hp; [|discriminate].
    inversion Hderef; subst c s1. clear Hderef.
    destruct (negb (Runtime.m_isInUse context) && _) eqn:Herase.
    + (* erased *)
      apply bind_Returned in Hfree as ([] & s1 & Hdel & Hfree).
      inversion Hdel; subst s1. clear Hdel.
      apply IH in Hfree as (Hsame & kept' & -> & Hsub & Hframe & Huse & Hvalid).
      split.
      { eapply sameStatics_trans; [|exact Hsame]. repeat split. }
      exists kept'. split; [reflexivity|]. split; [apply sublist_cons, Hsub|].
      simpl in *. repeat split.
      * intros q Hq. apply not_elem_of_cons in Hq as [Hne Hq].
        rewrite Hframe by exact Hq. apply lookup_delete_ne. auto.
      * intros q c Hq Hc. apply Huse; [|exact Hc].
        rewrite lookup_delete_ne; [exact Hq|].
        intros <-. rewrite Hp in Hq. inversion Hq; subst c.
        rewrite Hc in Herase. discriminate.
      * intros Hnodup. apply NoDup_cons in Hnodup as [_ Hnodup]. auto.
    + (* kept *)
      apply IH in Hfree as (Hsame & kept' & -> & Hsub & Hframe & Huse & Hvalid).
      split; [exact Hsame|].
      exists (p :: kept'). rewrite <- app_assoc. split; [reflexivity|].
      split; [apply sublist_skip, Hsub|].
      repeat split.
      * intros q Hq. apply not_elem_of_cons in Hq as [Hne Hq]. apply Hframe, Hq.
      * exact Huse.
      * intros Hnodup q Hq. apply NoDup_cons in Hnodup as [Hnotin Hnodup].
        apply elem_of_cons in Hq as [->|Hq]; [|auto].
        rewrite Hframe by exact Hnotin. rewrite Hp. eauto.
Qed.

Lemma Destroy_consistent (this : Z) (s s' : Runtime.State) :
  consistent s ->
  Runtime.m_instanceCount s < 2 ^ 32 ->
  Destroy this s = Returned (tt, s') ->
  consistent s' /\ Runtime.m_instanceCount s' <= Runtime.m_instanceCount s.
Proof.
  intros (Hout & Hle & Hpool & Hvalid & Hopts) Hbound Hdestroy.
  unfold Runtime.Destroy in Hdestroy.
  apply bind_Returned in Hdestroy as (s0 & s1 & Hget & Hdestroy).
  inversion Hget; subst s0 s1. clear Hget.
  apply bind_Returned in Hdestroy as (compiler & s1 & Hderef & Hdestroy).
  unfold deref in Hderef.
  destruct (Runtime.compilers s !! this) as [c|] eqn:Hthis; [|discriminate].
  inversion Hderef; subst c s1. clear Hderef.
  apply bind_Returned in Hdestroy as (pool & s1 & Hderef & Hdestroy).
  unfold deref in Hderef.
  destruct (Runtime.m_pContextPool s) as [pool0|] eqn:Hpool0; [|discriminate].
  inversion Hderef; subst pool0 s1. clear Hderef.
  apply bind_Returned in Hdestroy as (pool' & s1 & Hfree & Hdestroy).
  apply freeContexts_spec in Hfree
    as ((Hic & Horc & Hhash & Hpp & Hcomp & _) & kept' & -> & Hsub & Hframe & Huse & Hkept).
  destruct (Hvalid pool eq_refl) as [Hnodup Hin].
  assert (Hsize : (0 < base.size (Runtime.compilers s))%nat).
  { destruct (base.size (Runtime.compilers s)) eqn:Hsz; [|lia].
    apply map_size_empty_iff in Hsz. rewrite Hsz in Hthis. discriminate. }
  assert (Hwrap : forall x, 0 < x < 2 ^ 32 -> wrap32 (x - 1) = x - 1).
  { intros x Hx. unfold wrap32. apply Z.mod_small. lia. }
  unfold bind, get, ret, modify, Runtime.call, array_get in Hdestroy. simpl in Hdestroy.
  destruct (Runtime.m_options compiler !! 0%nat) as [option0|]; [|
    destruct (decide _); discriminate].
  rewrite Horc, Hwrap in Hdestroy by lia.
  assert (Hkept' : NoDup kept' /\ forall p, p ∈ kept' -> is_Some (Runtime.contexts s1 !! p)).
  { split; [eapply sublist_NoDup; eassumption|auto]. }
  assert (Hdel : Z.of_nat (base.size (delete this (Runtime.compilers s))) =
                 Runtime.m_outRedirectCount s - 1).
  { rewrite map_size_delete, Hthis. lia. }
  assert (Hopts' : forall p c, delete this (Runtime.compilers s) !! p = Some c ->
                               Runtime.m_options c <> [] /\
                               Runtime.m_optionHash c = Runtime.s_optionHash s).
  { intros p c Hlook. apply lookup_delete_Some in Hlook as [_ Hlook]. eapply Hopts, Hlook. }
  destruct (decide (Runtime.m_outRedirectCount s - 1 = 0)); simpl in Hdestroy;
    destruct (option0 =? VkIcdName)%string; simpl in Hdestroy;
    try rewrite Hic, Hwrap in Hdestroy by lia;
    try destruct (bool_decide_reflect (Runtime.m_instanceCount s - 1 = 0));
    simpl in Hdestroy; inversion Hdestroy; subst s'; clear Hdestroy;
    unfold consistent; simpl; rewrite ?Hic, ?Hcomp, ?Hhash.
  all: (split; [|lia]).
  all: split; [symmetry; exact Hdel|].
  all: split; [lia|].
  all: split; [split; [intros H; try discriminate H; lia|intros H; try reflexivity; lia]|].
  all: split; [|exact Hopts'].
  all: intros pool0 Hsome; inversion Hsome; subst pool0; exact Hkept'.
Qed.


Lemma GfxIpVersion_fields (a b : Runtime.GfxIpVersion) :
  bool_decide (Runtime.major a = Runtime.major b) &&
  bool_decide (Runtime.minor a = Runtime.minor b) &&
  bool_decide (Runtime.stepping a = Runtime.stepping b) = bool_decide (a = b).
Proof.
  destruct a as [a1 a2 a3], b as [b1 b2 b3]. simpl.
  destruct (bool_decide_reflect (a1 = b1)), (bool_decide_reflect (a2 = b2)),
    (bool_decide_reflect (a3 = b3)); simpl; symmetry;
    first [apply bool_decide_eq_true; congruence | apply bool_decide_eq_false; congruence].
Qed.

(** What the search finds: a pooled context that was free and of the
    version asked for, now marked in use; or nothing, when every pooled
    context is in use or of another version. *)
Lemma findFreeContext_spec (gfxIp : Runtime.GfxIpVersion) (pool : list Z) :
  forall (s s' : Runtime.State) (r : option Z),
    Runtime.findFreeContext gfxIp pool s = Returned (r, s') ->
    sameStatics s s' /\
    match r with
    | Some p =>
        p ∈ pool /\
        Runtime.contexts s !! p = Some (Runtime.mkContext gfxIp false) /\
        Runtime.contexts s' = <[p := Runtime.mkContext gfxIp true]> (Runtime.contexts s)
    | None =>
        Runtime.contexts s' = Runtime.contexts s /\
        forall p, p ∈ pool ->
          exists c, Runtime.contexts s !! p = Some c /\
                    (Runtime.m_isInUse c = true \/ Runtime.m_gfxIp c <> gfxIp)
    end.
Proof.
  induction pool as [|p rest IH]; intros s s' r Hfind.
  - inversion Hfind; subst. split; [apply sameStatics_refl|]. split; [reflexivity|].
    intros p Hp. apply elem_of_nil in Hp. contradiction.
  - cbn [Runtime.findFreeContext] in Hfind.
    apply bind_Returned in Hfind as (s0 & s1 & Hget & Hfind).
    inversion Hget; subst s0 s1. clear Hget.
    apply bind_Returned in Hfind as (context & s1 & Hderef & Hfind).
    unfold deref in Hderef.
    destruct (Runtime.contexts s !! p) as [c|] eqn:Hp; [|discriminate].
    inversion Hderef; subst c s1. clear Hderef.
    rewrite <- !andb_assoc in Hfind. rewrite (andb_assoc (bool_decide _)) in Hfind.
    rewrite GfxIpVersion_fields in Hfind.
    destruct (Runtime.m_isInUse context) eqn:Huse; simpl in Hfind.
    + apply IH in Hfind as [Hsame Hr]. split; [exact Hsame|].
      destruct r as [q|].
      * destruct Hr as (Hq & Hr). split; [right; exact Hq|exact Hr].
      * destruct Hr as [Heq Hall]. split; [exact Heq|].
        intros q Hq. apply elem_of_cons in Hq as [->|Hq]; [|auto].
        exists context. auto.
    + destruct (bool_decide_reflect (Runtime.m_gfxIp context = gfxIp)) as [Hgfx|Hgfx].
      * unfold bind, modify, ret in Hfind. inversion Hfind; subst r s'. clear Hfind.
        split; [repeat split|]. split; [left|].
        destruct context as [g u]. simpl in *. subst. split; [exact Hp|reflexivity].
      * apply IH in Hfind as [Hsame Hr]. split; [exact Hsame|].
        destruct r as [q|].
        -- destruct Hr as (Hq & Hr). split; [right; exact Hq|exact Hr].
        -- destruct Hr as [Heq Hall]. split; [exact Heq|].
           intros q Hq. apply elem_of_cons in Hq as [->|Hq]; [|auto].
           exists context. auto.
Qed.

(** The search reads pooled contexts only: with all of them allocated it
    returns. *)
Lemma findFreeContext_returns (gfxIp : Runtime.GfxIpVersion) (pool : list Z) :
  forall s : Runtime.State,
    (forall p, p ∈ pool -> is_Some (Runtime.contexts s !! p)) ->
    exists r s', Runtime.findFreeContext gfxIp pool s = Returned (r, s').
Proof.
  induction pool as [|p rest IH]; intros s Hvalid.
  - eexists _, _. reflexivity.
  - destruct (Hvalid p ltac:(left)) as [c Hc].
    cbn [Runtime.findFreeContext]. unfold bind at 1, get. unfold bind at 1, deref.
    rewrite Hc. unfold ret at 1.
    destruct (negb _ && _ && _ && _).
    + eexists _, _. reflexivity.
    + apply IH. intros q Hq. apply Hvalid. right. exact Hq.
Qed.

Lemma AcquireContext_spec (this p : Z) (s s' : Runtime.State) :
  AcquireContext this s = Returned (p, s') ->
  exists compiler pool,
    Runtime.compilers s !! this = Some compiler /\
    Runtime.m_pContextPool s = Some pool /\
    Runtime.m_instanceCount s' = Runtime.m_instanceCount s /\
    Runtime.m_outRedirectCount s' = Runtime.m_outRedirectCount s /\
    Runtime.s_optionHash s' = Runtime.s_optionHash s /\
    Runtime.compilers s' = Runtime.compilers s /\
    Runtime.contexts s' =
      <[p := Runtime.mkContext (Runtime.compiler_gfxIp compiler) true]> (Runtime.contexts s) /\
    ((p ∈ pool /\ Runtime.m_pContextPool s' = Some pool /\
      Runtime.contexts s !! p =
        Some (Runtime.mkContext (Runtime.compiler_gfxIp compiler) false)) \/
     (Runtime.contexts s !! p = None /\ Runtime.m_pContextPool s' = Some (pool ++ [p]) /\
      forall q, q ∈ pool ->
        exists c, Runtime.contexts s !! q = Some c /\
                  (Runtime.m_isInUse c = true \/
                   Runtime.m_gfxIp c <> Runtime.compiler_gfxIp compiler))).
Proof.
  intros Hacq. unfold Runtime.AcquireContext in Hacq.
  apply bind_Returned in Hacq as (s0 & s1 & Hget & Hacq).
  inversion Hget; subst s0 s1. clear Hget.
  apply bind_Returned in Hacq as (compiler & s1 & Hderef & Hacq).
  unfold deref in Hderef.
  destruct (Runtime.compilers s !! this) as [c|] eqn:Hthis; [|discriminate].
  inversion Hderef; subst c s1. clear Hderef.
  apply bind_Returned in Hacq as (pool & s1 & Hderef & Hacq).
  unfold deref in Hderef.
  destruct (Runtime.m_pContextPool s) as [pool0|] eqn:Hpool0; [|discriminate].
  inversion Hderef; subst pool0 s1. clear Hderef.
  apply bind_Returned in Hacq as (r & s1 & Hfind & Hacq).
  apply findFreeContext_spec in Hfind as ((Hic & Horc & Hhash & Hpp & Hcomp & _) & Hr).
  exists compiler, pool. split; [reflexivity|]. split; [reflexivity|].
  destruct r as [q|].
  - destruct Hr as (Hq & Hfree & Hctx). inversion Hacq; subst p s1. clear Hacq.
    repeat split; auto. left. rewrite Hpp, Hpool0. auto.
  - destruct Hr as [Hctx Hall].
    unfold bind, get, modify, ret in Hacq. inversion Hacq; subst p s'. clear Hacq.
    simpl. rewrite Hctx. repeat split; auto. right.
    split; [apply not_elem_of_dom, newAddress_fresh|]. auto.
Qed.

Lemma AcquireContext_consistent (this p : Z) (s s' : Runtime.State) :
  consistent s ->
  AcquireContext this s = Returned (p, s') ->
  consistent s' /\ Runtime.m_instanceCount s' = Runtime.m_instanceCount s.
Proof.
  intros (Hout & Hle & Hpool & Hvalid & Hopts) Hacq.
  apply AcquireContext_spec in Hacq
    as (compiler & pool & Hthis & Hpool0 & Hic & Horc & Hhash & Hcomp & Hctx & Hcase).
  split; [|exact Hic].
  destruct (Hvalid pool Hpool0) as [Hnodup Hin].
  unfold consistent. rewrite Hic, Horc, Hcomp, Hctx, Hhash.
  split; [exact Hout|]. split; [exact Hle|].
  destruct Hcase as [(Hp & Hpool' & _)|(Hp & Hpool' & _)]; rewrite Hpool'.
  - split; [rewrite <- Hpool0; exact Hpool|]. split; [|exact Hopts].
    intros pool0 Hsome. inversion Hsome; subst pool0. split; [exact Hnodup|].
    intros q Hq. destruct (decide (q = p)) as [->|Hne].
    + rewrite lookup_insert. destruct (decide (p = p)); [eauto|contradiction].
    + rewrite lookup_insert_ne by auto. auto.
  - split.
    { split; [discriminate|]. intros H. apply Hpool in H. congruence. }
    split; [|exact Hopts].
    intros pool0 Hsome. inversion Hsome; subst pool0. split.
    + apply NoDup_app. split; [exact Hnodup|]. split; [|apply NoDup_singleton].
      intros q Hq Hq'. apply list_elem_of_singleton in Hq'. subst q.
      apply Hin in Hq as [c Hc]. congruence.
    + intros q Hq. destruct (decide (q = p)) as [->|Hne].
      * rewrite lookup_insert. destruct (decide (p = p)); [eauto|contradiction].
      * rewrite lookup_insert_ne by auto. apply elem_of_app in Hq as [Hq|Hq]; [auto|].
        apply list_elem_of_singleton in Hq. contradiction.
Qed.

Lemma ReleaseContext_consistent (pContext : Z) (s s' : Runtime.State) :
  consistent s ->
  Runtime.ReleaseContext pContext s = Returned (tt, s') ->
  consistent s' /\ Runtime.m_instanceCount s' = Runtime.m_instanceCount s.
Proof.
  intros (Hout & Hle & Hpool & Hvalid & Hopts) Hrel.
  unfold Runtime.ReleaseContext, bind, get, deref, modify, ret in Hrel.
  destruct (Runtime.contexts s !! pContext) as [c|] eqn:Hc; [|discriminate].
  inversion Hrel; subst s'. clear Hrel. split; [|reflexivity].
  unfold consistent. simpl.
  split; [exact Hout|]. split; [exact Hle|]. split; [exact Hpool|]. split; [|exact Hopts].
  intros pool Hsome. destruct (Hvalid pool Hsome) as [Hnodup Hin]. split; [exact Hnodup|].
  intros q Hq. destruct (decide (q = pContext)) as [->|Hne].
  - rewrite lookup_insert. destruct (decide (pContext = pContext)); [eauto|contradiction].
  - rewrite lookup_insert_ne by auto. auto.
Qed.


Lemma initial_consistent : consistent Runtime.initial.
Proof.
  unfold consistent, Runtime.initial. simpl. rewrite map_size_empty.
  repeat split; try lia; try discriminate.
  all: intros; rewrite lookup_empty in *; discriminate.
Qed.

Lemma run_preserves_consistent (calls : list Runtime.Call) :
  forall s0 s : Runtime.State,
    consistent s0 ->
    Runtime.m_instanceCount s0 + Z.of_nat (length calls) < 2 ^ 32 ->
    run calls s0 = Returned (tt, s) ->
    consistent s.
Proof.
  induction calls as [|c calls IH]; intros s0 s Hs0 Hbound Hrun.
  - inversion Hrun; subst. exact Hs0.
  - cbn [Runtime.run length] in *.
    apply bind_Returned in Hrun as ([] & s1 & Hcall & Hrun).
    assert (Hs1 : consistent s1 /\ Runtime.m_instanceCount s1 <= Runtime.m_instanceCount s0 + 1).
    { destruct c as [gfxIp options|pCompiler|pCompiler|pContext]; cbn [Runtime.run1] in Hcall.
      - apply bind_Returned in Hcall as (r & s2 & Hcreate & Hret).
        inversion Hret; subst s2. eapply Create_consistent; [exact Hs0|lia|exact Hcreate].
      - apply Destroy_consistent in Hcall as [H1 H2]; [split; [exact H1|lia]|exact Hs0|lia].
      - apply bind_Returned in Hcall as (r & s2 & Hacq & Hret).
        inversion Hret; subst s2.
        apply AcquireContext_consistent in Hacq as [H1 H2]; [split; [exact H1|lia]|exact Hs0].
      - apply ReleaseContext_consistent in Hcall as [H1 H2]; [split; [exact H1|lia]|exact Hs0]. }
    destruct Hs1 as [Hs1 Hcount]. eapply IH; [exact Hs1| |exact Hrun]. lia.
Qed.

(** X4. Any sequence of fewer than 2^32 calls of [ICompiler::Create],
    [Destroy], [AcquireContext] and [ReleaseContext] that runs from the
    initial statics without a fault leaves them consistent:
    [m_outRedirectCount] is the number of live compilers and at most
    [m_instanceCount]; the context pool exists exactly when
    [m_instanceCount] is not zero; no pointer is in the pool twice and
    every pointer in it is allocated; every live compiler has options, and
    their hash is [s_optionHash]. *)
Theorem run_consistent (calls : list Runtime.Call) (s : Runtime.State) :
  Z.of_nat (length calls) < 2 ^ 32 ->
  run calls Runtime.initial = Returned (tt, s) ->
  consistent s.
Proof.
  intros Hlen Hrun. eapply run_preserves_consistent; [apply initial_consistent| |exact Hrun].
  simpl. lia.
Qed.

(** X5. A context that [AcquireContext] returns was not in use before the
    call (it was free in the pool, or not allocated); after the call it is
    in use and has the version of the compiler; no other context has
    changed. *)
Theorem AcquireContext_exclusive (this pContext : Z) (s s' : Runtime.State) :
  AcquireContext this s = Returned (pContext, s') ->
  inUse (Runtime.contexts s) pContext = false /\
  (exists compiler,
     Runtime.compilers s !! this = Some compiler /\
     Runtime.contexts s' !! pContext =
       Some (Runtime.mkContext (Runtime.compiler_gfxIp compiler) true)) /\
  (forall q, q <> pContext -> Runtime.contexts s' !! q = Runtime.contexts s !! q).
Proof.
  intros Hacq. apply AcquireContext_spec in Hacq
    as (compiler & pool & Hthis & _ & _ & _ & _ & _ & Hctx & Hcase).
  split; [|split].
  - unfold inUse. destruct Hcase as [(_ & _ & Hp)|(Hp & _)]; rewrite Hp; reflexivity.
  - exists compiler. split; [exact Hthis|]. rewrite Hctx, lookup_insert.
    destruct (decide (pContext = pContext)); [reflexivity|contradiction].
  - intros q Hq. rewrite Hctx, lookup_insert_ne by auto. reflexivity.
Qed.

(** X6. A released context is used again: for a context of the pool and a
    compiler of the version of that context, [ReleaseContext] followed by
    [AcquireContext] returns a context of the pool; no context is
    allocated, and the pool is as it was. *)
Theorem ReleaseContext_then_AcquireContext_reuses (this pContext : Z) (s : Runtime.State)
  (compiler : Runtime.Compiler) (context : Runtime.Context) (pool : list Z) :
  Runtime.compilers s !! this = Some compiler ->
  Runtime.m_pContextPool s = Some pool ->
  (forall p, p ∈ pool -> is_Some (Runtime.contexts s !! p)) ->
  pContext ∈ pool ->
  Runtime.contexts s !! pContext = Some context ->
  Runtime.m_gfxIp context = Runtime.compiler_gfxIp compiler ->
  exists q s',
    (Runtime.ReleaseContext pContext;; AcquireContext this) s = Returned (q, s') /\
    q ∈ pool /\
    Runtime.m_pContextPool s' = Some pool /\
    dom (Runtime.contexts s') = dom (Runtime.contexts s).
Proof.
  intros Hthis Hpool Hvalid Hin Hctx Hgfx.
  unfold bind at 1, Runtime.ReleaseContext, bind at 1, get, bind at 1, deref.
  rewrite Hctx. unfold ret at 1, modify at 1.
  set (s1 := Runtime.set_contexts _ s).
  assert (Hvalid1 : forall p, p ∈ pool -> is_Some (Runtime.contexts s1 !! p)).
  { intros p Hp. unfold s1. simpl. destruct (decide (p = pContext)) as [->|Hne].
    - rewrite lookup_insert. destruct (decide (pContext = pContext)); [eauto|contradiction].
    - rewrite lookup_insert_ne by auto. auto. }
  destruct (findFreeContext_returns (Runtime.compiler_gfxIp compiler) pool s1 Hvalid1)
    as (r & s2 & Hfind).
  pose proof (findFreeContext_spec _ _ _ _ _ Hfind) as ((_ & _ & _ & Hpp & _ & _) & Hr).
  unfold Runtime.AcquireContext. cbv [bind get deref ret].
  change (Runtime.compilers s1) with (Runtime.compilers s). rewrite Hthis.
  change (Runtime.m_pContextPool s1) with (Runtime.m_pContextPool s). rewrite Hpool.
  rewrite Hfind.
  destruct r as [q|].
  - destruct Hr as (Hq & Hfree & Hctx2).
    exists q, s2. split; [reflexivity|]. split; [exact Hq|].
    split; [rewrite Hpp; exact Hpool|].
    rewrite Hctx2. rewrite dom_insert_lookup_L by (apply Hvalid1, Hq).
    unfold s1. simpl. apply dom_insert_lookup_L. eauto.
  - exfalso. destruct Hr as [_ Hall].
    destruct (Hall pContext Hin) as (c & Hc & Hbusy).
    unfold s1 in Hc. simpl in Hc. rewrite lookup_insert in Hc.
    destruct (decide (pContext = pContext)); [|contradiction].
    inversion Hc; subst c. simpl in Hbusy. destruct Hbusy; [discriminate|contradiction].
Qed.

(** X7. The destructor frees no context that is in use: a context in use
    before [Destroy] is on the heap, unchanged, after it. *)
Theorem Destroy_keeps_contexts_in_use (this pContext : Z) (s s' : Runtime.State)
  (context : Runtime.Context) :
  Destroy this s = Returned (tt, s') ->
  Runtime.contexts s !! pContext = Some context ->
  Runtime.m_isInUse context = true ->
  Runtime.contexts s' !! pContext = Some context.
Proof.
  intros Hdestroy Hctx Huse.
  unfold Runtime.Destroy in Hdestroy.
  apply bind_Returned in Hdestroy as (s0 & s1 & Hget & Hdestroy).
  inversion Hget; subst s0 s1. clear Hget.
  apply bind_Returned in Hdestroy as (compiler & s1 & Hderef & Hdestroy).
  unfold deref in Hderef.
  destruct (Runtime.compilers s !! this) as [c|] eqn:Hthis; [|discriminate].
  inversion Hderef; subst c s1. clear Hderef.
  apply bind_Returned in Hdestroy as (pool & s1 & Hderef & Hdestroy).
  unfold deref in Hderef.
  destruct (Runtime.m_pContextPool s) as [pool0|] eqn:Hpool0; [|discriminate].
  inversion Hderef; subst pool0 s1. clear Hderef.
  apply bind_Returned in Hdestroy as (pool' & s1 & Hfree & Hdestroy).
  apply freeContexts_spec in Hfree as (_ & kept' & _ & _ & _ & Hkeep & _).
  specialize (Hkeep _ _ Hctx Huse).
  unfold bind, get, ret, modify, Runtime.call, array_get in Hdestroy. simpl in Hdestroy.
  destruct (decide _); simpl in Hdestroy;
    (destruct (Runtime.m_options compiler !! 0%nat) as [option0|]; [|discriminate]);
    simpl in Hdestroy;
    destruct (option0 =? VkIcdName)%string; simpl in Hdestroy;
    try destruct (bool_decide _); simpl in Hdestroy;
    inversion Hdestroy; subst s'; simpl; exact Hkeep.
Qed.


Lemma inUseCount_delete (contexts : gmap Z Runtime.Context) (p : Z) (pool : list Z) :
  inUse contexts p = false ->
  inUseCount (delete p contexts) pool = inUseCount contexts pool.
Proof.
  intros Hfree. unfold inUseCount. f_equal. apply List.filter_ext.
  intros q. unfold inUse in *. destruct (decide (q = p)) as [->|Hne].
  - rewrite lookup_delete. destruct (decide (p = p)); [|contradiction].
    destruct (contexts !! p); auto.
  - rewrite lookup_delete_ne by auto. reflexivity.
Qed.

(** The size of the pool after the loop of the destructor: the contexts in
    use stay, and free ones go until the vector is down to
    [maxResidentContexts]. *)
Lemma freeContexts_length (todo : list Z) :
  forall (kept pool' : list Z) (s s' : Runtime.State),
    Runtime.freeContexts maxResidentContexts kept todo s = Returned (pool', s') ->
    Z.of_nat (length pool') =
    Z.max (Z.of_nat (length kept + inUseCount (Runtime.contexts s) todo))
          (Z.min (Z.of_nat (length kept + length todo)) maxResidentContexts).
Proof.
  induction todo as [|p rest IH]; intros kept pool' s s' Hfree.
  - inversion Hfree; subst. unfold inUseCount. simpl. lia.
  - cbn [Runtime.freeContexts] in Hfree.
    apply bind_Returned in Hfree as (s0 & s1 & Hget & Hfree).
    inversion Hget; subst s0 s1. clear Hget.
    apply bind_Returned in Hfree as (context & s1 & Hderef & Hfree).
    unfold deref in Hderef.
    destruct (Runtime.contexts s !! p) as [c|] eqn:Hp; [|discriminate].
    inversion Hderef; subst c s1. clear Hderef.
    assert (Huse : inUse (Runtime.contexts s) p = Runtime.m_isInUse context).
    { unfold inUse. rewrite Hp. reflexivity. }
    unfold inUseCount in *. cbn [List.filter length]. rewrite Huse.
    destruct (Runtime.m_isInUse context) eqn:Hbusy; cbn [negb andb] in Hfree.
    + apply IH in Hfree. rewrite length_app in Hfree. cbn [length] in *. lia.
    + destruct (bool_decide_reflect
                  (maxResidentContexts < Z.of_nat (length kept + length (p :: rest))))
        as [Hbig|Hsmall].
      * apply bind_Returned in Hfree as ([] & s1 & Hdel & Hfree).
        inversion Hdel; subst s1. clear Hdel.
        apply IH in Hfree. simpl in Hfree.
        pose proof (inUseCount_delete (Runtime.contexts s) p rest Huse) as Hcount.
        unfold inUseCount in Hcount. rewrite Hcount in Hfree.
        cbn [length] in *. lia.
      * apply IH in Hfree. rewrite length_app in Hfree. cbn [length] in *.
        pose proof (List.filter_length_le (inUse (Runtime.contexts s)) rest). lia.
Qed.

(** X8. When the pool is still there after [Destroy], the destructor has
    trimmed it to [maxResidentContexts] pointers, except that the contexts
    in use all stay: the new length is the larger of the number of
    contexts in use and the smaller of the old length and
    [maxResidentContexts]. *)
Theorem Destroy_pool_size (this : Z) (s s' : Runtime.State) (pool pool' : list Z) :
  Runtime.m_pContextPool s = Some pool ->
  Destroy this s = Returned (tt, s') ->
  Runtime.m_pContextPool s' = Some pool' ->
  Z.of_nat (length pool') =
  Z.max (Z.of_nat (inUseCount (Runtime.contexts s) pool))
        (Z.min (Z.of_nat (length pool)) maxResidentContexts).
Proof.
  intros Hpool Hdestroy Hpool'.
  unfold Runtime.Destroy in Hdestroy.
  apply bind_Returned in Hdestroy as (s0 & s1 & Hget & Hdestroy).
  inversion Hget; subst s0 s1. clear Hget.
  apply bind_Returned in Hdestroy as (compiler & s1 & Hderef & Hdestroy).
  unfold deref in Hderef.
  destruct (Runtime.compilers s !! this) as [c|] eqn:Hthis; [|discriminate].
  inversion Hderef; subst c s1. clear Hderef.
  rewrite Hpool in Hdestroy.
  apply bind_Returned in Hdestroy as (pool0 & s1 & Hderef & Hdestroy).
  inversion Hderef; subst pool0 s1. clear Hderef.
  apply bind_Returned in Hdestroy as (pool1 & s1 & Hfree & Hdestroy).
  apply freeContexts_length in Hfree. simpl in Hfree.
  unfold bind, get, ret, modify, Runtime.call, array_get in Hdestroy. simpl in Hdestroy.
  destruct (decide _); simpl in Hdestroy;
    (destruct (Runtime.m_options compiler !! 0%nat) as [option0|]; [|discriminate]);
    simpl in Hdestroy;
    destruct (option0 =? VkIcdName)%string; simpl in Hdestroy;
    try destruct (bool_decide _); simpl in Hdestroy;
    inversion Hdestroy; subst s'; simpl in Hpool'; inversion Hpool'; subst pool1;
    exact Hfree.
Qed.

(** X9. While a compiler is alive, options with another hash are refused:
    in a consistent state with a live compiler, [ICompiler::Create] with
    options whose hash differs from the hash of that compiler returns
    [ErrorInvalidValue] and a null [*ppCompiler], parses no option and
    changes nothing. *)
Theorem Create_conflict (gfxIp : Runtime.GfxIpVersion) (options : list string)
  (s : Runtime.State) (pCompiler : Z) (compiler : Runtime.Compiler) (optionHash : Hash) :
  consistent s ->
  Runtime.compilers s !! pCompiler = Some compiler ->
  options <> [] ->
  GenerateHashForCompileOptions EnableOuts_ArgStr EnableErrs_ArgStr
    LogFileDbgs_ArgStr LogFileOuts_ArgStr options = Some optionHash ->
  optionHash <> Runtime.m_optionHash compiler ->
  Create gfxIp options s = Returned ((ErrorInvalidValue, None), s).
Proof.
  intros (Hout & Hle & _ & _ & Hopts) Hlive Hne Hhash Hdiff.
  destruct (Hopts _ _ Hlive) as [_ Hsame].
  assert (Hsize : (0 < base.size (Runtime.compilers s))%nat).
  { destruct (base.size (Runtime.compilers s)) eqn:Hsz; [|lia].
    apply map_size_empty_iff in Hsz. rewrite Hsz in Hlive. discriminate. }
  unfold Runtime.Create. destruct options as [|pClient options]; [contradiction|].
  cbv [bind array_get ret deref get].
  change ((pClient :: options) !! 0%nat) with (Some pClient). cbv iota beta.
  rewrite Hhash.
  destruct (decide (Runtime.m_instanceCount s > 0)) as [_|Hno]; [|lia].
  destruct (bool_decide_reflect (optionHash = Runtime.s_optionHash s)) as [Heq|_];
    [congruence|].
  destruct (decide (Runtime.m_outRedirectCount s = 0)) as [Hzero|_]; [lia|].
  destruct (decide (ErrorInvalidValue = Success)); [discriminate|]. reflexivity.
Qed.

End RuntimeFacts.


Section BinaryStreamFacts.

Import BinaryStream.

Lemma valueOf_byteOf (v : Z) : valueOf (byteOf v) = v mod 256.
Proof.
  unfold valueOf, byteOf. rewrite N_ascii_embedding.
  - rewrite Z2N.id; [reflexivity|]. apply Z.mod_pos_bound. lia.
  - pose proof (Z.mod_pos_bound v 256 ltac:(lia)). lia.
Qed.

Lemma length_bytesOf (n : nat) : forall v, length (bytesOf n v) = n.
Proof. induction n as [|n IH]; intros v; simpl; [reflexivity|]. rewrite IH. reflexivity. Qed.

Lemma uintOf_bytesOf (n : nat) :
  forall v, 0 <= v < 256 ^ Z.of_nat n -> uintOf (bytesOf n v) = v.
Proof.
  induction n as [|n IH]; intros v Hv.
  - simpl in *. lia.
  - cbn [bytesOf uintOf]. rewrite valueOf_byteOf, IH.
    + pose proof (Z.div_mod v 256 ltac:(lia)). lia.
    + rewrite Nat2Z.inj_succ, Z.pow_succ_r in Hv by lia.
      split; [apply Z.div_pos; lia|]. apply Z.div_lt_upper_bound; lia.
Qed.

(** Extracting what was inserted gives the value back and leaves the rest
    of the stream. *)
Lemma extract_bytesOf (n : nat) (v : Z) (object : option Z) (rest : list ascii) :
  0 <= v < 256 ^ Z.of_nat n ->
  extract n object (mkIStream (bytesOf n v ++ rest) false) =
    Returned (Some v, mkIStream rest false).
Proof.
  intros Hv. unfold extract, bind, read, ret. simpl.
  rewrite length_app, length_bytesOf.
  destruct (decide (n <= n + length rest)%nat) as [_|Hno]; [|lia].
  rewrite (take_app_length' (bytesOf n v)) by (symmetry; apply length_bytesOf).
  rewrite (drop_app_length' (bytesOf n v)) by (symmetry; apply length_bytesOf).
  simpl. rewrite uintOf_bytesOf by exact Hv. reflexivity.
Qed.

Lemma fold_insert_items {A : Type} (encode : A -> list ascii) (l : list A) :
  forall out : OStream,
    fold_left (fun stream item => stream ++ encode item) l out =
    out ++ concat (map encode l).
Proof.
  induction l as [|x l IH]; intros out; simpl.
  - rewrite app_nil_r. reflexivity.
  - rewrite IH, <- app_assoc. reflexivity.
Qed.

Lemma extract_set_loop (l : list Z) :
  forall (from : nat) (set : gset Z) (rest : list ascii),
    (forall x, x ∈ l -> 0 <= x < 2 ^ 64) ->
    for_loop (length l) from
      (fun _ set =>
         let* item := extract 8 None in
         let* item := valueOfLocal item in
         ret (Continue ({[ item ]} ∪ set)))
      set (mkIStream (concat (map (bytesOf 8) l) ++ rest) false) =
    Returned (list_to_set l ∪ set, mkIStream rest false).
Proof.
  induction l as [|x l IH]; intros from set rest Hrange.
  - simpl. unfold ret. rewrite (left_id_L ∅ (∪)). reflexivity.
  - cbn [length for_loop map concat]. rewrite <- app_assoc.
    unfold bind at 1. unfold bind at 1.
    rewrite extract_bytesOf by (apply Hrange; left).
    unfold bind at 1, valueOfLocal, ret at 1. unfold ret at 1.
    rewrite IH by (intros y Hy; apply Hrange; right; exact Hy).
    rewrite list_to_set_cons, (assoc_L (∪)), (comm_L (∪) (list_to_set l)). reflexivity.
Qed.


Lemma fold_insert_pairs (l : list (Z * Z)) :
  forall out : OStream,
    fold_left (fun stream item => insert 4 (snd item) (insert 4 (fst item) stream)) l out =
    out ++ concat (List.map (fun kv => bytesOf 4 (fst kv) ++ bytesOf 4 (snd kv)) l).
Proof.
  induction l as [|x l IH]; intros out; cbn [fold_left List.map concat].
  - rewrite app_nil_r. reflexivity.
  - rewrite IH. unfold insert. rewrite <- !app_assoc. reflexivity.
Qed.

Lemma extract_map_loop (l : list (Z * Z)) :
  forall (from : nat) (map : gmap Z Z) (rest : list ascii),
    (forall kv, kv ∈ l -> 0 <= fst kv < 2 ^ 32 /\ 0 <= snd kv < 2 ^ 32) ->
    for_loop (length l) from
      (fun _ map =>
         let* first := extract 4 None in
         let* second := extract 4 None in
         let* first := valueOfLocal first in
         let* second := valueOfLocal second in
         ret (Continue (<[first := second]> map)))
      map
      (mkIStream (concat (List.map (fun kv => bytesOf 4 (fst kv) ++ bytesOf 4 (snd kv)) l) ++ rest)
         false) =
    Returned (fold_left (fun map kv => <[fst kv := snd kv]> map) l map, mkIStream rest false).
Proof.
  induction l as [|[k v] l IH]; intros from map rest Hrange.
  - reflexivity.
  - cbn [length for_loop List.map concat fold_left fst snd]. rewrite <- !app_assoc.
    destruct (Hrange (k, v) ltac:(left)) as [Hk Hv]. simpl in Hk, Hv.
    unfold bind at 1. unfold bind at 1.
    rewrite extract_bytesOf by exact Hk.
    unfold bind at 1. rewrite extract_bytesOf by exact Hv.
    unfold bind at 1, valueOfLocal, ret at 1. unfold bind at 1, ret at 1. unfold ret at 1.
    rewrite IH by (intros kv Hkv; apply Hrange; right; exact Hkv).
    reflexivity.
Qed.

Lemma fold_insert_union (l : list (Z * Z)) :
  forall map : gmap Z Z,
    NoDup l.*1 ->
    fold_left (fun map kv => <[fst kv := snd kv]> map) l map = list_to_map l ∪ map.
Proof.
  induction l as [|[k v] l IH]; intros map Hnodup.
  - simpl. rewrite (left_id_L ∅ (∪)). reflexivity.
  - rewrite fmap_cons in Hnodup. apply NoDup_cons in Hnodup as [Hk Hnodup].
    cbn [fold_left fst snd] in *. rewrite list_to_map_cons, IH by exact Hnodup.
    rewrite <- insert_union_l. symmetry. apply insert_union_r.
    apply not_elem_of_list_to_map_1. exact Hk.
Qed.

Section Containers.

Variable iteration : gset Z -> list Z.
Hypothesis iteration_once : forall set, iteration set ≡ₚ elements set.

(** X10. A set written with [operator <<] reads back with [operator >>]:
    for a set of fewer than 2^32 items of 64 bits, in whatever order the
    [unordered_set] is iterated (each item once), extracting from the bytes
    written adds exactly the items of the set to the target, and leaves
    what follows them in the stream. *)
Theorem extract_set_insert_set (set target : gset Z) (rest : list ascii) :
  (forall x, x ∈ set -> 0 <= x < 2 ^ 64) ->
  Z.of_nat (base.size set) < 2 ^ 32 ->
  extract_set target (mkIStream (insert_set iteration set [] ++ rest) false) =
    Returned (set ∪ target, mkIStream rest false).
Proof.
  intros Hrange Hsize.
  assert (Hwrap : wrap32 (Z.of_nat (base.size set)) = Z.of_nat (base.size set)).
  { unfold wrap32. apply Z.mod_small. lia. }
  unfold extract_set, insert_set, insert. rewrite Hwrap, fold_insert_items.
  rewrite app_nil_l, <- app_assoc.
  unfold bind at 1. rewrite extract_bytesOf by (change (256 ^ Z.of_nat 4) with (2 ^ 32); lia).
  unfold bind at 1, valueOfLocal, ret at 1.
  rewrite Nat2Z.id.
  replace (base.size set) with (length (iteration set)).
  2:{ rewrite iteration_once. reflexivity. }
  rewrite extract_set_loop.
  - f_equal. f_equal. f_equal.
    rewrite iteration_once. apply list_to_set_elements_L.
  - intros x Hx. apply Hrange. rewrite iteration_once in Hx. apply elem_of_elements, Hx.
Qed.

Lemma items_permutation (map : gmap Z Z) : items map ≡ₚ map_to_list map.
Proof. unfold items. apply merge_sort_Permutation. Qed.

(** X11. A map written with [operator <<] reads back with [operator >>]:
    for a map of fewer than 2^32 entries of 32-bit keys and values,
    extracting from the bytes written gives the target every entry of the
    map (over an entry the target had for the same key), and leaves what
    follows them in the stream. *)
Theorem extract_map_insert_map (map target : gmap Z Z) (rest : list ascii) :
  (forall k v, map !! k = Some v -> 0 <= k < 2 ^ 32 /\ 0 <= v < 2 ^ 32) ->
  Z.of_nat (base.size map) < 2 ^ 32 ->
  extract_map target (mkIStream (insert_map map [] ++ rest) false) =
    Returned (map ∪ target, mkIStream rest false).
Proof.
  intros Hrange Hsize.
  assert (Hwrap : wrap32 (Z.of_nat (base.size map)) = Z.of_nat (base.size map)).
  { unfold wrap32. apply Z.mod_small. lia. }
  unfold extract_map, insert_map. rewrite Hwrap, fold_insert_pairs.
  unfold insert. rewrite app_nil_l, <- app_assoc.
  unfold bind at 1. rewrite extract_bytesOf by (change (256 ^ Z.of_nat 4) with (2 ^ 32); lia).
  unfold bind at 1, valueOfLocal, ret at 1.
  rewrite Nat2Z.id.
  replace (base.size map) with (length (items map)).
  2:{ rewrite items_permutation. apply length_map_to_list. }
  rewrite extract_map_loop.
  - f_equal. f_equal. rewrite fold_insert_union.
    + f_equal. rewrite (list_to_map_proper (items map) (map_to_list map)).
      * apply list_to_map_to_list.
      * rewrite items_permutation. apply NoDup_fst_map_to_list.
      * apply items_permutation.
    + rewrite items_permutation. apply NoDup_fst_map_to_list.
  - intros [k v] Hkv. simpl. apply (Hrange k v).
    rewrite items_permutation in Hkv. apply elem_of_map_to_list, Hkv.
Qed.

End Containers.

End BinaryStreamFacts.


Section StageHashFacts.

Import StageHash.

Context {metroHash : MetroHash64}.
Variables VertexInputState PipelineState : Type.
Variable UpdateHashForPipelineShaderInfo :
  ShaderStage -> PipelineShaderInfo -> bool -> Hasher -> Hasher.
Variable UpdateHashForVertexInputState : VertexInputState -> Hasher -> Hasher.
Variable UpdateHashForFragmentState : PipelineState -> Hasher -> Hasher.
Variable UpdateHashForNonFragmentState : PipelineState -> bool -> Hasher -> Hasher.
Variable Compact64 : Hash -> Z.
Variable version : Z.

Local Notation hashStages :=
  (hashStages VertexInputState PipelineState UpdateHashForPipelineShaderInfo
     UpdateHashForVertexInputState Compact64).
Local Notation stageHashCode :=
  (stageHashCode VertexInputState PipelineState UpdateHashForPipelineShaderInfo
     UpdateHashForVertexInputState Compact64).
Local Notation BuildShaderCacheHash :=
  (BuildShaderCacheHash VertexInputState PipelineState UpdateHashForPipelineShaderInfo
     UpdateHashForVertexInputState UpdateHashForFragmentState UpdateHashForNonFragmentState
     Compact64 version).

Lemma hashStages_app (pContext : HashContext VertexInputState PipelineState)
  (stageMask : Z) (stageHashes : list string) (stages1 stages2 : list ShaderStage) :
  forall hashers,
    hashStages pContext stageMask stageHashes (stages1 ++ stages2) hashers =
    match hashStages pContext stageMask stageHashes stages1 hashers with
    | Returned hashers' => hashStages pContext stageMask stageHashes stages2 hashers'
    | Fault => Fault
    end.
Proof.
  induction stages1 as [|stage stages1 IH]; intros [fragmentHasher nonFragmentHasher];
    cbn [app StageHash.hashStages]; [reflexivity|].
  destruct (_ =? 0); [apply IH|].
  destruct (stageHashes !! _); [|reflexivity].
  destruct (decide (stage = ShaderStageFragment)); apply IH.
Qed.

(** The stages before the fragment stage leave the fragment hasher
    alone. *)
Lemma hashStages_fragmentHasher (pContext : HashContext VertexInputState PipelineState)
  (stageMask : Z) (stageHashes : list string) (stages : list ShaderStage) :
  ShaderStageFragment ∉ stages ->
  forall fragmentHasher nonFragmentHasher fragmentHasher' nonFragmentHasher',
    hashStages pContext stageMask stageHashes stages (fragmentHasher, nonFragmentHasher) =
      Returned (fragmentHasher', nonFragmentHasher') ->
    fragmentHasher' = fragmentHasher.
Proof.
  induction stages as [|stage stages IH]; intros Hnotin fh nfh fh' nfh' Hrun;
    cbn [StageHash.hashStages] in Hrun.
  - inversion Hrun. reflexivity.
  - apply not_elem_of_cons in Hnotin as [Hne Hnotin].
    destruct (_ =? 0); [eapply IH; eassumption|].
    destruct (stageHashes !! _); [|discriminate].
    destruct (decide (stage = ShaderStageFragment)); [congruence|].
    eapply IH; eassumption.
Qed.

(** X12. The fragment hash depends on the fragment stage alone: two runs of
    [BuildShaderCacheHash], both on a stage mask with the fragment stage,
    that agree on the fragment shader info, the device index, the pipeline
    options, the fragment state and the stage hash of the fragment stage
    return the same fragment hash, whatever the other stages, their stage
    hashes and the vertex input are. *)
Theorem BuildShaderCacheHash_fragment_hash
  (pContext1 pContext2 : HashContext VertexInputState PipelineState)
  (stageMask1 stageMask2 : Z) (stageHashes1 stageHashes2 : list string)
  (pFragmentHash1 pNonFragmentHash1 pFragmentHash2 pNonFragmentHash2 : Hash)
  (hashes1 hashes2 : Hash * Hash) :
  Z.land stageMask1 (ShaderStageToMask ShaderStageFragment) <> 0 ->
  Z.land stageMask2 (ShaderStageToMask ShaderStageFragment) <> 0 ->
  GetPipelineShaderInfo _ _ pContext1 ShaderStageFragment =
    GetPipelineShaderInfo _ _ pContext2 ShaderStageFragment ->
  deviceIndex _ _ pContext1 = deviceIndex _ _ pContext2 ->
  GetPipelineOptions _ _ pContext1 = GetPipelineOptions _ _ pContext2 ->
  UpdateHashForFragmentState (GetPipelineBuildInfo _ _ pContext1) =
    UpdateHashForFragmentState (GetPipelineBuildInfo _ _ pContext2) ->
  stageHashes1 !! 4%nat = stageHashes2 !! 4%nat ->
  BuildShaderCacheHash pContext1 stageMask1 stageHashes1 pFragmentHash1 pNonFragmentHash1 =
    Returned hashes1 ->
  BuildShaderCacheHash pContext2 stageMask2 stageHashes2 pFragmentHash2 pNonFragmentHash2 =
    Returned hashes2 ->
  fst hashes1 = fst hashes2.
Proof.
  intros Hmask1 Hmask2 Hshader Hdevice Hoptions Hstate Hhash Hrun1 Hrun2.
  unfold StageHash.BuildShaderCacheHash in Hrun1, Hrun2.
  change graphicsStages
    with ([ShaderStageVertex; ShaderStageTessControl; ShaderStageTessEval;
           ShaderStageGeometry] ++ [ShaderStageFragment]) in Hrun1, Hrun2.
  rewrite hashStages_app in Hrun1, Hrun2.
  destruct (hashStages pContext1 _ _ [_; _; _; _] _) as [[fh1 nfh1]|] eqn:Hbefore1;
    [|discriminate].
  destruct (hashStages pContext2 _ _ [_; _; _; _] _) as [[fh2 nfh2]|] eqn:Hbefore2;
    [|discriminate].
  apply hashStages_fragmentHasher in Hbefore1, Hbefore2.
  2,3: intros Hin; repeat (apply elem_of_cons in Hin as [Hin|Hin]; [discriminate|]);
       apply elem_of_nil in Hin; contradiction.
  subst fh1 fh2.
  cbn [StageHash.hashStages] in Hrun1, Hrun2.
  apply Z.eqb_neq in Hmask1, Hmask2.
  unfold nonzero in *. rewrite Hmask1 in Hrun1. rewrite Hmask2 in Hrun2.
  change (Z.to_nat (ShaderStage_index ShaderStageFragment)) with 4%nat in Hrun1, Hrun2.
  rewrite <- Hhash in Hrun2.
  destruct (stageHashes1 !! 4%nat) as [stageHash|]; [|discriminate].
  destruct (decide (ShaderStageFragment = ShaderStageFragment)); [|contradiction].
  cbn [negb] in Hrun1, Hrun2.
  inversion Hrun1; subst hashes1. inversion Hrun2; subst hashes2. cbn [fst].
  unfold StageHash.stageHashCode. rewrite Hshader, Hdevice, Hoptions, Hstate.
  reflexivity.
Qed.


(** Two runs of the loop over stages on which the two pipelines agree feed
    the non-fragment hasher alike. *)
Lemma hashStages_nonFragmentHasher
  (pContext1 pContext2 : HashContext VertexInputState PipelineState)
  (stageMask1 stageMask2 : Z) (stageHashes1 stageHashes2 : list string)
  (stages : list ShaderStage) :
  (forall stage, stage ∈ stages ->
     stage <> ShaderStageFragment /\
     Z.land stageMask1 (ShaderStageToMask stage) = Z.land stageMask2 (ShaderStageToMask stage) /\
     stageHashes1 !! Z.to_nat (ShaderStage_index stage) =
       stageHashes2 !! Z.to_nat (ShaderStage_index stage) /\
     GetPipelineShaderInfo _ _ pContext1 stage = GetPipelineShaderInfo _ _ pContext2 stage) ->
  deviceIndex _ _ pContext1 = deviceIndex _ _ pContext2 ->
  pVertexInput _ _ pContext1 = pVertexInput _ _ pContext2 ->
  forall fh1 fh2 nfh fh1' fh2' nfh1' nfh2',
    hashStages pContext1 stageMask1 stageHashes1 stages (fh1, nfh) = Returned (fh1', nfh1') ->
    hashStages pContext2 stageMask2 stageHashes2 stages (fh2, nfh) = Returned (fh2', nfh2') ->
    nfh1' = nfh2'.
Proof.
  intros Hagree Hdevice Hvertex.
  induction stages as [|stage stages IH]; intros fh1 fh2 nfh fh1' fh2' nfh1' nfh2' Hrun1 Hrun2;
    cbn [StageHash.hashStages] in Hrun1, Hrun2.
  - inversion Hrun1. inversion Hrun2. congruence.
  - destruct (Hagree stage ltac:(left)) as (Hne & Hbit & Hhash & Hshader).
    assert (Hrest : forall stage', stage' ∈ stages ->
              stage' <> ShaderStageFragment /\
              Z.land stageMask1 (ShaderStageToMask stage') =
                Z.land stageMask2 (ShaderStageToMask stage') /\
              stageHashes1 !! Z.to_nat (ShaderStage_index stage') =
                stageHashes2 !! Z.to_nat (ShaderStage_index stage') /\
              GetPipelineShaderInfo _ _ pContext1 stage' =
                GetPipelineShaderInfo _ _ pContext2 stage').
    { intros stage' Hin. apply Hagree. right. exact Hin. }
    rewrite <- Hbit, <- Hhash in Hrun2.
    destruct (_ =? 0); [eapply (IH Hrest); eassumption|].
    destruct (stageHashes1 !! _) as [stageHash|]; [|discriminate].
    destruct (decide (stage = ShaderStageFragment)); [contradiction|].
    unfold StageHash.stageHashCode in Hrun1, Hrun2.
    rewrite <- Hshader, <- Hdevice, <- Hvertex in Hrun2.
    eapply (IH Hrest); eassumption.
Qed.

Lemma land_stage_bit (stageMask : Z) (stage : ShaderStage) :
  stage ∈ [ShaderStageVertex; ShaderStageTessControl; ShaderStageTessEval;
           ShaderStageGeometry] ->
  Z.land stageMask (ShaderStageToMask stage) =
  Z.land (Z.land stageMask (not32 (ShaderStageToMask ShaderStageFragment)))
         (ShaderStageToMask stage).
Proof.
  intros Hin. rewrite <- Z.land_assoc. f_equal.
  repeat (apply elem_of_cons in Hin as [->|Hin]; [reflexivity|]).
  apply elem_of_nil in Hin. contradiction.
Qed.

(** X13. The non-fragment hash does not depend on the fragment stage: two
    runs of [BuildShaderCacheHash] that agree on the non-fragment stages of
    the mask, the shader info of the stages before the fragment stage, the
    device index, the vertex input, the non-fragment state and the first
    four stage hashes return the same non-fragment hash, whatever the
    fragment shader, its stage hash and the pipeline options are. *)
Theorem BuildShaderCacheHash_non_fragment_hash
  (pContext1 pContext2 : HashContext VertexInputState PipelineState)
  (stageMask1 stageMask2 : Z) (stageHashes1 stageHashes2 : list string)
  (pFragmentHash1 pFragmentHash2 pNonFragmentHash : Hash) (hashes1 hashes2 : Hash * Hash) :
  Z.land stageMask1 (not32 (ShaderStageToMask ShaderStageFragment)) =
    Z.land stageMask2 (not32 (ShaderStageToMask ShaderStageFragment)) ->
  (forall stage, stage <> ShaderStageFragment ->
     GetPipelineShaderInfo _ _ pContext1 stage = GetPipelineShaderInfo _ _ pContext2 stage) ->
  deviceIndex _ _ pContext1 = deviceIndex _ _ pContext2 ->
  pVertexInput _ _ pContext1 = pVertexInput _ _ pContext2 ->
  UpdateHashForNonFragmentState (GetPipelineBuildInfo _ _ pContext1) =
    UpdateHashForNonFragmentState (GetPipelineBuildInfo _ _ pContext2) ->
  (forall i, (i < 4)%nat -> stageHashes1 !! i = stageHashes2 !! i) ->
  BuildShaderCacheHash pContext1 stageMask1 stageHashes1 pFragmentHash1 pNonFragmentHash =
    Returned hashes1 ->
  BuildShaderCacheHash pContext2 stageMask2 stageHashes2 pFragmentHash2 pNonFragmentHash =
    Returned hashes2 ->
  snd hashes1 = snd hashes2.
Proof.
  intros Hmask Hshader Hdevice Hvertex Hstate Hhash Hrun1 Hrun2.
  unfold StageHash.BuildShaderCacheHash in Hrun1, Hrun2.
  change graphicsStages
    with ([ShaderStageVertex; ShaderStageTessControl; ShaderStageTessEval;
           ShaderStageGeometry] ++ [ShaderStageFragment]) in Hrun1, Hrun2.
  rewrite hashStages_app in Hrun1, Hrun2.
  destruct (hashStages pContext1 _ _ [_; _; _; _] _) as [[fh1 nfh1]|] eqn:Hbefore1;
    [|discriminate].
  destruct (hashStages pContext2 _ _ [_; _; _; _] _) as [[fh2 nfh2]|] eqn:Hbefore2;
    [|discriminate].
  assert (nfh1 = nfh2) as <-.
  { eapply (hashStages_nonFragmentHasher pContext1 pContext2 stageMask1 stageMask2
              stageHashes1 stageHashes2); [|exact Hdevice|exact Hvertex|exact Hbefore1|exact Hbefore2].
    intros stage Hin. split; [|split; [|split]].
    - intros ->. repeat (apply elem_of_cons in Hin as [Hin|Hin]; [discriminate|]).
      apply elem_of_nil in Hin. contradiction.
    - rewrite (land_stage_bit stageMask1), (land_stage_bit stageMask2) by exact Hin.
      rewrite Hmask. reflexivity.
    - apply Hhash.
      repeat (apply elem_of_cons in Hin as [->|Hin]; [simpl; lia|]).
      apply elem_of_nil in Hin. contradiction.
    - apply Hshader. intros ->.
      repeat (apply elem_of_cons in Hin as [Hin|Hin]; [discriminate|]).
      apply elem_of_nil in Hin. contradiction. }
  cbn [StageHash.hashStages] in Hrun1, Hrun2.
  rewrite Hmask, Hstate in Hrun1.
  destruct (_ =? 0) in Hrun1; destruct (_ =? 0) in Hrun2;
    repeat match goal with
           | H : context [stageHashes1 !! ?i] |- _ => destruct (stageHashes1 !! i)
           | H : context [stageHashes2 !! ?i] |- _ => destruct (stageHashes2 !! i)
           end; try discriminate;
    repeat match goal with
           | H : context [decide ?P] |- _ => destruct (decide P); [|contradiction]
           end;
    inversion Hrun1; inversion Hrun2; reflexivity.
Qed.

End StageHashFacts.


Section CacheLayerFacts.

Context {C : Type} {shaderCache : ShaderCacheClass C}.
Variable cl : CommandLine.

(** The loop of [LookUpShaderCaches] with one cache in play: one turn, on
    the internal cache. *)
Lemma LookUpShaderCaches_one_cache (pCacheHash : Hash) (pElfBin : BinaryData)
  (h0 h1 : CacheEntryHandle) (w : World C) :
  exists s hEntry w' evs,
    for_loop 1 0 (LookUpShaderCaches_body pCacheHash [Some InternalCache; None])
      (mkLookUp New Success pElfBin [h0; h1]) w = Returned (s, w') /\
    lu_hEntry s = [hEntry; h1] /\
    appCache w' = appCache w /\
    trace w' = trace w ++ evs /\
    Forall (fun e => cacheOf e = InternalCache) evs /\
    lookedUp evs = [InternalCache].
Proof.
  cbn [for_loop]. unfold LookUpShaderCaches_body, bind, array_get, array_set,
    call_FindShader, call_RetrieveShader, ret. simpl.
  destruct (FindShader (internalCache w) pCacheHash true) as [[state0 hEntry0] int1]. simpl.
  destruct (decide (state0 = Ready)); simpl.
  - destruct (RetrieveShader int1 hEntry0 pElfBin) as [[result0 blob0] int2]. simpl.
    destruct (decide (result0 = ErrorUnknown)); simpl.
    + eexists _, _, _, _. split; [reflexivity|]. simpl.
      split; [reflexivity|]. split; [reflexivity|]. rewrite <- app_assoc.
      split; [reflexivity|]. split; [repeat constructor|reflexivity].
    + eexists _, _, _, _. split; [reflexivity|]. simpl.
      split; [reflexivity|]. split; [reflexivity|]. rewrite <- app_assoc.
      split; [reflexivity|]. split; [repeat constructor|reflexivity].
  - eexists _, _, _, _. split; [reflexivity|]. simpl.
    split; [reflexivity|]. split; [reflexivity|].
    split; [reflexivity|]. split; [repeat constructor|reflexivity].
Qed.

(** With no application cache, or with the internal cache forced, the
    look-up runs its loop once over the internal cache. *)
Lemma LookUpShaderCaches_one_turn (pAppPipelineCache : option CacheRef) (pCacheHash : Hash)
  (pElfBin : BinaryData) (p0 p1 : option CacheRef) (h0 h1 : CacheEntryHandle) (w : World C) :
  pAppPipelineCache = None \/ ShaderCacheMode cl = ShaderCacheForceInternalCacheOnDisk ->
  LookUpShaderCaches cl pAppPipelineCache pCacheHash pElfBin [p0; p1] [h0; h1] w =
    (let* s := for_loop 1 0 (LookUpShaderCaches_body pCacheHash [Some InternalCache; None])
                 (mkLookUp New Success pElfBin [h0; h1]) in
     ret (lu_cacheEntryState s, lu_elfBin s, [Some InternalCache; None], lu_hEntry s)) w.
Proof.
  intros Hone. unfold LookUpShaderCaches.
  destruct pAppPipelineCache as [app|];
    destruct (decide (ShaderCacheMode cl = ShaderCacheForceInternalCacheOnDisk)) as [Hmode|Hmode];
    try (destruct Hone; [discriminate|contradiction]); reflexivity.
Qed.

(** X14. With no application cache, or with the internal cache forced by
    [-shader-cache-mode], [LookUpShaderCaches] sets the cache pointers to
    the internal cache and null, makes one [FindShader] call, on the
    internal cache, and calls nothing on the application cache; the second
    handle stays as it was. *)
Theorem LookUpShaderCaches_internal_only (pAppPipelineCache : option CacheRef)
  (pCacheHash : Hash) (pElfBin : BinaryData) (ppShaderCache : list (option CacheRef))
  (phEntry : list CacheEntryHandle) (w : World C) :
  pAppPipelineCache = None \/ ShaderCacheMode cl = ShaderCacheForceInternalCacheOnDisk ->
  length ppShaderCache = 2%nat ->
  length phEntry = 2%nat ->
  exists st elf hEntry w' evs,
    LookUpShaderCaches cl pAppPipelineCache pCacheHash pElfBin ppShaderCache phEntry w =
      Returned ((st, elf, [Some InternalCache; None], [hEntry; default None (phEntry !! 1%nat)]),
                w') /\
    appCache w' = appCache w /\
    trace w' = trace w ++ evs /\
    Forall (fun e => cacheOf e = InternalCache) evs /\
    lookedUp evs = [InternalCache].
Proof.
  intros Hone Hpp Hph.
  destruct ppShaderCache as [|p0 [|p1 [|]]]; try discriminate.
  destruct phEntry as [|h0 [|h1 [|]]]; try discriminate.
  destruct (LookUpShaderCaches_one_cache pCacheHash pElfBin h0 h1 w)
    as (s & hEntry & w' & evs & Hrun & Hh & Happ & Htrace & Hint & Hlooked).
  exists (lu_cacheEntryState s), (lu_elfBin s), hEntry, w', evs.
  split; [|auto].
  rewrite LookUpShaderCaches_one_turn by exact Hone.
  unfold bind. rewrite Hrun. unfold ret. rewrite Hh. reflexivity.
Qed.

(** After a look-up that started from null handles, a handle that is not
    null sits beside a cache pointer that is not null. *)
Lemma LookUpShaderCaches_handles (pAppPipelineCache : option CacheRef) (pCacheHash : Hash)
  (pElfBin : BinaryData) (w w' : World C) (st : ShaderEntryState) (elf : BinaryData)
  (pp : list (option CacheRef)) (ph : list CacheEntryHandle) :
  LookUpShaderCaches cl pAppPipelineCache pCacheHash pElfBin [None; None] [None; None] w =
    Returned ((st, elf, pp, ph), w') ->
  exists c0 p1 h0 h1,
    pp = [Some c0; p1] /\ ph = [h0; h1] /\ (p1 = None -> h1 = None).
Proof.
  intros Hlook.
  destruct (decide (pAppPipelineCache = None \/
                    ShaderCacheMode cl = ShaderCacheForceInternalCacheOnDisk)) as [Hone|Htwo].
  - destruct (LookUpShaderCaches_one_cache pCacheHash pElfBin None None w)
      as (s & hEntry & w1 & evs & Hrun & Hh & _).
    rewrite LookUpShaderCaches_one_turn in Hlook by exact Hone.
    unfold bind in Hlook. rewrite Hrun in Hlook. unfold ret in Hlook. rewrite Hh in Hlook.
    inversion Hlook; subst.
    exists InternalCache, None, hEntry, None. auto.
  - destruct pAppPipelineCache as [app|]; [|exfalso; auto].
    unfold LookUpShaderCaches in Hlook.
    destruct (decide (ShaderCacheMode cl = ShaderCacheForceInternalCacheOnDisk));
      [exfalso; auto|].
    unfold bind, array_set, ret in Hlook. simpl in Hlook.
    unfold LookUpShaderCaches_body, bind, array_get, array_set, call_FindShader,
      call_RetrieveShader, call_InsertShader, ret in Hlook. simpl in Hlook.
    repeat match type of Hlook with
           | context [FindShader ?c ?h ?b] =>
               destruct (FindShader c h b) as [[? ?] ?]; simpl in Hlook
           | context [RetrieveShader ?c ?h ?b] =>
               destruct (RetrieveShader c h b) as [[? ?] ?]; simpl in Hlook
           | context [decide ?P] => destruct (decide P); simpl in Hlook
           | context [match ?h with Some _ => _ | None => _ end] =>
               destruct h; simpl in Hlook
           end;
      inversion Hlook; subst; eexists _, _, _, _;
      (split; [reflexivity|]; split; [reflexivity|]; discriminate).
Qed.

(** X15. [UpdateShaderCaches] is safe after [LookUpShaderCaches]: with the
    cache pointers and handles that a look-up from null handles returned,
    the update over [ShaderCacheCount] caches dereferences no null cache
    pointer, and makes one call for each handle that is not null: each of
    them is [InsertShader] for an insert, and each of them is
    [ResetShader] otherwise. *)
Theorem UpdateShaderCaches_after_LookUpShaderCaches (pAppPipelineCache : option CacheRef)
  (pCacheHash : Hash) (pElfBin : BinaryData) (w w' : World C) (st : ShaderEntryState)
  (elf : BinaryData) (pp : list (option CacheRef)) (ph : list CacheEntryHandle)
  (bInsert : bool) (pElfBin' : BinaryData) :
  LookUpShaderCaches cl pAppPipelineCache pCacheHash pElfBin [None; None] [None; None] w =
    Returned ((st, elf, pp, ph), w') ->
  exists w'' evs,
    UpdateShaderCaches bInsert pElfBin' pp ph ShaderCacheCount w' = Returned (tt, w'') /\
    trace w'' = trace w' ++ evs /\
    length evs = length (List.filter (fun h => bool_decide (h <> None)) ph) /\
    Forall (fun e => isInsertShader e = bInsert /\ isResetShader e = negb bInsert) evs.
Proof.
  intros Hlook.
  apply LookUpShaderCaches_handles in Hlook as (c0 & p1 & h0 & h1 & -> & -> & Hnull).
  unfold UpdateShaderCaches, ShaderCacheCount. cbn [for_loop].
  unfold UpdateShaderCaches_body, bind, array_get, ret, call_InsertShader, call_ResetShader.
  simpl.
  destruct h0 as [h0|], h1 as [h1|], p1 as [[|]|], c0, bInsert; simpl;
    try (specialize (Hnull eq_refl); discriminate);
    eexists _, _; (split; [reflexivity|]); simpl; rewrite <- ?app_assoc;
    (split; [try reflexivity; rewrite app_nil_r; reflexivity|]);
    (split; [reflexivity|repeat constructor]).
Qed.

End CacheLayerFacts.


Section CheckMaskFacts.

Context {C : Type} {shaderCache : ShaderCacheClass C}.
Context {elfLibrary : ElfLibrary} {collaborators : Collaborators C}.
Variable cl : CommandLine.
Variable version : Z.

Lemma land_land_absorb (m a : Z) : Z.land (Z.land m a) m = Z.land m a.
Proof. rewrite (Z.land_comm m a), <- Z.land_assoc, Z.land_diag. reflexivity. Qed.

(** X16. [Check] only removes stages, and it removes them by group: the
    mask it returns is a subset of the mask it was given, and is that
    mask, its fragment bit alone, its other bits, or empty. *)
Theorem Check_removes_stage_groups (m_pContext : Context) (pModule : Module) (stageMask : Z)
  (stageHashes : list string) (w w' : World C) (stageMask' : Z) :
  Check cl version m_pContext pModule stageMask stageHashes w = Returned (stageMask', w') ->
  Z.land stageMask' stageMask = stageMask' /\
  (stageMask' = stageMask \/
   stageMask' = Z.land stageMask (ShaderStageToMask ShaderStageFragment) \/
   stageMask' = Z.land stageMask (not32 (ShaderStageToMask ShaderStageFragment)) \/
   stageMask' = 0).
Proof.
  unfold Check. intros H.
  apply bind_Returned in H as ([fragmentHash nonFragmentHash] & w0 & _ & H).
  destruct (globalConstantUsedOutsideFragment (globals pModule)).
  - unfold ret in H. inversion H; subst. split; [apply Z.land_diag|auto].
  - apply bind_Returned in H as (? & w1 & _ & H).
    apply bind_Returned in H as (? & w2 & _ & H).
    apply bind_Returned in H as (k & w3 & _ & H).
    unfold ret in H. inversion H; subst; clear H.
    destruct (decide (m_nonFragmentCacheEntryState k <> Compiling)),
             (decide (m_fragmentCacheEntryState k <> Compiling)).
    + split.
      * rewrite <- Z.land_assoc, (Z.land_comm _ stageMask), Z.land_assoc, land_land_absorb.
        reflexivity.
      * right; right; right. rewrite <- Z.land_assoc.
        change (Z.land (ShaderStageToMask ShaderStageFragment) (not32 _)) with 0.
        apply Z.land_0_r.
    + split; [apply land_land_absorb|auto].
    + split; [apply land_land_absorb|auto].
    + split; [apply Z.land_diag|auto].
Qed.

End CheckMaskFacts.


Section FailedCompileFacts.

Context {C : Type} {shaderCache : ShaderCacheClass C}.
Context {elfLibrary : ElfLibrary}.
Variable version : Z.

Lemma onlyResets_ret {A : Type} (a : A) : onlyResets (C := C) (ret a).
Proof.
  intros w a' w' H. inversion H; subst. exists []. rewrite app_nil_r. auto.
Qed.

Lemma onlyResets_bind {A B : Type} (m : M (World C) A) (k : A -> M (World C) B) :
  onlyResets m -> (forall a, onlyResets (C := C) (k a)) -> onlyResets (C := C) (bind m k).
Proof.
  intros Hm Hk w b w' H. apply bind_Returned in H as (a & w1 & H1 & H2).
  apply Hm in H1 as (evs1 & E1 & F1). apply Hk in H2 as (evs2 & E2 & F2).
  exists (evs1 ++ evs2). rewrite E2, E1, app_assoc. split; [reflexivity|].
  apply Forall_app. auto.
Qed.

Lemma onlyResets_call_ResetShader (p : option CacheRef) (h : CacheEntryHandle) :
  onlyResets (C := C) (call_ResetShader p h).
Proof.
  intros w a w' H. destruct p as [[]|]; simpl in H; [| |discriminate];
    inversion H; subst; eexists; (split; [reflexivity|]); repeat constructor.
Qed.

Lemma onlyResets_array_get {A : Type} (arr : list A) (i : nat) :
  onlyResets (C := C) (array_get arr i).
Proof.
  unfold array_get. destruct (arr !! i); [apply onlyResets_ret|]. intros w a w' H. discriminate.
Qed.

Lemma onlyResets_for_loop {A : Type} (body : nat -> A -> M (World C) (LoopStep A)) :
  (forall i a, onlyResets (C := C) (body i a)) ->
  forall count from a, onlyResets (C := C) (for_loop count from body a).
Proof.
  intros Hbody. induction count as [|count IH]; intros from a; simpl.
  - apply onlyResets_ret.
  - apply onlyResets_bind; [apply Hbody|].
    intros [a'|a']; [apply IH|apply onlyResets_ret].
Qed.

Lemma onlyResets_updateStageCache (elf : BinaryData) (pp : list (option CacheRef))
  (ph : list CacheEntryHandle) :
  onlyResets (C := C) (updateStageCache version false elf pp ph).
Proof.
  unfold updateStageCache. destruct (decide (version < 38)).
  - apply onlyResets_for_loop. intros i []. unfold UpdateShaderCaches_body.
    apply onlyResets_bind; [apply onlyResets_array_get|]. intros [h|]; [|apply onlyResets_ret].
    apply onlyResets_bind; [apply onlyResets_array_get|]. intros p.
    apply onlyResets_bind; [apply onlyResets_call_ResetShader|]. intros ?. apply onlyResets_ret.
  - apply onlyResets_call_ResetShader.
Qed.

Lemma onlyResets_call_MergeElfBinary (pContext : Context) (elf1 elf2 : BinaryData) :
  onlyResets (C := C) (call_MergeElfBinary pContext elf1 elf2).
Proof.
  intros w a w' H. unfold call_MergeElfBinary in H.
  destruct (MergeElfBinary pContext elf1 elf2); inversion H; subst.
  exists []. rewrite app_nil_r. auto.
Qed.

(** X17. A failed compile puts nothing in a cache: when the result is not
    [Success], every cache call of [UpdateAndMerge] is a [ResetShader];
    whatever the entry states the check left behind, no [InsertShader] is
    made. *)
Theorem UpdateAndMerge_failure_only_resets (m_pContext : Context) (result : Result)
  (pPipelineElf pPipelineElf' : ElfPackage) (w w' : World C) :
  result <> Success ->
  UpdateAndMerge version m_pContext result pPipelineElf w = Returned (pPipelineElf', w') ->
  exists evs,
    trace w' = trace w ++ evs /\
    Forall (fun e => isResetShader e = true) evs.
Proof.
  intros Hfail. revert w pPipelineElf' w'.
  change (onlyResets (UpdateAndMerge version m_pContext result pPipelineElf)).
  unfold UpdateAndMerge.
  apply onlyResets_bind.
  { intros w a w' H. inversion H; subst. exists []. rewrite app_nil_r. auto. }
  intros k.
  rewrite (bool_decide_eq_false_2 _ Hfail).
  destruct (decide (result = Success)) as [Hs|_]; [contradiction|].
  repeat match goal with
         | |- onlyResets (if ?d then _ else _) => destruct d
         end;
    repeat first
      [ apply onlyResets_ret
      | apply onlyResets_updateStageCache
      | apply onlyResets_call_MergeElfBinary
      | apply onlyResets_bind; [|intros ?]
      | match goal with
        | |- onlyResets (let '(_, _) := ?x in _) => destruct x
        end ].
Qed.

End FailedCompileFacts.


Section SubstringFacts.

Lemma append_cons (c : ascii) (a b : string) :
  (String c a ++ b)%string = String c (a ++ b).
Proof. reflexivity. Qed.

Lemma append_nil_l (b : string) : (EmptyString ++ b)%string = b.
Proof. reflexivity. Qed.

Lemma append_nil_r (a : string) : (a ++ EmptyString)%string = a.
Proof. induction a as [|c a IH]; [reflexivity|]. rewrite append_cons, IH. reflexivity. Qed.

Lemma substring_0_0 (s : string) : String.substring 0 0 s = EmptyString.
Proof. destruct s; reflexivity. Qed.

Lemma substring_app_skip (a s : string) (n m : nat) :
  String.substring (String.length a + n) m (a ++ s) = String.substring n m s.
Proof.
  induction a as [|c a IH]; [reflexivity|]. rewrite append_cons. simpl. exact IH.
Qed.

Lemma substring_app_prefix (b c : string) :
  String.substring 0 (String.length b) (b ++ c) = b.
Proof.
  induction b as [|x b IH]; [apply substring_0_0|]. rewrite append_cons. simpl.
  rewrite IH. reflexivity.
Qed.

Lemma substring_app_middle (a b c : string) :
  String.substring (String.length a) (String.length b) (a ++ b ++ c) = b.
Proof.
  rewrite <- (Nat.add_0_r (String.length a)), substring_app_skip.
  apply substring_app_prefix.
Qed.

Lemma string_app_assoc (a b c : string) : ((a ++ b) ++ c = a ++ b ++ c)%string.
Proof.
  induction a as [|x a IH]; [reflexivity|]. rewrite !append_cons, IH. reflexivity.
Qed.

Lemma string_app_length (a b : string) :
  String.length (a ++ b) = (String.length a + String.length b)%nat.
Proof.
  induction a as [|x a IH]; [reflexivity|]. rewrite append_cons. simpl. rewrite IH.
  reflexivity.
Qed.

End SubstringFacts.

Section ModuleEntryFacts.

Context {C : Type} {collaborators : Collaborators C}.

Lemma lowerEntries_all_lowered (moduleData : ShaderModuleData)
  (entryNames : list ShaderEntryName) :
  forall s, lo_result (lowerEntries moduleData entryNames s) = Success ->
            Forall (fun entryName => is_Some (lowerShaderModuleEntry moduleData entryName))
              entryNames.
Proof.
  induction entryNames as [|entryName rest IH]; intros s H; [constructor|].
  simpl in H. destruct (lowerShaderModuleEntry moduleData entryName) as [[[bc ru] pi]|] eqn:E.
  - constructor; [rewrite E; eauto|]. eapply IH, H.
  - discriminate.
Qed.

Lemma lowerEntries_layout (moduleData : ShaderModuleData) (entryNames : list ShaderEntryName) :
  forall s,
    Forall (fun entryName => is_Some (lowerShaderModuleEntry moduleData entryName)) entryNames ->
    exists news rest,
      lowerEntries moduleData entryNames s =
        mkLower (lo_result s) (lo_moduleBinary s ++ rest)%string (lo_moduleEntries s ++ news) /\
      forall tail,
        Forall2 (located moduleData ((lo_moduleBinary s ++ rest) ++ tail)%string)
          entryNames news.
Proof.
  induction entryNames as [|entryName names IH]; intros s Hall.
  - exists [], EmptyString. simpl. rewrite app_nil_r.
    rewrite append_nil_r.
    split; [destruct s; reflexivity|]. constructor.
  - inversion Hall as [|? ? [[[bc ru] pi] E] Hrest]; subst.
    simpl. rewrite E.
    match goal with
    | |- context [lowerEntries moduleData names ?s1] =>
        destruct (IH s1 Hrest) as (news & rest & Hrun & Hloc)
    end.
    cbn [lo_result lo_moduleBinary lo_moduleEntries] in Hrun, Hloc.
    eexists (_ :: news), ((bc ++ ru) ++ rest)%string.
    split.
    + rewrite Hrun. f_equal.
      * rewrite !string_app_assoc. reflexivity.
      * rewrite <- app_assoc. reflexivity.
    + intros tail. constructor.
      * exists bc, ru, pi. split; [exact E|]. split; [reflexivity|]. split; [reflexivity|].
        unfold entryBitcode, entryResUsage. cbn [entryOffset entrySize resUsageSize passIndex].
        rewrite <- Nat2Z.inj_add, !Nat2Z.id.
        split; [|split; [|reflexivity]].
        -- rewrite !string_app_assoc. apply substring_app_middle.
        -- rewrite <- string_app_length.
           replace ((lo_moduleBinary s ++ (bc ++ ru) ++ rest) ++ tail)%string
             with ((lo_moduleBinary s ++ bc) ++ ru ++ rest ++ tail)%string
             by (rewrite !string_app_assoc; reflexivity).
           apply substring_app_middle.
      * specialize (Hloc tail).
        replace ((lo_moduleBinary s ++ (bc ++ ru) ++ rest) ++ tail)%string
          with (((lo_moduleBinary s ++ bc ++ ru) ++ rest) ++ tail)%string
          by (rewrite !string_app_assoc; reflexivity).
        exact Hloc.
Qed.

Lemma findModuleEntry_first (entries : list ShaderModuleEntry) (entryStage : ShaderStage)
  (h : Hash) (pEntry : ShaderModuleEntry) :
  forall d count k,
    (d < count)%nat ->
    entries !! (k + d)%nat = Some pEntry ->
    entry_stage pEntry = entryStage ->
    entryNameHash pEntry = h ->
    (forall j e, (k <= j < k + d)%nat -> entries !! j = Some e ->
                 ~ (entry_stage e = entryStage /\ entryNameHash e = h)) ->
    findModuleEntry entries entryStage h count k = Returned (Some pEntry).
Proof.
  induction d as [|d IH]; intros count k Hlt Hat Hstage Hhash Hfirst;
    (destruct count as [|count]; [lia|]); simpl.
  - rewrite Nat.add_0_r in Hat. rewrite Hat.
    rewrite (bool_decide_eq_true_2 _ Hstage), (bool_decide_eq_true_2 _ Hhash). reflexivity.
  - assert (is_Some (entries !! k)) as [e He].
    { apply lookup_lt_is_Some. apply lookup_lt_Some in Hat. lia. }
    rewrite He.
    destruct (bool_decide (entry_stage e = entryStage) &&
              bool_decide (entryNameHash e = h)) eqn:Hmatch.
    + apply andb_true_iff in Hmatch as [H1 H2].
      apply bool_decide_eq_true_1 in H1, H2.
      exfalso. apply (Hfirst k e); [lia|exact He|auto].
    + apply IH; [lia| |exact Hstage|exact Hhash|].
      * replace (S k + d)%nat with (k + S d)%nat by lia. exact Hat.
      * intros j e' Hj. apply Hfirst. lia.
Qed.

(** X18. What [BuildShaderModule] writes for an entry point,
    [BuildPipelineInternal] reads back: after the lowering loop has
    succeeded, the search for the stage and the name hash of an entry
    point (the first of the module with that stage and hash) finds an
    entry whose offset and sizes cut out of the module binary the bitcode
    and the resource usage that entry point was lowered to, with its pass
    index. *)
Theorem findModuleEntry_after_lowerEntries (moduleData : ShaderModuleData)
  (entryNames : list ShaderEntryName) (result : Result) (i : nat)
  (entryName : ShaderEntryName) :
  lo_result (lowerEntries moduleData entryNames (mkLower result EmptyString [])) = Success ->
  entryNames !! i = Some entryName ->
  (forall j earlier, (j < i)%nat -> entryNames !! j = Some earlier ->
     ~ (entryName_stage earlier = entryName_stage entryName /\
        nameHashOf (entryName_pName earlier) = nameHashOf (entryName_pName entryName))) ->
  exists pEntry bitcode resUsage index,
    lowerShaderModuleEntry moduleData entryName = Some (bitcode, resUsage, index) /\
    findModuleEntry
      (lo_moduleEntries (lowerEntries moduleData entryNames (mkLower result EmptyString [])))
      (entryName_stage entryName) (nameHashOf (entryName_pName entryName))
      (length entryNames) 0 = Returned (Some pEntry) /\
    entryBitcode
      (lo_moduleBinary (lowerEntries moduleData entryNames (mkLower result EmptyString [])))
      pEntry = bitcode /\
    entryResUsage
      (lo_moduleBinary (lowerEntries moduleData entryNames (mkLower result EmptyString [])))
      pEntry = resUsage /\
    passIndex pEntry = index.
Proof.
  intros Hok Hi Hfirst.
  pose proof (lowerEntries_all_lowered _ _ _ Hok) as Hall.
  destruct (lowerEntries_layout moduleData entryNames (mkLower result EmptyString []) Hall)
    as (news & rest & Hrun & Hloc).
  rewrite Hrun. cbn [lo_result lo_moduleBinary lo_moduleEntries app] in *.
  rewrite append_nil_l.
  specialize (Hloc EmptyString).
  rewrite append_nil_l, append_nil_r in Hloc.
  destruct (Forall2_lookup_l _ _ _ _ _ Hloc Hi) as (pEntry & Hentry & Hlocated).
  destruct Hlocated as (bc & ru & pi & Hlow & Hstage & Hhash & Hbc & Hru & Hpi).
  exists pEntry, bc, ru, pi. split; [exact Hlow|]. split; [|auto].
  apply (findModuleEntry_first news _ _ pEntry i); try assumption.
  - apply lookup_lt_Some in Hi. exact Hi.
  - intros j e [_ Hj] He [Hs Hh].
    destruct (Forall2_lookup_r _ _ _ _ _ Hloc He) as (earlier & Hearlier & Hl).
    destruct Hl as (? & ? & ? & _ & Hs' & Hh' & _).
    apply (Hfirst j earlier Hj Hearlier). split; congruence.
Qed.

End ModuleEntryFacts.


Section ShaderModuleFacts.

Context {C : Type} {shaderCache : ShaderCacheClass C}.
Context {elfLibrary : ElfLibrary} {collaborators : Collaborators C}.
Variable cl : CommandLine.
Variable version : Z.

Lemma call_scan_world {A : Type} (run : Spirv.Run A) (w w' : World C) (a : A) :
  call_scan run w = Returned (a, w') -> w' = w.
Proof. destruct run; intros H; inversion H. reflexivity. Qed.

Lemma BuildShaderModule_checkType_world (pShaderInfo : ShaderModuleBuildInfo)
  (checked : Result * ShaderModuleData * list Spirv.ShaderEntryName) (w w' : World C) :
  BuildShaderModule_checkType cl pShaderInfo w = Returned (checked, w') -> w' = w.
Proof.
  unfold BuildShaderModule_checkType.
  destruct (IsSpirvBinary (shaderBin pShaderInfo)).
  - intros H. apply bind_Returned in H as ([moduleData entryNames] & w1 & Hcollect & H).
    unfold ret in H. inversion H; subst; clear H.
    destruct (decide _).
    + apply bind_Returned in Hcollect as ([[r info] names] & w2 & Hscan & H).
      apply call_scan_world in Hscan as ->. unfold ret in H. inversion H. reflexivity.
    + unfold ret in Hcollect. inversion Hcollect. reflexivity.
  - destruct (IsLlvmBitcode (shaderBin pShaderInfo)); intros H; inversion H; reflexivity.
Qed.

Lemma readEntryNames_world (code : list ascii) (moduleData : ShaderModuleData)
  (entryNames : list Spirv.ShaderEntryName) (w : World C) :
  forall names w', readEntryNames code moduleData entryNames w = Returned (names, w') -> w' = w.
Proof.
  induction entryNames as [|entryName rest IH]; intros names w' H; simpl in H.
  - inversion H. reflexivity.
  - apply bind_Returned in H as (name & w1 & Hname & H).
    destruct (entryNameAt code entryName); [|discriminate].
    unfold deref, ret in Hname. inversion Hname; subst; clear Hname.
    destruct (lowerShaderModuleEntry moduleData name).
    + apply bind_Returned in H as (names' & w2 & Hrest & H).
      apply IH in Hrest as ->. unfold ret in H. inversion H. reflexivity.
    + unfold ret in H. inversion H. reflexivity.
Qed.

(** What [BuildShaderModule] has done when it reaches its output step:
    nothing, or one look-up in the internal cache, followed by a retrieval
    when the entry was ready. *)
Lemma BuildShaderModule_compile_spec (pShaderInfo : ShaderModuleBuildInfo)
  (b : ShaderModuleBuild) (w w1 : World C) :
  BuildShaderModule_compile cl version pShaderInfo w = Returned (b, w1) ->
  memory w1 = memory w /\
  ((w1 = w /\ sm_cacheEntryState b = New /\ sm_hEntry b = None) \/
   (exists hash c',
      FindShader (internalCache w) hash true = ((sm_cacheEntryState b, sm_hEntry b), c') /\
      (EnableShaderModuleOpt cl = true \/
       (version >= 32 /\ shader_enableOpt pShaderInfo = true)) /\
      ((sm_cacheEntryState b <> Ready /\
        trace w1 = trace w ++ [EvFindShader InternalCache hash true]) \/
       (sm_cacheEntryState b = Ready /\
        trace w1 = trace w ++ [EvFindShader InternalCache hash true;
                               EvRetrieveShader InternalCache (sm_hEntry b)])))).
Proof.
  unfold BuildShaderModule_compile. intros H.
  apply bind_Returned in H as ([[result moduleData] entryNames] & w0 & Hcheck & H).
  apply BuildShaderModule_checkType_world in Hcheck as ->.
  destruct (decide (binType moduleData = BinaryTypeSpirv));
    [|unfold ret in H; inversion H; subst; simpl; auto].
  apply bind_Returned in H as (code & w0 & Hcode & H).
  assert (w0 = w) as ->.
  { destruct (TrimDebugInfo cl).
    - apply bind_Returned in Hcode as (? & ? & Hs & Hr).
      apply call_scan_world in Hs as ->. unfold ret in Hr. inversion Hr; reflexivity.
    - unfold ret in Hcode. inversion Hcode; reflexivity. }
  clear Hcode. revert H.
  match goal with
  | |- context [if ?e then _ else ret (mkModuleBuild _ _ _ New None _)] =>
      destruct e eqn:Hopt
  end; [|intros H; unfold ret in H; inversion H; subst; simpl; auto].
  assert (EnableShaderModuleOpt cl = true \/
          (version >= 32 /\ shader_enableOpt pShaderInfo = true)) as Hon.
  { unfold set_binCode in Hopt. cbn [moduleInfo] in Hopt.
    destruct (useSpecConstant (moduleInfo moduleData)); [discriminate|].
    destruct (decide (version >= 32)).
    - apply orb_true_iff in Hopt as [?|?]; auto.
    - auto. }
  intros H.
  apply bind_Returned in H as ([st h0] & w2 & Hfind & H).
  unfold call_FindShader, m_shaderCache in Hfind. simpl in Hfind.
  match type of Hfind with
  | context [FindShader (internalCache w) ?h true] =>
      set (hash := h) in *; destruct (FindShader (internalCache w) hash true) as [[st' h0'] c'] eqn:Hfound
  end.
  inversion Hfind; subst st' h0' w2; clear Hfind.
  apply bind_Returned in H as ([result' cacheData] & w3 & Hget & H).
  destruct (decide (st = Ready)) as [->|Hst].
  - unfold call_RetrieveShader, m_shaderCache in Hget. simpl in Hget.
    destruct (RetrieveShader c' h0 BinaryData_empty) as [[got data] c''] eqn:Hretrieved.
    inversion Hget; subst; clear Hget.
    destruct (decide (Ready <> Ready)) as [Hno|_]; [congruence|].
    unfold ret in H. inversion H; subst; simpl. split; [reflexivity|]. right.
    exists hash, c'. split; [exact Hfound|]. split; [exact Hon|]. right.
    split; [reflexivity|]. rewrite <- app_assoc. reflexivity.
  - unfold ret in Hget. inversion Hget; subst; clear Hget.
    destruct (decide (st <> Ready)) as [_|Hno]; [|contradiction].
    apply bind_Returned in H as (names & w4 & Hnames & H).
    apply readEntryNames_world in Hnames as ->.
    unfold ret in H. inversion H; subst; simpl. split; [reflexivity|]. right.
    exists hash, c'. split; [exact Hfound|]. split; [exact Hon|]. left. auto.
Qed.

Lemma memcpy_trace (dst : option Z) (src : option string) (n : Z) (w w' : World C) :
  memcpy dst src n w = Returned (tt, w') ->
  trace w' = trace w /\ appCache w' = appCache w /\ internalCache w' = internalCache w.
Proof.
  unfold memcpy. destruct (decide (n = 0)); [intros H; inversion H; auto|].
  destruct dst, src; try discriminate. intros H; inversion H; auto.
Qed.

(** The output step of [BuildShaderModule]: on success the buffer is handed
    out and a [Compiling] entry gets the module; on failure nothing is
    written and the entry, if there is a handle, is reset. *)
Lemma BuildShaderModule_output_spec (pShaderInfo : ShaderModuleBuildInfo)
  (b : ShaderModuleBuild) (pShaderOut pShaderOut' : ShaderModuleBuildOut)
  (result : Result) (w1 w' : World C) :
  BuildShaderModule_output pShaderInfo b pShaderOut w1 = Returned ((result, pShaderOut'), w') ->
  (result = Success /\
   (exists addr, out_pModuleData pShaderOut' = Some addr /\ is_Some (memory w' !! addr)) /\
   ((sm_cacheEntryState b = Compiling /\ (exists k blob, sm_hEntry b = Some k /\
       trace w' = trace w1 ++ [EvInsertShader InternalCache (Some k) blob])) \/
    ((sm_cacheEntryState b <> Compiling \/ sm_hEntry b = None) /\ trace w' = trace w1))) \/
  (result <> Success /\ pShaderOut' = pShaderOut /\ memory w' = memory w1 /\
   trace w' = trace w1 ++
     match sm_hEntry b with
     | Some k => [EvResetShader InternalCache (Some k)]
     | None => []
     end).
Proof.
  unfold BuildShaderModule_output.
  assert (Hfailure : forall r : Result, r <> Success ->
    match sm_hEntry b with
    | Some _ => call_ResetShader m_shaderCache (sm_hEntry b);; ret (r, pShaderOut)
    | None => ret (r, pShaderOut)
    end w1 = Returned ((result, pShaderOut'), w') ->
    result <> Success /\ pShaderOut' = pShaderOut /\ memory w' = memory w1 /\
    trace w' = trace w1 ++
      match sm_hEntry b with
      | Some k => [EvResetShader InternalCache (Some k)]
      | None => []
      end).
  { intros r Hr H. destruct (sm_hEntry b) as [k|].
    - apply bind_Returned in H as ([] & w2 & Hreset & H).
      unfold ret in H. inversion H; subst; clear H.
      unfold call_ResetShader, m_shaderCache in Hreset. inversion Hreset; subst; clear Hreset.
      simpl. auto.
    - unfold ret in H. inversion H; subst. rewrite app_nil_r. auto. }
  destruct (decide (sm_result b = Success)) as [Hs|Hf]; cycle 1.
  { destruct (decide (sm_result b = Success)) as [?|_]; [contradiction|].
    intros H. right. apply (Hfailure _ Hf H). }
  destruct (shader_pfnOutputAlloc pShaderInfo) as [pfnOutputAlloc|]; cycle 1.
  { destruct (decide (ErrorInvalidPointer = Success)) as [?|_]; [discriminate|].
    intros H. right. apply (Hfailure ErrorInvalidPointer); [discriminate|exact H]. }
  match goal with
  | |- context [pfnOutputAlloc ?size] =>
      set (allocSize := size); destruct (pfnOutputAlloc allocSize) as [addr|]
  end; cycle 1.
  { destruct (decide (ErrorOutOfMemory = Success)) as [?|_]; [discriminate|].
    intros H. right. apply (Hfailure ErrorOutOfMemory); [discriminate|exact H]. }
  destruct (decide (Success = Success)) as [_|?]; [|contradiction].
  clear Hfailure. intros H. left.
  apply bind_Returned in H as (pModuleData & w2 & Hderef & H).
  unfold deref, ret in Hderef. inversion Hderef; subst; clear Hderef.
  apply bind_Returned in H as ([] & w3 & Hcopy & H).
  apply bind_Returned in H as ([] & w4 & Hupd & H).
  unfold ret in H. inversion H; subst; clear H.
  unfold modify in Hupd. inversion Hupd; subst; clear Hupd.
  split; [reflexivity|]. split.
  { exists pModuleData. split; [reflexivity|]. simpl. rewrite lookup_insert_eq. eauto. }
  simpl.
  destruct (decide (sm_cacheEntryState b <> Ready)) as [Hnr|Hr].
  - apply bind_Returned in Hcopy as ([] & w5 & Hcode & Hcopy).
    assert (w5 = w2) as ->.
    { destruct (decide (codeSize (binCode (sm_moduleData b)) = 0)).
      - unfold ret in Hcode. inversion Hcode; reflexivity.
      - apply bind_Returned in Hcode as (? & ? & Hd & Hr).
        destruct (pCode (binCode (sm_moduleData b))); [|discriminate].
        unfold deref, ret in Hd, Hr. inversion Hd; inversion Hr; subst. reflexivity. }
    apply bind_Returned in Hcopy as ([] & w6 & Hwrite & Hcopy).
    unfold writeMemory, modify in Hwrite. inversion Hwrite; subst; clear Hwrite.
    destruct (decide (sm_cacheEntryState b = Compiling)) as [Hc|Hnc].
    + destruct (sm_hEntry b) as [k|] eqn:Hh.
      * unfold call_InsertShader, m_shaderCache in Hcopy.
        inversion Hcopy; subst; clear Hcopy. left. split; [exact Hc|].
        eexists k, _. split; [reflexivity|]. reflexivity.
      * unfold ret in Hcopy. inversion Hcopy; subst. right. auto.
    + unfold ret in Hcopy. inversion Hcopy; subst. right. auto.
  - apply memcpy_trace in Hcopy as (Ht & _). right. split; [|exact Ht].
    left. intros Hc. apply Hr. rewrite Hc. discriminate.
Qed.

(** X19. [BuildShaderModule] writes its output on success only: when the
    result is not [Success], [pShaderOut] and the buffers handed out by
    the allocator are as before; on [Success], [pShaderOut->pModuleData]
    points to a buffer that has been written. *)
Theorem BuildShaderModule_failure_keeps_output (pShaderInfo : ShaderModuleBuildInfo)
  (pShaderOut pShaderOut' : ShaderModuleBuildOut) (result : Result) (w w' : World C) :
  BuildShaderModule cl version pShaderInfo pShaderOut w = Returned ((result, pShaderOut'), w') ->
  (result <> Success -> pShaderOut' = pShaderOut /\ memory w' = memory w) /\
  (result = Success ->
   exists addr, out_pModuleData pShaderOut' = Some addr /\ is_Some (memory w' !! addr)).
Proof.
  intros H. unfold BuildShaderModule in H.
  apply bind_Returned in H as (b & w1 & Hcompile & Houtput).
  apply BuildShaderModule_compile_spec in Hcompile as (Hmem & _).
  apply BuildShaderModule_output_spec in Houtput
    as [(Hs & Hout & _)|(Hf & Hout & Hmem' & _)].
  - split; [intros Hno; contradiction|intros _; exact Hout].
  - split; [intros _; split; [exact Hout|congruence]|intros Hs; contradiction].
Qed.

(** X20. Without module optimisation ([-enable-shader-module-opt] off, and
    [enableOpt] of the build info off or the client interface below 32),
    [BuildShaderModule] makes no call to a shader cache. *)
Theorem BuildShaderModule_without_opt_no_cache_call (pShaderInfo : ShaderModuleBuildInfo)
  (pShaderOut pShaderOut' : ShaderModuleBuildOut) (result : Result) (w w' : World C) :
  EnableShaderModuleOpt cl = false ->
  version < 32 \/ shader_enableOpt pShaderInfo = false ->
  BuildShaderModule cl version pShaderInfo pShaderOut w = Returned ((result, pShaderOut'), w') ->
  trace w' = trace w.
Proof.
  intros Hcl Hinfo H. unfold BuildShaderModule in H.
  apply bind_Returned in H as (b & w1 & Hcompile & Houtput).
  apply BuildShaderModule_compile_spec in Hcompile
    as (_ & [(-> & Hst & Hh)|(hash & c' & _ & [Hon|[Hv Hon]] & _)]).
  - apply BuildShaderModule_output_spec in Houtput
      as [(_ & _ & [(Hc & _)|(_ & Ht)])|(_ & _ & _ & Ht)].
    + congruence.
    + exact Ht.
    + rewrite Hh, app_nil_r in Ht. exact Ht.
  - congruence.
  - destruct Hinfo; [lia|congruence].
Qed.

(** X21. A cache entry that [BuildShaderModule] has claimed is resolved
    when it returns: when the look-up in the internal cache answered
    [Compiling] with a handle, exactly one cache call follows it:
    [InsertShader] on that handle when the build succeeds, [ResetShader]
    on that handle when it fails. *)
Theorem BuildShaderModule_resolves_entry (pShaderInfo : ShaderModuleBuildInfo)
  (pShaderOut pShaderOut' : ShaderModuleBuildOut) (result : Result) (w w' : World C)
  (hash : Hash) (k : Z) (c' : C) (evs : list CacheEvent) :
  BuildShaderModule cl version pShaderInfo pShaderOut w = Returned ((result, pShaderOut'), w') ->
  trace w' = trace w ++ EvFindShader InternalCache hash true :: evs ->
  FindShader (internalCache w) hash true = ((Compiling, Some k), c') ->
  (result = Success /\ exists blob, evs = [EvInsertShader InternalCache (Some k) blob]) \/
  (result <> Success /\ evs = [EvResetShader InternalCache (Some k)]).
Proof.
  intros H Htrace Hfind. unfold BuildShaderModule in H.
  apply bind_Returned in H as (b & w1 & Hcompile & Houtput).
  apply BuildShaderModule_compile_spec in Hcompile
    as (_ & [(-> & Hst & Hh)|(hash' & c'' & Hfind' & _ & Hcase)]).
  - exfalso.
    apply BuildShaderModule_output_spec in Houtput
      as [(_ & _ & [(Hc & _)|(_ & Ht)])|(_ & _ & _ & Ht)].
    + congruence.
    + rewrite Ht in Htrace. rewrite <- (app_nil_r (trace w)) in Htrace at 1.
      apply app_inv_head in Htrace. discriminate.
    + rewrite Hh in Ht. rewrite Ht in Htrace. apply app_inv_head in Htrace. discriminate.
  - assert (hash' = hash) as ->.
    { apply BuildShaderModule_output_spec in Houtput
        as [(_ & _ & [(_ & ? & ? & _ & Ht)|(_ & Ht)])|(_ & _ & _ & Ht)];
        destruct Hcase as [(_ & Ht1)|(_ & Ht1)]; rewrite Ht1 in Ht; rewrite Ht in Htrace;
        rewrite <- ?app_assoc in Htrace; apply app_inv_head in Htrace;
        simpl in Htrace; inversion Htrace; reflexivity. }
    rewrite Hfind in Hfind'. inversion Hfind' as [[Hst Hh Hc]].
    destruct Hcase as [(_ & Ht1)|(Hready & _)]; [|congruence].
    apply BuildShaderModule_output_spec in Houtput
      as [(Hs & _ & [(_ & k' & blob & Hk & Ht)|([Hno|Hno] & _)])|(Hf & _ & _ & Ht)].
    + left. split; [exact Hs|]. exists blob.
      rewrite Ht, Ht1, <- app_assoc in Htrace. apply app_inv_head in Htrace.
      simpl in Htrace. inversion Htrace. congruence.
    + congruence.
    + congruence.
    + right. split; [exact Hf|].
      rewrite <- Hh in Ht. rewrite Ht, Ht1, <- app_assoc in Htrace.
      apply app_inv_head in Htrace. simpl in Htrace. inversion Htrace. reflexivity.
Qed.

End ShaderModuleFacts.


Section ElfLayoutFacts.

Context {elfLibrary : ElfLibrary}.

Lemma keepsLayout_refl (writer : ElfImage) : keepsLayout writer writer.
Proof. split; [reflexivity|]. eauto. Qed.

Lemma keepsLayout_trans (w1 w2 w3 : ElfImage) :
  keepsLayout w1 w2 -> keepsLayout w2 w3 -> keepsLayout w1 w3.
Proof.
  intros [Hs12 Hy12] [Hs23 Hy23]. split; [congruence|].
  intros q sym Hq. destruct (Hy12 q sym Hq) as (sym2 & Hq2 & Hn2).
  destruct (Hy23 q sym2 Hq2) as (sym3 & Hq3 & Hn3). exists sym3. split; [exact Hq3|congruence].
Qed.

Lemma keepsLayout_SetSection (secIndex : Z) (sec : ElfSectionBuffer)
  (writer writer' : ElfImage) :
  SetSection secIndex sec writer = Returned (tt, writer') -> keepsLayout writer writer'.
Proof.
  unfold SetSection. destruct (decide _); [|discriminate]. intros H. inversion H; subst.
  split; simpl; [apply length_insert|eauto].
Qed.

Lemma keepsLayout_updateSymbol (pSymbol : nat) (f : ElfSymbol -> ElfSymbol)
  (writer writer' : ElfImage) :
  (forall sym, pSymName (f sym) = pSymName sym) ->
  updateSymbol pSymbol f writer = Returned (tt, writer') -> keepsLayout writer writer'.
Proof.
  intros Hf. unfold updateSymbol.
  destruct (symbols writer !! pSymbol) as [sym0|] eqn:Hp; [|discriminate].
  intros H. inversion H; subst. split; [reflexivity|]. simpl.
  intros q sym Hq. destruct (decide (q = pSymbol)) as [->|Hne].
  - exists (f sym0). rewrite list_lookup_insert_eq by (eapply lookup_lt_Some; eassumption).
    split; [reflexivity|]. rewrite Hf. congruence.
  - exists sym. rewrite list_lookup_insert_ne by congruence. auto.
Qed.

Lemma keepsLayout_GetSymbol (name : string) (writer writer' : ElfImage) (pos : nat) :
  GetSymbol name writer = Returned (pos, writer') -> keepsLayout writer writer'.
Proof.
  unfold GetSymbol. destruct (findSymbol (symbols writer) name 0); intros H; inversion H; subst.
  - apply keepsLayout_refl.
  - split; [reflexivity|]. simpl. intros q sym Hq. exists sym.
    split; [|reflexivity]. apply lookup_app_l_Some. exact Hq.
Qed.

Lemma keepsLayout_scanNonFragmentSymbols (ps : list nat) (s s' : NonFragmentScan)
  (writer writer' : ElfImage) :
  scanNonFragmentSymbols ps s writer = Returned (s', writer') -> keepsLayout writer writer'.
Proof.
  intros H. apply scanNonFragmentSymbols_frame in H as (Hinv & Hsec & _).
  split; [rewrite Hsec; reflexivity|].
  intros q sym Hq. destruct (invalidated_lookup_l _ _ _ _ Hinv Hq) as (sym1 & H1 & Hn & _).
  eauto.
Qed.

Lemma keepsLayout_updateFragmentSymbols (fragmentSymbols : list ElfSymbol)
  (nonFragmentSecIndex : Z) (pFragmentTextSection : option ElfSectionBuffer) (isaOffset : Z) :
  forall (pIsa pIsa' : option ElfSymbol) (writer writer' : ElfImage),
    updateFragmentSymbols fragmentSymbols nonFragmentSecIndex pFragmentTextSection isaOffset
      pIsa writer = Returned (pIsa', writer') ->
    keepsLayout writer writer'.
Proof.
  induction fragmentSymbols as [|fragmentSymbol rest IH]; intros pIsa pIsa' writer writer' H.
  - inversion H; subst. apply keepsLayout_refl.
  - simpl in H. apply bind_Returned in H as (pIsa1 & w1 & Hisa & H).
    assert (keepsLayout writer w1) as H01.
    { destruct (String.eqb (pSymName fragmentSymbol) FragmentIsaSymbolName).
      - apply bind_Returned in Hisa as (pSec & w2 & Hsec & Hisa).
        inversion Hsec; subst.
        apply bind_Returned in Hisa as (sec1 & w3 & Hd1 & Hisa).
        assert (w3 = w2) as ->.
        { unfold deref in Hd1. destruct (GetSectionDataBySectionIndex w2 nonFragmentSecIndex);
            inversion Hd1; reflexivity. }
        apply bind_Returned in Hisa as (sec2 & w4 & Hd2 & Hisa).
        assert (w4 = w2) as ->.
        { unfold deref in Hd2. destruct pFragmentTextSection; inversion Hd2; reflexivity. }
        apply bind_Returned in Hisa as ([] & w5 & Hset & Hisa).
        inversion Hisa; subst. eapply keepsLayout_SetSection, Hset.
      - inversion Hisa; subst. apply keepsLayout_refl. }
    eapply keepsLayout_trans; [exact H01|].
    destruct pIsa1 as [isaSymbol|].
    + apply bind_Returned in H as (pSymbol & w2 & Hget & H).
      apply bind_Returned in H as ([] & w3 & Hupd & H).
      eapply keepsLayout_trans; [eapply keepsLayout_GetSymbol, Hget|].
      eapply keepsLayout_trans; [eapply keepsLayout_updateSymbol; [|exact Hupd]|].
      * intros sym. reflexivity.
      * eapply IH, H.
    + eapply IH, H.
Qed.

Lemma keepsLayout_mergeCommentSection (reader : ElfImage) (sectionName first : string)
  (writer writer' : ElfImage) :
  mergeCommentSection reader sectionName first writer = Returned (tt, writer') ->
  keepsLayout writer writer'.
Proof.
  unfold mergeCommentSection. intros Hrun.
  apply bind_Returned in Hrun. destruct Hrun as (w0 & w1 & Hget & Hrun).
  inversion Hget; subst w0 w1. clear Hget.
  destruct (GetSectionDataBySectionIndex writer (GetSectionIndex writer sectionName));
    [|inversion Hrun; apply keepsLayout_refl].
  apply bind_Returned in Hrun. destruct Hrun as (sec & w1 & Hderef & Hrun).
  assert (w1 = writer) as ->.
  { unfold deref in Hderef. destruct (GetSectionDataBySectionIndex reader _);
      [inversion Hderef; reflexivity|discriminate]. }
  apply bind_Returned in Hrun. destruct Hrun as (found & w1 & Hstr & Hrun).
  assert (w1 = writer) as ->.
  { unfold strstr_reader in Hstr. destruct (decide _); [discriminate|].
    inversion Hstr; reflexivity. }
  eapply keepsLayout_SetSection, Hrun.
Qed.

(** X22. [MergeElfBinary] keeps the shape of the non-fragment ELF: the
    merged image has as many sections as the non-fragment image, and its
    symbol table starts with the symbols of the non-fragment image, name
    by name; symbols are added, never removed or renamed. *)
Theorem mergeInWriter_keeps_sections_and_symbol_names (pContext : Context)
  (reader writer writer' : ElfImage) (isaOffset : Z) (pFragmentIsaSymbol : option ElfSymbol) :
  mergeInWriter pContext reader writer =
    Returned ((isaOffset, pFragmentIsaSymbol), writer') ->
  length (sections writer') = length (sections writer) /\
  (length (symbols writer) <= length (symbols writer'))%nat /\
  forall q sym, symbols writer !! q = Some sym ->
    exists sym', symbols writer' !! q = Some sym' /\ pSymName sym' = pSymName sym.
Proof.
  unfold mergeInWriter. intros Hrun.
  apply bind_Returned in Hrun. destruct Hrun as (w0 & w0' & Hget & Hrun).
  inversion Hget; subst w0 w0'. clear Hget.
  apply bind_Returned in Hrun. destruct Hrun as (scan & writer1 & Hscan & Hrun).
  apply bind_Returned in Hrun. destruct Hrun as (off & w1 & Hoff & Hrun).
  pose proof (isaOffsetOf_state _ _ _ _ _ Hoff) as ->.
  apply bind_Returned in Hrun. destruct Hrun as (pIsa & writer2 & Hfrag & Hrun).
  apply bind_Returned in Hrun. destruct Hrun as ([] & w3 & Hdis & Hrun).
  apply bind_Returned in Hrun. destruct Hrun as ([] & w4 & Hir & Hrun).
  apply bind_Returned in Hrun. destruct Hrun as (w5 & w5' & Hget & Hrun).
  inversion Hget; subst w5 w5'. clear Hget.
  apply bind_Returned in Hrun. destruct Hrun as ([] & w6 & Hnote & Hrun).
  inversion Hnote; subst w6. inversion Hrun; subst.
  assert (keepsLayout writer w4) as [Hsec Hsym].
  { eapply keepsLayout_trans; [eapply keepsLayout_scanNonFragmentSymbols, Hscan|].
    eapply keepsLayout_trans; [eapply keepsLayout_updateFragmentSymbols, Hfrag|].
    eapply keepsLayout_trans; [eapply keepsLayout_mergeCommentSection, Hdis|].
    eapply keepsLayout_mergeCommentSection, Hir. }
  simpl. split; [exact Hsec|]. split; [|exact Hsym].
  destruct (symbols writer) as [|sym0 syms] eqn:Hsyms using rev_ind; [simpl; lia|].
  destruct (Hsym (length syms) sym0) as (sym' & Hq & _).
  { rewrite lookup_app_r by lia. rewrite Nat.sub_diag. reflexivity. }
  apply lookup_lt_Some in Hq. rewrite length_app. simpl. lia.
Qed.

End ElfLayoutFacts.

(* ===================================================================== *)
(** * The further properties on sample inputs *)
(* ===================================================================== *)

(** The sample module: 72 bytes, 28 of them debug instructions. *)
Lemma TrimSpirvDebugInfo_fills_buffer_witness :
  exists out,
    Spirv.TrimSpirvDebugInfo Samples.spirvBin
      (codeSize Samples.spirvBin - Spirv.debugInfoSize Samples.spirvInfo) = Spirv.Done out /\
    Z.of_nat (String.length out) =
      codeSize Samples.spirvBin - Spirv.debugInfoSize Samples.spirvInfo -
      codeSize Samples.spirvBin mod 4 /\
    Z.of_nat Spirv.sizeof_SpirvHeader <= Z.of_nat (String.length out).
Proof.
  apply (TrimSpirvDebugInfo_fills_buffer Samples.ConvertToStageShage Samples.spirvBin
           Samples.spirvCode Samples.noInfo Samples.spirvInfo [] Samples.spirvNames).
  - reflexivity.
  - vm_compute. discriminate.
  - split; vm_compute; [discriminate|reflexivity].
  - reflexivity.
  - vm_compute. reflexivity.
Defined.

(** The sample module, trimmed once and then again. *)
Lemma TrimSpirvDebugInfo_idempotent_witness :
  Spirv.TrimSpirvDebugInfo
    (mkBinaryData (Some Samples.trimmedCode) (Z.of_nat (String.length Samples.trimmedCode)))
    (Z.of_nat (String.length Samples.trimmedCode)) = Spirv.Done Samples.trimmedCode.
Proof.
  apply (TrimSpirvDebugInfo_idempotent Samples.spirvBin 44 Samples.trimmedCode).
  vm_compute. reflexivity.
Defined.

(** The scan of the trimmed sample module. *)
Lemma CollectInfoFromSpirvBinary_after_trim_witness :
  Success = Success /\
  Spirv.debugInfoSize Samples.noInfo = Spirv.debugInfoSize Samples.noInfo.
Proof.
  apply (CollectInfoFromSpirvBinary_after_trim Samples.ConvertToStageShage Samples.spirvBin 44
           Samples.trimmedCode Samples.noInfo Samples.noInfo [] Samples.trimmedNames Success).
  - vm_compute. reflexivity.
  - vm_compute. reflexivity.
Defined.

Lemma Samples_newAddress_fresh (X : gset Z) : Samples.newAddress X ∉ X.
Proof. apply is_fresh. Qed.

(** A compiler is created, acquires a context, releases it and is
    destroyed. *)
Lemma run_consistent_witness :
  consistent (Samples.stateAfter (Samples.run Samples.calls) Runtime.initial).
Proof.
  apply (run_consistent (metroHash := Doubles.lengthHash)
           "enable-outs" "enable-errs" "log-file-dbgs" "log-file-outs" "amdvlk" (fun _ => true)
           Samples.newAddress 0 Samples_newAddress_fresh Samples.calls).
  - vm_compute. reflexivity.
  - vm_compute. reflexivity.
Defined.

(** The first context of the only compiler. *)
Lemma AcquireContext_exclusive_witness :
  inUse (Runtime.contexts Samples.created) 0 = false /\
  (exists compiler,
     Runtime.compilers Samples.created !! 0 = Some compiler /\
     Runtime.contexts Samples.acquired !! 0 =
       Some (Runtime.mkContext (Runtime.compiler_gfxIp compiler) true)) /\
  (forall q, q <> 0 ->
     Runtime.contexts Samples.acquired !! q = Runtime.contexts Samples.created !! q).
Proof.
  apply (AcquireContext_exclusive Samples.newAddress Samples_newAddress_fresh 0 0
           Samples.created Samples.acquired).
  vm_compute. reflexivity.
Defined.

(** The compiler releases its context and acquires one again. *)
Lemma ReleaseContext_then_AcquireContext_reuses_witness :
  exists q s',
    (Runtime.ReleaseContext 0;; Runtime.AcquireContext Samples.newAddress 0) Samples.acquired =
      Returned (q, s') /\
    q ∈ [0] /\
    Runtime.m_pContextPool s' = Some [0] /\
    dom (Runtime.contexts s') = dom (Runtime.contexts Samples.acquired).
Proof.
  apply (ReleaseContext_then_AcquireContext_reuses Samples.newAddress Samples_newAddress_fresh
           0 0 Samples.acquired (Runtime.mkCompiler Samples.options 7 Samples.gfxIp)
           (Runtime.mkContext Samples.gfxIp true) [0]).
  - vm_compute. reflexivity.
  - vm_compute. reflexivity.
  - intros p Hp. apply list_elem_of_singleton in Hp. subst p. vm_compute. eauto.
  - apply list_elem_of_singleton. reflexivity.
  - vm_compute. reflexivity.
  - reflexivity.
Defined.

(** The compiler is destroyed while it holds its context. *)
Lemma Destroy_keeps_contexts_in_use_witness :
  Runtime.contexts (Samples.stateAfter (Samples.Destroy 0) Samples.acquired) !! 0 =
  Some (Runtime.mkContext Samples.gfxIp true).
Proof.
  apply (Destroy_keeps_contexts_in_use "amdvlk" 0 0 0 Samples.acquired
           (Samples.stateAfter (Samples.Destroy 0) Samples.acquired)
           (Runtime.mkContext Samples.gfxIp true)).
  - vm_compute. reflexivity.
  - vm_compute. reflexivity.
  - reflexivity.
Defined.

(** One of two compilers is destroyed; of the two contexts of the pool the
    free one goes. *)
Lemma Destroy_pool_size_witness :
  Z.of_nat (length [1]) =
  Z.max (Z.of_nat (inUseCount (Runtime.contexts Samples.shared) [0; 1]))
        (Z.min (Z.of_nat (length [0; 1])) 0).
Proof.
  apply (Destroy_pool_size "amdvlk" 0 0 Samples.shared
           (Samples.stateAfter (Samples.Destroy 0) Samples.shared) [0; 1] [1]).
  - vm_compute. reflexivity.
  - vm_compute. reflexivity.
  - vm_compute. reflexivity.
Defined.

(** A second client asks for another version while the first compiler is
    alive. *)
Lemma Create_conflict_witness :
  Samples.Create Samples.gfxIp Samples.otherOptions Samples.created =
  Returned ((ErrorInvalidValue, None), Samples.created).
Proof.
  apply (Create_conflict (metroHash := Doubles.lengthHash)
           "enable-outs" "enable-errs" "log-file-dbgs" "log-file-outs" "amdvlk" (fun _ => true)
           Samples.newAddress Samples_newAddress_fresh Samples.gfxIp Samples.otherOptions
           Samples.created 0 (Runtime.mkCompiler Samples.options 7 Samples.gfxIp) 10).
  - apply (run_preserves_consistent (metroHash := Doubles.lengthHash)
             "enable-outs" "enable-errs" "log-file-dbgs" "log-file-outs" "amdvlk"
             (fun _ => true) Samples.newAddress 0 Samples_newAddress_fresh
             [Runtime.CallCreate Samples.gfxIp Samples.options] Runtime.initial).
    + apply initial_consistent.
    + vm_compute. reflexivity.
    + vm_compute. reflexivity.
  - vm_compute. reflexivity.
  - discriminate.
  - vm_compute. reflexivity.
  - vm_compute. discriminate.
Defined.

(** A set of two items, written before one more byte and read into a set
    that has an item already. *)
Lemma extract_set_insert_set_witness :
  BinaryStream.extract_set {[ 1 ]}
    (BinaryStream.mkIStream
       (BinaryStream.insert_set Samples.iteration Samples.items [] ++ ["x"%char]) false) =
  Returned (Samples.items ∪ {[ 1 ]}, BinaryStream.mkIStream ["x"%char] false).
Proof.
  apply (extract_set_insert_set Samples.iteration (fun set => reflexivity _)
           Samples.items {[ 1 ]} ["x"%char]).
  - intros x Hx. apply elem_of_union in Hx as [Hx|Hx]; apply elem_of_singleton in Hx;
      subst x; lia.
  - vm_compute. reflexivity.
Defined.

(** A map of two entries, read into a map that has another value for one
    of the keys. *)
Lemma extract_map_insert_map_witness :
  BinaryStream.extract_map {[ 1 := 11 ]}
    (BinaryStream.mkIStream (BinaryStream.insert_map Samples.entries [] ++ ["x"%char]) false) =
  Returned (Samples.entries ∪ {[ 1 := 11 ]}, BinaryStream.mkIStream ["x"%char] false).
Proof.
  apply (extract_map_insert_map Samples.entries {[ 1 := 11 ]} ["x"%char]).
  - intros k v H. unfold Samples.entries in H.
    apply lookup_insert_Some in H as [[<- <-]|[_ H]]; [lia|].
    apply lookup_singleton_Some in H as [<- <-]. lia.
  - vm_compute. reflexivity.
Defined.

(** Two pipelines with the same fragment stage and different vertex stages
    and vertex inputs. *)
Lemma BuildShaderCacheHash_fragment_hash_witness :
  fst (Samples.hashesOf
         (Samples.BuildShaderCacheHash Samples.pipeline1 17 Samples.stageHashes1 0 0)) =
  fst (Samples.hashesOf
         (Samples.BuildShaderCacheHash Samples.pipeline2 16 Samples.stageHashes2 1 1)).
Proof.
  apply (BuildShaderCacheHash_fragment_hash (metroHash := Doubles.lengthHash) Z Z
           Samples.UpdateHashForPipelineShaderInfo Samples.UpdateHashForVertexInputState
           Samples.UpdateHashForFragmentState Samples.UpdateHashForNonFragmentState
           (fun hashCode => hashCode) 38
           Samples.pipeline1 Samples.pipeline2 17 16 Samples.stageHashes1 Samples.stageHashes2
           0 0 1 1).
  - vm_compute. discriminate.
  - vm_compute. discriminate.
  - reflexivity.
  - reflexivity.
  - reflexivity.
  - reflexivity.
  - reflexivity.
  - vm_compute. reflexivity.
  - vm_compute. reflexivity.
Defined.

(** Two pipelines with the same vertex stage and different fragment
    shaders, fragment stage hashes and pipeline options, one of them
    without its fragment stage in the mask. *)
Lemma BuildShaderCacheHash_non_fragment_hash_witness :
  snd (Samples.hashesOf
         (Samples.BuildShaderCacheHash Samples.pipeline1 17 Samples.stageHashes1 0 0)) =
  snd (Samples.hashesOf
         (Samples.BuildShaderCacheHash Samples.pipeline3 1 Samples.stageHashes3 1 0)).
Proof.
  apply (BuildShaderCacheHash_non_fragment_hash (metroHash := Doubles.lengthHash) Z Z
           Samples.UpdateHashForPipelineShaderInfo Samples.UpdateHashForVertexInputState
           Samples.UpdateHashForFragmentState Samples.UpdateHashForNonFragmentState
           (fun hashCode => hashCode) 38
           Samples.pipeline1 Samples.pipeline3 17 1 Samples.stageHashes1 Samples.stageHashes3
           0 1 0).
  - vm_compute. reflexivity.
  - intros stage Hstage. unfold Samples.pipeline3. simpl.
    destruct (decide (stage = ShaderStageFragment)); [contradiction|reflexivity].
  - reflexivity.
  - reflexivity.
  - reflexivity.
  - intros i Hi. destruct i as [|[|[|[|i]]]]; try reflexivity. lia.
  - vm_compute. reflexivity.
  - vm_compute. reflexivity.
Defined.

(** A look-up without application cache, in a world whose internal cache
    has the binary. *)
Lemma LookUpShaderCaches_internal_only_witness :
  exists st elf hEntry w' evs,
    LookUpShaderCaches (shaderCache := Doubles.mapCache) Doubles.commandLine None 7
      BinaryData_empty [None; None] [None; None] Doubles.internalHitWorld =
      Returned ((st, elf, [Some InternalCache; None], [hEntry; None]), w') /\
    appCache w' = appCache Doubles.internalHitWorld /\
    trace w' = trace Doubles.internalHitWorld ++ evs /\
    Forall (fun e => cacheOf e = InternalCache) evs /\
    lookedUp evs = [InternalCache].
Proof.
  apply (LookUpShaderCaches_internal_only (shaderCache := Doubles.mapCache)
           Doubles.commandLine None 7 BinaryData_empty [None; None] [None; None]
           Doubles.internalHitWorld).
  - left. reflexivity.
  - reflexivity.
  - reflexivity.
Defined.

(** A look-up in two empty caches claims an entry in each; the update
    after a failed compile resets both. *)
Lemma UpdateShaderCaches_after_LookUpShaderCaches_witness :
  exists w'' evs,
    UpdateShaderCaches (shaderCache := Doubles.mapCache) false BinaryData_empty
      [Some AppCache; Some InternalCache] [Some 7; Some 7] ShaderCacheCount
      (Samples.stateAfter
         (LookUpShaderCaches (shaderCache := Doubles.mapCache) Doubles.commandLine
            (Some AppCache) 7 BinaryData_empty [None; None] [None; None])
         Doubles.emptyWorld) = Returned (tt, w'') /\
    trace w'' =
      trace (Samples.stateAfter
               (LookUpShaderCaches (shaderCache := Doubles.mapCache) Doubles.commandLine
                  (Some AppCache) 7 BinaryData_empty [None; None] [None; None])
               Doubles.emptyWorld) ++ evs /\
    length evs =
      length (List.filter (fun h : CacheEntryHandle => bool_decide (h <> None))
                [Some 7; Some 7]) /\
    Forall (fun e => isInsertShader e = false /\ isResetShader e = negb false) evs.
Proof.
  apply (UpdateShaderCaches_after_LookUpShaderCaches (shaderCache := Doubles.mapCache)
           Doubles.commandLine (Some AppCache) 7 BinaryData_empty Doubles.emptyWorld
           (Samples.stateAfter
              (LookUpShaderCaches (shaderCache := Doubles.mapCache) Doubles.commandLine
                 (Some AppCache) 7 BinaryData_empty [None; None] [None; None])
              Doubles.emptyWorld)
           Compiling BinaryData_empty [Some AppCache; Some InternalCache] [Some 7; Some 7]
           false BinaryData_empty).
  vm_compute. reflexivity.
Defined.

(** A pipeline with a vertex and a fragment stage whose non-fragment ELF
    is cached: the check keeps the fragment stage. *)
Lemma Check_removes_stage_groups_witness :
  Z.land 16 17 = 16 /\
  (16 = 17 \/
   16 = Z.land 17 (ShaderStageToMask ShaderStageFragment) \/
   16 = Z.land 17 (not32 (ShaderStageToMask ShaderStageFragment)) \/
   16 = 0).
Proof.
  apply (Check_removes_stage_groups (shaderCache := Doubles.mapCache)
           (collaborators := Doubles.collaboratorsOf 17 (mkModule []))
           Doubles.commandLine 37 (mkContext true 17 None) (mkModule []) 17
           Doubles.stageHashes Doubles.nonFragmentCachedWorld Samples.checkedWorld 16).
  vm_compute. reflexivity.
Defined.

(** After that check, the compile of the fragment stage fails. *)
Lemma UpdateAndMerge_failure_only_resets_witness :
  exists evs,
    trace (Samples.stateAfter
             (UpdateAndMerge (shaderCache := Doubles.mapCache)
                (elfLibrary := Doubles.elfLibrary) 37 (mkContext true 17 None)
                ErrorInvalidShader EmptyString)
             Samples.checkedWorld) = trace Samples.checkedWorld ++ evs /\
    Forall (fun e => isResetShader e = true) evs.
Proof.
  apply (UpdateAndMerge_failure_only_resets (shaderCache := Doubles.mapCache)
           (elfLibrary := Doubles.elfLibrary) 37 (mkContext true 17 None)
           ErrorInvalidShader EmptyString EmptyString Samples.checkedWorld).
  - discriminate.
  - vm_compute. reflexivity.
Defined.

(** The fragment entry point of a module with two entry points of the same
    name. *)
Lemma findModuleEntry_after_lowerEntries_witness :
  exists pEntry bitcode resUsage index,
    lowerShaderModuleEntry (Collaborators := Doubles.collaboratorsOf 17 (mkModule []))
      Samples.moduleData (mkEntryName ShaderStageFragment "main") =
      Some (bitcode, resUsage, index) /\
    findModuleEntry
      (lo_moduleEntries
         (lowerEntries (collaborators := Doubles.collaboratorsOf 17 (mkModule []))
            Samples.moduleData Samples.entryNames (mkLower Success EmptyString [])))
      (entryName_stage (mkEntryName ShaderStageFragment "main"))
      (nameHashOf (collaborators := Doubles.collaboratorsOf 17 (mkModule []))
         (entryName_pName (mkEntryName ShaderStageFragment "main")))
      (length Samples.entryNames) 0 = Returned (Some pEntry) /\
    entryBitcode
      (lo_moduleBinary
         (lowerEntries (collaborators := Doubles.collaboratorsOf 17 (mkModule []))
            Samples.moduleData Samples.entryNames (mkLower Success EmptyString [])))
      pEntry = bitcode /\
    entryResUsage
      (lo_moduleBinary
         (lowerEntries (collaborators := Doubles.collaboratorsOf 17 (mkModule []))
            Samples.moduleData Samples.entryNames (mkLower Success EmptyString [])))
      pEntry = resUsage /\
    passIndex pEntry = index.
Proof.
  apply (findModuleEntry_after_lowerEntries
           (collaborators := Doubles.collaboratorsOf 17 (mkModule []))
           Samples.moduleData Samples.entryNames Success 1
           (mkEntryName ShaderStageFragment "main")).
  - vm_compute. reflexivity.
  - reflexivity.
  - intros j earlier Hj Hearlier [Hstage _].
    destruct j as [|j]; [|lia]. inversion Hearlier; subst earlier. discriminate Hstage.
Defined.

(** A binary that is neither SPIR-V nor LLVM bitcode. *)
Lemma BuildShaderModule_failure_keeps_output_witness :
  (ErrorInvalidShader <> Success ->
   mkShaderOut None = mkShaderOut None /\
   memory Doubles.emptyWorld = memory Doubles.emptyWorld) /\
  (ErrorInvalidShader = Success ->
   exists addr, out_pModuleData (mkShaderOut None) = Some addr /\
                is_Some (memory Doubles.emptyWorld !! addr)).
Proof.
  apply (BuildShaderModule_failure_keeps_output (shaderCache := Doubles.mapCache)
           (collaborators := Doubles.collaboratorsOf 17 (mkModule []))
           Doubles.commandLine 37
           (mkShaderModuleBuildInfo (Doubles.buffer "garbage") true (Some Doubles.allocAt4096))
           (mkShaderOut None) (mkShaderOut None) ErrorInvalidShader
           Doubles.emptyWorld Doubles.emptyWorld).
  vm_compute. reflexivity.
Defined.

(** A SPIR-V module built with the optimisation off. *)
Lemma BuildShaderModule_without_opt_no_cache_call_witness :
  trace (Samples.stateAfter
           (BuildShaderModule (shaderCache := Doubles.mapCache)
              (collaborators := Doubles.collaboratorsOf 17 (mkModule []))
              Doubles.commandLine 37
              (mkShaderModuleBuildInfo Doubles.shaderBinary false
                 (Some Doubles.allocAt4096))
              (mkShaderOut None))
           Doubles.emptyWorld) = trace Doubles.emptyWorld.
Proof.
  apply (BuildShaderModule_without_opt_no_cache_call (shaderCache := Doubles.mapCache)
           (collaborators := Doubles.collaboratorsOf 17 (mkModule []))
           Doubles.commandLine 37
           (mkShaderModuleBuildInfo Doubles.shaderBinary false
              (Some Doubles.allocAt4096))
           (mkShaderOut None) (mkShaderOut (Some 4096)) Success Doubles.emptyWorld).
  - reflexivity.
  - right. reflexivity.
  - vm_compute. reflexivity.
Defined.

(** A SPIR-V module built with the optimisation on, on an empty cache: the
    entry claimed under the module hash 40 gets the module. *)
Lemma BuildShaderModule_resolves_entry_witness :
  (Success = Success /\
   exists blob,
     drop 1 (trace (Samples.stateAfter
                      (BuildShaderModule (shaderCache := Doubles.mapCache)
                         (collaborators := Doubles.collaboratorsOf 17 (mkModule []))
                         Doubles.commandLine 37
                         (mkShaderModuleBuildInfo Doubles.shaderBinary true
                            (Some Doubles.allocAt4096))
                         (mkShaderOut None))
                      Doubles.emptyWorld)) =
     [EvInsertShader InternalCache (Some 40) blob]) \/
  (Success <> Success /\
   drop 1 (trace (Samples.stateAfter
                    (BuildShaderModule (shaderCache := Doubles.mapCache)
                       (collaborators := Doubles.collaboratorsOf 17 (mkModule []))
                       Doubles.commandLine 37
                       (mkShaderModuleBuildInfo Doubles.shaderBinary true
                          (Some Doubles.allocAt4096))
                       (mkShaderOut None))
                    Doubles.emptyWorld)) =
   [EvResetShader InternalCache (Some 40)]).
Proof.
  apply (BuildShaderModule_resolves_entry (shaderCache := Doubles.mapCache)
           (collaborators := Doubles.collaboratorsOf 17 (mkModule []))
           Doubles.commandLine 37
           (mkShaderModuleBuildInfo Doubles.shaderBinary true
              (Some Doubles.allocAt4096))
           (mkShaderOut None) (mkShaderOut (Some 4096)) Success Doubles.emptyWorld
           (Samples.stateAfter
              (BuildShaderModule (shaderCache := Doubles.mapCache)
                 (collaborators := Doubles.collaboratorsOf 17 (mkModule []))
                 Doubles.commandLine 37
                 (mkShaderModuleBuildInfo Doubles.shaderBinary true
                    (Some Doubles.allocAt4096))
                 (mkShaderOut None))
              Doubles.emptyWorld)
           40 40
           (<[40 := Doubles.mkCacheEntry Compiling BinaryData_empty true]> ∅)).
  - vm_compute. reflexivity.
  - vm_compute. reflexivity.
  - vm_compute. reflexivity.
Defined.

(** The fragment image merged into the non-fragment image with a
    placeholder. *)
Lemma mergeInWriter_keeps_sections_and_symbol_names_witness :
  length [mkElfSection ".text" "VSCOFRAGCODE" 12] =
    length (sections Doubles.nonFragmentImagePlaceholder) /\
  (length (symbols Doubles.nonFragmentImagePlaceholder) <=
   length [mkElfSymbol "_amdgpu_vs_main" 0 None 0 6;
           mkElfSymbol "_amdgpu_ps_main" 0 None 4 8;
           mkElfSymbol "after" 0xFFFFFFFF None 5 1])%nat /\
  forall q sym, symbols Doubles.nonFragmentImagePlaceholder !! q = Some sym ->
    exists sym',
      [mkElfSymbol "_amdgpu_vs_main" 0 None 0 6;
       mkElfSymbol "_amdgpu_ps_main" 0 None 4 8;
       mkElfSymbol "after" 0xFFFFFFFF None 5 1] !! q = Some sym' /\
      pSymName sym' = pSymName sym.
Proof.
  apply (mergeInWriter_keeps_sections_and_symbol_names (elfLibrary := Doubles.elfLibrary)
           (mkContext true 17 None) Doubles.fragmentImage Doubles.nonFragmentImagePlaceholder
           (mkElfImage [mkElfSection ".text" "VSCOFRAGCODE" 12]
              [mkElfSymbol "_amdgpu_vs_main" 0 None 0 6;
               mkElfSymbol "_amdgpu_ps_main" 0 None 4 8;
               mkElfSymbol "after" 0xFFFFFFFF None 5 1]
              (Some "vs-metadataps-metadata"%string))
           4 (Some (mkElfSymbol "_amdgpu_ps_main" 0 None 0 8))).
  vm_compute. reflexivity.
Defined.
